(** * CocaMd2JSON: the enrichment pipeline of App.tsx

    A shallow embedding of the vocabulary pipeline of the extension's
    [App.tsx]: the helpers [getDeep], [parseMarkdownFile] and
    [formatTranslation], the run loop [processFiles] with its window of five
    concurrent lookups, and the three exports.  The first half of the file
    models the part of the JavaScript platform the program calls (strings of
    UTF-16 code units, numbers, JSON values, regular expressions,
    [JSON.parse]); the second half is the program; the theorems follow. *)

From Stdlib Require Import List ZArith NArith PArith QArith Qround Bool Lia String Ascii.
Import ListNotations.
Close Scope Q_scope.

Set Implicit Arguments.
Set Warnings "-register-all".

(* ================================================================== *)
(** * Part I: the platform *)
(* ================================================================== *)

(** ** Strings

    A JavaScript string is a sequence of UTF-16 code units. *)

Definition jstring := list N.

(** [str] reads an ASCII literal as a JavaScript string. *)
Definition str (s : string) : jstring :=
  List.map N_of_ascii (list_ascii_of_string s).

Fixpoint jstring_eqb (a b : jstring) : bool :=
  match a, b with
  | [], [] => true
  | x :: a', y :: b' => N.eqb x y && jstring_eqb a' b'
  | _, _ => false
  end.

Definition chr (s : string) : N :=
  match s with
  | String a _ => N_of_ascii a
  | EmptyString => 0%N
  end.

(** WhiteSpace and LineTerminator code points: what [trim] strips and what
    the class [\s] matches. *)
Definition is_space (c : N) : bool :=
  ((9 <=? c) && (c <=? 13) || (c =? 32) || (c =? 160) || (c =? 5760)
   || (8192 <=? c) && (c <=? 8202) || (c =? 8232) || (c =? 8233)
   || (c =? 8239) || (c =? 8287) || (c =? 12288) || (c =? 65279))%N.

(** LineTerminator: what the class [.] does not match. *)
Definition is_line_terminator (c : N) : bool :=
  ((c =? 10) || (c =? 13) || (c =? 8232) || (c =? 8233))%N.

Definition is_digit (c : N) : bool := ((48 <=? c) && (c <=? 57))%N.
Definition is_lower (c : N) : bool := ((97 <=? c) && (c <=? 122))%N.

Fixpoint drop_while (p : N -> bool) (s : jstring) : jstring :=
  match s with
  | c :: s' => if p c then drop_while p s' else s
  | [] => []
  end.

(** String.prototype.trim *)
Definition trim (s : jstring) : jstring :=
  rev (drop_while is_space (rev (drop_while is_space s))).

(** String.prototype.startsWith *)
Fixpoint startsWith (s pre : jstring) : bool :=
  match pre, s with
  | [], _ => true
  | p :: pre', c :: s' => N.eqb p c && startsWith s' pre'
  | _ :: _, [] => false
  end.

(** String.prototype.endsWith *)
Definition endsWith (s suf : jstring) : bool := startsWith (rev s) (rev suf).

(** String.prototype.includes *)
Fixpoint includes (s sub : jstring) : bool :=
  startsWith s sub ||
  match s with
  | _ :: s' => includes s' sub
  | [] => false
  end.

(** String.prototype.split with a one-unit separator: the pieces between
    the occurrences of [sep], the empty ones included. *)
Fixpoint split_on (sep : N) (s : jstring) : list jstring :=
  match s with
  | [] => [[]]
  | c :: s' =>
      if N.eqb c sep then [] :: split_on sep s'
      else match split_on sep s' with
           | piece :: pieces => (c :: piece) :: pieces
           | [] => [[c]]
           end
  end.

(** String.prototype.replace with a one-unit string pattern and an empty
    replacement: the first occurrence goes. *)
Fixpoint remove_first (c : N) (s : jstring) : jstring :=
  match s with
  | [] => []
  | x :: s' => if N.eqb x c then s' else x :: remove_first c s'
  end.

(** ** Numbers

    A Number is an IEEE double.  [Fin neg m e] stands for
    [(-1)^neg * m * 2^e]; the mantissa is kept odd, so that a value has one
    representation. *)

Inductive num :=
| NaN
| Inf (neg : bool)
| Zero (neg : bool)
| Fin (neg : bool) (m : positive) (e : Z).

Definition num_eqb (a b : num) : bool :=
  match a, b with
  | NaN, NaN => true
  | Inf s, Inf t => Bool.eqb s t
  | Zero s, Zero t => Bool.eqb s t
  | Fin s m e, Fin t n f => Bool.eqb s t && Pos.eqb m n && Z.eqb e f
  | _, _ => false
  end.

Fixpoint canon (m : positive) (e : Z) : positive * Z :=
  match m with
  | xO m' => canon m' (e + 1)
  | _ => (m, e)
  end.

(** floor (log2 (p / q)) for positive [p], [q] *)
Definition ilog2_ratio (p q : Z) : Z :=
  let c := (Z.log2 p - Z.log2 q)%Z in
  if (if 0 <=? c then q * 2 ^ c <=? p else q <=? p * 2 ^ (- c))%Z
  then c else (c - 1)%Z.

(** The double nearest to the positive rational [p / q], ties to the even
    mantissa: 53 bits of mantissa, the smallest exponent -1074, infinity
    from 2^1024 on. *)
Definition round_ratio (neg : bool) (p q : Z) : num :=
  let l := ilog2_ratio p q in
  let e := Z.max (l - 52) (-1074) in
  let n := (if 0 <=? e then p else p * 2 ^ (- e))%Z in
  let d := (if 0 <=? e then q * 2 ^ e else q)%Z in
  let m := (n / d)%Z in
  let r := (n mod d)%Z in
  let m' := (if 2 * r <? d then m
             else if d <? 2 * r then m + 1
             else if Z.even m then m else m + 1)%Z in
  match m' with
  | Zpos pm =>
      if ((971 <=? e) && (2 ^ 1024 <=? m' * 2 ^ e))%Z then Inf neg
      else let '(cm, ce) := canon pm e in Fin neg cm ce
  | _ => Zero neg
  end.

(** The Number for the decimal [d * 10^x], [d >= 0]. *)
Definition num_of_decimal (neg : bool) (d : Z) (x : Z) : num :=
  if (d <=? 0)%Z then Zero neg
  else if (0 <=? x)%Z then round_ratio neg (d * 10 ^ x) 1
  else round_ratio neg d (10 ^ (- x)).

Definition num_of_Z (z : Z) : num :=
  num_of_decimal (z <? 0)%Z (Z.abs z) 0.

Definition num_of_nat (n : nat) : num := num_of_Z (Z.of_nat n).

(** *** Number::toString, radix 10 *)

Fixpoint digits_fuel (fuel : nat) (z : Z) (acc : jstring) : jstring :=
  match fuel with
  | O => acc
  | S f =>
      let acc' := (48 + Z.to_N (z mod 10))%N :: acc in
      if (z <? 10)%Z then acc' else digits_fuel f (z / 10) acc'
  end.

(** The decimal digits of a natural number. *)
Definition digits_of (z : Z) : jstring :=
  digits_fuel (S (Z.to_nat (Z.log2 z))) z [].

(** The value of [Fin _ m e] as a rational. *)
Definition Q_of_fin (m : positive) (e : Z) : Q :=
  (inject_Z (Zpos m) * Qpower 2 e)%Q.

Definition Qpow10 (x : Z) : Q := Qpower 10 x.

(** The decimal exponent [n] with [10^(n-1) <= v < 10^n]; [fuel] bounds the
    search in each direction. *)
Fixpoint dec_exp_up (fuel : nat) (v : Q) (n : Z) : Z :=
  match fuel with
  | O => n
  | S f => if Qle_bool (Qpow10 n) v then dec_exp_up f v (n + 1) else n
  end.

Fixpoint dec_exp_down (fuel : nat) (v : Q) (n : Z) : Z :=
  match fuel with
  | O => n
  | S f => if Qle_bool (Qpow10 (n - 1)) v then n else dec_exp_down f v (n - 1)
  end.

Definition dec_exp (m : positive) (e : Z) : Z :=
  let v := Q_of_fin m e in
  let fuel := S (Z.to_nat (Z.log2 (Zpos m) + Z.abs e)) in
  if Qle_bool 1 v then dec_exp_up fuel v 1 else dec_exp_down fuel v 0.

Definition Qabs_diff (a b : Q) : Q := if Qle_bool a b then (b - a)%Q else (a - b)%Q.

Definition Qlt_bool (a b : Q) : bool := negb (Qle_bool b a).

(** The interval of the reals that round to the double [m * 2^e]: half
    way to each neighbour, the ends included when the 53-bit mantissa is
    even. *)
Definition rounds_to (m : positive) (e : Z) (x : Q) : bool :=
  let v := Q_of_fin m e in
  let l := (Z.log2 (Zpos m) + e)%Z in
  let E := Z.max (l - 52) (-1074) in
  let power_of_two := Pos.eqb m 1 in
  let up := (Qpower 2 E / 2)%Q in
  let down := (if power_of_two && (-1074 <? E)%Z then Qpower 2 E / 4 else Qpower 2 E / 2)%Q in
  let inclusive := (E <? e)%Z in
  if inclusive
  then Qle_bool (v - down) x && Qle_bool x (v + up)
  else Qlt_bool (v - down) x && Qlt_bool x (v + up).

(** The shortest digit string: the least [k] for which some [s] of [k]
    digits has [s * 10^(n-k)] round to the number; of two such [s] the
    nearer, and the even one at equal distance.  The result is [(s, n)]. *)
Fixpoint shortest (fuel : nat) (k : Z) (m : positive) (e : Z) (n : Z) : Z * Z :=
  let v := Q_of_fin m e in
  let scale := Qpow10 (n - k) in
  let t := (v / scale)%Q in
  let lo := Qfloor t in
  let hi := (lo + 1)%Z in
  let ok_lo := rounds_to m e (inject_Z lo * scale) in
  let ok_hi := rounds_to m e (inject_Z hi * scale) in
  let pick_hi :=
    if (hi =? 10 ^ k)%Z then (10 ^ (k - 1), n + 1)%Z else (hi, n) in
  match fuel with
  | O => (lo, n)
  | S f =>
      if ok_lo && ok_hi then
        let dlo := Qabs_diff v (inject_Z lo * scale) in
        let dhi := Qabs_diff v (inject_Z hi * scale) in
        if Qlt_bool dlo dhi then (lo, n)
        else if Qlt_bool dhi dlo then pick_hi
        else if Z.even lo then (lo, n) else pick_hi
      else if ok_lo then (lo, n)
      else if ok_hi then pick_hi
      else shortest f (k + 1) m e n
  end.

Fixpoint zeros (n : nat) : jstring :=
  match n with O => [] | S n' => 48%N :: zeros n' end.

Definition format_decimal (s n : Z) : jstring :=
  let ds := digits_of s in
  let k := Z.of_nat (List.length ds) in
  let exponent x :=
    (101%N :: (if (0 <=? x)%Z then 43%N else 45%N) :: digits_of (Z.abs x)) in
  if ((k <=? n) && (n <=? 21))%Z then ds ++ zeros (Z.to_nat (n - k))
  else if ((0 <? n) && (n <=? 21))%Z then
    firstn (Z.to_nat n) ds ++ 46%N :: skipn (Z.to_nat n) ds
  else if ((-6 <? n) && (n <=? 0))%Z then
    48%N :: 46%N :: zeros (Z.to_nat (- n)) ++ ds
  else if (k =? 1)%Z then ds ++ exponent (n - 1)%Z
  else firstn 1 ds ++ 46%N :: skipn 1 ds ++ exponent (n - 1)%Z.

Definition Number_toString (x : num) : jstring :=
  match x with
  | NaN => str "NaN"
  | Inf false => str "Infinity"
  | Inf true => str "-Infinity"
  | Zero _ => str "0"
  | Fin neg m e =>
      let '(s, n) := shortest 17 1 m e (dec_exp m e) in
      (if neg then [45%N] else []) ++ format_decimal s n
  end.

(** *** StringToNumber: what [Number(s)] gives for a string *)

Definition dec_value (ds : jstring) : Z :=
  fold_left (fun acc c => (acc * 10 + (Z.of_N c - 48))%Z) ds 0%Z.

Fixpoint take_while (p : N -> bool) (s : jstring) : jstring :=
  match s with
  | c :: s' => if p c then c :: take_while p s' else []
  | [] => []
  end.

Definition hex_digit (c : N) : option Z :=
  if is_digit c then Some (Z.of_N c - 48)%Z
  else if ((97 <=? c) && (c <=? 102))%N then Some (Z.of_N c - 87)%Z
  else if ((65 <=? c) && (c <=? 70))%N then Some (Z.of_N c - 55)%Z
  else None.

(** The digits of [s] in the given radix as a natural number, when [s] is
    not empty and holds nothing else. *)
Definition radix_value (radix : Z) (s : jstring) : option Z :=
  match s with
  | [] => None
  | _ =>
      fold_left
        (fun acc c =>
           match acc, hex_digit c with
           | Some a, Some d => if (d <? radix)%Z then Some (a * radix + d)%Z else None
           | _, _ => None
           end) s (Some 0%Z)
  end.

(** An exponent part: [e] or [E], an optional sign, digits to the end. *)
Definition exponent_part (s : jstring) : option Z :=
  match s with
  | [] => Some 0%Z
  | c :: r =>
      if ((c =? 101) || (c =? 69))%N then
        let '(neg, ds) :=
          match r with
          | 45%N :: r' => (true, r')
          | 43%N :: r' => (false, r')
          | _ => (false, r)
          end in
        match ds with
        | [] => None
        | _ => if forallb is_digit ds
               then Some (if neg then - dec_value ds else dec_value ds)%Z
               else None
        end
      else None
  end.

(** StrUnsignedDecimalLiteral *)
Definition unsigned_decimal (neg : bool) (s : jstring) : num :=
  if jstring_eqb s (str "Infinity") then Inf neg else
  let ip := take_while is_digit s in
  let r := skipn (List.length ip) s in
  let '(fp, r', dot) :=
    match r with
    | 46%N :: r1 =>
        let fp := take_while is_digit r1 in (fp, skipn (List.length fp) r1, true)
    | _ => ([], r, false)
    end in
  match ip, fp with
  | [], [] => NaN
  | _, _ =>
      match exponent_part r' with
      | Some x => num_of_decimal neg (dec_value (ip ++ fp)) (x - Z.of_nat (List.length fp))
      | None => NaN
      end
  end.

Definition Number (s : jstring) : num :=
  match trim s with
  | [] => Zero false
  | 45%N :: r => unsigned_decimal true r
  | 43%N :: r => unsigned_decimal false r
  | 48%N :: x :: r =>
      let radix :=
        if ((x =? 120) || (x =? 88))%N then Some 16%Z
        else if ((x =? 111) || (x =? 79))%N then Some 8%Z
        else if ((x =? 98) || (x =? 66))%N then Some 2%Z
        else None in
      match radix with
      | Some b => match radix_value b r with
                  | Some v => num_of_Z v
                  | None => NaN
                  end
      | None => unsigned_decimal false (trim s)
      end
  | t => unsigned_decimal false t
  end.

(** *** Arithmetic

    The sum and the quotient of two Numbers are the doubles nearest to the
    exact sum and quotient. *)

Definition signed (neg : bool) (z : Z) : Z := if neg then (- z)%Z else z.

(** The double nearest to [z * 2^g]; an exact zero is +0. *)
Definition num_of_scaled (z g : Z) : num :=
  if (z =? 0)%Z then Zero false
  else if (0 <=? g)%Z then round_ratio (z <? 0)%Z (Z.abs z * 2 ^ g) 1
  else round_ratio (z <? 0)%Z (Z.abs z) (2 ^ (- g)).

(** Number::add *)
Definition num_add (a b : num) : num :=
  match a, b with
  | NaN, _ | _, NaN => NaN
  | Inf s, Inf t => if Bool.eqb s t then a else NaN
  | Inf _, _ => a
  | _, Inf _ => b
  | Zero s, Zero t => Zero (s && t)
  | Zero _, Fin _ _ _ => b
  | Fin _ _ _, Zero _ => a
  | Fin s m e, Fin t n f =>
      let g := Z.min e f in
      num_of_scaled (signed s (Zpos m * 2 ^ (e - g)) + signed t (Zpos n * 2 ^ (f - g))) g
  end.

(** Number::divide *)
Definition num_div (a b : num) : num :=
  match a, b with
  | NaN, _ | _, NaN => NaN
  | Inf _, Inf _ => NaN
  | Inf s, Zero t | Inf s, Fin t _ _ => Inf (xorb s t)
  | Zero s, Inf t | Fin s _ _, Inf t => Zero (xorb s t)
  | Zero _, Zero _ => NaN
  | Zero s, Fin t _ _ => Zero (xorb s t)
  | Fin s _ _, Zero t => Inf (xorb s t)
  | Fin s m e, Fin t n f =>
      let g := Z.min e f in
      round_ratio (xorb s t) (Zpos m * 2 ^ (e - g)) (Zpos n * 2 ^ (f - g))
  end.

(** Number::lessThan, [a < b]: false when one of them is NaN. *)
Definition num_ltb (a b : num) : bool :=
  match a, b with
  | NaN, _ | _, NaN => false
  | Inf s, Inf t => s && negb t
  | Inf s, _ => s
  | _, Inf t => negb t
  | Zero _, Zero _ => false
  | Zero _, Fin t _ _ => negb t
  | Fin s _ _, Zero _ => s
  | Fin s m e, Fin t n f =>
      let g := Z.min e f in
      (signed s (Zpos m * 2 ^ (e - g)) <? signed t (Zpos n * 2 ^ (f - g)))%Z
  end.

(** Math.floor *)
Definition Math_floor (x : num) : num :=
  match x with
  | Fin neg m e =>
      if (0 <=? e)%Z then x
      else let z := (signed neg (Zpos m) / 2 ^ (- e))%Z in
           if (z =? 0)%Z then Zero false else num_of_Z z
  | _ => x
  end.

(** ToIntegerOrInfinity: NaN and the zeros give 0, a finite Number is
    truncated towards zero. *)
Inductive integer_or_infinity :=
| MinusInfinity
| Integer (z : Z)
| PlusInfinity.

Definition ToIntegerOrInfinity (x : num) : integer_or_infinity :=
  match x with
  | NaN | Zero _ => Integer 0
  | Inf neg => if neg then MinusInfinity else PlusInfinity
  | Fin neg m e =>
      Integer (if (0 <=? e)%Z then signed neg (Zpos m * 2 ^ e)
               else signed neg (Zpos m / 2 ^ (- e)))
  end.

(** ** Values

    What [res.json()] can give, and [undefined].  An object is the list of
    its own properties; every key occurs once. *)

Inductive value :=
| VUndefined
| VNull
| VBool (b : bool)
| VNum (n : num)
| VStr (s : jstring)
| VArr (items : list value)
| VObj (props : list (jstring * value)).

Inductive exn := TypeError | SyntaxError | NotReadableError.

(** A completion: a value, or an exception thrown. *)
Inductive result (A : Type) :=
| Normal (a : A)
| Throw (e : exn).
Arguments Normal {A} a.
Arguments Throw {A} e.

Definition bind {A B} (r : result A) (k : A -> result B) : result B :=
  match r with
  | Normal a => k a
  | Throw e => Throw e
  end.

Fixpoint lookup (key : jstring) (props : list (jstring * value)) : option value :=
  match props with
  | [] => None
  | (k, v) :: rest => if jstring_eqb k key then Some v else lookup key rest
  end.

(** CreateDataProperty: a key already there keeps its place and takes the new value. *)
Fixpoint set_prop (key : jstring) (v : value) (props : list (jstring * value))
  : list (jstring * value) :=
  match props with
  | [] => [(key, v)]
  | (k, w) :: rest =>
      if jstring_eqb k key then (k, v) :: rest else (k, w) :: set_prop key v rest
  end.

(** ToBoolean *)
Definition truthy (v : value) : bool :=
  match v with
  | VUndefined | VNull => false
  | VBool b => b
  | VNum NaN | VNum (Zero _) => false
  | VNum _ => true
  | VStr [] => false
  | VStr _ => true
  | VArr _ | VObj _ => true
  end.

(** [a || b] *)
Definition or_else (a b : value) : value := if truthy a then a else b.

Definition is_undefined (v : value) : bool :=
  match v with VUndefined => true | _ => false end.

Definition is_nullish (v : value) : bool :=
  match v with VUndefined | VNull => true | _ => false end.

(** A canonical numeric string below [bound]: how an index of an array or
    of a string is spelled as a property key. *)
Definition index_of_key (key : jstring) (bound : nat) : option nat :=
  match key with
  | [] => None
  | c :: rest =>
      if forallb is_digit key && (negb (N.eqb c 48) || match rest with [] => true | _ => false end)
      then let n := dec_value key in
           if (n <? Z.of_nat bound)%Z then Some (Z.to_nat n) else None
      else None
  end.

(** The property read [v[key]].  Only own properties are modelled: the
    elements and the length of an array and of a string, the members of an
    object; the members that the built-in prototypes would add are left
    out.  Reading a property of [null] or [undefined] throws. *)
Definition get (v : value) (key : jstring) : result value :=
  match v with
  | VUndefined | VNull => Throw TypeError
  | VBool _ | VNum _ => Normal VUndefined
  | VStr s =>
      match index_of_key key (List.length s) with
      | Some i => Normal (VStr (firstn 1 (skipn i s)))
      | None => if jstring_eqb key (str "length")
                then Normal (VNum (num_of_nat (List.length s)))
                else Normal VUndefined
      end
  | VArr items =>
      match index_of_key key (List.length items) with
      | Some i => Normal (nth i items VUndefined)
      | None => if jstring_eqb key (str "length")
                then Normal (VNum (num_of_nat (List.length items)))
                else Normal VUndefined
      end
  | VObj props =>
      Normal (match lookup key props with Some x => x | None => VUndefined end)
  end.

(** *** ToString and Array.prototype.join

    An object prints as [[object Object]], unless it has a member
    [toString] of its own: a member read from JSON is never a function, and
    the conversion throws. *)

Definition join_with (ts : value -> result jstring) (sep : jstring)
  : list value -> result jstring :=
  fix go (items : list value) : result jstring :=
    match items with
    | [] => Normal []
    | v :: rest =>
        bind (if is_nullish v then Normal [] else ts v) (fun s =>
        match rest with
        | [] => Normal s
        | _ => bind (go rest) (fun t => Normal (s ++ sep ++ t))
        end)
    end.

Fixpoint ToString (v : value) : result jstring :=
  match v with
  | VUndefined => Normal (str "undefined")
  | VNull => Normal (str "null")
  | VBool true => Normal (str "true")
  | VBool false => Normal (str "false")
  | VNum n => Normal (Number_toString n)
  | VStr s => Normal s
  | VArr items => join_with ToString [44%N] items
  | VObj props =>
      match lookup (str "toString") props with
      | Some _ => Throw TypeError
      | None => Normal (str "[object Object]")
      end
  end.

(** Array.prototype.join *)
Definition join (items : list value) (sep : jstring) : result jstring :=
  join_with ToString sep items.

(** ** Regular expressions

    The patterns of the program, matched by backtracking as the language
    defines it: alternatives left to right, the quantifiers greedy. *)

Inductive regex :=
| Eps
| Cls (p : N -> bool)          (* a class of code units *)
| Bol                          (* ^ *)
| Eol                          (* $ *)
| Seq (r1 r2 : regex)
| Alt (r1 r2 : regex)
| Star (r : regex)
| Grp (i : nat) (r : regex).   (* the i-th capturing group *)

Definition Lit (c : N) : regex := Cls (N.eqb c).
Definition Plus (r : regex) : regex := Seq r (Star r).

(** Where a match stands: the units before it, the units still to read and
    the groups captured so far. *)
Record mstate := {
  before : nat;
  rest : jstring;
  caps : list (nat * jstring)
}.

Definition cap (i : nat) (st : mstate) : jstring :=
  match find (fun c => Nat.eqb (fst c) i) st.(caps) with
  | Some c => snd c
  | None => []
  end.

Fixpoint rmatch (r : regex) (st : mstate) (k : mstate -> option mstate)
  : option mstate :=
  match r with
  | Eps => k st
  | Cls p =>
      match st.(rest) with
      | c :: s' =>
          if p c then k {| before := S st.(before); rest := s'; caps := st.(caps) |}
          else None
      | [] => None
      end
  | Bol => if Nat.eqb st.(before) 0 then k st else None
  | Eol => match st.(rest) with [] => k st | _ => None end
  | Seq a b => rmatch a st (fun st1 => rmatch b st1 k)
  | Alt a b =>
      match rmatch a st k with
      | Some st' => Some st'
      | None => rmatch b st k
      end
  | Star a =>
      (fix iterate (fuel : nat) (st0 : mstate) : option mstate :=
         match fuel with
         | O => k st0
         | S f =>
             match rmatch a st0 (fun st1 =>
                     if Nat.eqb st1.(before) st0.(before) then None
                     else iterate f st1) with
             | Some st' => Some st'
             | None => k st0
             end
         end) (S (List.length st.(rest))) st
  | Grp i a =>
      rmatch a st (fun st1 =>
        k {| before := st1.(before); rest := st1.(rest);
             caps := (i, firstn (st1.(before) - st.(before)) st.(rest))
                     :: st1.(caps) |})
  end.

(** A match that starts exactly where [st] stands. *)
Definition match_here (r : regex) (units_before : nat) (s : jstring)
  : option mstate :=
  rmatch r {| before := units_before; rest := s; caps := [] |} (fun st => Some st).

(** The leftmost match at or after the place [s] starts at: the units
    skipped to reach it, and the match. *)
Fixpoint search (r : regex) (units_before : nat) (s : jstring)
  : option (jstring * mstate) :=
  match match_here r units_before s with
  | Some st => Some ([], st)
  | None =>
      match s with
      | [] => None
      | c :: s' =>
          match search r (S units_before) s' with
          | Some (skipped, st) => Some (c :: skipped, st)
          | None => None
          end
      end
  end.

(** String.prototype.match with a pattern that has no [g] flag *)
Definition match_re (r : regex) (s : jstring) : option mstate :=
  match search r 0 s with
  | Some (_, st) => Some st
  | None => None
  end.

(** String.prototype.replace with a [g] pattern; [repl] builds the
    replacement from the match.  An empty match moves one unit on. *)
Fixpoint replace_g (fuel : nat) (r : regex) (repl : mstate -> jstring)
  (units_before : nat) (s : jstring) : jstring :=
  match fuel with
  | O => s
  | S f =>
      match search r units_before s with
      | None => s
      | Some (skipped, st) =>
          if Nat.eqb st.(before) (units_before + List.length skipped) then
            match st.(rest) with
            | [] => skipped ++ repl st
            | c :: s' => skipped ++ repl st ++ c :: replace_g f r repl (S st.(before)) s'
            end
          else skipped ++ repl st ++ replace_g f r repl st.(before) st.(rest)
      end
  end.

Definition replace_all (r : regex) (repl : mstate -> jstring) (s : jstring) : jstring :=
  replace_g (S (List.length s)) r repl 0 s.

(** The successive results of [exec] on a [g] pattern, as the loop
    [while ((match = re.exec(s)) !== null)] sees them.  The patterns of the
    program match no empty string. *)
Fixpoint exec_all (fuel : nat) (r : regex) (units_before : nat) (s : jstring)
  : list mstate :=
  match fuel with
  | O => []
  | S f =>
      match search r units_before s with
      | None => []
      | Some (_, st) => st :: exec_all f r st.(before) st.(rest)
      end
  end.

(** String.prototype.split with a pattern that matches no empty string and
    has no group: the pieces between the successive leftmost matches. *)
Fixpoint split_re (fuel : nat) (r : regex) (units_before : nat) (s : jstring)
  : list jstring :=
  match fuel with
  | O => [s]
  | S f =>
      match search r units_before s with
      | None => [s]
      | Some (skipped, st) => skipped :: split_re f r st.(before) st.(rest)
      end
  end.

(** ** JSON.parse *)

Definition json_ws (c : N) : bool :=
  ((c =? 9) || (c =? 10) || (c =? 13) || (c =? 32))%N.

Definition skip_ws (s : jstring) : jstring := drop_while json_ws s.

(** The units of a string literal after its opening quote, and what follows
    the closing one. *)
Fixpoint parse_string (s : jstring) (acc : jstring) : option (jstring * jstring) :=
  match s with
  | [] => None
  | c :: r =>
      if (c =? 34)%N then Some (rev acc, r)
      else if (c =? 92)%N then
        match r with
        | [] => None
        | e :: r1 =>
            if (e =? 34)%N then parse_string r1 (34%N :: acc)
            else if (e =? 92)%N then parse_string r1 (92%N :: acc)
            else if (e =? 47)%N then parse_string r1 (47%N :: acc)
            else if (e =? 98)%N then parse_string r1 (8%N :: acc)
            else if (e =? 102)%N then parse_string r1 (12%N :: acc)
            else if (e =? 110)%N then parse_string r1 (10%N :: acc)
            else if (e =? 114)%N then parse_string r1 (13%N :: acc)
            else if (e =? 116)%N then parse_string r1 (9%N :: acc)
            else if (e =? 117)%N then
              match r1 with
              | h1 :: h2 :: h3 :: h4 :: r2 =>
                  match hex_digit h1, hex_digit h2, hex_digit h3, hex_digit h4 with
                  | Some a, Some b, Some c', Some d =>
                      parse_string r2
                        (Z.to_N (((a * 16 + b) * 16 + c') * 16 + d) :: acc)
                  | _, _, _, _ => None
                  end
              | _ => None
              end
            else None
        end
      else if (c <? 32)%N then None
      else parse_string r (c :: acc)
  end.

(** A number literal at the head of [s], and what follows it. *)
Definition parse_number (s : jstring) : option (num * jstring) :=
  let '(neg, s0) := match s with 45%N :: r => (true, r) | _ => (false, s) end in
  let ip :=
    match s0 with
    | 48%N :: _ => [48%N]
    | _ => take_while is_digit s0
    end in
  match ip with
  | [] => None
  | _ =>
      let s1 := skipn (List.length ip) s0 in
      let frac :=
        match s1 with
        | 46%N :: r =>
            match take_while is_digit r with
            | [] => None
            | fp => Some (fp, skipn (List.length fp) r)
            end
        | _ => Some ([], s1)
        end in
      match frac with
      | None => None
      | Some (fp, s2) =>
          let expo :=
            match s2 with
            | c :: r =>
                if ((c =? 101) || (c =? 69))%N then
                  let '(eneg, r') :=
                    match r with
                    | 45%N :: r' => (true, r')
                    | 43%N :: r' => (false, r')
                    | _ => (false, r)
                    end in
                  match take_while is_digit r' with
                  | [] => None
                  | ds => Some ((if eneg then - dec_value ds else dec_value ds)%Z,
                                skipn (List.length ds) r')
                  end
                else Some (0%Z, s2)
            | [] => Some (0%Z, s2)
            end in
          match expo with
          | None => None
          | Some (x, s3) =>
              Some (num_of_decimal neg (dec_value (ip ++ fp))
                      (x - Z.of_nat (List.length fp)), s3)
          end
      end
  end.

(** What a parser gives: out of [fuel], a syntax error, or a value and the
    text after it. *)
Inductive parse_outcome :=
| NoFuel
| Bad
| Got (v : value) (r : jstring).

Fixpoint parse_value (fuel : nat) (s : jstring) : parse_outcome :=
  match fuel with
  | O => NoFuel
  | S f =>
      match skip_ws s with
      | [] => Bad
      | c :: r =>
          if (c =? 123)%N then
            match skip_ws r with
            | 125%N :: r' => Got (VObj []) r'
            | _ => parse_members f r []
            end
          else if (c =? 91)%N then
            match skip_ws r with
            | 93%N :: r' => Got (VArr []) r'
            | _ => parse_elements f r []
            end
          else if (c =? 34)%N then
            match parse_string r [] with
            | Some (t, r') => Got (VStr t) r'
            | None => Bad
            end
          else if startsWith (c :: r) (str "true") then Got (VBool true) (skipn 3 r)
          else if startsWith (c :: r) (str "false") then Got (VBool false) (skipn 4 r)
          else if startsWith (c :: r) (str "null") then Got VNull (skipn 3 r)
          else
            match parse_number (c :: r) with
            | Some (n, r') => Got (VNum n) r'
            | None => Bad
            end
      end
  end
with parse_elements (fuel : nat) (s : jstring) (acc : list value) : parse_outcome :=
  match fuel with
  | O => NoFuel
  | S f =>
      match parse_value f s with
      | Got v r =>
          match skip_ws r with
          | 44%N :: r' => parse_elements f r' (v :: acc)
          | 93%N :: r' => Got (VArr (rev (v :: acc))) r'
          | _ => Bad
          end
      | other => other
      end
  end
with parse_members (fuel : nat) (s : jstring) (acc : list (jstring * value)) : parse_outcome :=
  match fuel with
  | O => NoFuel
  | S f =>
      match skip_ws s with
      | 34%N :: r =>
          match parse_string r [] with
          | Some (key, r1) =>
              match skip_ws r1 with
              | 58%N :: r2 =>
                  match parse_value f r2 with
                  | Got v r3 =>
                      match skip_ws r3 with
                      | 44%N :: r4 => parse_members f r4 (set_prop key v acc)
                      | 125%N :: r4 => Got (VObj (set_prop key v acc)) r4
                      | _ => Bad
                      end
                  | other => other
                  end
              | _ => Bad
              end
          | None => Bad
          end
      | _ => Bad
      end
  end.

(** JSON.parse: the whole text is one value between white space, or a
    SyntaxError is thrown.  Every call of the parser reads at least one unit
    of the text or follows one that did, so twice its length is fuel
    enough. *)
Definition JSON_parse (s : jstring) : result value :=
  match parse_value (2 * List.length s + 2) s with
  | Got v r => match skip_ws r with [] => Normal v | _ => Throw SyntaxError end
  | _ => Throw SyntaxError
  end.

(** ** encodeURIComponent

    The units A-Z a-z 0-9 - _ . ! ~ * ' ( ) stay; any other code point is
    written as the octets of its UTF-8 form, each as a percent sign and
    two upper-case hexadecimal digits.  A surrogate without its pair makes
    the function throw a URIError: [None]. *)

Definition uri_unreserved (c : N) : bool :=
  ((48 <=? c) && (c <=? 57) || (65 <=? c) && (c <=? 90) || (97 <=? c) && (c <=? 122)
   || (c =? 45) || (c =? 95) || (c =? 46) || (c =? 33) || (c =? 126) || (c =? 42)
   || (c =? 39) || (c =? 40) || (c =? 41))%N.

Definition hex_upper (d : N) : N := (if d <? 10 then 48 + d else 55 + d)%N.

Definition percent (octet : N) : jstring :=
  [chr "%"; hex_upper (octet / 16); hex_upper (octet mod 16)].

Definition utf8 (cp : N) : list N :=
  (if cp <? 128 then [cp]
   else if cp <? 2048 then [192 + cp / 64; 128 + cp mod 64]
   else if cp <? 65536 then [224 + cp / 4096; 128 + (cp / 64) mod 64; 128 + cp mod 64]
   else [240 + cp / 262144; 128 + (cp / 4096) mod 64; 128 + (cp / 64) mod 64;
         128 + cp mod 64])%N.

Definition is_leading_surrogate (c : N) : bool := ((55296 <=? c) && (c <=? 56319))%N.
Definition is_trailing_surrogate (c : N) : bool := ((56320 <=? c) && (c <=? 57343))%N.

Definition escape (cp : N) : jstring := flat_map percent (utf8 cp).

Fixpoint encodeURIComponent (s : jstring) : option jstring :=
  match s with
  | [] => Some []
  | c :: r =>
      if uri_unreserved c then option_map (cons c) (encodeURIComponent r)
      else if is_trailing_surrogate c then None
      else if is_leading_surrogate c then
        match r with
        | c2 :: r2 =>
            if is_trailing_surrogate c2
            then option_map
                   (app (escape ((c - 55296) * 1024 + (c2 - 56320) + 65536)%N))
                   (encodeURIComponent r2)
            else None
        | [] => None
        end
      else option_map (app (escape c)) (encodeURIComponent r)
  end.

(* ================================================================== *)
(** * Part II: the program *)
(* ================================================================== *)

(** ** Types *)

(** An element of [WordEntry.definitions]. *)
Record Sense := {
  pos : jstring;
  trans : jstring
}.

Record WordEntry := {
  rank : jstring;
  word : jstring;
  definitions : list Sense;
  rawTrans : jstring
}.

Record Video := {
  cover : value;
  title : value;
  url : value
}.

(** The interface gives the fields read from the response the types
    [string] and [string[]]; they hold whatever [getDeep] returned. *)
Record ProcessedWord := {
  text : jstring;
  translation : jstring;
  phoneticUs : value;
  phoneticUk : value;
  partOfSpeech : jstring;
  inflections : value;
  tags : value;
  cocaRank : num;
  image : value;
  video : Video
}.

Record FileResult := {
  fileName : jstring;
  data : list ProcessedWord
}.

(** ** getDeep *)

(** /\[(\d+)\]/g *)
Definition index_pattern : regex :=
  Seq (Lit (chr "[")) (Seq (Grp 1 (Plus (Cls is_digit))) (Lit (chr "]"))).

(** path.replace(/\[(\d+)\]/g, ".$1").split(".") *)
Definition path_keys (path : jstring) : list jstring :=
  split_on (chr ".") (replace_all index_pattern (fun m => chr "." :: cap 1 m) path).

(** The loop over the keys and the return after it. *)
Fixpoint getDeep_walk (keys : list jstring) (current defaultValue : value)
  : result value :=
  match keys with
  | [] => Normal (if is_undefined current then defaultValue else current)
  | key :: keys' =>
      if is_nullish current then Normal defaultValue
      else bind (get current key) (fun next => getDeep_walk keys' next defaultValue)
  end.

(** The parameter [defaultValue = ""]: an argument left out, or
    [undefined], is the empty string. *)
Definition default_param (arg : value) : value :=
  if is_undefined arg then VStr [] else arg.

Definition getDeep (obj : value) (path : jstring) (arg : value) : result value :=
  let defaultValue := default_param arg in
  if negb (truthy obj) then Normal defaultValue
  else getDeep_walk (path_keys path) obj defaultValue.

(** ** parseMarkdownFile *)

(** /\n\s*\n/ *)
Definition blank_lines : regex :=
  Seq (Lit 10) (Seq (Star (Cls is_space)) (Lit 10)).

(** /^(\d+)\s+(.+)$/ *)
Definition title_pattern : regex :=
  Seq Bol (Seq (Grp 1 (Plus (Cls is_digit)))
          (Seq (Plus (Cls is_space))
          (Seq (Grp 2 (Plus (Cls (fun c => negb (is_line_terminator c))))) Eol))).

(** /([a-z]+\.)\s*(\[[^\]]+\])/g *)
Definition posRegex : regex :=
  Seq (Grp 1 (Seq (Plus (Cls is_lower)) (Lit (chr "."))))
  (Seq (Star (Cls is_space))
       (Grp 2 (Seq (Lit (chr "["))
              (Seq (Plus (Cls (fun c => negb (N.eqb c (chr "]"))))) (Lit (chr "]")))))).

Definition quote : N := 34.

Definition is_defLine (l : jstring) : bool :=
  includes l [chr "["; quote] &&
  (includes l (str "n.") || includes l (str "adj.") || includes l (str "v.")
   || includes l (str "adv.") || includes l (str "prep.") || includes l (str "conj.")).

Definition nonempty (s : jstring) : bool :=
  match s with [] => false | _ => true end.

(** The body of the loop over the blocks: the entry of a block, when it
    has one. *)
Definition parse_block (block : jstring) : option WordEntry :=
  let lines := filter nonempty (List.map trim (split_on 10 block)) in
  if (List.length lines <? 2)%nat then None
  else
    match match_re title_pattern (hd [] lines) with
    | None => None
    | Some titleMatch =>
        let defLine := find is_defLine lines in
        let definitions :=
          match defLine with
          | None => []
          | Some l =>
              let found :=
                List.map (fun m => {| pos := remove_first (chr ".") (cap 1 m);
                                      trans := cap 2 m |})
                         (exec_all (S (List.length l)) posRegex 0 l) in
              match found with
              | [] => if startsWith l (str "[")
                      then [{| pos := str "misc"; trans := l |}]
                      else []
              | _ => found
              end
          end in
        Some {| rank := cap 1 titleMatch;
                word := cap 2 titleMatch;
                definitions := definitions;
                rawTrans := match defLine with Some l => l | None => [] end |}
    end.

Definition parseMarkdownFile (content : jstring) : list WordEntry :=
  let blocks := split_re (S (List.length content)) blank_lines 0 content in
  flat_map (fun block => match parse_block block with
                         | Some entry => [entry]
                         | None => []
                         end) blocks.

(** ** fetchWordData

    What the network does with a request: the fetch rejects, or a response
    comes, with its status and the text of its body. *)
Inductive Fetched :=
| Rejected
| Response (ok : bool) (body : jstring).

Definition jsonapi : jstring := str "https://dict.youdao.com/jsonapi?q=".

(** Whatever is thrown in the try block, the URIError of the escaping
    included, is caught, and [null] returned. *)
Definition fetchWordData (fetch : jstring -> Fetched) (word : jstring) : value :=
  match encodeURIComponent word with
  | None => VNull
  | Some q =>
      match fetch (jsonapi ++ q) with
      | Rejected => VNull
      | Response ok body =>
          if ok then
            match JSON_parse body with
            | Normal v => v
            | Throw _ => VNull
            end
          else VNull
      end
  end.

(** ** formatTranslation *)

(** /^\[|\]$/g *)
Definition outer_brackets : regex :=
  Alt (Seq Bol (Lit (chr "["))) (Seq (Lit (chr "]")) Eol).

(** The catch branch. *)
Definition strip_translation (raw : jstring) : jstring :=
  trim (replace_all (Lit quote) (fun _ => [])
          (replace_all outer_brackets (fun _ => []) raw)).

(** The separator of the join, the full-width semicolon U+FF1B. *)
Definition semicolon : jstring := [65307%N].

Definition formatTranslation (raw : jstring) : jstring :=
  match raw with
  | [] => []
  | _ =>
      let attempt :=
        bind (JSON_parse raw) (fun parsed =>
          match parsed with
          | VArr items => join items semicolon
          | _ => ToString parsed
          end) in
      match attempt with
      | Normal s => s
      | Throw _ => strip_translation raw
      end
  end.

(** ** The records of an entry *)

(** entry.definitions.length > 0 ? entry.definitions
      : [{ pos: "unknown", trans: entry.rawTrans }] *)
Definition definitionLoop (entry : WordEntry) : list Sense :=
  match entry.(definitions) with
  | [] => [{| pos := str "unknown"; trans := entry.(rawTrans) |}]
  | ds => ds
  end.

(** The object literal built for one definition; the reads of the response
    come in the order of the source. *)
Definition processed (entry : WordEntry) (apiData : value) (def : Sense)
  : result ProcessedWord :=
  let text' := entry.(word) in
  let translation' := formatTranslation def.(trans) in
  let partOfSpeech' := def.(pos) in
  let cocaRank' := Number entry.(rank) in
  bind (getDeep apiData (str "ec.word[0].usphone") VUndefined) (fun phoneticUs' =>
  bind (getDeep apiData (str "ec.word[0].ukphone") VUndefined) (fun phoneticUk' =>
  bind (getDeep apiData (str "collins_primary.words.indexforms") (VArr [])) (fun infl =>
  bind (getDeep apiData (str "ec.exam_type") (VArr [])) (fun tgs =>
  bind (getDeep apiData (str "pic_dict.pic[0].image") VUndefined) (fun image' =>
  bind (getDeep apiData (str "word_video.word_videos[0].video.cover") VUndefined) (fun cover' =>
  bind (getDeep apiData (str "word_video.word_videos[0].video.title") VUndefined) (fun title' =>
  bind (getDeep apiData (str "word_video.word_videos[0].video.url") VUndefined) (fun url' =>
  Normal {| text := text';
            translation := translation';
            phoneticUs := phoneticUs';
            phoneticUk := phoneticUk';
            partOfSpeech := partOfSpeech';
            inflections := or_else infl (VArr []);
            tags := or_else tgs (VArr []);
            cocaRank := cocaRank';
            image := image';
            video := {| cover := cover'; title := title'; url := url' |} |})))))))).

(** definitionLoop.forEach(def => { ...; fileProcessedWords.push(processed) }):
    the records the loop pushes, in its order. *)
Fixpoint forEach_definition (entry : WordEntry) (apiData : value) (defs : list Sense)
  : result (list ProcessedWord) :=
  match defs with
  | [] => Normal []
  | def :: defs' =>
      bind (processed entry apiData def) (fun p =>
      bind (forEach_definition entry apiData defs') (fun ps => Normal (p :: ps)))
  end.

Definition entry_records (entry : WordEntry) (apiData : value)
  : result (list ProcessedWord) :=
  forEach_definition entry apiData (definitionLoop entry).

(** ** The component and the run *)

(** A file of the input.  [file.text()] settles with [content] when the
    browser can read the file, and rejects when it cannot (the file has
    gone, or may not be read). *)
Record File := {
  name : jstring;
  content : jstring;
  readable : bool
}.

(** A line of the log, kept as the event it reports. *)
Inductive LogType := info | success | error.

Inductive Message :=
| MsgParsing                              (* 开始解析文件... *)
| MsgFile (fileName : jstring) (n : nat)  (* 正在处理文件: ... (共 n 个单词) *)
| MsgSuccess (word : jstring)             (* [成功] word *)
| MsgWarning (word : jstring)             (* [警告] word 数据可能不完整 *)
| MsgFileDone (fileName : jstring)        (* 文件 ... 处理结束。 *)
| MsgAllDone                              (* 所有任务已完成！ *)
| MsgPaused                               (* 任务已暂停等待... *)
| MsgResumed                              (* 任务继续执行 *)
| MsgStopRequested                        (* 正在请求停止任务... *)
| MsgStopped.                             (* 用户已停止任务。 *)

Record Progress := {
  current : nat;
  total : nat;
  currentWord : jstring
}.

(** The refs and the state of the component.  [abortRef] is the ref that
    stops the loops: App.tsx calls it [stopProcessingRef]. *)
Record App := {
  abortRef : bool;
  pausedRef : bool;
  files : list File;
  processing : bool;
  paused : bool;
  progress : Progress;
  results : list FileResult;
  logs : list (Message * LogType)
}.

(** The variables of one call of [processFiles]. *)
Record Locals := {
  allResults : list FileResult;
  totalWords : nat;
  globalProcessedCount : nat;
  fileProcessedWords : list ProcessedWord
}.

Record Run := {
  component : App;
  locals : Locals
}.

Definition set_abortRef (b : bool) (a : App) : App :=
  {| abortRef := b; pausedRef := a.(pausedRef); files := a.(files);
     processing := a.(processing); paused := a.(paused); progress := a.(progress);
     results := a.(results); logs := a.(logs) |}.

Definition set_pausedRef (b : bool) (a : App) : App :=
  {| abortRef := a.(abortRef); pausedRef := b; files := a.(files);
     processing := a.(processing); paused := a.(paused); progress := a.(progress);
     results := a.(results); logs := a.(logs) |}.

Definition setFiles (fs : list File) (a : App) : App :=
  {| abortRef := a.(abortRef); pausedRef := a.(pausedRef); files := fs;
     processing := a.(processing); paused := a.(paused); progress := a.(progress);
     results := a.(results); logs := a.(logs) |}.

Definition setProcessing (b : bool) (a : App) : App :=
  {| abortRef := a.(abortRef); pausedRef := a.(pausedRef); files := a.(files);
     processing := b; paused := a.(paused); progress := a.(progress);
     results := a.(results); logs := a.(logs) |}.

Definition setPaused (b : bool) (a : App) : App :=
  {| abortRef := a.(abortRef); pausedRef := a.(pausedRef); files := a.(files);
     processing := a.(processing); paused := b; progress := a.(progress);
     results := a.(results); logs := a.(logs) |}.

Definition setProgress (f : Progress -> Progress) (a : App) : App :=
  {| abortRef := a.(abortRef); pausedRef := a.(pausedRef); files := a.(files);
     processing := a.(processing); paused := a.(paused); progress := f a.(progress);
     results := a.(results); logs := a.(logs) |}.

Definition setResults (rs : list FileResult) (a : App) : App :=
  {| abortRef := a.(abortRef); pausedRef := a.(pausedRef); files := a.(files);
     processing := a.(processing); paused := a.(paused); progress := a.(progress);
     results := rs; logs := a.(logs) |}.

Definition setLogs (f : list (Message * LogType) -> list (Message * LogType)) (a : App) : App :=
  {| abortRef := a.(abortRef); pausedRef := a.(pausedRef); files := a.(files);
     processing := a.(processing); paused := a.(paused); progress := a.(progress);
     results := a.(results); logs := f a.(logs) |}.

(** Array.prototype.slice(-n): the last [n] elements. *)
Definition last_n {A} (n : nat) (l : list A) : list A :=
  skipn (List.length l - n) l.

(** setLogs((prev) => [...prev, {msg, type}].slice(-200)) *)
Definition addLog (msg : Message) (type : LogType) (a : App) : App :=
  setLogs (fun prev => last_n 200 (prev ++ [(msg, type)])) a.

(** *** The handlers that write the refs and the state a run reads *)

Definition togglePause (a : App) : App :=
  let newVal := negb a.(pausedRef) in
  addLog (if newVal then MsgPaused else MsgResumed) info
    (setPaused newVal (set_pausedRef newVal a)).

Definition resetAll (a : App) : App :=
  setProgress (fun _ => {| current := 0; total := 0; currentWord := [] |})
    (setPaused false (setProcessing false (setLogs (fun _ => [])
      (setResults [] (setFiles [] (set_pausedRef false (set_abortRef true a))))))).

(** App.tsx has a stop button instead. *)
Definition handleStop (a : App) : App :=
  addLog MsgStopRequested error (set_abortRef true a).

(** *** handleFileUpload

    The handler of the file input and of the drop zone, for the files the
    event carries.  The drop zone is on the page while a run is under
    way. *)
Definition handleFileUpload (selectedFiles : list File) (a : App) : App :=
  match selectedFiles with
  | [] => a
  | _ =>
      set_abortRef false (set_pausedRef false (setPaused false
        (setProgress (fun _ => {| current := 0; total := 0; currentWord := [] |})
          (setLogs (fun _ => []) (setResults [] (setFiles selectedFiles a))))))
  end.

(** What the page of part_000 lets a user do while [processing] is set:
    the pause button and the drop zone.  The buttons of [resetAll] are on
    the page only while [processing] is not set. *)
Inductive Action :=
| TogglePause
| Upload (selectedFiles : list File).

Definition handle (act : Action) (a : App) : App :=
  match act with
  | TogglePause => togglePause a
  | Upload selectedFiles => handleFileUpload selectedFiles a
  end.

(** *** What the run does not decide

    While [processFiles] waits, the user acts and the lookups settle, in
    an order of their own.  An environment fixes these choices:
    - at the await of the parsing, the actions of the user;
    - for the window that starts at entry [i] of file [k]: the actions
      during each 200 ms sleep of the pause loop, and the lookups as they
      settle, each with the actions that came before it, its place among
      the lookups still in flight, and what [fetchWordData] returned
      ([null] for a failed lookup). *)

Record Settled (A : Type) := {
  earlier : list A;
  which : nat;
  apiData : value
}.

Record Window (A : Type) := {
  sleeps : list (list A);
  settled : list (Settled A)
}.

Record Environment (A : Type) := {
  while_parsing : list A;
  window : nat -> nat -> Window A
}.

(** How a run ends: it returns, it throws, or it waits for ever (the
    pause is never lifted, a lookup never settles). *)
Inductive outcome :=
| Returns (r : Run)
| Raises (e : exn)
| Waits.

Definition on_app (f : App -> App) (r : Run) : Run :=
  {| component := f r.(component); locals := r.(locals) |}.

Definition on_locals (f : Locals -> Locals) (r : Run) : Run :=
  {| component := r.(component); locals := f r.(locals) |}.

Definition CONCURRENCY : nat := 5.

(** Array.prototype.slice(i, j) for 0 <= i <= j *)
Definition slice {A} (l : list A) (i j : nat) : list A :=
  firstn (j - i) (skipn i l).

Fixpoint remove_nth {A} (n : nat) (l : list A) : list A :=
  match n, l with
  | _, [] => []
  | O, _ :: l' => l'
  | S n', x :: l' => x :: remove_nth n' l'
  end.

(** What a task does once its lookup has settled: the line of the log,
    the records, the counter. *)
Definition after_fetch (entry : WordEntry) (apiData : value) (r : Run) : result Run :=
  bind (getDeep apiData (str "ec.word[0].usphone") VUndefined) (fun us =>
  bind (if truthy us then Normal true
        else bind (getDeep apiData (str "translation") VUndefined)
                  (fun t => Normal (truthy t))) (fun ok =>
  let r1 := on_app (if ok : bool
                    then addLog (MsgSuccess entry.(word)) success
                    else addLog (MsgWarning entry.(word)) error) r in
  bind (entry_records entry apiData) (fun records =>
  let count := S r1.(locals).(globalProcessedCount) in
  let r2 := on_locals (fun l =>
              {| allResults := l.(allResults);
                 totalWords := l.(totalWords);
                 globalProcessedCount := count;
                 fileProcessedWords := l.(fileProcessedWords) ++ records |}) r1 in
  Normal (on_app (setProgress (fun p =>
            {| current := count; total := p.(total);
               currentWord := p.(currentWord) |})) r2)))).

Section Loops.

Variable A : Type.
Variable handler : A -> App -> App.

Definition user (acts : list A) (r : Run) : Run :=
  on_app (fun a => fold_left (fun a act => handler act a) acts a) r.

(** while (pausedRef.current) { if (abortRef.current) break; await sleep(200) } *)
Fixpoint pause_loop (sleeps : list (list A)) (r : Run) : outcome :=
  if r.(component).(pausedRef) then
    if r.(component).(abortRef) then Returns r
    else match sleeps with
         | [] => Waits
         | acts :: sleeps' => pause_loop sleeps' (user acts r)
         end
  else Returns r.

(** The part of a task before its await, for the entries of the chunk in
    turn: nothing when the run is aborted, else the word shown and the
    lookup sent.  The result holds the lookups in flight. *)
Definition dispatch (chunk : list WordEntry) (r : Run) : list WordEntry * Run :=
  if r.(component).(abortRef) then ([], r)
  else (chunk,
        fold_left (fun r entry =>
          on_app (setProgress (fun p =>
            {| current := p.(current); total := p.(total);
               currentWord := entry.(word) |})) r) chunk r).

(** await Promise.all(...): the lookups settle one by one; the run goes on
    when none is left in flight. *)
Fixpoint await_all (inflight : list WordEntry) (events : list (Settled A)) (r : Run)
  : outcome :=
  match inflight with
  | [] => Returns r
  | _ =>
      match events with
      | [] => Waits
      | ev :: events' =>
          let r1 := user ev.(earlier) r in
          match nth_error inflight ev.(which) with
          | None => await_all inflight events' r1
          | Some entry =>
              match after_fetch entry ev.(apiData) r1 with
              | Normal r2 => await_all (remove_nth ev.(which) inflight) events' r2
              | Throw e => Raises e
              end
          end
      end
  end.

(** The two versions of the loop over the windows: the one of part_000,
    with the pause, and the one of App.tsx, which logs the stop. *)
Inductive Version := PauseReset | StopButton.

Variable version : Version.

(** for (let i = 0; i < words.length; i += CONCURRENCY) { ... }, from [i]
    on; [fuel] bounds the number of windows. *)
Fixpoint for_windows (fuel : nat) (env : nat -> Window A) (words : list WordEntry)
  (i : nat) (r : Run) : outcome :=
  if (i <? List.length words)%nat then
    match fuel with
    | O => Waits
    | S fuel' =>
        if r.(component).(abortRef) then
          Returns (match version with
                   | PauseReset => r
                   | StopButton => on_app (addLog MsgStopped error) r
                   end)
        else
          match (match version with
                 | PauseReset => pause_loop (env i).(sleeps) r
                 | StopButton => Returns r
                 end) with
          | Returns r1 =>
              let chunk := slice words i (i + CONCURRENCY) in
              let '(inflight, r2) := dispatch chunk r1 in
              match await_all inflight (env i).(settled) r2 with
              | Returns r3 => for_windows fuel' env words (i + CONCURRENCY) r3
              | other => other
              end
          | other => other
          end
    end
  else Returns r.

(** for (const fileObj of parsedFiles) { ... }, [k] files already done. *)
Fixpoint for_files (env : nat -> nat -> Window A)
  (parsedFiles : list (jstring * list WordEntry)) (k : nat) (r : Run) : outcome :=
  match parsedFiles with
  | [] => Returns r
  | (fileName, words) :: parsedFiles' =>
      if r.(component).(abortRef) then Returns r
      else
        let r1 := on_locals (fun l =>
                    {| allResults := l.(allResults);
                       totalWords := l.(totalWords);
                       globalProcessedCount := l.(globalProcessedCount);
                       fileProcessedWords := [] |}) r in
        let r2 := on_app (addLog (MsgFile fileName (List.length words)) info) r1 in
        match for_windows (List.length words) (env k) words 0 r2 with
        | Returns r3 =>
            let r4 := on_locals (fun l =>
                        {| allResults :=
                             l.(allResults) ++
                             [{| fileName := fileName; data := l.(fileProcessedWords) |}];
                           totalWords := l.(totalWords);
                           globalProcessedCount := l.(globalProcessedCount);
                           fileProcessedWords := l.(fileProcessedWords) |}) r3 in
            if r4.(component).(abortRef) then Returns r4
            else for_files env parsedFiles' (S k)
                   (on_app (addLog (MsgFileDone fileName) info) r4)
        | other => other
        end
  end.

(** The start of [processFiles], up to the loop over the files.  The
    texts are read with [await Promise.all(files.map(... file.text() ...))],
    outside any [try]: when a file cannot be read the promise rejects, and
    so does [processFiles]. *)
Definition parse_files (env : Environment A) (fs : list File) (a : App)
  : result (list (jstring * list WordEntry) * Run) :=
  if negb (forallb readable fs) then Throw NotReadableError else
  let parsedFiles :=
    List.map (fun f => (f.(name), parseMarkdownFile f.(content))) fs in
  let words_total :=
    fold_left (fun n pf => n + List.length (snd pf)) parsedFiles 0 in
  let r := user env.(while_parsing)
             {| component := addLog MsgParsing info a;
                locals := {| allResults := []; totalWords := words_total;
                             globalProcessedCount := 0;
                             fileProcessedWords := [] |} |} in
  Normal (parsedFiles,
          on_app (setProgress (fun _ =>
            {| current := 0; total := words_total;
               currentWord := [20934; 22791; 24320; 22987; 46; 46; 46]%N |})) r).

End Loops.

(** ** processFiles, as part_000 has it *)

Definition processFiles (env : Environment Action) (a : App) : outcome :=
  match a.(files) with
  | [] => Returns {| component := a;
                     locals := {| allResults := []; totalWords := 0;
                                  globalProcessedCount := 0;
                                  fileProcessedWords := [] |} |}
  | fs =>
      let a1 := setPaused false (set_pausedRef false (set_abortRef false
                  (setResults [] (setProcessing true a)))) in
      match parse_files handle env fs a1 with
      | Throw e => Raises e
      | Normal (parsedFiles, r) =>
          match for_files handle PauseReset env.(window) parsedFiles 0 r with
          | Returns r1 =>
              let r2 :=
                if r1.(component).(abortRef) then r1
                else on_app (addLog MsgAllDone success)
                       (on_app (setResults r1.(locals).(allResults)) r1) in
              Returns (on_app (setProcessing false) r2)
          | other => other
          end
      end
  end.

(** ** processFiles, as App.tsx has it: a stop button, no pause *)

Module AppTsx.

(** handleFileUpload, as App.tsx has it: no ref is written. *)
Definition handleFileUpload (selectedFiles : list File) (a : App) : App :=
  match selectedFiles with
  | [] => a
  | _ =>
      setProgress (fun _ => {| current := 0; total := 0; currentWord := [] |})
        (setLogs (fun _ => []) (setResults [] (setFiles selectedFiles a)))
  end.

(** What the page of App.tsx lets a user do while [processing] is set: the
    stop button and the drop zone. *)
Inductive Action :=
| Stop
| Upload (selectedFiles : list File).

Definition handle (act : Action) (a : App) : App :=
  match act with
  | Stop => handleStop a
  | Upload selectedFiles => handleFileUpload selectedFiles a
  end.

Definition processFiles (env : Environment Action) (a : App) : outcome :=
  match a.(files) with
  | [] => Returns {| component := a;
                     locals := {| allResults := []; totalWords := 0;
                                  globalProcessedCount := 0;
                                  fileProcessedWords := [] |} |}
  | fs =>
      let a1 := set_abortRef false (setResults [] (setProcessing true a)) in
      match parse_files handle env fs a1 with
      | Throw e => Raises e
      | Normal (parsedFiles, r) =>
          match for_files handle StopButton env.(window) parsedFiles 0 r with
          | Returns r1 =>
              let r2 := on_app (setProcessing false)
                          (on_app (setResults r1.(locals).(allResults)) r1) in
              Returns (if r2.(component).(abortRef) then r2
                       else on_app (addLog MsgAllDone success) r2)
          | other => other
          end
      end
  end.

End AppTsx.

(** ** The exports *)

(** What [downloadJSON] hands to the browser: the name and the records. *)
Record Download := {
  filename : jstring;
  payload : list ProcessedWord
}.

Definition downloadJSON (filename : jstring) (d : list ProcessedWord) : Download :=
  {| filename := if endsWith filename (str ".json") then filename
                 else filename ++ str ".json";
     payload := d |}.

(** /\.[^/.]+$/ *)
Definition extension : regex :=
  Seq (Lit (chr "."))
      (Seq (Plus (Cls (fun c => negb (N.eqb c (chr "/") || N.eqb c (chr "."))))) Eol).

(** String.prototype.replace with a pattern that has no [g] flag: the
    leftmost match goes. *)
Definition remove_match (r : regex) (s : jstring) : jstring :=
  match search r 0 s with
  | Some (skipped, m) => skipped ++ m.(rest)
  | None => s
  end.

Definition handleExportOriginal (results : list FileResult) : list Download :=
  List.map (fun res =>
    downloadJSON (remove_match extension res.(fileName) ++ str "_parsed") res.(data))
    results.

Definition handleExportMerged (results : list FileResult) : list Download :=
  [downloadJSON (str "vocabulary_merged") (flat_map data results)].

(** Array.prototype.slice(start, end): the relative index of an argument
    in an array of [len] elements, and the elements from the one to the
    other. *)
Definition relative_index (len : Z) (x : integer_or_infinity) : Z :=
  match x with
  | MinusInfinity => 0
  | Integer z => if (z <? 0)%Z then Z.max (len + z) 0 else Z.min z len
  | PlusInfinity => len
  end.

Definition Array_slice {A} (l : list A) (start stop : num) : list A :=
  let len := Z.of_nat (List.length l) in
  let k := relative_index len (ToIntegerOrInfinity start) in
  let final := relative_index len (ToIntegerOrInfinity stop) in
  firstn (Z.to_nat (Z.max (final - k) 0)) (skipn (Z.to_nat k) l).

(** for (let i = 0; i < allData.length; i += splitCount) { ... }, from [i]
    on.  [splitCount] is the state set by
    [setSplitCount(Number(e.target.value))], a Number as [i] is: the sum,
    the quotient and the comparison are those of doubles.  [None]: the
    loop is still running when the fuel is spent. *)
Fixpoint export_loop (fuel : nat) (allData : list ProcessedWord) (splitCount i : num)
  : option (list Download) :=
  if num_ltb i (num_of_nat (List.length allData)) then
    match fuel with
    | O => None
    | S fuel' =>
        let chunk := Array_slice allData i (num_add i splitCount) in
        let d := downloadJSON
                   (str "vocabulary_batch_" ++
                    Number_toString
                      (num_add (Math_floor (num_div i splitCount)) (num_of_Z 1)))
                   chunk in
        match export_loop fuel' allData splitCount (num_add i splitCount) with
        | Some ds => Some (d :: ds)
        | None => None
        end
    end
  else Some [].

Definition handleExportByQuantity (fuel : nat) (results : list FileResult)
  (splitCount : num) : option (list Download) :=
  export_loop fuel (flat_map data results) splitCount (Zero false).

(* ================================================================== *)
(** * Part III: what the claims speak of *)
(* ================================================================== *)

(** The chain of reads [obj[k1][k2]...] along a path, with no guard: what
    the path resolves to.  It throws where a segment is to be read from
    [null] or [undefined]: the segment is absent. *)
Definition resolve (obj : value) (path : jstring) : result value :=
  fold_left (fun acc key => bind acc (fun v => get v key)) (path_keys path) (Normal obj).

(** What the contract of [FieldExtractor.get] asks for a resolution. *)
Definition located_or (defaultValue : value) (r : result value) : value :=
  match r with
  | Normal v => if is_undefined v then defaultValue else v
  | Throw _ => defaultValue
  end.

(** The records of an entry, as a list. *)
Definition records_of (entry : WordEntry) (apiData : value) : list ProcessedWord :=
  match entry_records entry apiData with
  | Normal ps => ps
  | Throw _ => []
  end.

(** The lookups of a window in the order they settle, each with its
    response: the choices [await_all] follows. *)
Fixpoint settle_order {A} (inflight : list WordEntry) (events : list (Settled A))
  : list (WordEntry * value) :=
  match inflight with
  | [] => []
  | _ =>
      match events with
      | [] => []
      | ev :: events' =>
          match nth_error inflight ev.(which) with
          | None => settle_order inflight events'
          | Some entry =>
              (entry, ev.(apiData))
              :: settle_order (remove_nth ev.(which) inflight) events'
          end
      end
  end.

(** The records of one window: those of its entries, in settle order. *)
Definition window_data {A} (chunk : list WordEntry) (events : list (Settled A))
  : list ProcessedWord :=
  flat_map (fun ea => records_of (fst ea) (snd ea)) (settle_order chunk events).

(** The records of [m] successive windows of a file, from entry [i] on. *)
Fixpoint windows_data {A} (m : nat) (env : nat -> Window A) (words : list WordEntry)
  (i : nat) : list ProcessedWord :=
  match m with
  | O => []
  | S m' =>
      window_data (slice words i (i + CONCURRENCY)) (env i).(settled)
      ++ windows_data m' env words (i + CONCURRENCY)
  end.

(** The records of all the windows of a file. *)
Definition file_data {A} (env : nat -> Window A) (words : list WordEntry)
  : list ProcessedWord :=
  windows_data (List.length words) env words 0.

(** The results of a run that processes every file to its end. *)
Fixpoint expected_results {A} (env : nat -> nat -> Window A)
  (parsedFiles : list (jstring * list WordEntry)) (k : nat) : list FileResult :=
  match parsedFiles with
  | [] => []
  | (nm, words) :: parsedFiles' =>
      {| fileName := nm; data := file_data (env k) words |}
      :: expected_results env parsedFiles' (S k)
  end.

(** The results of a run that went through the first [n] files and then,
    when [m] is given, through the first [m] windows of the next: one
    result for each of the [n] files, with all its windows, one for the
    next with its first [m] windows, none for the files after it.  The
    file at the head of the list is file [k] of the run. *)
Fixpoint results_through {A} (env : nat -> nat -> Window A)
  (parsedFiles : list (jstring * list WordEntry)) (k n : nat) (m : option nat)
  : list FileResult :=
  match parsedFiles with
  | [] => []
  | (nm, words) :: parsedFiles' =>
      match n with
      | O =>
          match m with
          | Some m => [{| fileName := nm; data := windows_data m (env k) words 0 |}]
          | None => []
          end
      | S n' =>
          {| fileName := nm; data := file_data (env k) words |}
          :: results_through env parsedFiles' (S k) n' m
      end
  end.

(** The number of entries of these files and windows. *)
Fixpoint entries_through (parsedFiles : list (jstring * list WordEntry)) (n : nat)
  (m : option nat) : nat :=
  match parsedFiles with
  | [] => 0
  | (_, words) :: parsedFiles' =>
      match n with
      | O =>
          match m with
          | Some m => Nat.min (m * CONCURRENCY) (List.length words)
          | None => 0
          end
      | S n' => List.length words + entries_through parsedFiles' n' m
      end
  end.

(** The entries of [m] successive windows of a file in the order their
    lookups settle, each with its response. *)
Fixpoint windows_order {A} (m : nat) (env : nat -> Window A) (words : list WordEntry)
  (i : nat) : list (WordEntry * value) :=
  match m with
  | O => []
  | S m' =>
      settle_order (slice words i (i + CONCURRENCY)) (env i).(settled)
      ++ windows_order m' env words (i + CONCURRENCY)
  end.

Definition file_order {A} (env : nat -> Window A) (words : list WordEntry)
  : list (WordEntry * value) :=
  windows_order (List.length words) env words 0.

(** The entries of each file in the order their lookups settle. *)
Fixpoint settle_orders {A} (env : nat -> nat -> Window A)
  (parsedFiles : list (jstring * list WordEntry)) (k : nat) : list (list WordEntry) :=
  match parsedFiles with
  | [] => []
  | (_, words) :: parsedFiles' =>
      List.map fst (file_order (env k) words) :: settle_orders env parsedFiles' (S k)
  end.

(** The files of a run as [processFiles] parses them. *)
Definition parsedFiles_of (fs : list File) : list (jstring * list WordEntry) :=
  List.map (fun f => (f.(name), parseMarkdownFile f.(content))) fs.

(** The windows in which every lookup settles in the order of dispatch:
    the first event of the lookups in flight, each time. *)
Definition in_dispatch_order {A} (w : Window A) : Prop :=
  Forall (fun ev => ev.(which) = 0) w.(settled).

(** max(1, definitions.length) *)
Definition records_per_entry (entry : WordEntry) : nat :=
  Nat.max 1 (List.length entry.(definitions)).

Definition record_count (words : list WordEntry) : nat :=
  fold_right (fun entry n => records_per_entry entry + n) 0 words.

Definition entry_count (parsedFiles : list (jstring * list WordEntry)) : nat :=
  fold_right (fun pf n => List.length (snd pf) + n) 0 parsedFiles.

(** ceil(L / B) *)
Definition ceil_div (L B : Z) : Z := ((L + B - 1) / B)%Z.

(** The value a field of a record takes from the response. *)
Definition field (apiData : value) (path : jstring) (arg : value) : value :=
  if truthy apiData then located_or (default_param arg) (resolve apiData path)
  else default_param arg.

(** The record [processed] builds. *)
Definition record_for (entry : WordEntry) (apiData : value) (def : Sense)
  : ProcessedWord :=
  {| text := entry.(word);
     translation := formatTranslation def.(trans);
     phoneticUs := field apiData (str "ec.word[0].usphone") VUndefined;
     phoneticUk := field apiData (str "ec.word[0].ukphone") VUndefined;
     partOfSpeech := def.(pos);
     inflections :=
       or_else (field apiData (str "collins_primary.words.indexforms") (VArr [])) (VArr []);
     tags := or_else (field apiData (str "ec.exam_type") (VArr [])) (VArr []);
     cocaRank := Number entry.(rank);
     image := field apiData (str "pic_dict.pic[0].image") VUndefined;
     video :=
       {| cover := field apiData (str "word_video.word_videos[0].video.cover") VUndefined;
          title := field apiData (str "word_video.word_videos[0].video.title") VUndefined;
          url := field apiData (str "word_video.word_videos[0].video.url") VUndefined |} |}.

(** *** Ratios against powers of two *)

(** [p / q >= 2^l] and [p / q < 2^l], for positive [p] and [q]. *)
Definition ratio_ge (p q l : Z) : Prop :=
  if (0 <=? l)%Z then (q * 2 ^ l <= p)%Z else (q <= p * 2 ^ (- l))%Z.

Definition ratio_lt (p q l : Z) : Prop :=
  if (0 <=? l)%Z then (p < q * 2 ^ l)%Z else (p * 2 ^ (- l) < q)%Z.

(** *** The batches, for sizes that are integers *)

(** The integer a Number is, when it is one. *)
Definition integer_value (x : num) : option Z :=
  match x with
  | Zero _ => Some 0%Z
  | Fin neg m e => if (0 <=? e)%Z then Some (signed neg (Zpos m * 2 ^ e)) else None
  | _ => None
  end.

(** A Number that is zero or negative. *)
Definition not_positive (x : num) : bool :=
  match x with
  | NaN => false
  | Inf neg => neg
  | Zero _ => true
  | Fin neg _ _ => neg
  end.

(** A Number that is [+Infinity] or an integer from [bound] on. *)
Definition reaches (x : num) (bound : Z) : Prop :=
  x = Inf false \/ exists v, integer_value x = Some v /\ (bound <= v)%Z.

(** The elements from index [start] to index [stop], for integers. *)
Definition slice_Z {A} (l : list A) (start stop : Z) : list A :=
  let len := Z.of_nat (List.length l) in
  let k := if (start <? 0)%Z then Z.max (len + start) 0 else Z.min start len in
  let final := if (stop <? 0)%Z then Z.max (len + stop) 0 else Z.min stop len in
  firstn (Z.to_nat (Z.max (final - k) 0)) (skipn (Z.to_nat k) l).

(** The download of the loop at the integer index [i], for a batch size
    that is a positive integer: the batch number is [i / splitCount + 1]. *)
Definition batch_at (allData : list ProcessedWord) (splitCount i : Z) : Download :=
  downloadJSON (str "vocabulary_batch_" ++
                Number_toString (num_of_Z (i / splitCount + 1)))
               (slice_Z allData i (i + splitCount)).

(** The loop when the index and the batch size are integers. *)
Fixpoint integer_loop (fuel : nat) (allData : list ProcessedWord) (splitCount i : Z)
  : option (list Download) :=
  if (i <? Z.of_nat (List.length allData))%Z then
    match fuel with
    | O => None
    | S fuel' =>
        match integer_loop fuel' allData splitCount (i + splitCount) with
        | Some ds => Some (batch_at allData splitCount i :: ds)
        | None => None
        end
    end
  else Some [].

(** *** Environments in which a run returns *)

(** With [n] lookups in flight, the events make every one of them settle:
    an event that names a lookup in flight takes it out, any other event
    settles nothing. *)
Fixpoint settles {A} (n : nat) (events : list (Settled A)) : bool :=
  match n with
  | O => true
  | S n' =>
      match events with
      | [] => false
      | ev :: events' =>
          if (ev.(which) <? n)%nat then settles n' events' else settles n events'
      end
  end.

(** Every window of every file settles; the file at place [j] of the list
    is file [k + j] of the run. *)
Definition lookups_settle {A} (env : nat -> nat -> Window A)
  (parsedFiles : list (jstring * list WordEntry)) (k : nat) : Prop :=
  forall j nm words i,
    nth_error parsedFiles j = Some (nm, words) ->
    settles (List.length (slice words i (i + CONCURRENCY))) (env (k + j) i).(settled)
    = true.

(** An action that leaves the progress shown as it is. *)
Definition leaves_progress {A} (handler : A -> App -> App) (act : A) : Prop :=
  forall a, (handler act a).(progress) = a.(progress).

(** Once the files are parsed, nothing the user does touches the progress
    shown: neither during the sleeps of the pause loop nor while lookups
    are in flight. *)
Definition progress_left_alone {A} (handler : A -> App -> App) (env : Environment A)
  : Prop :=
  forall k i,
    Forall (Forall (leaves_progress handler)) (env.(window) k i).(sleeps)
    /\ Forall (fun ev => Forall (leaves_progress handler) ev.(earlier))
              (env.(window) k i).(settled).

(** An action that does not pause the run. *)
Definition calm {A} (handler : A -> App -> App) (act : A) : Prop :=
  forall a, a.(pausedRef) = false -> (handler act a).(pausedRef) = false.

(** The user never pauses the run. *)
Definition never_paused {A} (handler : A -> App -> App) (env : Environment A) : Prop :=
  Forall (calm handler) env.(while_parsing)
  /\ forall k i, Forall (fun ev => Forall (calm handler) ev.(earlier))
                        (env.(window) k i).(settled).

(** *** Runs used as examples *)

Definition idle (fs : list File) : App :=
  {| abortRef := false; pausedRef := false; files := fs; processing := false;
     paused := false;
     progress := {| current := 0; total := 0; currentWord := [] |};
     results := []; logs := [] |}.

(** Two blocks, the entries [a] and [b], neither with a sense line. *)
Definition one_md : File :=
  {| name := str "one.md";
     content := str "1 a" ++ 10%N :: str "x" ++ 10%N :: 10%N :: str "2 b" ++ 10%N :: str "y";
     readable := true |}.

Definition two_md : File :=
  {| name := str "two.md"; content := str "3 c" ++ 10%N :: str "z"; readable := true |}.

(** Every lookup fails; they settle in the order of dispatch. *)
Definition in_order {A} : Window A :=
  {| sleeps := [];
     settled := List.repeat {| earlier := []; which := 0; apiData := VNull |} CONCURRENCY |}.

(** The second lookup of the window settles before the first. *)
Definition second_first {A} : Window A :=
  {| sleeps := [];
     settled := [ {| earlier := []; which := 1; apiData := VNull |};
                  {| earlier := []; which := 0; apiData := VNull |} ] |}.

(** The user acts with [act] while the lookups of the window are in
    flight, before any has settled. *)
Definition acting {A} (act : A) : Window A :=
  {| sleeps := [];
     settled := {| earlier := [act]; which := 0; apiData := VNull |}
                :: List.repeat {| earlier := []; which := 0; apiData := VNull |} CONCURRENCY |}.

Definition env_second_first : Environment Action :=
  {| while_parsing := []; window := fun _ _ => second_first |}.


(** The claim on [FieldExtractor.get], read to the letter: the default
    where a segment is absent or the value located is [undefined], the
    value located in every other case. *)
Definition get_contract_as_stated (obj : value) (path : jstring) (arg : value) : Prop :=
  getDeep obj path arg = Normal (located_or (default_param arg) (resolve obj path)).

(** The claim on an entry without definitions, read to the letter. *)
Definition single_record_as_stated (entry : WordEntry) (apiData : value) : Prop :=
  exists p, entry_records entry apiData = Normal [p]
            /\ p.(partOfSpeech) = str "unknown"
            /\ p.(translation) = entry.(rawTrans).

(** ** What the further properties speak of *)

(** *** The patterns, read as relations *)
(** What a successful match of a pattern does to the state: [spans r st st1]
    when [r] can match from [st] and leave the state [st1]. *)
Inductive spans : regex -> mstate -> mstate -> Prop :=
| spans_Eps st : spans Eps st st
| spans_Cls p c s' st :
    st.(rest) = c :: s' -> p c = true ->
    spans (Cls p) st {| before := S st.(before); rest := s'; caps := st.(caps) |}
| spans_Bol st : st.(before) = 0 -> spans Bol st st
| spans_Eol st : st.(rest) = [] -> spans Eol st st
| spans_Seq a b st st1 st2 :
    spans a st st1 -> spans b st1 st2 -> spans (Seq a b) st st2
| spans_Alt_l a b st st1 : spans a st st1 -> spans (Alt a b) st st1
| spans_Alt_r a b st st1 : spans b st st1 -> spans (Alt a b) st st1
| spans_Star_end a st : spans (Star a) st st
| spans_Star_more a st st1 st2 :
    spans a st st1 -> spans (Star a) st1 st2 -> spans (Star a) st st2
| spans_Grp i a st st1 :
    spans a st st1 ->
    spans (Grp i a) st
      {| before := st1.(before); rest := st1.(rest);
         caps := (i, firstn (st1.(before) - st.(before)) st.(rest)) :: st1.(caps) |}.

(** A run of units of one class: what [Star (Cls p)] does, the longest run
    first. *)
Fixpoint star_cls (p : N -> bool) (s : jstring) (n : nat) (cs : list (nat * jstring))
  (k : mstate -> option mstate) : option mstate :=
  match s with
  | c :: s' =>
      if p c then
        match star_cls p s' (S n) cs k with
        | Some m => Some m
        | None => k {| before := n; rest := s; caps := cs |}
        end
      else k {| before := n; rest := s; caps := cs |}
  | [] => k {| before := n; rest := s; caps := cs |}
  end.

(** The loop of [Star] in [rmatch]. *)
Definition star_iter (ma : mstate -> (mstate -> option mstate) -> option mstate)
  (k : mstate -> option mstate) : nat -> mstate -> option mstate :=
  fix iterate (fuel : nat) (st0 : mstate) : option mstate :=
    match fuel with
    | O => k st0
    | S f =>
        match ma st0 (fun st1 =>
                if Nat.eqb st1.(before) st0.(before) then None
                else iterate f st1) with
        | Some st' => Some st'
        | None => k st0
        end
    end.

(** A unit that the class [[^\]]] of [posRegex] takes. *)
Definition not_bracket (c : N) : bool := negb (N.eqb c (chr "]")).

(** A Number that is no NaN and has no sign. *)
Definition sign_clear (n : num) : Prop :=
  match n with
  | NaN => False
  | Inf neg | Zero neg | Fin neg _ _ => neg = false
  end.

(** *** JSON texts *)

(** A unit that a JSON string literal holds as it is: no quote, no
    backslash, no control character. *)
Definition plain_unit (c : N) : bool :=
  negb (c =? 34)%N && negb (c =? 92)%N && negb (c <? 32)%N.

(** The JSON text of an array of strings, without white space:
    ["a","b"]. *)
Definition json_string (s : jstring) : jstring := quote :: s ++ [quote].

Fixpoint json_list (items : list jstring) : jstring :=
  match items with
  | [] => []
  | [s] => json_string s
  | s :: rest => json_string s ++ chr "," :: json_list rest
  end.

Definition json_array (items : list jstring) : jstring :=
  chr "[" :: json_list items ++ [chr "]"].

(** The strings, with [sep] between them. *)
Fixpoint joined (sep : jstring) (items : list jstring) : jstring :=
  match items with
  | [] => []
  | [s] => s
  | s :: rest => s ++ sep ++ joined sep rest
  end.

(** *** The exports and the log *)

(** A unit that the class [[^/.]] of the extension pattern takes. *)
Definition extension_unit (c : N) : bool :=
  negb (N.eqb c (chr "/") || N.eqb c (chr ".")).

(** The bound that [addLog] keeps. *)
Definition log_bounded (a : App) : Prop := List.length a.(logs) <= 200.

(** *** Well-formed blocks *)

(** A unit of a translation in a well-formed sense line: plain in JSON,
    and no closing bracket. *)
Definition sense_unit (c : N) : bool := plain_unit c && not_bracket c.

(** A unit of a headword in a well-formed title line: no line terminator
    and no opening bracket. *)
Definition word_unit (c : N) : bool :=
  negb (is_line_terminator c) && negb (N.eqb c (chr "[")).

(** The part-of-speech markers [parseMarkdownFile] looks for. *)
Definition markers : list jstring :=
  [str "n"; str "adj"; str "v"; str "adv"; str "prep"; str "conj"].

(** A sense as a well-formed line spells it: pos. ["a","b"] *)
Definition sense_text (s : jstring * list jstring) : jstring :=
  fst s ++ str ". " ++ json_array (snd s).

(** The senses of a line, a space between them. *)
Fixpoint senses_text (ss : list (jstring * list jstring)) : jstring :=
  match ss with
  | [] => []
  | [s] => sense_text s
  | s :: rest => sense_text s ++ chr " " :: senses_text rest
  end.

Definition good_sense (s : jstring * list jstring) : Prop :=
  fst s <> [] /\ forallb is_lower (fst s) = true
  /\ snd s <> [] /\ Forall (fun t => forallb sense_unit t = true) (snd s).

(** What follows the first sense of a line. *)
Definition senses_tail (ss : list (jstring * list jstring)) : jstring :=
  match ss with
  | [] => []
  | _ => chr " " :: senses_text ss
  end.

(** *** Requests *)

(** A unit of an escaped query. *)
Definition url_unit (c : N) : bool := uri_unreserved c || N.eqb c (chr "%").

(** A UTF-16 code unit. *)
Definition code_unit (c : N) : bool := (c <? 65536)%N.

(** A request for the dictionary address with an escaped query. *)
Definition safe_request (url : jstring) : bool :=
  startsWith url jsonapi && forallb url_unit (skipn (List.length jsonapi) url).

(** *** The run *)

(** The pause shown is the pause the loop reads. *)
Definition pause_in_step (a : App) : Prop := a.(paused) = a.(pausedRef).

(** A unit that is no opening bracket. *)
Definition not_open (c : N) : bool := negb (N.eqb c (chr "[")).

(** *** Well-formed files *)

(** A block as a well-formed file spells it: the rank, the headword and
    the senses. *)
Record Block := {
  block_rank : jstring;
  block_word : jstring;
  block_senses : list (jstring * list jstring)
}.

(** The title line: the rank, a space, the headword. *)
Definition title_text (b : Block) : jstring :=
  b.(block_rank) ++ chr " " :: b.(block_word).

(** The two lines of the block. *)
Definition block_text (b : Block) : jstring :=
  title_text b ++ 10%N :: senses_text b.(block_senses).

(** The blocks of a file, a blank line between them. *)
Fixpoint file_text (bs : list Block) : jstring :=
  match bs with
  | [] => []
  | [b] => block_text b
  | b :: rest => block_text b ++ 10%N :: 10%N :: file_text rest
  end.

(** The entry the block spells. *)
Definition block_entry (b : Block) : WordEntry :=
  {| rank := b.(block_rank);
     word := b.(block_word);
     definitions :=
       List.map (fun s => {| pos := fst s; trans := json_array (snd s) |})
                b.(block_senses);
     rawTrans := senses_text b.(block_senses) |}.

(** The rank is digits; the headword is trimmed and holds no line
    terminator and no opening bracket; the senses are well formed, and the
    first part of speech is one of the markers. *)
Definition good_block (b : Block) : Prop :=
  b.(block_rank) <> [] /\ forallb is_digit b.(block_rank) = true
  /\ b.(block_word) <> [] /\ forallb word_unit b.(block_word) = true
  /\ trim b.(block_word) = b.(block_word)
  /\ Forall good_sense b.(block_senses)
  /\ match b.(block_senses) with s :: _ => In (fst s) markers | [] => False end.

(** A file with the text of the blocks. *)
Definition source_file (nb : jstring * list Block) : File :=
  {| name := fst nb; content := file_text (snd nb); readable := true |}.

(** The fields of a record that come from the source text. *)
Definition record_fields (p : ProcessedWord) : jstring * jstring * jstring * num :=
  (p.(text), p.(partOfSpeech), p.(translation), p.(cocaRank)).

(** What the records of a block are to hold in these fields: for each
    sense the headword, the part of speech, the translations joined, the
    rank as a number. *)
Definition block_fields (b : Block) : list (jstring * jstring * jstring * num) :=
  List.map (fun s => (b.(block_word), fst s, joined semicolon (snd s),
                      num_of_decimal false (dec_value b.(block_rank)) 0))
           b.(block_senses).

(** *** Further examples *)

(** The first entry of [one_md]. *)
Definition entry_a : WordEntry :=
  {| rank := str "1"; word := str "a"; definitions := []; rawTrans := [] |}.

(** The senses of the well-formed block [1 run], then
    [v. ["跑"] n. ["跑步"]] (跑 is U+8DD1, 步 is U+6B65). *)
Definition run_senses : list (jstring * list jstring) :=
  [(str "v", [[36305%N]]); (str "n", [[36305%N; 27493%N]])].

(** The blocks [1 run / v. ["跑"] n. ["跑步"]] and [2 go / v. ["去"]]
    (去 is U+53BB). *)
Definition block_run : Block :=
  {| block_rank := str "1"; block_word := str "run"; block_senses := run_senses |}.

Definition block_go : Block :=
  {| block_rank := str "2"; block_word := str "go";
     block_senses := [(str "v", [[21435%N]])] |}.

(** A file is uploaded while the lookups of the only window are in
    flight. *)
Definition env_upload : Environment Action :=
  {| while_parsing := []; window := fun _ _ => acting (Upload [two_md]) |}.

(** A response that holds a phonetic spelling, and nothing else. *)
Definition response_a : value :=
  VObj [(str "ec", VObj [(str "word", VArr [VObj [(str "usphone", VStr (str "ei"))]])])].

(** A network that rejects every request. *)
Definition offline (url : jstring) : Fetched := Rejected.

(* ================================================================== *)
(** * Part IV: theorems *)
(* ================================================================== *)

(** ** getDeep *)

Lemma fold_get_throw (keys : list jstring) (e : exn) :
  fold_left (fun acc key => bind acc (fun v => get v key)) keys (Throw e) = Throw e.
Proof.
  induction keys as [|key keys IH]; simpl; auto.
Qed.

Lemma get_of_nullish (v : value) (key : jstring) :
  is_nullish v = true -> get v key = Throw TypeError.
Proof.
  destruct v; simpl; intros H; try discriminate; reflexivity.
Qed.

Lemma get_of_present (v : value) (key : jstring) :
  is_nullish v = false -> exists w, get v key = Normal w.
Proof.
  destruct v; simpl; intros H; try discriminate; eauto.
  - destruct (index_of_key key (List.length s)); eauto.
    destruct (jstring_eqb key (str "length")); eauto.
  - destruct (index_of_key key (List.length items)); eauto.
    destruct (jstring_eqb key (str "length")); eauto.
Qed.

Lemma getDeep_walk_resolve (keys : list jstring) :
  forall current d,
    getDeep_walk keys current d
    = Normal (located_or d
        (fold_left (fun acc key => bind acc (fun v => get v key)) keys (Normal current))).
Proof.
  induction keys as [|key keys IH]; intros current d; simpl.
  - reflexivity.
  - destruct (is_nullish current) eqn:Hn.
    + rewrite (get_of_nullish _ _ Hn). simpl. rewrite fold_get_throw. reflexivity.
    + destruct (get_of_present current key Hn) as [w Hw]. rewrite Hw. simpl.
      apply IH.
Qed.

Lemma getDeep_field (obj : value) (path : jstring) (arg : value) :
  getDeep obj path arg = Normal (field obj path arg).
Proof.
  unfold getDeep, field, resolve.
  destruct (truthy obj); simpl.
  - apply getDeep_walk_resolve.
  - reflexivity.
Qed.

(** The values that are falsy are the six the language names (zero with
    either sign). *)
Lemma falsy_values (v : value) :
  truthy v = false <->
  In v [VUndefined; VNull; VBool false; VNum NaN; VNum (Zero false);
        VNum (Zero true); VStr []].
Proof.
  split.
  - destruct v as [| |b|n|s|l|o]; simpl; intros H; try discriminate; auto.
    + destruct b; [discriminate|auto].
    + destruct n as [|s|s|s m e]; try discriminate; auto.
      destruct s; auto 7.
    + destruct s; [auto 8|discriminate].
  - simpl. intros H.
    repeat (destruct H as [H|H]; [subst v; reflexivity|]). contradiction.
Qed.

(** C9. [getDeep] returns the default for every falsy root, [0], the empty
    string, [false] and [NaN] as well as [null] and [undefined], whatever
    the path: the members of such a root are not read. *)
Theorem getDeep_falsy_root (obj : value) (path : jstring) (arg : value) :
  truthy obj = false ->
  getDeep obj path arg = Normal (default_param arg).
Proof.
  intros H. unfold getDeep. rewrite H. reflexivity.
Qed.

(** The empty string has a length, and [getDeep] does not read it. *)
Lemma getDeep_falsy_root_witness :
  truthy (VStr []) = false
  /\ resolve (VStr []) (str "length") = Normal (VNum (Zero false))
  /\ getDeep (VStr []) (str "length") (VStr (str "none")) = Normal (VStr (str "none")).
Proof.
  split; [reflexivity|]. split; [vm_compute; reflexivity|].
  apply (getDeep_falsy_root (VStr []) (str "length") (VStr (str "none"))).
  reflexivity.
Defined.

(** C3, amended.  [getDeep] returns the default when the root is falsy,
    when a segment of the path is absent and when the value located is
    [undefined]; in every other case it returns the value located, [null]
    included. *)
Theorem getDeep_contract (obj : value) (path : jstring) (arg : value) :
  getDeep obj path arg
  = Normal (if truthy obj
            then located_or (default_param arg) (resolve obj path)
            else default_param arg)
  /\ located_or (default_param arg) (Normal VNull) = VNull.
Proof.
  split.
  - apply getDeep_field.
  - reflexivity.
Qed.

(** C3 as it is stated fails on the empty string: its [length] resolves
    to [0], no segment is absent, and the default comes back. *)
Lemma getDeep_contract_counterexample :
  ~ get_contract_as_stated (VStr []) (str "length") (VStr (str "none")).
Proof.
  unfold get_contract_as_stated. vm_compute. discriminate.
Qed.

(** ** The records of an entry *)

Lemma processed_record_for (entry : WordEntry) (apiData : value) (def : Sense) :
  processed entry apiData def = Normal (record_for entry apiData def).
Proof.
  unfold processed. rewrite !getDeep_field. reflexivity.
Qed.

Lemma forEach_definition_map (entry : WordEntry) (apiData : value) (defs : list Sense) :
  forEach_definition entry apiData defs
  = Normal (List.map (record_for entry apiData) defs).
Proof.
  induction defs as [|def defs IH]; simpl.
  - reflexivity.
  - rewrite processed_record_for, IH. reflexivity.
Qed.

Lemma entry_records_map (entry : WordEntry) (apiData : value) :
  entry_records entry apiData
  = Normal (List.map (record_for entry apiData) (definitionLoop entry)).
Proof.
  apply forEach_definition_map.
Qed.

Lemma records_of_map (entry : WordEntry) (apiData : value) :
  records_of entry apiData = List.map (record_for entry apiData) (definitionLoop entry).
Proof.
  unfold records_of. rewrite entry_records_map. reflexivity.
Qed.

Lemma definitionLoop_length (entry : WordEntry) :
  List.length (definitionLoop entry) = records_per_entry entry.
Proof.
  unfold definitionLoop, records_per_entry.
  destruct (definitions entry); simpl; [reflexivity|lia].
Qed.

Lemma records_of_length (entry : WordEntry) (apiData : value) :
  List.length (records_of entry apiData) = records_per_entry entry.
Proof.
  rewrite records_of_map, length_map. apply definitionLoop_length.
Qed.

(** The empty raw line is its own translation. *)
Lemma formatTranslation_empty : formatTranslation [] = [].
Proof. reflexivity. Qed.

(** C1, amended.  An entry without definitions gives one record; its part
    of speech is "unknown" and its translation is [formatTranslation] of
    the raw sense line of the entry, which is that line when it is empty. *)
Theorem no_definition_one_record (entry : WordEntry) (apiData : value) :
  entry.(definitions) = [] ->
  exists p,
    entry_records entry apiData = Normal [p]
    /\ p.(partOfSpeech) = str "unknown"
    /\ p.(translation) = formatTranslation entry.(rawTrans)
    /\ (entry.(rawTrans) = [] -> p.(translation) = entry.(rawTrans)).
Proof.
  intros Hd. rewrite entry_records_map. unfold definitionLoop. rewrite Hd.
  eexists. split; [reflexivity|]. simpl. repeat split.
  intros ->. reflexivity.
Qed.

(** An entry whose block has no sense line. *)
Lemma no_definition_one_record_witness :
  exists p,
    entry_records {| rank := str "3"; word := str "of"; definitions := [];
                     rawTrans := [] |} VNull = Normal [p]
    /\ p.(partOfSpeech) = str "unknown"
    /\ p.(translation) = [].
Proof.
  destruct (no_definition_one_record
              {| rank := str "3"; word := str "of"; definitions := []; rawTrans := [] |}
              VNull eq_refl) as [p [H1 [H2 [H3 H4]]]].
  exists p. repeat split; auto.
Defined.

(** C1 as it is stated fails on the entry of a block whose sense line
    holds a quoted bracket and a marker but no pair [abbrev. [...]]: the
    line is kept as the raw sense line, and the record carries it without
    its quotes. *)
Lemma no_definition_counterexample :
  let line := str "x [" ++ quote :: str "abc" ++ quote :: str "] n." in
  let entry := {| rank := str "2"; word := str "the"; definitions := [];
                  rawTrans := line |} in
  parseMarkdownFile (str "2 the" ++ 10%N :: line) = [entry]
  /\ List.map translation (records_of entry VNull) = [str "x [abc] n."]
  /\ ~ single_record_as_stated entry VNull.
Proof.
  cbv zeta. split; [vm_compute; reflexivity|].
  split; [vm_compute; reflexivity|].
  intros [p [H1 [_ H3]]].
  rewrite entry_records_map in H1. injection H1 as H1. subst p.
  vm_compute in H3. discriminate.
Qed.

(** C5.  An entry with N > 0 definitions gives N records, in the order of
    the definitions; each has the word and the rank of the entry, and the
    part of speech and the translation of the definition at its place. *)
Theorem one_record_per_definition (entry : WordEntry) (apiData : value) :
  entry.(definitions) <> [] ->
  exists ps,
    entry_records entry apiData = Normal ps
    /\ List.length ps = List.length entry.(definitions)
    /\ forall i def, nth_error entry.(definitions) i = Some def ->
         exists p, nth_error ps i = Some p
                   /\ p.(text) = entry.(word)
                   /\ p.(cocaRank) = Number entry.(rank)
                   /\ p.(partOfSpeech) = def.(pos)
                   /\ p.(translation) = formatTranslation def.(trans).
Proof.
  intros Hd. rewrite entry_records_map.
  assert (Hl : definitionLoop entry = entry.(definitions)).
  { unfold definitionLoop. destruct (definitions entry); [contradiction|reflexivity]. }
  rewrite Hl. eexists. split; [reflexivity|]. split; [apply length_map|].
  intros i def Hi. exists (record_for entry apiData def).
  split; [apply map_nth_error; exact Hi|]. repeat split.
Qed.

(** The entry of the block [1 run / v. ["a"]  n. ["b"]]. *)
Lemma one_record_per_definition_witness :
  let entry := {| rank := str "1"; word := str "run";
                  definitions := [ {| pos := str "v"; trans := str "[1]" |};
                                   {| pos := str "n"; trans := str "[2]" |} ];
                  rawTrans := str "v. [1]  n. [2]" |} in
  exists ps,
    entry_records entry VNull = Normal ps
    /\ List.length ps = 2
    /\ List.map partOfSpeech ps = [str "v"; str "n"]
    /\ List.map translation ps = [str "1"; str "2"].
Proof.
  cbv zeta.
  destruct (one_record_per_definition
              {| rank := str "1"; word := str "run";
                 definitions := [ {| pos := str "v"; trans := str "[1]" |};
                                  {| pos := str "n"; trans := str "[2]" |} ];
                 rawTrans := str "v. [1]  n. [2]" |} VNull)
    as [ps [H1 [H2 _]]].
  - discriminate.
  - exists ps. split; [exact H1|]. split; [exact H2|].
    rewrite entry_records_map in H1. injection H1 as H1. subst ps.
    split; vm_compute; reflexivity.
Defined.

(** ** The fields read from the response *)

(** Building a record never throws. *)
Lemma processed_never_throws (entry : WordEntry) (apiData : value) (def : Sense) :
  exists p, processed entry apiData def = Normal p.
Proof.
  eexists. apply processed_record_for.
Qed.

(** A field whose path is absent from the response, or whose lookup
    failed, holds its default. *)
Lemma field_absent (apiData : value) (path : jstring) (arg : value) :
  apiData = VNull \/ located_or VUndefined (resolve apiData path) = VUndefined ->
  field apiData path arg = default_param arg.
Proof.
  unfold field. intros [->|H]; [reflexivity|].
  destruct (truthy apiData); [|reflexivity].
  destruct (resolve apiData path) as [v|e]; simpl in *; [|reflexivity].
  destruct v; simpl in *; try discriminate; reflexivity.
Qed.

Lemma or_else_not_nullish (v : value) :
  is_nullish (or_else v (VArr [])) = false.
Proof.
  unfold or_else. destruct (truthy v) eqn:E; [|reflexivity].
  destruct v; simpl in *; congruence.
Qed.

(** The two sequences are never [null] nor [undefined]. *)
Lemma sequences_not_nullish (entry : WordEntry) (apiData : value) (def : Sense) :
  is_nullish (record_for entry apiData def).(inflections) = false
  /\ is_nullish (record_for entry apiData def).(tags) = false.
Proof.
  split; apply or_else_not_nullish.
Qed.

(** C4, where the code departs from the claim: a response that holds
    [null] at the path of a string field puts [null] in the record. *)
Theorem null_phonetic_reaches_record (entry : WordEntry) (def : Sense) :
  let apiData :=
    VObj [(str "ec", VObj [(str "word", VArr [VObj [(str "usphone", VNull)]])])] in
  exists p, processed entry apiData def = Normal p /\ p.(phoneticUs) = VNull.
Proof.
  cbv zeta. eexists. split; [apply processed_record_for|].
  vm_compute. reflexivity.
Qed.

(** ** Numbers: rounding, and the integers among them *)

Section NumberLemmas.

Local Open Scope Z_scope.

Lemma pow2_pos (k : Z) : 0 <= k -> 0 < 2 ^ k.
Proof. intros H. apply Z.pow_pos_nonneg; lia. Qed.

Lemma canon_spec (m : positive) :
  forall e, e <= snd (canon m e) /\ Zpos (fst (canon m e)) * 2 ^ (snd (canon m e) - e) = Zpos m.
Proof.
  induction m as [m IH|m IH|]; intros e; cbn [canon fst snd];
    try (split; [lia|rewrite Z.sub_diag, Z.pow_0_r; lia]).
  destruct (IH (e + 1)) as [H1 H2]. split; [lia|].
  replace (snd (canon m (e + 1)) - e) with (1 + (snd (canon m (e + 1)) - (e + 1))) by lia.
  rewrite Z.pow_add_r by lia. change (2 ^ 1) with 2. rewrite (Pos2Z.inj_xO m), <- H2. ring.
Qed.

Lemma canon_shift (k : nat) :
  forall (pm p : positive) (e : Z),
    Zpos pm = Zpos p * 2 ^ Z.of_nat k -> canon pm e = canon p (e + Z.of_nat k).
Proof.
  induction k as [|k IH]; intros pm p e H.
  - change (2 ^ Z.of_nat 0) with 1 in H. rewrite Z.mul_1_r in H. injection H as ->.
    change (Z.of_nat 0) with 0.
    rewrite Z.add_0_r. reflexivity.
  - rewrite Nat2Z.inj_succ, Z.pow_succ_r in H by lia.
    destruct pm as [pm|pm|].
    + rewrite (Pos2Z.inj_xI pm) in H. lia.
    + rewrite (Pos2Z.inj_xO pm) in H. cbn [canon].
      rewrite (IH pm p (e + 1)) by lia. f_equal. lia.
    + lia.
Qed.

Lemma ratio_ge_shift (p q l N : Z) :
  0 <= N -> 0 <= l + N ->
  (ratio_ge p q l <-> q * 2 ^ (l + N) <= p * 2 ^ N).
Proof.
  intros HN Hl. unfold ratio_ge. destruct (Z.leb_spec 0 l) as [H|H].
  - rewrite Z.pow_add_r, Z.mul_assoc by lia.
    apply Z.mul_le_mono_pos_r. apply pow2_pos. exact HN.
  - replace (2 ^ N) with (2 ^ (- l) * 2 ^ (l + N))
      by (rewrite <- Z.pow_add_r by lia; f_equal; lia).
    rewrite Z.mul_assoc.
    apply Z.mul_le_mono_pos_r. apply pow2_pos. exact Hl.
Qed.

Lemma ratio_lt_shift (p q l N : Z) :
  0 <= N -> 0 <= l + N ->
  (ratio_lt p q l <-> p * 2 ^ N < q * 2 ^ (l + N)).
Proof.
  intros HN Hl. unfold ratio_lt. destruct (Z.leb_spec 0 l) as [H|H].
  - rewrite Z.pow_add_r, Z.mul_assoc by lia.
    apply Z.mul_lt_mono_pos_r. apply pow2_pos. exact HN.
  - replace (2 ^ N) with (2 ^ (- l) * 2 ^ (l + N))
      by (rewrite <- Z.pow_add_r by lia; f_equal; lia).
    rewrite Z.mul_assoc.
    apply Z.mul_lt_mono_pos_r. apply pow2_pos. exact Hl.
Qed.

(** There is one [l] with [2^l <= p / q < 2^(l+1)]. *)
Lemma ratio_log_unique (p q l l' : Z) :
  0 < q ->
  ratio_ge p q l -> ratio_lt p q (l + 1) ->
  ratio_ge p q l' -> ratio_lt p q (l' + 1) -> l = l'.
Proof.
  intros Hq H1 H2 H3 H4.
  set (N := Z.abs l + Z.abs l' + 1).
  apply (@ratio_ge_shift p q l N) in H1; [|lia|lia].
  apply (@ratio_lt_shift p q (l + 1) N) in H2; [|lia|lia].
  apply (@ratio_ge_shift p q l' N) in H3; [|lia|lia].
  apply (@ratio_lt_shift p q (l' + 1) N) in H4; [|lia|lia].
  destruct (Z.lt_trichotomy l l') as [H|[H|H]]; [|exact H|]; exfalso.
  - assert (2 ^ (l + 1 + N) <= 2 ^ (l' + N)) by (apply Z.pow_le_mono_r; lia).
    assert (q * 2 ^ (l + 1 + N) <= q * 2 ^ (l' + N))
      by (apply Z.mul_le_mono_nonneg_l; lia).
    lia.
  - assert (2 ^ (l' + 1 + N) <= 2 ^ (l + N)) by (apply Z.pow_le_mono_r; lia).
    assert (q * 2 ^ (l' + 1 + N) <= q * 2 ^ (l + N))
      by (apply Z.mul_le_mono_nonneg_l; lia).
    lia.
Qed.

Lemma ilog2_ratio_spec (p q : Z) :
  0 < p -> 0 < q ->
  ratio_ge p q (ilog2_ratio p q) /\ ratio_lt p q (ilog2_ratio p q + 1).
Proof.
  intros Hp Hq. unfold ilog2_ratio.
  destruct (Z.log2_spec p Hp) as [P1 P2]. destruct (Z.log2_spec q Hq) as [Q1 Q2].
  pose proof (Z.log2_nonneg p) as P0. pose proof (Z.log2_nonneg q) as Q0.
  set (P := Z.log2 p) in *. set (Q := Z.log2 q) in *.
  set (N := P + Q + 2).
  destruct (Z.leb_spec 0 (P - Q)) as [Hc|Hc].
  - assert (E1 : 2 ^ P = 2 ^ Q * 2 ^ (P - Q))
      by (rewrite <- Z.pow_add_r by lia; f_equal; lia).
    destruct (Z.leb_spec (q * 2 ^ (P - Q)) p) as [Ht|Ht].
    + split.
      * unfold ratio_ge. destruct (Z.leb_spec 0 (P - Q)); [exact Ht|lia].
      * unfold ratio_lt. destruct (Z.leb_spec 0 (P - Q + 1)); [|lia].
        assert (2 ^ Z.succ P = 2 ^ Q * 2 ^ (P - Q + 1))
          by (rewrite <- Z.pow_add_r by lia; f_equal; lia).
        assert (2 ^ Q * 2 ^ (P - Q + 1) <= q * 2 ^ (P - Q + 1))
          by (apply Z.mul_le_mono_nonneg_r; [apply Z.lt_le_incl, pow2_pos; lia|lia]).
        lia.
    + split.
      * apply (@ratio_ge_shift p q (P - Q - 1) 1); [lia|lia|].
        replace (P - Q - 1 + 1) with (P - Q) by lia. change (2 ^ 1) with 2.
        assert (q * 2 ^ (P - Q) < 2 ^ Z.succ Q * 2 ^ (P - Q))
          by (apply Z.mul_lt_mono_pos_r; [apply pow2_pos; lia|lia]).
        assert (2 ^ Z.succ Q * 2 ^ (P - Q) = 2 * 2 ^ P).
        { rewrite <- Z.pow_add_r by lia. replace (Z.succ Q + (P - Q)) with (Z.succ P) by lia.
          rewrite Z.pow_succ_r by lia. reflexivity. }
        lia.
      * replace (P - Q - 1 + 1) with (P - Q) by lia.
        unfold ratio_lt. destruct (Z.leb_spec 0 (P - Q)); [exact Ht|lia].
  - assert (E1 : 2 ^ Q = 2 ^ P * 2 ^ (- (P - Q)))
      by (rewrite <- Z.pow_add_r by lia; f_equal; lia).
    destruct (Z.leb_spec q (p * 2 ^ (- (P - Q)))) as [Ht|Ht].
    + split.
      * unfold ratio_ge. destruct (Z.leb_spec 0 (P - Q)); [lia|exact Ht].
      * apply (@ratio_lt_shift p q (P - Q + 1) (- (P - Q + 1))); [lia|lia|].
        replace (P - Q + 1 + - (P - Q + 1)) with 0 by lia. rewrite Z.mul_1_r.
        assert (p * 2 ^ (- (P - Q + 1)) < 2 ^ Z.succ P * 2 ^ (- (P - Q + 1)))
          by (apply Z.mul_lt_mono_pos_r; [apply pow2_pos; lia|lia]).
        assert (2 ^ Z.succ P * 2 ^ (- (P - Q + 1)) = 2 ^ Q)
          by (rewrite <- Z.pow_add_r by lia; f_equal; lia).
        lia.
    + split.
      * apply (@ratio_ge_shift p q (P - Q - 1) (- (P - Q - 1))); [lia|lia|].
        replace (P - Q - 1 + - (P - Q - 1)) with 0 by lia. rewrite Z.mul_1_r.
        assert (2 ^ P * 2 ^ (- (P - Q - 1)) <= p * 2 ^ (- (P - Q - 1)))
          by (apply Z.mul_le_mono_nonneg_r; [apply Z.lt_le_incl, pow2_pos; lia|lia]).
        assert (2 ^ P * 2 ^ (- (P - Q - 1)) = 2 ^ Z.succ Q)
          by (rewrite <- Z.pow_add_r by lia; f_equal; lia).
        lia.
      * replace (P - Q - 1 + 1) with (P - Q) by lia.
        unfold ratio_lt. destruct (Z.leb_spec 0 (P - Q)); [lia|exact Ht].
Qed.

Lemma grid_scale (p q : Z) (M : positive) (E N : Z) :
  (if 0 <=? E then p = Zpos M * 2 ^ E * q else p * 2 ^ (- E) = Zpos M * q) ->
  0 <= N -> 0 <= E + N ->
  p * 2 ^ N = Zpos M * 2 ^ (E + N) * q.
Proof.
  intros H HN HE. destruct (Z.leb_spec 0 E) as [H0|H0].
  - rewrite H, Z.pow_add_r by lia. ring.
  - replace (2 ^ N) with (2 ^ (- E) * 2 ^ (E + N))
      by (rewrite <- Z.pow_add_r by lia; f_equal; lia).
    rewrite Z.mul_assoc, H. ring.
Qed.

(** A ratio that is a double is rounded to itself. *)
Lemma round_ratio_grid (neg : bool) (p q : Z) (M : positive) (E : Z) :
  0 < p -> 0 < q ->
  Zpos M < 2 ^ 53 -> -1074 <= E <= 970 ->
  (if 0 <=? E then p = Zpos M * 2 ^ E * q else p * 2 ^ (- E) = Zpos M * q) ->
  round_ratio neg p q = Fin neg (fst (canon M E)) (snd (canon M E)).
Proof.
  intros Hp Hq HM HE Hpq.
  pose proof (Z.log2_spec (Zpos M) ltac:(lia)) as [L1 L2].
  pose proof (Z.log2_nonneg (Zpos M)) as L0.
  assert (L3 : Z.log2 (Zpos M) < 53) by (apply Z.log2_lt_pow2; lia).
  set (Lg := Z.log2 (Zpos M)) in *.
  assert (Hl : ilog2_ratio p q = Lg + E).
  { destruct (@ilog2_ratio_spec p q Hp Hq) as [S1 S2].
    apply (@ratio_log_unique p q (ilog2_ratio p q) (Lg + E) Hq S1 S2).
    - apply (@ratio_ge_shift p q (Lg + E) 1074); [lia|lia|].
      rewrite (@grid_scale p q M E 1074 Hpq) by lia.
      replace (Lg + E + 1074) with (Lg + (E + 1074)) by lia.
      rewrite (Z.pow_add_r 2 Lg (E + 1074)) by lia.
      pose proof (@pow2_pos (E + 1074) ltac:(lia)) as Hx.
      assert (2 ^ Lg * 2 ^ (E + 1074) <= Zpos M * 2 ^ (E + 1074))
        by (apply Z.mul_le_mono_nonneg_r; [lia|assumption]).
      rewrite (Z.mul_comm q). apply Z.mul_le_mono_nonneg_r; [lia|assumption].
    - apply (@ratio_lt_shift p q (Lg + E + 1) 1074); [lia|lia|].
      rewrite (@grid_scale p q M E 1074 Hpq) by lia.
      replace (Lg + E + 1 + 1074) with (Z.succ Lg + (E + 1074)) by lia.
      rewrite (Z.pow_add_r 2 (Z.succ Lg) (E + 1074)) by lia.
      pose proof (@pow2_pos (E + 1074) ltac:(lia)) as Hx.
      assert (Zpos M * 2 ^ (E + 1074) < 2 ^ Z.succ Lg * 2 ^ (E + 1074))
        by (apply Z.mul_lt_mono_pos_r; assumption).
      rewrite (Z.mul_comm q). apply Z.mul_lt_mono_pos_r; assumption. }
  unfold round_ratio. rewrite Hl.
  set (e := Z.max (Lg + E - 52) (-1074)).
  assert (He : -1074 <= e <= E) by (unfold e; lia).
  set (n := if 0 <=? e then p else p * 2 ^ (- e)).
  set (d := if 0 <=? e then q * 2 ^ e else q).
  assert (Hd : 0 < d).
  { unfold d. destruct (Z.leb_spec 0 e); [|exact Hq].
    apply Z.mul_pos_pos; [exact Hq|apply pow2_pos; lia]. }
  assert (Hn : n = Zpos M * 2 ^ (E - e) * d).
  { unfold n, d. destruct (Z.leb_spec 0 e) as [H0|H0].
    - destruct (Z.leb_spec 0 E) as [H1|H1]; [|lia]. rewrite Hpq.
      replace (2 ^ E) with (2 ^ (E - e) * 2 ^ e)
        by (rewrite <- Z.pow_add_r by lia; f_equal; lia).
      ring.
    - rewrite (@grid_scale p q M E (- e) Hpq) by lia.
      replace (E + - e) with (E - e) by lia. reflexivity. }
  rewrite Hn, Z.div_mul, Z.mod_mul by lia.
  replace (2 * 0 <? d) with true by (symmetry; apply Z.ltb_lt; lia).
  assert (Hk : 2 ^ (E - e) = 2 ^ Z.of_nat (Z.to_nat (E - e)))
    by (rewrite Z2Nat.id by lia; reflexivity).
  pose proof (@pow2_pos (E - e) ltac:(lia)) as Hpos.
  destruct (Zpos M * 2 ^ (E - e)) as [|pm|pm] eqn:Em; [lia| |lia].
  replace (971 <=? e) with false by (symmetry; apply Z.leb_gt; lia).
  cbn [andb].
  rewrite (@canon_shift (Z.to_nat (E - e)) pm M e) by (rewrite <- Hk, Em; reflexivity).
  rewrite Z2Nat.id by lia. replace (e + (E - e)) with E by lia.
  destruct (canon M E) as [cm ce]. reflexivity.
Qed.

(** The sign of a rounded ratio is the sign asked for. *)
Lemma round_ratio_sign (neg : bool) (p q : Z) :
  match round_ratio neg p q with
  | NaN => False
  | Inf s | Zero s | Fin s _ _ => s = neg
  end.
Proof.
  unfold round_ratio. cbv zeta.
  match goal with
  | |- match (match ?m with _ => _ end) with _ => _ end => destruct m
  end; try reflexivity.
  match goal with
  | |- match (if ?b then _ else _) with _ => _ end => destruct b
  end; [reflexivity|].
  match goal with
  | |- context [canon ?a ?b] => destruct (canon a b)
  end. reflexivity.
Qed.

(** An integer from 2^53 on is rounded to one from 2^53 on, or to
    [+Infinity]. *)
Lemma round_ratio_big (z : Z) :
  2 ^ 53 <= z -> reaches (round_ratio false z 1) (2 ^ 53).
Proof.
  intros Hz. assert (Hp : 0 < z) by lia.
  destruct (@ilog2_ratio_spec z 1 Hp ltac:(lia)) as [S1 S2].
  set (l := ilog2_ratio z 1) in *.
  assert (Hl : 53 <= l).
  { destruct (Z.le_gt_cases 53 l) as [H|H]; [exact H|exfalso].
    set (N := Z.abs l + 1).
    apply (@ratio_lt_shift z 1 (l + 1) N) in S2; [|lia|lia].
    assert (H0 : 2 ^ (l + 1 + N) <= 2 ^ (53 + N)) by (apply Z.pow_le_mono_r; lia).
    rewrite (Z.pow_add_r 2 53 N) in H0 by lia.
    pose proof (@pow2_pos N ltac:(lia)) as HN.
    assert (2 ^ 53 * 2 ^ N <= z * 2 ^ N)
      by (apply Z.mul_le_mono_nonneg_r; lia).
    lia. }
  unfold ratio_ge in S1. destruct (Z.leb_spec 0 l) as [_|]; [|lia].
  rewrite Z.mul_1_l in S1.
  unfold round_ratio. cbv zeta. fold l.
  replace (Z.max (l - 52) (-1074)) with (l - 52) by lia.
  set (e := l - 52). replace (0 <=? e) with true by (symmetry; apply Z.leb_le; lia).
  rewrite Z.mul_1_l.
  assert (He : 2 ^ l = 2 ^ 52 * 2 ^ e)
    by (rewrite <- Z.pow_add_r by lia; f_equal; lia).
  pose proof (@pow2_pos e ltac:(lia)) as Hd.
  assert (Hm : 2 ^ 52 <= z / 2 ^ e)
    by (apply Z.div_le_lower_bound; [exact Hd|lia]).
  set (m := z / 2 ^ e) in *. set (r := z mod 2 ^ e).
  match goal with
  | |- reaches (match ?x with _ => _ end) _ => set (m' := x)
  end.
  assert (Hm' : 2 ^ 52 <= m').
  { unfold m'. destruct (2 * r <? 2 ^ e); [exact Hm|].
    destruct (2 ^ e <? 2 * r); [lia|]. destruct (Z.even m); lia. }
  destruct m' as [|pm|pm]; [lia| |lia].
  match goal with
  | |- reaches (if ?b then _ else _) _ => destruct b
  end; [left; reflexivity|].
  pose proof (canon_spec pm e) as [C1 C2].
  destruct (canon pm e) as [cm ce]. cbn [fst snd] in C1, C2.
  right. exists (Zpos cm * 2 ^ ce). split.
  - cbn [integer_value signed].
    replace (0 <=? ce) with true by (symmetry; apply Z.leb_le; lia). reflexivity.
  - replace (2 ^ ce) with (2 ^ (ce - e) * 2 ^ e)
      by (rewrite <- Z.pow_add_r by lia; f_equal; lia).
    rewrite Z.mul_assoc, C2.
    assert (2 ^ 1 <= 2 ^ e) by (apply Z.pow_le_mono_r; lia).
    change (2 ^ 53) with (2 ^ 52 * 2 ^ 1). nia.
Qed.

(** *** Numbers that are integers *)

Lemma num_of_Z_exact (z : Z) :
  0 < z < 2 ^ 53 ->
  num_of_Z z = Fin false (fst (canon (Z.to_pos z) 0)) (snd (canon (Z.to_pos z) 0)).
Proof.
  intros Hz. unfold num_of_Z, num_of_decimal.
  replace (z <? 0) with false by (symmetry; apply Z.ltb_ge; lia).
  replace (Z.abs z <=? 0) with false by (symmetry; apply Z.leb_gt; lia).
  change (0 <=? 0) with true; cbv iota. apply round_ratio_grid; try lia.
  change (0 <=? 0) with true; cbv iota. rewrite Z2Pos.id by lia. change (10 ^ 0) with 1. change (2 ^ 0) with 1. lia.
Qed.

Lemma integer_value_Fin (neg : bool) (m : positive) (e : Z) :
  0 <= e -> integer_value (Fin neg m e) = Some (signed neg (Zpos m * 2 ^ e)).
Proof.
  intros He. cbn [integer_value].
  replace (0 <=? e) with true by (symmetry; apply Z.leb_le; lia). reflexivity.
Qed.

Lemma canon_integer (z : Z) :
  0 < z ->
  0 <= snd (canon (Z.to_pos z) 0)
  /\ Zpos (fst (canon (Z.to_pos z) 0)) * 2 ^ snd (canon (Z.to_pos z) 0) = z.
Proof.
  intros Hz. destruct (canon_spec (Z.to_pos z) 0) as [C1 C2].
  rewrite Z.sub_0_r, Z2Pos.id in C2 by lia. auto.
Qed.

Lemma integer_value_num_of_Z (z : Z) :
  0 <= z < 2 ^ 53 -> integer_value (num_of_Z z) = Some z.
Proof.
  intros Hz. destruct (Z.eq_dec z 0) as [->|Hn]; [reflexivity|].
  rewrite num_of_Z_exact by lia.
  destruct (@canon_integer z ltac:(lia)) as [C1 C2].
  rewrite integer_value_Fin by exact C1. cbn [signed]. rewrite C2. reflexivity.
Qed.

Lemma num_of_Z_big (z : Z) : 2 ^ 53 <= z -> reaches (num_of_Z z) (2 ^ 53).
Proof.
  intros Hz. unfold num_of_Z, num_of_decimal.
  replace (z <? 0) with false by (symmetry; apply Z.ltb_ge; lia).
  replace (Z.abs z <=? 0) with false by (symmetry; apply Z.leb_gt; lia).
  change (0 <=? 0) with true; cbv iota. change (10 ^ 0) with 1. rewrite Z.mul_1_r, Z.abs_eq by lia.
  apply round_ratio_big. exact Hz.
Qed.

Lemma integer_value_cases (x : num) (a : Z) :
  integer_value x = Some a ->
  (exists s, x = Zero s /\ a = 0)
  \/ (exists neg m e, x = Fin neg m e /\ 0 <= e /\ a = signed neg (Zpos m * 2 ^ e)).
Proof.
  destruct x as [|s|s|neg m e]; try discriminate; cbn [integer_value].
  - intros H. injection H as <-. left. eauto.
  - destruct (Z.leb_spec 0 e) as [He|He]; [|discriminate].
    intros H. injection H as <-. right. exists neg, m, e. auto.
Qed.

Lemma positive_integer (x : num) (a : Z) :
  integer_value x = Some a -> 0 < a ->
  exists m e, x = Fin false m e /\ 0 <= e /\ a = Zpos m * 2 ^ e.
Proof.
  intros H Ha. destruct (integer_value_cases x H) as [[s [-> ->]]|[neg [m [e [-> [He ->]]]]]].
  - lia.
  - pose proof (@pow2_pos e He). destruct neg; cbn [signed] in *; [lia|]. eauto.
Qed.

(** A positive integer is a positive Number. *)
Lemma num_of_Z_positive (z : Z) :
  0 < z -> num_of_Z z = Inf false \/ exists m e, num_of_Z z = Fin false m e.
Proof.
  intros Hz. destruct (Z.lt_ge_cases z (2 ^ 53)) as [H|H].
  - right. rewrite num_of_Z_exact by lia. eauto.
  - destruct (num_of_Z_big H) as [E|[v [E Hv]]]; [left; exact E|right].
    destruct (@positive_integer (num_of_Z z) v E ltac:(lia)) as [m [e [Hx _]]]. eauto.
Qed.

Lemma num_add_Fin_integers (m n : positive) (e f : Z) :
  0 <= e -> 0 <= f ->
  num_add (Fin false m e) (Fin false n f) = num_of_Z (Zpos m * 2 ^ e + Zpos n * 2 ^ f).
Proof.
  intros He Hf. cbn [num_add signed]. set (g := Z.min e f).
  pose proof (@pow2_pos (e - g) ltac:(lia)). pose proof (@pow2_pos (f - g) ltac:(lia)).
  pose proof (@pow2_pos g ltac:(lia)) as Hg.
  pose proof (@pow2_pos e He). pose proof (@pow2_pos f Hf).
  set (z := Zpos m * 2 ^ (e - g) + Zpos n * 2 ^ (f - g)).
  assert (Hz : 0 < z) by (unfold z; lia).
  assert (Hzg : z * 2 ^ g = Zpos m * 2 ^ e + Zpos n * 2 ^ f).
  { unfold z. rewrite Z.mul_add_distr_r, <- !Z.mul_assoc, <- !Z.pow_add_r by lia.
    replace (e - g + g) with e by lia. replace (f - g + g) with f by lia. reflexivity. }
  unfold num_of_scaled, num_of_Z, num_of_decimal.
  replace (z =? 0) with false by (symmetry; apply Z.eqb_neq; lia).
  replace (0 <=? g) with true by (symmetry; apply Z.leb_le; lia).
  replace (z <? 0) with false by (symmetry; apply Z.ltb_ge; lia).
  rewrite <- Hzg.
  replace (z * 2 ^ g <? 0) with false by (symmetry; apply Z.ltb_ge; lia).
  replace (Z.abs (z * 2 ^ g) <=? 0) with false by (symmetry; apply Z.leb_gt; lia).
  change (0 <=? 0) with true; cbv iota. change (10 ^ 0) with 1.
  rewrite Z.mul_1_r, !Z.abs_eq by lia. reflexivity.
Qed.

Lemma num_add_integers (x y : num) (a b : Z) :
  integer_value x = Some a -> integer_value y = Some b -> 0 <= a -> 0 < b ->
  (a + b < 2 ^ 53 -> integer_value (num_add x y) = Some (a + b))
  /\ (2 ^ 53 <= a + b -> reaches (num_add x y) (2 ^ 53)).
Proof.
  intros Hx Hy Ha Hb.
  destruct (positive_integer y Hy Hb) as [n [f [-> [Hf ->]]]].
  destruct (integer_value_cases x Hx) as [[s [-> ->]]|[neg [m [e [-> [He ->]]]]]].
  - cbn [num_add]. rewrite Z.add_0_l. split.
    + intros _. exact Hy.
    + intros H. right. eexists. split; [exact Hy|exact H].
  - pose proof (@pow2_pos e He).
    destruct neg; cbn [signed] in *.
    { destruct (Z.eq_dec (Zpos m * 2 ^ e) 0); lia. }
    rewrite num_add_Fin_integers by assumption. split.
    + intros H1. apply integer_value_num_of_Z. lia.
    + apply num_of_Z_big.
Qed.

Lemma num_ltb_integers (x y : num) (a b : Z) :
  integer_value x = Some a -> integer_value y = Some b ->
  num_ltb x y = (a <? b).
Proof.
  intros Hx Hy.
  destruct (integer_value_cases x Hx) as [[s [-> ->]]|[s [m [e [-> [He ->]]]]]];
    destruct (integer_value_cases y Hy) as [[t [-> ->]]|[t [n [f [-> [Hf ->]]]]]];
    cbn [num_ltb].
  - reflexivity.
  - pose proof (@pow2_pos f Hf). destruct t; cbn [signed negb]; symmetry;
      [apply Z.ltb_ge|apply Z.ltb_lt]; lia.
  - pose proof (@pow2_pos e He). destruct s; cbn [signed]; symmetry;
      [apply Z.ltb_lt|apply Z.ltb_ge]; lia.
  - set (g := Z.min e f).
    pose proof (@pow2_pos g ltac:(lia)) as Hg.
    assert (E1 : Zpos m * 2 ^ e = Zpos m * 2 ^ (e - g) * 2 ^ g).
    { rewrite <- Z.mul_assoc, <- Z.pow_add_r by lia. do 2 f_equal. lia. }
    assert (E2 : Zpos n * 2 ^ f = Zpos n * 2 ^ (f - g) * 2 ^ g).
    { rewrite <- Z.mul_assoc, <- Z.pow_add_r by lia. do 2 f_equal. lia. }
    rewrite E1, E2.
    assert (S1 : forall (u : bool) (v : Z), signed u (v * 2 ^ g) = signed u v * 2 ^ g)
      by (intros [] v; cbn [signed]; ring).
    rewrite !S1.
    destruct (Z.ltb_spec (signed s (Zpos m * 2 ^ (e - g)))
                (signed t (Zpos n * 2 ^ (f - g)))) as [H|H]; symmetry.
    + apply Z.ltb_lt. apply Z.mul_lt_mono_pos_r; assumption.
    + apply Z.ltb_ge. apply Z.mul_le_mono_nonneg_r; lia.
Qed.

Lemma reaches_not_below (x y : num) (c b : Z) :
  reaches x c -> integer_value y = Some b -> b <= c -> num_ltb x y = false.
Proof.
  intros [->|[v [Hv Hc]]] Hy Hb.
  - destruct (integer_value_cases y Hy) as [[t [-> _]]|[t [n [f [-> _]]]]]; reflexivity.
  - rewrite (num_ltb_integers x y Hv Hy). apply Z.ltb_ge. lia.
Qed.

Lemma ToInteger_integer (x : num) (a : Z) :
  integer_value x = Some a -> ToIntegerOrInfinity x = Integer a.
Proof.
  intros Hx.
  destruct (integer_value_cases x Hx) as [[s [-> ->]]|[s [m [e [-> [He ->]]]]]].
  - reflexivity.
  - cbn [ToIntegerOrInfinity].
    replace (0 <=? e) with true by (symmetry; apply Z.leb_le; lia). reflexivity.
Qed.

Lemma relative_index_reaches (x : num) (c len : Z) :
  reaches x c -> 0 <= len <= c ->
  relative_index len (ToIntegerOrInfinity x) = len.
Proof.
  intros [->|[v [Hv Hc]]] Hl.
  - reflexivity.
  - rewrite (ToInteger_integer x Hv). cbn [relative_index].
    destruct (Z.ltb_spec v 0); lia.
Qed.

Lemma num_div_integers (x y : num) (k b : Z) :
  integer_value x = Some (k * b) -> integer_value y = Some b ->
  0 < b -> 0 < k < 2 ^ 53 ->
  num_div x y = num_of_Z k.
Proof.
  intros Hx Hy Hb Hk.
  destruct (positive_integer y Hy Hb) as [n [f [-> [Hf Eb]]]].
  destruct (positive_integer x Hx ltac:(nia)) as [m [e [-> [He Ea]]]].
  cbn [num_div xorb]. set (g := Z.min e f).
  pose proof (@pow2_pos g ltac:(lia)) as Hg.
  pose proof (@pow2_pos (e - g) ltac:(lia)). pose proof (@pow2_pos (f - g) ltac:(lia)).
  assert (E1 : Zpos m * 2 ^ e = Zpos m * 2 ^ (e - g) * 2 ^ g).
  { rewrite <- Z.mul_assoc, <- Z.pow_add_r by lia. do 2 f_equal. lia. }
  assert (E2 : Zpos n * 2 ^ f = Zpos n * 2 ^ (f - g) * 2 ^ g).
  { rewrite <- Z.mul_assoc, <- Z.pow_add_r by lia. do 2 f_equal. lia. }
  assert (E3 : Zpos m * 2 ^ (e - g) = k * (Zpos n * 2 ^ (f - g))).
  { apply (Z.mul_cancel_r _ _ (2 ^ g)); [lia|].
    rewrite <- E1, <- Ea, Eb, E2. ring. }
  rewrite num_of_Z_exact by lia.
  rewrite (@round_ratio_grid false _ _ (Z.to_pos k) 0); try lia; [reflexivity|].
  change (0 <=? 0) with true; cbv iota. rewrite Z2Pos.id by lia. change (2 ^ 0) with 1. rewrite E3. ring.
Qed.

(** The number of the batch at index [k * b], for the batch size [b]. *)
Lemma batch_number_integers (i s : num) (k b : Z) :
  integer_value i = Some (k * b) -> integer_value s = Some b ->
  0 < b -> 0 <= k -> k + 1 < 2 ^ 53 ->
  num_add (Math_floor (num_div i s)) (num_of_Z 1) = num_of_Z (k + 1).
Proof.
  intros Hi Hs Hb Hk Hk1.
  assert (H1 : num_of_Z 1 = Fin false 1 0) by reflexivity.
  destruct (Z.eq_dec k 0) as [->|Hn].
  - destruct (positive_integer s Hs Hb) as [n [f [-> _]]].
    destruct (integer_value_cases i Hi) as [[t [-> _]]|[t [m [e [-> [He Ea]]]]]].
    + reflexivity.
    + exfalso. rewrite Z.mul_0_l in Ea. pose proof (@pow2_pos e He).
      destruct t; cbn [signed] in Ea; lia.
  - rewrite (num_div_integers i s Hi Hs Hb) by lia.
    rewrite num_of_Z_exact by lia.
    destruct (@canon_integer k ltac:(lia)) as [C1 C2].
    cbn [Math_floor].
    replace (0 <=? snd (canon (Z.to_pos k) 0)) with true
      by (symmetry; apply Z.leb_le; exact C1).
    rewrite H1, num_add_Fin_integers by lia. rewrite C2. reflexivity.
Qed.

End NumberLemmas.

(** ** The export in batches *)

(** *** The loop on integers *)

Section BatchExport.

Variable allData : list ProcessedWord.
Variable splitCount : Z.

Local Abbreviation L := (Z.of_nat (List.length allData)).

Lemma integer_loop_done (fuel : nat) (i : Z) :
  (L <= i)%Z -> integer_loop fuel allData splitCount i = Some [].
Proof.
  intros H. destruct fuel; simpl;
    (destruct (Z.ltb_spec i L); [lia|reflexivity]).
Qed.

Lemma integer_loop_step (fuel : nat) (i : Z) :
  (i < L)%Z ->
  integer_loop (S fuel) allData splitCount i
  = match integer_loop fuel allData splitCount (i + splitCount) with
    | Some ds => Some (batch_at allData splitCount i :: ds)
    | None => None
    end.
Proof.
  intros H. simpl. destruct (Z.ltb_spec i L); [reflexivity|lia].
Qed.

Lemma integer_loop_out_of_fuel (i : Z) :
  (i < L)%Z -> integer_loop 0 allData splitCount i = None.
Proof.
  intros H. simpl. destruct (Z.ltb_spec i L); [reflexivity|lia].
Qed.

Lemma ceil_div_step (x : Z) :
  (0 < splitCount)%Z -> (0 < x)%Z ->
  Z.to_nat (Z.max 0 (ceil_div x splitCount))
  = S (Z.to_nat (Z.max 0 (ceil_div (x - splitCount) splitCount))).
Proof.
  intros Hb Hx. unfold ceil_div.
  replace (x + splitCount - 1)%Z with ((x - 1) + 1 * splitCount)%Z by lia.
  rewrite Z.div_add by lia.
  replace (x - splitCount + splitCount - 1)%Z with (x - 1)%Z by lia.
  assert (0 <= (x - 1) / splitCount)%Z by (apply Z.div_pos; lia).
  lia.
Qed.

Lemma ceil_div_nonpositive (x : Z) :
  (0 < splitCount)%Z -> (x <= 0)%Z -> Z.max 0 (ceil_div x splitCount) = 0%Z.
Proof.
  intros Hb Hx. unfold ceil_div.
  assert ((x + splitCount - 1) / splitCount < 1)%Z
    by (apply Z.div_lt_upper_bound; lia).
  lia.
Qed.

(** With a positive batch size the loop ends, and its downloads are those
    of the indices [i], [i + splitCount], ... below the length. *)
Lemma integer_loop_runs (fuel : nat) :
  (0 < splitCount)%Z ->
  forall i, (0 <= i)%Z -> (L - i <= Z.of_nat fuel * splitCount)%Z ->
    integer_loop fuel allData splitCount i
    = Some (List.map (fun j => batch_at allData splitCount (i + Z.of_nat j * splitCount))
              (seq 0 (Z.to_nat (Z.max 0 (ceil_div (L - i) splitCount))))).
Proof.
  intros Hb. induction fuel as [|fuel IH]; intros i Hi Hf.
  - rewrite integer_loop_done by lia.
    rewrite ceil_div_nonpositive by lia. reflexivity.
  - destruct (Z.lt_ge_cases i L) as [Hlt|Hge].
    + rewrite integer_loop_step; [|lia]. rewrite IH; [| lia | nia].
      rewrite (ceil_div_step (x := L - i) Hb) by lia.
      replace (L - (i + splitCount))%Z with (L - i - splitCount)%Z by lia.
      cbn [seq List.map]. rewrite <- seq_shift, map_map.
      f_equal. f_equal.
      * f_equal. lia.
      * apply map_ext. intros j. f_equal. lia.
    + rewrite integer_loop_done by lia.
      rewrite ceil_div_nonpositive by lia. reflexivity.
Qed.

Lemma slice_Z_nat (i : Z) :
  (0 <= i)%Z -> (0 < splitCount)%Z ->
  slice_Z allData i (i + splitCount)
  = firstn (Z.to_nat splitCount) (skipn (Z.to_nat i) allData).
Proof.
  intros Hi Hb. unfold slice_Z.
  destruct (Z.ltb_spec i 0); [lia|].
  destruct (Z.ltb_spec (i + splitCount) 0); [lia|].
  destruct (Z.le_gt_cases i L) as [Hle|Hgt].
  - rewrite (Z.min_l i L) by lia.
    destruct (Z.le_gt_cases (i + splitCount) L).
    + rewrite Z.min_l by lia. f_equal. lia.
    + rewrite Z.min_r by lia.
      rewrite (firstn_all2 (n := Z.to_nat splitCount)).
      * apply firstn_all2. rewrite length_skipn. lia.
      * rewrite length_skipn. lia.
  - rewrite !skipn_all2 by (lia).
    rewrite !firstn_nil. reflexivity.
Qed.

(** The chunks are consecutive: put end to end from index [i] on, they
    are the records from [i] on. *)
Lemma integer_loop_consecutive (fuel : nat) :
  (0 < splitCount)%Z ->
  forall i ds, (0 <= i)%Z ->
    integer_loop fuel allData splitCount i = Some ds ->
    flat_map payload ds = skipn (Z.to_nat i) allData.
Proof.
  intros Hb. induction fuel as [|fuel IH]; intros i ds Hi H.
  - destruct (Z.lt_ge_cases i L) as [Hlt|Hge].
    + rewrite integer_loop_out_of_fuel in H by lia. discriminate.
    + rewrite integer_loop_done in H by lia. injection H as <-.
      rewrite skipn_all2 by (lia). reflexivity.
  - destruct (Z.lt_ge_cases i L) as [Hlt|Hge].
    + rewrite integer_loop_step in H by lia.
      destruct (integer_loop fuel allData splitCount (i + splitCount)) as [ds'|] eqn:E;
        [|discriminate].
      injection H as <-. cbn [flat_map]. rewrite (IH (i + splitCount)%Z ds' ltac:(lia) E).
      unfold batch_at, downloadJSON; cbn [payload].
      rewrite slice_Z_nat by lia.
      replace (Z.to_nat (i + splitCount)) with (Z.to_nat splitCount + Z.to_nat i) by lia.
      rewrite <- skipn_skipn. apply firstn_skipn.
    + rewrite integer_loop_done in H by lia. injection H as <-.
      rewrite skipn_all2 by (lia). reflexivity.
Qed.

End BatchExport.

(** The name of the first batch. *)
Lemma first_batch_name (allData : list ProcessedWord) (splitCount : Z) :
  (0 < splitCount)%Z ->
  (batch_at allData splitCount 0).(filename) = str "vocabulary_batch_1.json".
Proof.
  intros Hb. unfold batch_at.
  rewrite Z.div_0_l by lia. vm_compute. reflexivity.
Qed.

(** *** The loop on Numbers *)

Lemma export_loop_done (fuel : nat) (allData : list ProcessedWord) (splitCount i : num) :
  num_ltb i (num_of_nat (List.length allData)) = false ->
  export_loop fuel allData splitCount i = Some [].
Proof. intros H. destruct fuel; cbn [export_loop]; rewrite H; reflexivity. Qed.

Lemma Array_slice_integers {A} (l : list A) (x y : num) (a b : Z) :
  ToIntegerOrInfinity x = Integer a ->
  relative_index (Z.of_nat (List.length l)) (ToIntegerOrInfinity y)
  = relative_index (Z.of_nat (List.length l)) (Integer b) ->
  Array_slice l x y = slice_Z l a b.
Proof.
  intros Hx Hy. unfold Array_slice, slice_Z. rewrite Hx, Hy. reflexivity.
Qed.

(** For a batch size that is a positive integer and a list shorter than
    2^53, the loop on Numbers is the loop on integers: the index is an
    integer at every turn, and the turn at which it stops being one is the
    last. *)
Lemma export_loop_integers (allData : list ProcessedWord) (splitCount : num) (B : Z) :
  integer_value splitCount = Some B -> (0 < B)%Z ->
  (Z.of_nat (List.length allData) < 2 ^ 53)%Z ->
  forall fuel (i : num) (k : Z),
    integer_value i = Some (k * B)%Z -> (0 <= k)%Z ->
    export_loop fuel allData splitCount i = integer_loop fuel allData B (k * B).
Proof.
  intros Hs Hb HL.
  assert (HLv : integer_value (num_of_nat (List.length allData))
                = Some (Z.of_nat (List.length allData)))
    by (apply integer_value_num_of_Z; lia).
  induction fuel as [|fuel IH]; intros i k Hi Hk.
  - cbn [export_loop integer_loop]. rewrite (num_ltb_integers _ _ Hi HLv). reflexivity.
  - cbn [export_loop integer_loop]. rewrite (num_ltb_integers _ _ Hi HLv).
    destruct (Z.ltb_spec (k * B) (Z.of_nat (List.length allData))) as [Hlt|Hge];
      [|reflexivity].
    assert (Hk1 : (k + 1 < 2 ^ 53)%Z) by nia.
    rewrite (batch_number_integers i splitCount Hi Hs Hb Hk Hk1).
    destruct (@num_add_integers i splitCount (k * B) B Hi Hs ltac:(nia) Hb)
      as [Hsmall Hbig].
    assert (Hchunk : Array_slice allData i (num_add i splitCount)
                     = slice_Z allData (k * B) (k * B + B)).
    { apply Array_slice_integers; [apply ToInteger_integer; exact Hi|].
      destruct (Z.lt_ge_cases (k * B + B) (2 ^ 53)) as [H1|H1].
      - rewrite (ToInteger_integer _ (Hsmall H1)). reflexivity.
      - rewrite (@relative_index_reaches _ (2 ^ 53) _ (Hbig H1)) by lia.
        cbn [relative_index]. destruct (Z.ltb_spec (k * B + B) 0); lia. }
    rewrite Hchunk. unfold batch_at. rewrite Z.div_mul by lia.
    destruct (Z.lt_ge_cases (k * B + B) (2 ^ 53)) as [H1|H1].
    + rewrite (IH (num_add i splitCount) (k + 1)%Z); [| |lia].
      * replace ((k + 1) * B)%Z with (k * B + B)%Z by ring. reflexivity.
      * replace ((k + 1) * B)%Z with (k * B + B)%Z by ring. exact (Hsmall H1).
    + rewrite export_loop_done, integer_loop_done; [reflexivity|lia|].
      apply (@reaches_not_below _ _ (2 ^ 53)%Z _ (Hbig H1) HLv). lia.
Qed.

(** A sum of Numbers that are zero or negative is zero or negative. *)
Lemma num_add_not_positive (a b : num) :
  not_positive a = true -> not_positive b = true -> not_positive (num_add a b) = true.
Proof.
  destruct a as [|s|s|s m e], b as [|t|t|t n f]; cbn [not_positive num_add];
    intros Ha Hb; try discriminate; subst; try reflexivity.
  cbn [signed]. unfold num_of_scaled.
  set (g := Z.min e f).
  pose proof (@pow2_pos (e - g) ltac:(lia)). pose proof (@pow2_pos (f - g) ltac:(lia)).
  set (z := (- (Zpos m * 2 ^ (e - g)) + - (Zpos n * 2 ^ (f - g)))%Z).
  assert (Hz : (z < 0)%Z) by (unfold z; lia).
  replace (z =? 0)%Z with false by (symmetry; apply Z.eqb_neq; lia).
  replace (z <? 0)%Z with true by (symmetry; apply Z.ltb_lt; lia).
  destruct (0 <=? g)%Z.
  - pose proof (round_ratio_sign true (Z.abs z * 2 ^ g) 1) as Hr.
    destruct (round_ratio true (Z.abs z * 2 ^ g) 1); [contradiction|subst..]; reflexivity.
  - pose proof (round_ratio_sign true (Z.abs z) (2 ^ (- g))) as Hr.
    destruct (round_ratio true (Z.abs z) (2 ^ (- g))); [contradiction|subst..]; reflexivity.
Qed.

(** A Number that is zero or negative is below the length of a list that
    is not empty. *)
Lemma not_positive_below (i : num) (n : nat) :
  not_positive i = true -> (0 < n)%nat -> num_ltb i (num_of_nat n) = true.
Proof.
  intros Hi Hn. unfold num_of_nat.
  destruct (@num_of_Z_positive (Z.of_nat n) ltac:(lia)) as [->|[m [e ->]]];
    destruct i as [|s|s|s k f]; cbn [not_positive num_ltb] in *;
    try discriminate; subst; try reflexivity.
  cbn [signed]. set (g := Z.min f e).
  pose proof (@pow2_pos (f - g) ltac:(lia)). pose proof (@pow2_pos (e - g) ltac:(lia)).
  apply Z.ltb_lt. lia.
Qed.

(** With a batch size that is zero or negative the index never grows: the
    loop is still running whatever the fuel. *)
Lemma export_loop_never_ends (allData : list ProcessedWord) (splitCount : num) :
  allData <> [] -> not_positive splitCount = true ->
  forall fuel i, not_positive i = true -> export_loop fuel allData splitCount i = None.
Proof.
  intros Hne Hs.
  assert (Hn : (0 < List.length allData)%nat)
    by (destruct allData; [contradiction|cbn; lia]).
  induction fuel as [|fuel IH]; intros i Hi; cbn [export_loop];
    rewrite (not_positive_below i Hi Hn); [reflexivity|].
  rewrite IH; [reflexivity|]. apply num_add_not_positive; assumption.
Qed.

Lemma export_loop_downloads (allData : list ProcessedWord) (splitCount : num) :
  forall fuel i ds d,
    export_loop fuel allData splitCount i = Some ds -> In d ds ->
    exists name chunk, d = downloadJSON name chunk.
Proof.
  induction fuel as [|fuel IH]; intros i ds d H Hd; cbn [export_loop] in H.
  - destruct (num_ltb i (num_of_nat (List.length allData))); [discriminate|].
    injection H as <-. contradiction.
  - destruct (num_ltb i (num_of_nat (List.length allData))).
    + destruct (export_loop fuel allData splitCount (num_add i splitCount)) as [ds'|] eqn:E;
        [|discriminate].
      injection H as <-. destruct Hd as [<-|Hd]; [eauto|].
      eapply IH; eassumption.
    + injection H as <-. contradiction.
Qed.

(** The export by quantity, for a batch size that is an integer. *)
Lemma handleExportByQuantity_integers (results : list FileResult) (splitCount : num)
  (B : Z) (fuel : nat) :
  integer_value splitCount = Some B -> (0 < B)%Z ->
  (Z.of_nat (List.length (flat_map data results)) < 2 ^ 53)%Z ->
  handleExportByQuantity fuel results splitCount
  = integer_loop fuel (flat_map data results) B 0.
Proof.
  intros Hs Hb HL. unfold handleExportByQuantity.
  apply (@export_loop_integers (flat_map data results) splitCount B Hs Hb HL
           fuel (Zero false) 0%Z); [reflexivity|lia].
Qed.

Lemma not_positive_integer (x : num) (a : Z) :
  integer_value x = Some a -> (a <= 0)%Z -> not_positive x = true.
Proof.
  intros Hx Ha.
  destruct (integer_value_cases x Hx) as [[s [-> _]]|[s [m [e [-> [He Ea]]]]]];
    [reflexivity|].
  pose proof (@pow2_pos e He). destruct s; [reflexivity|]. cbn [signed] in Ea. lia.
Qed.

(** The length of a list that is not empty is, as a Number, infinite or an
    integer of at least 1. *)
Lemma num_of_nat_at_least_one (n : nat) :
  (0 < n)%nat ->
  num_of_nat n = Inf false
  \/ exists m e, num_of_nat n = Fin false m e /\ (0 <= e)%Z.
Proof.
  intros Hn. unfold num_of_nat.
  destruct (Z.lt_ge_cases (Z.of_nat n) (2 ^ 53)) as [H|H].
  - destruct (@positive_integer (num_of_Z (Z.of_nat n)) (Z.of_nat n)
                (@integer_value_num_of_Z (Z.of_nat n) ltac:(lia)) ltac:(lia))
      as [m [e [-> [He _]]]].
    right. exists m, e. split; [reflexivity|exact He].
  - destruct (num_of_Z_big H) as [->|[v [Hv Hv']]]; [left; reflexivity|].
    destruct (@positive_integer _ v Hv ltac:(lia)) as [m [e [-> [He _]]]].
    right. exists m, e. split; [reflexivity|exact He].
Qed.

(** The smallest positive Number, 2^-1074, as a batch size: the index
    climbs by it for 2^53 turns up to 2^-1021, and from there on the sum
    rounds back to the index.  It is below 1 at every turn. *)
Lemma export_loop_smallest_size (allData : list ProcessedWord) :
  allData <> [] ->
  forall fuel i,
    (i = Zero false
     \/ exists K, (0 < K <= 2 ^ 53)%Z
          /\ i = Fin false (fst (canon (Z.to_pos K) (-1074)))
                           (snd (canon (Z.to_pos K) (-1074)))) ->
    export_loop fuel allData (Fin false 1 (-1074)) i = None.
Proof.
  intros Hne.
  assert (Hn : (0 < List.length allData)%nat)
    by (destruct allData; [contradiction|cbn; lia]).
  assert (Hlt : forall i,
    (i = Zero false
     \/ exists K, (0 < K <= 2 ^ 53)%Z
          /\ i = Fin false (fst (canon (Z.to_pos K) (-1074)))
                           (snd (canon (Z.to_pos K) (-1074)))) ->
    num_ltb i (num_of_nat (List.length allData)) = true).
  { intros i [->|[K [HK ->]]];
      destruct (num_of_nat_at_least_one Hn) as [->|[n [f [-> Hf]]]];
      try reflexivity.
    destruct (canon_spec (Z.to_pos K) (-1074)) as [He Hm].
    set (m := fst (canon (Z.to_pos K) (-1074))) in *.
    set (e := snd (canon (Z.to_pos K) (-1074))) in *.
    rewrite Z2Pos.id in Hm by lia.
    assert (He' : (e < 0)%Z).
    { destruct (Z.lt_ge_cases e 0) as [H|H]; [exact H|exfalso].
      assert (2 ^ 1074 <= 2 ^ (e - -1074))%Z by (apply Z.pow_le_mono_r; lia).
      assert (2 ^ 53 < 2 ^ 1074)%Z by (apply Z.pow_lt_mono_r; lia).
      assert (2 ^ (e - -1074) <= Zpos m * 2 ^ (e - -1074))%Z by nia.
      lia. }
    cbn [num_ltb signed]. rewrite Z.min_l by lia.
    apply Z.ltb_lt. rewrite Z.sub_diag, Z.mul_1_r.
    pose proof (@pow2_pos f Hf). pose proof (@pow2_pos (- e) ltac:(lia)).
    assert (Hme : (Zpos m < 2 ^ (- e))%Z).
    { apply (Z.mul_lt_mono_pos_r (2 ^ (e - -1074))); [apply pow2_pos; lia|].
      rewrite <- Z.pow_add_r by lia. replace (- e + (e - -1074))%Z with 1074%Z by lia.
      assert (2 ^ 53 < 2 ^ 1074)%Z by (apply Z.pow_lt_mono_r; lia). lia. }
    replace (f - e)%Z with (f + - e)%Z by lia. rewrite Z.pow_add_r by lia.
    assert (1 <= Zpos n * 2 ^ f)%Z by nia.
    pose proof (Z.mul_le_mono_nonneg_r 1 (Zpos n * 2 ^ f) (2 ^ (- e))
                  ltac:(lia) ltac:(assumption)).
    lia. }
  induction fuel as [|fuel IH]; intros i Hi; cbn [export_loop]; rewrite (Hlt i Hi);
    [reflexivity|].
  rewrite IH; [reflexivity|]. right.
  destruct Hi as [->|[K [HK ->]]].
  - exists 1%Z. split; [lia|]. reflexivity.
  - destruct (canon_spec (Z.to_pos K) (-1074)) as [He Hm].
    set (m := fst (canon (Z.to_pos K) (-1074))) in *.
    set (e := snd (canon (Z.to_pos K) (-1074))) in *.
    rewrite Z2Pos.id in Hm by lia.
    assert (Hsum : num_add (Fin false m e) (Fin false 1 (-1074))
                   = round_ratio false (K + 1) (2 ^ 1074)).
    { cbn [num_add signed]. rewrite Z.min_r by lia. rewrite Hm.
      unfold num_of_scaled.
      replace (-1074 - -1074)%Z with 0%Z by lia.
      change (Zpos 1 * 2 ^ 0)%Z with 1%Z.
      destruct (Z.eqb_spec (K + 1) 0); [lia|].
      change (0 <=? -1074)%Z with false. cbv iota.
      destruct (Z.ltb_spec (K + 1) 0); [lia|].
      rewrite Z.abs_eq by lia. reflexivity. }
    rewrite Hsum.
    destruct (Z.lt_ge_cases (K + 1) (2 ^ 53)) as [H|H].
    + exists (K + 1)%Z. split; [lia|].
      apply round_ratio_grid; [lia|apply pow2_pos; lia| |lia|].
      * rewrite Z2Pos.id by lia. exact H.
      * change (0 <=? -1074)%Z with false. cbv iota.
        rewrite Z2Pos.id by lia. reflexivity.
    + exists (2 ^ 53)%Z. split; [lia|].
      assert (HK' : (K + 1 = 2 ^ 53 \/ K + 1 = 2 ^ 53 + 1)%Z) by lia.
      destruct HK' as [HK'|HK']; rewrite HK'; vm_compute; reflexivity.
Qed.

(** C7, amended.  For a batch size that is a positive integer B and L
    merged records the export makes ceil(L/B) downloads.  The k-th (from 0)
    is named after the number k+1 and holds the B records from index k*B
    on, fewer when the list ends before: the chunks are consecutive, every
    one but the last has B records, the last has between 1 and B.  The
    first name is [vocabulary_batch_1.json]. *)
Theorem export_by_quantity (results : list FileResult) (splitCount : num) (B : Z) :
  integer_value splitCount = Some B -> (0 < B)%Z ->
  (Z.of_nat (List.length (flat_map data results)) < 2 ^ 53)%Z ->
  let allData := flat_map data results in
  let L := Z.of_nat (List.length allData) in
  let size := Z.to_nat B in
  exists ds,
    (forall fuel, (Z.to_nat (ceil_div L B) <= fuel)%nat ->
       handleExportByQuantity fuel results splitCount = Some ds)
    /\ Z.of_nat (List.length ds) = ceil_div L B
    /\ (forall k d, nth_error ds k = Some d ->
          d = downloadJSON (str "vocabulary_batch_" ++
                            Number_toString (num_of_Z (Z.of_nat k + 1)))
                           (firstn size (skipn (k * size) allData))
          /\ (1 <= List.length d.(payload) <= size)%nat
          /\ (S k < List.length ds -> List.length d.(payload) = size)%nat)
    /\ flat_map payload ds = allData
    /\ (forall d, nth_error ds 0 = Some d ->
          d.(filename) = str "vocabulary_batch_1.json").
Proof.
  intros Hs Hb Hlen allData L size.
  assert (HL : (0 <= L)%Z) by (unfold L; lia).
  assert (Hc : (0 <= ceil_div L B)%Z)
    by (unfold ceil_div; apply Z.div_pos; lia).
  assert (Hn : Z.max 0 (ceil_div (L - 0) B) = ceil_div L B)
    by (rewrite Z.sub_0_r; lia).
  set (n := Z.to_nat (ceil_div L B)).
  assert (Hup : (L <= Z.of_nat n * B)%Z).
  { unfold n. rewrite Z2Nat.id by lia. unfold ceil_div.
    pose proof (Z.mul_succ_div_gt (L + B - 1) B Hb). nia. }
  assert (Hlow : (0 < n)%nat -> (Z.of_nat (n - 1) * B < L)%Z).
  { intros Hpos. unfold n in *. rewrite Nat2Z.inj_sub by lia.
    rewrite Z2Nat.id by lia. unfold ceil_div in *.
    pose proof (Z.mul_div_le (L + B - 1) B Hb). nia. }
  exists (List.map (fun j => batch_at allData B (0 + Z.of_nat j * B)) (seq 0 n)).
  assert (Hrun : forall fuel, (n <= fuel)%nat ->
            handleExportByQuantity fuel results splitCount
            = Some (List.map (fun j => batch_at allData B (0 + Z.of_nat j * B))
                      (seq 0 n))).
  { intros fuel Hf. rewrite (@handleExportByQuantity_integers results splitCount B fuel Hs Hb Hlen).
    fold allData.
    rewrite integer_loop_runs; [| lia | lia | fold L; nia].
    fold L. rewrite Hn. reflexivity. }
  split; [exact Hrun|].
  split; [rewrite length_map, length_seq; unfold n; lia|].
  split.
  - intros k d Hk.
    assert (Hkn : (k < n)%nat).
    { assert (Hlen' : nth_error (List.map (fun j => batch_at allData B
                          (0 + Z.of_nat j * B)) (seq 0 n)) k <> None)
        by (rewrite Hk; discriminate).
      apply nth_error_Some in Hlen'.
      rewrite length_map, length_seq in Hlen'. exact Hlen'. }
    rewrite nth_error_map, nth_error_seq in Hk.
    destruct (Nat.ltb_spec k n) as [_|]; [|lia]. cbn in Hk. injection Hk as <-.
    assert (Hidx : (Z.of_nat k * B < L)%Z) by nia.
    assert (Hbatch : batch_at allData B (Z.of_nat k * B)
                     = downloadJSON (str "vocabulary_batch_" ++
                                     Number_toString (num_of_Z (Z.of_nat k + 1)))
                                    (firstn size (skipn (k * size) allData))).
    { unfold batch_at. rewrite slice_Z_nat by lia.
      rewrite Z.div_mul by lia.
      replace (Z.to_nat (Z.of_nat k * B)) with (k * size)%nat by (unfold size; nia).
      reflexivity. }
    rewrite Hbatch.
    split; [reflexivity|].
    unfold downloadJSON; cbn [payload].
    rewrite length_firstn, length_skipn. fold size.
    assert (HB : (0 < size)%nat) by (unfold size; lia).
    assert (Hk' : (k * size < List.length allData)%nat) by (unfold size, L in *; nia).
    split; [lia|].
    rewrite length_map, length_seq. intros Hsk.
    assert ((Z.of_nat (S k) * B < L)%Z) by nia.
    assert ((S k * size < List.length allData)%nat) by (unfold size, L in *; nia).
    nia.
  - split.
    + assert (H0 := Hrun n (le_n n)).
      rewrite (@handleExportByQuantity_integers results splitCount B n Hs Hb Hlen) in H0.
      exact (@integer_loop_consecutive allData B n Hb 0%Z _ ltac:(lia) H0).
    + intros d Hd. destruct n as [|n']; [discriminate|].
      cbn in Hd. injection Hd as <-. apply first_batch_name. exact Hb.
Qed.

(** Seven records in batches of three. *)
Lemma export_by_quantity_witness :
  exists ds,
    handleExportByQuantity 3
      [{| fileName := str "a.md";
          data := List.map (record_for {| rank := str "1"; word := str "a";
                                          definitions := []; rawTrans := [] |} VNull)
                    (List.repeat {| pos := str "n"; trans := [] |} 7) |}]
      (Number (str "3"))
    = Some ds
    /\ List.map (fun d => List.length d.(payload)) ds = [3; 3; 1]%nat.
Proof.
  destruct (@export_by_quantity
      [{| fileName := str "a.md";
          data := List.map (record_for {| rank := str "1"; word := str "a";
                                          definitions := []; rawTrans := [] |} VNull)
                    (List.repeat {| pos := str "n"; trans := [] |} 7) |}]
      (Number (str "3")) 3%Z)
    as [ds [Hrun _]].
  - vm_compute. reflexivity.
  - lia.
  - vm_compute. reflexivity.
  - exists ds. split.
    + apply Hrun. vm_compute. lia.
    + specialize (Hrun 3%nat ltac:(vm_compute; lia)).
      vm_compute in Hrun. injection Hrun as <-. reflexivity.
Defined.

(** Seven records with the batch size 2.5, which is positive: three
    batches, of 2, 3 and 2 records. *)
Lemma export_by_quantity_counterexample :
  num_ltb (Zero false) (Number (str "2.5")) = true
  /\ exists ds,
       handleExportByQuantity 3
         [{| fileName := str "a.md";
             data := List.map (record_for {| rank := str "1"; word := str "a";
                                             definitions := []; rawTrans := [] |} VNull)
                       (List.repeat {| pos := str "n"; trans := [] |} 7) |}]
         (Number (str "2.5"))
       = Some ds
       /\ List.map (fun d => List.length d.(payload)) ds = [2; 3; 2]%nat
       /\ List.map filename ds
          = [str "vocabulary_batch_1.json"; str "vocabulary_batch_2.json";
             str "vocabulary_batch_3.json"].
Proof.
  split; [vm_compute; reflexivity|].
  eexists. split; [vm_compute; reflexivity|]. split; vm_compute; reflexivity.
Qed.

(** C10, amended.  Without a record the export ends at once, whatever the
    batch size.  For a batch size that is an integer it ends if and only if
    there is no record or the size is positive.  With a record and a batch
    size that is zero or negative, an integer or not, the loop runs for
    ever. *)
Theorem export_terminates_iff (results : list FileResult) (splitCount : num) :
  (flat_map data results = [] ->
   forall fuel, handleExportByQuantity fuel results splitCount = Some [])
  /\ (forall B, integer_value splitCount = Some B ->
        (Z.of_nat (List.length (flat_map data results)) < 2 ^ 53)%Z ->
        ((exists fuel, handleExportByQuantity fuel results splitCount <> None)
         <-> (flat_map data results = [] \/ (0 < B)%Z)))
  /\ (flat_map data results <> [] -> not_positive splitCount = true ->
      forall fuel, handleExportByQuantity fuel results splitCount = None).
Proof.
  assert (Hempty : flat_map data results = [] ->
            forall fuel, handleExportByQuantity fuel results splitCount = Some []).
  { intros E fuel. unfold handleExportByQuantity. rewrite E.
    apply export_loop_done. reflexivity. }
  assert (Hnever : flat_map data results <> [] -> not_positive splitCount = true ->
            forall fuel, handleExportByQuantity fuel results splitCount = None).
  { intros Hne Hs fuel. unfold handleExportByQuantity.
    apply export_loop_never_ends; [exact Hne|exact Hs|reflexivity]. }
  split; [exact Hempty|]. split; [|exact Hnever].
  intros B Hs Hlen. split.
  - intros [fuel H].
    destruct (flat_map data results) as [|p ps] eqn:E; [left; reflexivity|].
    right. destruct (Z.lt_ge_cases 0 B) as [Hb|Hb]; [exact Hb|].
    exfalso. apply H. apply Hnever; [discriminate|].
    exact (@not_positive_integer splitCount B Hs Hb).
  - intros [E|Hb].
    + exists 0%nat. rewrite (Hempty E). discriminate.
    + exists (List.length (flat_map data results)).
      rewrite (@handleExportByQuantity_integers results splitCount B _ Hs Hb Hlen).
      rewrite integer_loop_runs; [discriminate | exact Hb | lia | nia].
Qed.

(** One record with the batch size 5e-324, which is positive: the loop is
    still running whatever the fuel. *)
Lemma export_terminates_iff_counterexample :
  num_ltb (Zero false) (Number (str "5e-324")) = true
  /\ flat_map data
       [{| fileName := str "a.md";
           data := [record_for {| rank := str "1"; word := str "a";
                                  definitions := []; rawTrans := [] |} VNull
                      {| pos := str "n"; trans := [] |}] |}] <> []
  /\ forall fuel,
       handleExportByQuantity fuel
         [{| fileName := str "a.md";
             data := [record_for {| rank := str "1"; word := str "a";
                                    definitions := []; rawTrans := [] |} VNull
                        {| pos := str "n"; trans := [] |}] |}]
         (Number (str "5e-324"))
       = None.
Proof.
  assert (E : Number (str "5e-324") = Fin false 1 (-1074)) by (vm_compute; reflexivity).
  rewrite E. split; [reflexivity|]. split; [discriminate|].
  intros fuel. unfold handleExportByQuantity.
  apply export_loop_smallest_size; [discriminate|]. left. reflexivity.
Qed.

(** ** The run *)

Definition abort (r : Run) : bool := r.(component).(abortRef).

(** The counter shown is the counter of the run. *)
Definition counter_shown (r : Run) : Prop :=
  r.(component).(progress).(current) = r.(locals).(globalProcessedCount).

(** The total shown is the number of entries parsed. *)
Definition total_shown (r : Run) : Prop :=
  r.(component).(progress).(total) = r.(locals).(totalWords).

Lemma after_fetch_normal (entry : WordEntry) (apiData : value) (r : Run) :
  exists msg ty,
    after_fetch entry apiData r
    = Normal
        {| component :=
             setProgress (fun p => {| current := S r.(locals).(globalProcessedCount);
                                      total := p.(total);
                                      currentWord := p.(currentWord) |})
               (addLog msg ty r.(component));
           locals :=
             {| allResults := r.(locals).(allResults);
                totalWords := r.(locals).(totalWords);
                globalProcessedCount := S r.(locals).(globalProcessedCount);
                fileProcessedWords :=
                  r.(locals).(fileProcessedWords) ++ records_of entry apiData |} |}.
Proof.
  unfold after_fetch. rewrite !getDeep_field. cbn [bind].
  rewrite entry_records_map, records_of_map.
  destruct (truthy (field apiData (str "ec.word[0].usphone") VUndefined));
    cbn [bind].
  - do 2 eexists. reflexivity.
  - destruct (truthy (field apiData (str "translation") VUndefined));
      do 2 eexists; reflexivity.
Qed.

Lemma record_count_remove_nth (w : nat) :
  forall (inflight : list WordEntry) (entry : WordEntry),
    nth_error inflight w = Some entry ->
    record_count inflight = records_per_entry entry + record_count (remove_nth w inflight)
    /\ List.length inflight = S (List.length (remove_nth w inflight)).
Proof.
  induction w as [|w IH]; intros [|x inflight] entry H; try discriminate.
  - injection H as ->. split; reflexivity.
  - cbn [nth_error] in H. destruct (IH inflight entry H) as [H1 H2].
    cbn [remove_nth record_count fold_right List.length] in *.
    fold (record_count inflight). fold (record_count (remove_nth w inflight)).
    split; lia.
Qed.

Lemma window_data_nil {A} (events : list (Settled A)) : window_data [] events = [].
Proof. destruct events; reflexivity. Qed.

Lemma windows_data_beyond {A} (m : nat) (env : nat -> Window A) (words : list WordEntry) :
  forall i, List.length words <= i -> windows_data m env words i = [].
Proof.
  induction m as [|m IH]; intros i Hi; [reflexivity|].
  cbn [windows_data]. rewrite IH by lia.
  unfold slice. rewrite skipn_all2 by lia. rewrite firstn_nil.
  rewrite window_data_nil. reflexivity.
Qed.

Lemma settle_order_cons {A} (inflight : list WordEntry) (ev : Settled A)
  (events : list (Settled A)) :
  inflight <> [] ->
  settle_order inflight (ev :: events)
  = match nth_error inflight ev.(which) with
    | None => settle_order inflight events
    | Some entry =>
        (entry, ev.(apiData)) :: settle_order (remove_nth ev.(which) inflight) events
    end.
Proof.
  destruct inflight; [contradiction|reflexivity].
Qed.

Lemma await_all_cons {A} (handler : A -> App -> App) (inflight : list WordEntry)
  (ev : Settled A) (events : list (Settled A)) (r : Run) :
  inflight <> [] ->
  await_all handler inflight (ev :: events) r
  = match nth_error inflight ev.(which) with
    | None => await_all handler inflight events (user handler ev.(earlier) r)
    | Some entry =>
        match after_fetch entry ev.(apiData) (user handler ev.(earlier) r) with
        | Normal r2 => await_all handler (remove_nth ev.(which) inflight) events r2
        | Throw e => Raises e
        end
    end.
Proof.
  destruct inflight; [contradiction|reflexivity].
Qed.

(** Reduces the projections of a run built by the steps of the loop. *)
Ltac run_fields :=
  cbn [fileProcessedWords globalProcessedCount allResults totalWords locals
       component user on_app on_locals] in *.

Section RunLemmas.

Variable A : Type.
Variable handler : A -> App -> App.
Variable version : Version.

(** What the proofs ask of the handlers: none fills [results]. *)
Hypothesis handler_results :
  forall act a, a.(results) = [] -> (handler act a).(results) = [].

Lemma user_locals (acts : list A) (r : Run) :
  (user handler acts r).(locals) = r.(locals).
Proof. reflexivity. Qed.

Lemma user_results (acts : list A) :
  forall r, r.(component).(results) = [] ->
            (user handler acts r).(component).(results) = [].
Proof.
  unfold user. induction acts as [|act acts IH]; intros r H; cbn in *.
  - exact H.
  - apply (IH {| component := handler act r.(component); locals := r.(locals) |}).
    cbn. apply handler_results. exact H.
Qed.

(** What a step of the run keeps, whatever the user does meanwhile. *)
Record keeps (r r' : Run) : Prop := {
  keeps_allResults : r'.(locals).(allResults) = r.(locals).(allResults);
  keeps_totalWords : r'.(locals).(totalWords) = r.(locals).(totalWords);
  keeps_results : r.(component).(results) = [] -> r'.(component).(results) = []
}.

Lemma keeps_refl (r : Run) : keeps r r.
Proof. split; auto. Qed.

Lemma keeps_trans (r1 r2 r3 : Run) : keeps r1 r2 -> keeps r2 r3 -> keeps r1 r3.
Proof.
  intros [a1 b1 c1] [a2 b2 c2]. split.
  - congruence.
  - congruence.
  - auto.
Qed.

Lemma keeps_user (acts : list A) (r : Run) : keeps r (user handler acts r).
Proof.
  split; try reflexivity. apply user_results.
Qed.

Lemma keeps_log (msg : Message) (ty : LogType) (r : Run) :
  keeps r (on_app (addLog msg ty) r).
Proof. split; cbn; auto. Qed.

Lemma pause_loop_spec (sleeps : list (list A)) :
  forall r r',
    pause_loop handler sleeps r = Returns r' ->
    keeps r r' /\ r'.(locals) = r.(locals).
Proof.
  induction sleeps as [|acts sleeps IH]; intros r r' H; cbn [pause_loop] in H.
  - destruct (pausedRef (component r)).
    + destruct (abortRef (component r)) eqn:E; [|discriminate].
      injection H as <-. split; [apply keeps_refl|reflexivity].
    + injection H as <-. split; [apply keeps_refl|reflexivity].
  - destruct (pausedRef (component r)).
    + destruct (abortRef (component r)) eqn:E.
      * injection H as <-. split; [apply keeps_refl|reflexivity].
      * destruct (IH _ _ H) as [Hk Hl].
        split; [eapply keeps_trans; [apply (keeps_user acts r)|exact Hk]|].
        rewrite Hl. reflexivity.
    + injection H as <-. split; [apply keeps_refl|reflexivity].
Qed.

Lemma dispatch_spec (chunk : list WordEntry) (r : Run) :
  let '(inflight, r') := dispatch chunk r in
  keeps r r'
  /\ r'.(locals) = r.(locals)
  /\ abort r' = abort r
  /\ r'.(component).(progress).(current) = r.(component).(progress).(current)
  /\ r'.(component).(progress).(total) = r.(component).(progress).(total)
  /\ inflight = (if abort r then [] else chunk).
Proof.
  unfold dispatch, abort. destruct (abortRef (component r)) eqn:E.
  - split; [apply keeps_refl|]. auto 6.
  - revert r E. induction chunk as [|entry chunk' IH]; intros r E.
    + cbn. split; [apply keeps_refl|]. auto 6.
    + cbn [fold_left].
      set (r1 := on_app (setProgress (fun p =>
                   {| current := p.(current); total := p.(total);
                      currentWord := entry.(word) |})) r).
      destruct (IH r1 E) as [Hk [Hl [Ha [Hc [Ht _]]]]].
      split.
      * eapply keeps_trans; [|exact Hk]. split; cbn; auto.
      * rewrite Hl, Ha, Hc, Ht. auto 6.
Qed.

Lemma await_all_nil (events : list (Settled A)) (r : Run) :
  await_all handler [] events r = Returns r.
Proof. destruct events; reflexivity. Qed.

(** A window, once all its lookups have settled: the records are those of
    its entries in settle order, one entry counted for each lookup, and
    the counter shown is the counter of the run, for the last thing that
    happened is a lookup that settled. *)
Lemma await_all_spec (events : list (Settled A)) :
  forall inflight r r',
    await_all handler inflight events r = Returns r' ->
    keeps r r'
    /\ r'.(locals).(fileProcessedWords)
       = r.(locals).(fileProcessedWords) ++ window_data inflight events
    /\ r'.(locals).(globalProcessedCount)
       = r.(locals).(globalProcessedCount) + List.length inflight
    /\ List.length (window_data inflight events) = record_count inflight
    /\ (inflight <> [] -> counter_shown r').
Proof.
  induction events as [|ev events IH]; intros inflight r r' H.
  - destruct inflight; [|discriminate]. injection H as <-.
    split; [apply keeps_refl|]. cbn. rewrite app_nil_r, Nat.add_0_r.
    split; [reflexivity|]. split; [reflexivity|]. split; [reflexivity|].
    intros Hne. contradiction.
  - destruct inflight as [|e0 inflight0].
    { injection H as <-. split; [apply keeps_refl|].
      cbn. rewrite app_nil_r, Nat.add_0_r.
      split; [reflexivity|]. split; [reflexivity|]. split; [reflexivity|].
      intros Hne. contradiction. }
    remember (e0 :: inflight0) as inflight eqn:Ein.
    assert (Hne : inflight <> []) by (rewrite Ein; discriminate).
    clear Ein e0 inflight0.
    rewrite (await_all_cons _ _ _ _ Hne) in H.
    unfold window_data. rewrite (settle_order_cons _ _ Hne).
    destruct (nth_error inflight (which ev)) as [entry|] eqn:En.
    + destruct (after_fetch_normal entry (apiData ev) (user handler (earlier ev) r))
        as [msg [ty Haf]].
      rewrite Haf in H. clear Haf.
      pose proof H as H0.
      destruct (IH _ _ _ H) as [Hk [Hd [Hc [Hlen Hcs]]]]. clear IH H.
      destruct (record_count_remove_nth _ _ En) as [Hrc Hrl].
      run_fields.
      split.
      { eapply keeps_trans; [apply (keeps_user (earlier ev) r)|].
        eapply keeps_trans; [|exact Hk]. split; cbn; auto. }
      split.
      { rewrite Hd. cbn [flat_map fst snd]. unfold window_data.
        rewrite <- app_assoc. reflexivity. }
      split; [rewrite Hc; lia|].
      split.
      { cbn [flat_map fst snd]. rewrite length_app, records_of_length.
        unfold window_data in Hlen. rewrite Hlen. lia. }
      intros _. destruct (remove_nth (which ev) inflight) as [|x l] eqn:Er.
      * rewrite await_all_nil in H0. injection H0 as <-. reflexivity.
      * apply Hcs. discriminate.
    + destruct (IH _ _ _ H) as [Hk [Hd [Hc [Hlen Hcs]]]]. clear IH H.
      run_fields.
      split; [eapply keeps_trans; [apply (keeps_user (earlier ev) r)|exact Hk]|].
      split; [exact Hd|]. split; [exact Hc|]. split; [exact Hlen|].
      exact Hcs.
Qed.

Lemma record_count_app (a b : list WordEntry) :
  record_count (a ++ b) = record_count a + record_count b.
Proof.
  induction a as [|x a IH]; [reflexivity|].
  unfold record_count in *. cbn [List.app fold_right]. rewrite IH. lia.
Qed.

Lemma record_count_window (words : list WordEntry) (i : nat) :
  record_count (skipn i words)
  = record_count (slice words i (i + CONCURRENCY))
    + record_count (skipn (i + CONCURRENCY) words).
Proof.
  unfold slice. replace (i + CONCURRENCY - i) with CONCURRENCY by lia.
  rewrite <- record_count_app.
  rewrite (Nat.add_comm i CONCURRENCY), <- skipn_skipn, firstn_skipn. reflexivity.
Qed.

Lemma slice_length (words : list WordEntry) (i : nat) :
  i < List.length words ->
  List.length (slice words i (i + CONCURRENCY)) + (List.length words - (i + CONCURRENCY))
  = List.length words - i.
Proof.
  intros Hi. unfold slice. rewrite length_firstn, length_skipn. lia.
Qed.

Lemma slice_nonempty (words : list WordEntry) (i : nat) :
  i < List.length words -> slice words i (i + CONCURRENCY) <> [].
Proof.
  intros Hi E. apply (f_equal (@List.length _)) in E.
  unfold slice, CONCURRENCY in E. rewrite length_firstn, length_skipn in E.
  cbn [List.length] in E. lia.
Qed.

Lemma for_windows_end (fuel : nat) (env : nat -> Window A) (words : list WordEntry)
  (i : nat) (r : Run) :
  List.length words <= i ->
  for_windows handler version fuel env words i r = Returns r.
Proof.
  intros Hi. destruct fuel; cbn [for_windows];
    (destruct (Nat.ltb_spec i (List.length words)); [lia|reflexivity]).
Qed.

Lemma for_windows_step (fuel : nat) (env : nat -> Window A) (words : list WordEntry)
  (i : nat) (r : Run) :
  i < List.length words ->
  for_windows handler version (S fuel) env words i r
  = if abort r then
      Returns (match version with
               | PauseReset => r
               | StopButton => on_app (addLog MsgStopped error) r
               end)
    else
      match (match version with
             | PauseReset => pause_loop handler (env i).(sleeps) r
             | StopButton => Returns r
             end) with
      | Returns r1 =>
          let '(inflight, r2) := dispatch (slice words i (i + CONCURRENCY)) r1 in
          match await_all handler inflight (env i).(settled) r2 with
          | Returns r3 => for_windows handler version fuel env words (i + CONCURRENCY) r3
          | other => other
          end
      | other => other
      end.
Proof.
  intros Hi. cbn [for_windows].
  destruct (Nat.ltb_spec i (List.length words)); [reflexivity|lia].
Qed.

(** Once the abort flag is set the loop over the windows does nothing
    more: it leaves with the flag set. *)
Lemma for_windows_aborted (fuel : nat) (env : nat -> Window A) (words : list WordEntry)
  (i : nat) (r r' : Run) :
  for_windows handler version fuel env words i r = Returns r' ->
  abort r = true ->
  abort r' = true /\ r'.(locals) = r.(locals) /\ keeps r r'.
Proof.
  intros H Ha. destruct (Nat.lt_ge_cases i (List.length words)) as [Hi|Hi].
  - destruct fuel as [|fuel].
    + cbn [for_windows] in H.
      destruct (Nat.ltb_spec i (List.length words)); [discriminate|lia].
    + rewrite for_windows_step in H by exact Hi. rewrite Ha in H. injection H as <-.
      destruct version.
      * split; [exact Ha|]. split; [reflexivity|apply keeps_refl].
      * split; [exact Ha|]. split; [reflexivity|apply keeps_log].
  - rewrite for_windows_end in H by exact Hi. injection H as <-.
    split; [exact Ha|]. split; [reflexivity|apply keeps_refl].
Qed.

(** A window of a loop that leaves with the abort flag clear: the flag was
    clear when the window started and when its lookups were sent, and all
    of them were sent. *)
Lemma for_windows_dispatched (fuel : nat) (env : nat -> Window A)
  (words : list WordEntry) (i : nat) (r r' : Run) :
  i < List.length words ->
  for_windows handler version (S fuel) env words i r = Returns r' ->
  abort r' = false ->
  exists r1 r2 r3,
    abort r = false
    /\ (match version with
        | PauseReset => pause_loop handler (env i).(sleeps) r
        | StopButton => Returns r
        end) = Returns r1
    /\ dispatch (slice words i (i + CONCURRENCY)) r1
       = (slice words i (i + CONCURRENCY), r2)
    /\ await_all handler (slice words i (i + CONCURRENCY)) (env i).(settled) r2
       = Returns r3
    /\ for_windows handler version fuel env words (i + CONCURRENCY) r3 = Returns r'.
Proof.
  intros Hi H Hf. rewrite for_windows_step in H by exact Hi.
  destruct (abort r) eqn:Ea.
  { injection H as <-. destruct version; unfold abort in *; cbn in Hf; congruence. }
  destruct (match version with
            | PauseReset => pause_loop handler (sleeps (env i)) r
            | StopButton => Returns r
            end) as [r1| |] eqn:Ep; try discriminate.
  pose proof (dispatch_spec (slice words i (i + CONCURRENCY)) r1) as Hd.
  destruct (dispatch (slice words i (i + CONCURRENCY)) r1) as [inflight r2] eqn:Ed.
  destruct Hd as [_ [_ [Ha2 [_ [_ Hin]]]]].
  destruct (await_all handler inflight (settled (env i)) r2) as [r3| |] eqn:Ew;
    try discriminate.
  destruct (abort r1) eqn:Ea1.
  - exfalso. subst inflight. rewrite await_all_nil in Ew. injection Ew as <-.
    assert (Ha2' : abort r2 = true) by congruence.
    destruct (for_windows_aborted _ _ _ _ _ H Ha2') as [Hab _].
    congruence.
  - subst inflight. exists r1, r2, r3. rewrite Ed. auto 6.
Qed.

(** The loop over the windows of a file.  It adds the records of the
    first [m] windows for some [m], and counts their entries; when it ends
    with the abort flag clear it has gone through every window, counted
    every entry, and the counter shown is the counter of the run. *)
Lemma for_windows_spec (fuel : nat) (env : nat -> Window A) (words : list WordEntry) :
  forall i r r',
    for_windows handler version fuel env words i r = Returns r' ->
    keeps r r'
    /\ (exists m, r'.(locals).(fileProcessedWords)
                  = r.(locals).(fileProcessedWords) ++ windows_data m env words i
                  /\ r'.(locals).(globalProcessedCount)
                     = r.(locals).(globalProcessedCount)
                       + Nat.min (m * CONCURRENCY) (List.length words - i))
    /\ (abort r' = false ->
        r'.(locals).(fileProcessedWords)
        = r.(locals).(fileProcessedWords) ++ windows_data fuel env words i
        /\ r'.(locals).(globalProcessedCount)
           = r.(locals).(globalProcessedCount) + (List.length words - i)
        /\ List.length (windows_data fuel env words i) = record_count (skipn i words)
        /\ (counter_shown r -> counter_shown r')).
Proof.
  induction fuel as [|fuel IH]; intros i r r' H.
  - destruct (Nat.lt_ge_cases i (List.length words)) as [Hi|Hi].
    { cbn [for_windows] in H.
      destruct (Nat.ltb_spec i (List.length words)); [discriminate|lia]. }
    rewrite for_windows_end in H by exact Hi. injection H as <-.
    split; [apply keeps_refl|].
    split; [exists 0; cbn; rewrite app_nil_r; split; [reflexivity|lia]|].
    intros Hf.
    cbn [windows_data]. rewrite app_nil_r, skipn_all2 by exact Hi.
    split; [reflexivity|]. split; [lia|]. split; [reflexivity|auto].
  - destruct (Nat.lt_ge_cases i (List.length words)) as [Hi|Hi].
    2:{ rewrite for_windows_end in H by exact Hi. injection H as <-.
        split; [apply keeps_refl|].
        split; [exists 0; cbn; rewrite app_nil_r; split; [reflexivity|lia]|].
        intros Hf.
        rewrite windows_data_beyond by exact Hi.
        rewrite app_nil_r, skipn_all2 by exact Hi.
        split; [reflexivity|]. split; [lia|]. split; [reflexivity|auto]. }
    pose proof H as Hrun.
    rewrite for_windows_step in H by exact Hi.
    destruct (abort r) eqn:Ea.
    { destruct (for_windows_aborted _ _ _ _ _ Hrun Ea) as [Hab [Hl Hk]].
      split; [exact Hk|].
      split; [exists 0; cbn; rewrite app_nil_r, Hl; split; [reflexivity|lia]|].
      intros Hf. congruence. }
    destruct (match version with
              | PauseReset => pause_loop handler (sleeps (env i)) r
              | StopButton => Returns r
              end) as [r1| |] eqn:Ep; try discriminate.
    assert (Hp : keeps r r1 /\ r1.(locals) = r.(locals)).
    { destruct version.
      - apply (pause_loop_spec _ _ Ep).
      - injection Ep as <-. split; [apply keeps_refl|reflexivity]. }
    destruct Hp as [Hk1 Hl1].
    pose proof (dispatch_spec (slice words i (i + CONCURRENCY)) r1) as Hd.
    destruct (dispatch (slice words i (i + CONCURRENCY)) r1) as [inflight r2] eqn:Ed.
    destruct Hd as [Hk2 [Hl2 [Ha2 [Hc2 [Ht2 Hin]]]]].
    destruct (await_all handler inflight (settled (env i)) r2) as [r3| |] eqn:Ew;
      try discriminate.
    destruct (await_all_spec _ _ _ Ew) as [Hk3 [Hd3 [Hc3 [Hlen3 Hcs3]]]].
    destruct (IH _ _ _ H) as [Hk4 [[m [Hm Hmc]] Hf4]].
    split.
    { eapply keeps_trans; [exact Hk1|]. eapply keeps_trans; [exact Hk2|].
      eapply keeps_trans; [exact Hk3|exact Hk4]. }
    split.
    { destruct (abort r1) eqn:Ea1.
      - exists 0. cbn [windows_data]. rewrite app_nil_r.
        subst inflight. rewrite await_all_nil in Ew. injection Ew as <-.
        assert (Ha2' : abort r2 = true) by congruence.
        destruct (for_windows_aborted _ _ _ _ _ H Ha2') as [_ [Hl _]].
        rewrite Hl, Hl2, Hl1. split; [reflexivity|lia].
      - exists (S m). cbn [windows_data]. subst inflight.
        rewrite Hm, Hd3, Hl2, Hl1, <- app_assoc. split; [reflexivity|].
        rewrite Hmc, Hc3, Hl2, Hl1.
        pose proof (slice_length words Hi) as Hs. unfold CONCURRENCY in *. lia. }
    intros Hf.
    destruct (@for_windows_dispatched fuel env words i r r' Hi Hrun Hf)
      as [r1' [r2' [r3' [_ [Hp' [Hd' [Ew' H']]]]]]].
    rewrite Ep in Hp'. injection Hp' as <-.
    rewrite Ed in Hd'. injection Hd' as -> <-. clear Hin Ew' H'.
    destruct (Hf4 Hf) as [Hdata [Hcount [Hlen Hstep]]].
    split.
    { cbn [windows_data]. rewrite Hdata, Hd3, Hl2, Hl1, <- app_assoc. reflexivity. }
    split.
    { rewrite Hcount, Hc3, Hl2, Hl1. pose proof (slice_length words Hi). lia. }
    split.
    { cbn [windows_data]. rewrite length_app, Hlen3, Hlen.
      symmetry. apply record_count_window. }
    intros _. apply Hstep. apply Hcs3. apply slice_nonempty. exact Hi.
Qed.

Lemma expected_results_lengths (env : nat -> nat -> Window A) :
  forall parsedFiles k,
    List.map fileName (expected_results env parsedFiles k) = List.map fst parsedFiles.
Proof.
  induction parsedFiles as [|[nm words] pfs IH]; intros k; cbn; [reflexivity|].
  rewrite IH. reflexivity.
Qed.

(** The loop over the files.  It adds the results of the first [n] files
    and, when it was cut short, of the first [m] windows of the next, and
    counts their entries; when it ends with the abort flag clear it has
    added the result of every file, each with all its windows, and it has
    counted every entry. *)
Lemma for_files_spec (env : nat -> nat -> Window A) :
  forall parsedFiles k r r',
    for_files handler version env parsedFiles k r = Returns r' ->
    r'.(locals).(totalWords) = r.(locals).(totalWords)
    /\ (r.(component).(results) = [] -> r'.(component).(results) = [])
    /\ (exists n m,
          r'.(locals).(allResults)
          = r.(locals).(allResults) ++ results_through env parsedFiles k n m
          /\ r'.(locals).(globalProcessedCount)
             = r.(locals).(globalProcessedCount) + entries_through parsedFiles n m)
    /\ (abort r' = false ->
        r'.(locals).(allResults)
        = r.(locals).(allResults) ++ expected_results env parsedFiles k
        /\ r'.(locals).(globalProcessedCount)
           = r.(locals).(globalProcessedCount) + entry_count parsedFiles
        /\ List.map (fun fr => List.length fr.(data)) (expected_results env parsedFiles k)
           = List.map (fun pf => record_count (snd pf)) parsedFiles
        /\ (counter_shown r -> counter_shown r')).
Proof.
  induction parsedFiles as [|[nm words] pfs IH]; intros k r r' H.
  - injection H as <-. split; [reflexivity|]. split; [auto|].
    split; [exists 0, None; cbn; rewrite app_nil_r; split; [reflexivity|lia]|].
    intros Hf. cbn. rewrite app_nil_r, Nat.add_0_r. auto 6.
  - cbn [for_files] in H. fold (abort r) in H.
    destruct (abort r) eqn:Ea.
    { injection H as <-. split; [reflexivity|]. split; [auto|].
      split; [exists 0, None; cbn; rewrite app_nil_r; split; [reflexivity|lia]|].
      intros Hf. congruence. }
    match type of H with
    | match for_windows _ _ _ _ _ _ ?start with _ => _ end = _ =>
        set (r2 := start) in H
    end.
    destruct (for_windows handler version (List.length words) (env k) words 0 r2)
      as [r3| |] eqn:Ew; try discriminate.
    destruct (for_windows_spec _ _ _ _ _ Ew) as [Hk3 [[m [Hm Hmc]] Hf3]].
    assert (Hk2 : keeps r r2) by (split; cbn; auto).
    assert (Hfp2 : r2.(locals).(fileProcessedWords) = []) by reflexivity.
    assert (Hc2 : r2.(locals).(globalProcessedCount) = r.(locals).(globalProcessedCount))
      by reflexivity.
    assert (Hs2 : counter_shown r -> counter_shown r2)
      by (unfold counter_shown; cbn; auto).
    rewrite Hfp2 in Hm. cbn [List.app] in Hm.
    rewrite Hc2, Nat.sub_0_r in Hmc.
    match type of H with
    | (if abortRef (component ?pushed) then _ else _) = _ => set (r4 := pushed) in H
    end.
    assert (Ha4 : abort r4 = abort r3) by reflexivity.
    assert (Hall4 : r4.(locals).(allResults)
                    = r.(locals).(allResults)
                      ++ [{| fileName := nm; data := r3.(locals).(fileProcessedWords) |}]).
    { cbn. destruct Hk3 as [Hk3 _ _]. destruct Hk2 as [Hk2 _ _].
      rewrite Hk3, Hk2. reflexivity. }
    assert (Hk4 : r4.(locals).(totalWords) = r.(locals).(totalWords)
                  /\ (r.(component).(results) = [] -> r4.(component).(results) = [])).
    { destruct (keeps_trans Hk2 Hk3) as [_ Hkt Hkr]. split; [exact Hkt|exact Hkr]. }
    destruct Hk4 as [Hk4t Hk4r].
    fold (abort r4) in H.
    destruct (abort r4) eqn:Ea4'.
    + injection H as <-.
      split; [exact Hk4t|]. split; [exact Hk4r|].
      split.
      { exists 0, (Some m). cbn [results_through entries_through].
        rewrite Hall4, Hm. split; [reflexivity|exact Hmc]. }
      intros Hf. congruence.
    + destruct (IH _ _ _ H) as [Ht [Hres [[n' [m' [Hrs Hcnt']]] Hf5]]].
      symmetry in Ha4. destruct (Hf3 Ha4) as [Hdata [Hcount [Hlen Hstep]]].
      rewrite Hfp2 in Hdata. cbn [List.app] in Hdata.
      fold (file_data (env k) words) in Hdata.
      rewrite Hc2, Nat.sub_0_r in Hcount.
      split.
      { rewrite Ht. exact Hk4t. }
      split.
      { intros Hr. apply Hres. apply (Hk4r Hr). }
      split.
      { exists (S n'), m'. cbn [results_through entries_through]. split.
        - rewrite Hrs. cbn [locals allResults on_app]. rewrite Hall4, Hdata, <- app_assoc.
          reflexivity.
        - rewrite Hcnt'. cbn [locals globalProcessedCount on_app].
          change (globalProcessedCount (locals r4)) with (globalProcessedCount (locals r3)).
          rewrite Hcount. lia. }
      intros Hf. destruct (Hf5 Hf) as [Hall [Hcnt [Hlens Hst]]].
      split.
      { rewrite Hall. cbn [locals allResults on_app expected_results].
        rewrite Hall4, Hdata, <- app_assoc. reflexivity. }
      split.
      { rewrite Hcnt. cbn [locals globalProcessedCount on_app].
        change (globalProcessedCount (locals r4)) with (globalProcessedCount (locals r3)).
        rewrite Hcount. cbn [entry_count fold_right snd].
        fold (entry_count pfs). lia. }
      split.
      { cbn [expected_results List.map data snd]. rewrite Hlens. f_equal.
        unfold file_data. rewrite Hlen. reflexivity. }
      intros Hs. apply Hst. unfold counter_shown.
      pose proof (Hstep (Hs2 Hs)) as Hp1. unfold counter_shown in Hp1. cbn. exact Hp1.
Qed.

End RunLemmas.

(** *** What a run keeps true of the component *)

Section RunInvariant.

Variable A : Type.
Variable handler : A -> App -> App.
Variable version : Version.

(** A property of the component that the handlers, a change of the
    progress and a line of the log keep. *)
Variable Inv : App -> Prop.
Hypothesis Inv_handler : forall act a, Inv a -> Inv (handler act a).
Hypothesis Inv_progress : forall f a, Inv a -> Inv (setProgress f a).
Hypothesis Inv_log : forall msg ty a, Inv a -> Inv (addLog msg ty a).

Lemma user_inv (acts : list A) :
  forall r, Inv r.(component) -> Inv (user handler acts r).(component).
Proof.
  unfold user. induction acts as [|act acts IH]; intros r H; cbn in *.
  - exact H.
  - apply (IH {| component := handler act r.(component); locals := r.(locals) |}).
    cbn. apply Inv_handler. exact H.
Qed.

Lemma after_fetch_inv (entry : WordEntry) (apiData : value) (r r' : Run) :
  after_fetch entry apiData r = Normal r' ->
  Inv r.(component) -> Inv r'.(component).
Proof.
  destruct (after_fetch_normal entry apiData r) as [msg [ty ->]].
  intros H Hi. injection H as <-. cbn. apply Inv_progress, Inv_log, Hi.
Qed.

Lemma pause_loop_inv (sleeps : list (list A)) :
  forall r r', pause_loop handler sleeps r = Returns r' ->
               Inv r.(component) -> Inv r'.(component).
Proof.
  induction sleeps as [|acts sleeps IH]; intros r r' H Hi; cbn [pause_loop] in H;
    destruct (pausedRef (component r)); try (injection H as <-; exact Hi);
    destruct (abortRef (component r)); try (injection H as <-; exact Hi);
    try discriminate.
  eapply IH; [exact H|]. apply user_inv. exact Hi.
Qed.

Lemma dispatch_inv (chunk : list WordEntry) (r : Run) :
  Inv r.(component) -> Inv (snd (dispatch chunk r)).(component).
Proof.
  unfold dispatch. destruct (abortRef (component r)); [auto|].
  cbn [snd]. revert r. induction chunk as [|e chunk IH]; intros r H; cbn [fold_left].
  - exact H.
  - apply IH. cbn. apply Inv_progress. exact H.
Qed.

Lemma await_all_inv (events : list (Settled A)) :
  forall inflight r r', await_all handler inflight events r = Returns r' ->
                        Inv r.(component) -> Inv r'.(component).
Proof.
  induction events as [|ev events IH]; intros inflight r r' H Hi.
  - destruct inflight; [injection H as <-; exact Hi|discriminate].
  - destruct inflight as [|e0 inflight0]; [injection H as <-; exact Hi|].
    rewrite await_all_cons in H by discriminate.
    pose proof (user_inv (earlier ev) r Hi) as Hu.
    destruct (nth_error (e0 :: inflight0) (which ev)) as [entry|].
    + destruct (after_fetch entry (apiData ev) (user handler (earlier ev) r))
        as [r2|e] eqn:Ea; [|discriminate].
      eapply IH; [exact H|]. eapply after_fetch_inv; eassumption.
    + eapply IH; eassumption.
Qed.

Lemma for_windows_inv (env : nat -> Window A) (words : list WordEntry) :
  forall fuel i r r',
    for_windows handler version fuel env words i r = Returns r' ->
    Inv r.(component) -> Inv r'.(component).
Proof.
  induction fuel as [|fuel IH]; intros i r r' H Hi.
  - cbn [for_windows] in H. destruct (i <? List.length words); [discriminate|].
    injection H as <-. exact Hi.
  - destruct (Nat.lt_ge_cases i (List.length words)) as [Hlt|Hge].
    2:{ rewrite for_windows_end in H by lia. injection H as <-. exact Hi. }
    rewrite for_windows_step in H by exact Hlt.
    destruct (abort r).
    { injection H as <-. destruct version; [exact Hi|]. cbn. apply Inv_log, Hi. }
    assert (G : forall r1, Inv r1.(component) ->
              (let '(inflight, r2) := dispatch (slice words i (i + CONCURRENCY)) r1 in
               match await_all handler inflight (settled (env i)) r2 with
               | Returns r3 => for_windows handler version fuel env words (i + CONCURRENCY) r3
               | other => other
               end) = Returns r' -> Inv r'.(component)).
    { intros r1 H1 G. pose proof (dispatch_inv (slice words i (i + CONCURRENCY)) r1 H1) as Hd.
      destruct (dispatch (slice words i (i + CONCURRENCY)) r1) as [inflight r2].
      cbn [snd] in Hd.
      destruct (await_all handler inflight (settled (env i)) r2) as [r3| |] eqn:Ew;
        try discriminate.
      eapply IH; [exact G|]. eapply await_all_inv; eassumption. }
    destruct version.
    + destruct (pause_loop handler (sleeps (env i)) r) as [r1| |] eqn:Ep;
        try discriminate.
      apply (G r1); [|exact H]. eapply pause_loop_inv; eassumption.
    + apply (G r); assumption.
Qed.

Lemma for_files_inv (env : nat -> nat -> Window A) :
  forall parsedFiles k r r',
    for_files handler version env parsedFiles k r = Returns r' ->
    Inv r.(component) -> Inv r'.(component).
Proof.
  induction parsedFiles as [|[nm words] pfs IH]; intros k r r' H Hi;
    cbn [for_files] in H.
  - injection H as <-. exact Hi.
  - destruct (abortRef (component r)); [injection H as <-; exact Hi|].
    match type of H with
    | match ?w with _ => _ end = _ => destruct w as [r3| |] eqn:Ew
    end; try discriminate.
    apply for_windows_inv in Ew; [|cbn; apply Inv_log; exact Hi].
    match type of H with
    | (if ?b then _ else _) = _ => destruct b
    end.
    + injection H as <-. exact Ew.
    + eapply IH; [exact H|]. cbn. apply Inv_log. exact Ew.
Qed.

Lemma parse_files_inv (env : Environment A) (fs : list File) (a : App)
  (parsedFiles : list (jstring * list WordEntry)) (r : Run) :
  parse_files handler env fs a = Normal (parsedFiles, r) ->
  Inv (addLog MsgParsing info a) ->
  Inv r.(component).
Proof.
  intros Hp H. unfold parse_files in Hp.
  destruct (negb (forallb readable fs)); [discriminate|].
  injection Hp as _ <-. cbn [on_app component].
  apply Inv_progress.
  apply (user_inv (while_parsing env)
           {| component := addLog MsgParsing info a;
              locals := {| allResults := []; totalWords := _;
                           globalProcessedCount := 0; fileProcessedWords := [] |} |}).
  exact H.
Qed.

End RunInvariant.

(** *** The total shown *)

Section ProgressAlone.

Variable A : Type.
Variable handler : A -> App -> App.
Variable version : Version.

Lemma user_progress (acts : list A) :
  Forall (leaves_progress handler) acts ->
  forall r, (user handler acts r).(component).(progress) = r.(component).(progress).
Proof.
  unfold user. induction 1 as [|act acts Hc _ IH]; intros r; cbn in *.
  - reflexivity.
  - specialize (IH {| component := handler act r.(component); locals := r.(locals) |}).
    cbn in IH. rewrite IH. apply Hc.
Qed.

Lemma pause_loop_progress (sleeps : list (list A)) :
  Forall (Forall (leaves_progress handler)) sleeps ->
  forall r r', pause_loop handler sleeps r = Returns r' ->
               r'.(component).(progress) = r.(component).(progress).
Proof.
  induction 1 as [|acts sleeps Hc _ IH]; intros r r' H; cbn [pause_loop] in H;
    destruct (pausedRef (component r)); try (injection H as <-; reflexivity);
    destruct (abortRef (component r)); try (injection H as <-; reflexivity);
    try discriminate.
  rewrite (IH _ _ H). apply user_progress. exact Hc.
Qed.

Lemma await_all_total (events : list (Settled A)) :
  Forall (fun ev => Forall (leaves_progress handler) ev.(earlier)) events ->
  forall inflight r r',
    await_all handler inflight events r = Returns r' ->
    r'.(component).(progress).(total) = r.(component).(progress).(total).
Proof.
  induction 1 as [|ev events Hc _ IH]; intros inflight r r' H.
  - destruct inflight; [injection H as <-; reflexivity|discriminate].
  - destruct inflight as [|e0 inflight0]; [injection H as <-; reflexivity|].
    rewrite await_all_cons in H by discriminate.
    pose proof (user_progress Hc r) as Hu.
    destruct (nth_error (e0 :: inflight0) (which ev)) as [entry|].
    + destruct (after_fetch_normal entry (apiData ev) (user handler (earlier ev) r))
        as [msg [ty Haf]].
      rewrite Haf in H. rewrite (IH _ _ _ H). cbn.
      change (total (progress (component (user handler (earlier ev) r)))
              = total (progress (component r))).
      rewrite Hu. reflexivity.
    + rewrite (IH _ _ _ H), Hu. reflexivity.
Qed.

Lemma for_windows_total (env : nat -> Window A) (words : list WordEntry) :
  (forall i, Forall (Forall (leaves_progress handler)) (env i).(sleeps)
             /\ Forall (fun ev => Forall (leaves_progress handler) ev.(earlier))
                       (env i).(settled)) ->
  forall fuel i r r',
    for_windows handler version fuel env words i r = Returns r' ->
    r'.(component).(progress).(total) = r.(component).(progress).(total).
Proof.
  intros Henv. induction fuel as [|fuel IH]; intros i r r' H.
  - cbn [for_windows] in H. destruct (i <? List.length words); [discriminate|].
    injection H as <-. reflexivity.
  - destruct (Nat.lt_ge_cases i (List.length words)) as [Hlt|Hge].
    2:{ rewrite for_windows_end in H by lia. injection H as <-. reflexivity. }
    rewrite for_windows_step in H by exact Hlt.
    destruct (abort r).
    { injection H as <-. destruct version; reflexivity. }
    destruct (match version with
              | PauseReset => pause_loop handler (sleeps (env i)) r
              | StopButton => Returns r
              end) as [r1| |] eqn:Ep; try discriminate.
    assert (Hp : r1.(component).(progress) = r.(component).(progress)).
    { destruct version.
      - apply (pause_loop_progress (proj1 (Henv i)) _ Ep).
      - injection Ep as <-. reflexivity. }
    pose proof (dispatch_spec (slice words i (i + CONCURRENCY)) r1) as Hd.
    destruct (dispatch (slice words i (i + CONCURRENCY)) r1) as [inflight r2].
    destruct Hd as [_ [_ [_ [_ [Ht2 _]]]]].
    destruct (await_all handler inflight (settled (env i)) r2) as [r3| |] eqn:Ew;
      try discriminate.
    rewrite (IH _ _ _ H), (await_all_total (proj2 (Henv i)) _ _ Ew), Ht2, Hp.
    reflexivity.
Qed.

Lemma for_files_total (env : nat -> nat -> Window A) :
  (forall k i, Forall (Forall (leaves_progress handler)) (env k i).(sleeps)
               /\ Forall (fun ev => Forall (leaves_progress handler) ev.(earlier))
                         (env k i).(settled)) ->
  forall parsedFiles k r r',
    for_files handler version env parsedFiles k r = Returns r' ->
    r'.(component).(progress).(total) = r.(component).(progress).(total).
Proof.
  intros Henv. induction parsedFiles as [|[nm words] pfs IH]; intros k r r' H;
    cbn [for_files] in H.
  - injection H as <-. reflexivity.
  - destruct (abortRef (component r)); [injection H as <-; reflexivity|].
    match type of H with
    | match ?w with _ => _ end = _ => destruct w as [r3| |] eqn:Ew
    end; try discriminate.
    apply (@for_windows_total (env k) words (Henv k)) in Ew. cbn in Ew.
    match type of H with
    | (if ?b then _ else _) = _ => destruct b
    end.
    + injection H as <-. exact Ew.
    + rewrite (IH _ _ _ H). exact Ew.
Qed.

End ProgressAlone.

(** *** The handlers of the two versions *)

Lemma handle_results (act : Action) (a : App) :
  a.(results) = [] -> (handle act a).(results) = [].
Proof. destruct act as [|[|f fs]]; cbn; auto. Qed.

Lemma handle_clear (act : Action) (a : App) :
  a.(abortRef) = false -> (handle act a).(abortRef) = false.
Proof. destruct act as [|[|f fs]]; cbn; auto. Qed.

Lemma togglePause_leaves_progress : leaves_progress handle TogglePause.
Proof. intros a. reflexivity. Qed.


Lemma fold_left_entry_count (parsedFiles : list (jstring * list WordEntry)) :
  forall n,
    fold_left (fun n pf => n + List.length (snd pf)) parsedFiles n
    = n + entry_count parsedFiles.
Proof.
  induction parsedFiles as [|pf pfs IH]; intros n; cbn.
  - lia.
  - rewrite IH. fold (entry_count pfs). lia.
Qed.

(** The start of a run: it throws when a file cannot be read; else the
    files are parsed, and nothing is processed yet. *)
Lemma parse_files_readable {A} (handler : A -> App -> App) (env : Environment A)
  (fs : list File) (a : App) :
  parse_files handler env fs a
  = if forallb readable fs then
      Normal (parsedFiles_of fs,
              on_app (setProgress (fun _ =>
                {| current := 0; total := entry_count (parsedFiles_of fs);
                   currentWord := [20934; 22791; 24320; 22987; 46; 46; 46]%N |}))
                (user handler env.(while_parsing)
                   {| component := addLog MsgParsing info a;
                      locals := {| allResults := [];
                                   totalWords := entry_count (parsedFiles_of fs);
                                   globalProcessedCount := 0;
                                   fileProcessedWords := [] |} |}))
    else Throw NotReadableError.
Proof.
  unfold parse_files. destruct (forallb readable fs); cbn [negb]; [|reflexivity].
  fold (parsedFiles_of fs). rewrite fold_left_entry_count. reflexivity.
Qed.

Lemma parse_files_spec {A} (handler : A -> App -> App) (env : Environment A)
  (fs : list File) (a : App) (parsedFiles : list (jstring * list WordEntry)) (r : Run) :
  (forall act a, a.(results) = [] -> (handler act a).(results) = []) ->
  a.(results) = [] ->
  parse_files handler env fs a = Normal (parsedFiles, r) ->
  forallb readable fs = true
  /\ parsedFiles = parsedFiles_of fs
  /\ r.(locals).(allResults) = []
  /\ r.(locals).(globalProcessedCount) = 0
  /\ r.(locals).(totalWords) = entry_count (parsedFiles_of fs)
  /\ counter_shown r
  /\ total_shown r
  /\ r.(component).(results) = [].
Proof.
  intros Hh Ha H. rewrite parse_files_readable in H.
  destruct (forallb readable fs); [|discriminate].
  injection H as <- <-.
  split; [reflexivity|]. split; [reflexivity|]. split; [reflexivity|].
  split; [reflexivity|]. split; [reflexivity|]. split; [reflexivity|].
  split; [reflexivity|].
  cbn. apply (@user_results A handler Hh (while_parsing env)
                {| component := addLog MsgParsing info a;
                   locals := {| allResults := []; totalWords := entry_count (parsedFiles_of fs);
                                globalProcessedCount := 0; fileProcessedWords := [] |} |}).
  exact Ha.
Qed.

(** A run of part_000 that returns is never cancelled: the page offers no
    way to set the abort flag while it is under way.  The results are then
    those of every file, each with all its windows, every entry is
    counted, and the counter shown is the counter of the run. *)
Lemma processFiles_spec (env : Environment Action) (a : App) (r : Run) :
  a.(files) <> [] ->
  processFiles env a = Returns r ->
  abort r = false
  /\ r.(component).(results) = r.(locals).(allResults)
  /\ r.(locals).(allResults)
     = expected_results env.(window) (parsedFiles_of a.(files)) 0
  /\ r.(locals).(globalProcessedCount) = entry_count (parsedFiles_of a.(files))
  /\ r.(locals).(totalWords) = entry_count (parsedFiles_of a.(files))
  /\ counter_shown r
  /\ (progress_left_alone handle env -> total_shown r)
  /\ List.map (fun fr => List.length fr.(data)) r.(locals).(allResults)
     = List.map (fun pf => record_count (snd pf)) (parsedFiles_of a.(files)).
Proof.
  intros Hne H. unfold processFiles in H.
  destruct (files a) as [|f fs] eqn:Ef; [contradiction|]. clear Hne.
  set (a1 := setPaused false (set_pausedRef false (set_abortRef false
               (setResults [] (setProcessing true a))))) in H.
  destruct (parse_files handle env (f :: fs) a1) as [[parsedFiles r0]|e] eqn:Ep;
    [|discriminate].
  pose proof (@parse_files_inv Action handle (fun a => a.(abortRef) = false)
                handle_clear (fun _ _ h => h) env (f :: fs) a1 _ _ Ep eq_refl) as Hab0.
  destruct (parse_files_spec handle env (f :: fs) a1 handle_results eq_refl Ep)
    as [_ [-> [Hall0 [Hc0 [Ht0 [Hs0 [Hts0 Hr0]]]]]]].
  destruct (for_files handle PauseReset (window env) (parsedFiles_of (f :: fs)) 0 r0)
    as [r1| |] eqn:Ef1; try discriminate.
  injection H as <-.
  pose proof (@for_files_inv Action handle PauseReset (fun a => a.(abortRef) = false)
                handle_clear (fun _ _ h => h) (fun _ _ _ h => h)
                (window env) _ 0 r0 r1 Ef1 Hab0) as Hab1.
  destruct (@for_files_spec Action handle PauseReset handle_results (window env) _ 0 r0 r1 Ef1)
    as [Ht [_ [_ Hf]]].
  destruct (Hf Hab1) as [Hall [Hcnt [Hlens Hst]]].
  rewrite Hall0 in Hall. cbn [List.app] in Hall. rewrite Hc0 in Hcnt.
  cbn [Nat.add] in Hcnt.
  unfold abort. rewrite Hab1. cbn.
  split; [exact Hab1|]. split; [reflexivity|]. split; [exact Hall|].
  split; [exact Hcnt|]. split; [rewrite Ht; exact Ht0|].
  split; [apply Hst; exact Hs0|].
  split; [|rewrite Hall; exact Hlens].
  intros Hpa. unfold total_shown in *. cbn.
  rewrite (@for_files_total Action handle PauseReset (window env) Hpa _ _ _ _ Ef1).
  rewrite Ht. exact Hts0.
Qed.


(** *** Lookups that settle in the order of dispatch *)

Lemma windows_data_order {A} (m : nat) (env : nat -> Window A) (words : list WordEntry) :
  forall i,
    windows_data m env words i
    = flat_map (fun ea => records_of (fst ea) (snd ea)) (windows_order m env words i).
Proof.
  induction m as [|m IH]; intros i; [reflexivity|].
  cbn [windows_data windows_order]. rewrite flat_map_app, IH. reflexivity.
Qed.

Lemma settle_order_nil {A} (events : list (Settled A)) : settle_order [] events = [].
Proof. destruct events; reflexivity. Qed.

Section InOrder.

Variable A : Type.
Variable handler : A -> App -> App.
Variable version : Version.

Lemma await_all_in_order (events : list (Settled A)) :
  forall inflight r r',
    await_all handler inflight events r = Returns r' ->
    Forall (fun ev => ev.(which) = 0) events ->
    List.map fst (settle_order inflight events) = inflight.
Proof.
  induction events as [|ev events IH]; intros inflight r r' H Hall.
  - destruct inflight; [reflexivity|discriminate].
  - destruct inflight as [|e0 inflight0]; [reflexivity|].
    inversion Hall as [|? ? Hw Hall']; subst.
    cbn [await_all settle_order] in *. rewrite Hw in *. cbn [nth_error remove_nth] in *.
    destruct (after_fetch_normal e0 (apiData ev) (user handler (earlier ev) r))
      as [msg [ty Haf]].
    rewrite Haf in H. cbn [List.map fst]. f_equal. exact (IH _ _ _ H Hall').
Qed.

Lemma windows_order_beyond (m : nat) (env : nat -> Window A) (words : list WordEntry) :
  forall i, List.length words <= i -> windows_order m env words i = [].
Proof.
  induction m as [|m IH]; intros i Hi; [reflexivity|].
  cbn [windows_order]. rewrite IH by lia.
  unfold slice. rewrite skipn_all2 by lia. rewrite firstn_nil, settle_order_nil.
  reflexivity.
Qed.

Lemma for_windows_in_order (fuel : nat) (env : nat -> Window A) (words : list WordEntry) :
  (forall j, in_dispatch_order (env j)) ->
  forall i r r',
    for_windows handler version fuel env words i r = Returns r' ->
    abort r' = false ->
    List.map fst (windows_order fuel env words i) = skipn i words.
Proof.
  intros Hord. induction fuel as [|fuel IH]; intros i r r' H Hf.
  - destruct (Nat.lt_ge_cases i (List.length words)) as [Hi|Hi].
    { cbn [for_windows] in H.
      destruct (Nat.ltb_spec i (List.length words)); [discriminate|lia]. }
    rewrite skipn_all2 by exact Hi. reflexivity.
  - destruct (Nat.lt_ge_cases i (List.length words)) as [Hi|Hi].
    2:{ rewrite skipn_all2, windows_order_beyond by exact Hi. reflexivity. }
    destruct (@for_windows_dispatched A handler version fuel env words i r r' Hi H Hf)
      as [r1 [r2 [r3 [_ [_ [_ [Ew H']]]]]]].
    cbn [windows_order]. rewrite map_app.
    erewrite await_all_in_order; [| exact Ew | exact (Hord i)].
    erewrite IH; [| exact H' | exact Hf].
    unfold slice. replace (i + CONCURRENCY - i) with CONCURRENCY by lia.
    rewrite (Nat.add_comm i CONCURRENCY), <- skipn_skipn. apply firstn_skipn.
Qed.

Lemma for_files_in_order (env : nat -> nat -> Window A) :
  (forall k j, in_dispatch_order (env k j)) ->
  forall parsedFiles k r r',
    for_files handler version env parsedFiles k r = Returns r' ->
    abort r' = false ->
    settle_orders env parsedFiles k = List.map snd parsedFiles.
Proof.
  intros Hord. induction parsedFiles as [|[nm words] pfs IH]; intros k r r' H Hf.
  - reflexivity.
  - cbn [for_files] in H. fold (abort r) in H.
    destruct (abort r) eqn:Ea; [injection H as <-; congruence|].
    match type of H with
    | match for_windows _ _ _ _ _ _ ?start with _ => _ end = _ =>
        set (r2 := start) in H
    end.
    destruct (for_windows handler version (List.length words) (env k) words 0 r2)
      as [r3| |] eqn:Ew; try discriminate.
    match type of H with
    | (if abortRef (component ?pushed) then _ else _) = _ => set (r4 := pushed) in H
    end.
    assert (Ha4 : abort r4 = abort r3) by reflexivity.
    fold (abort r4) in H.
    destruct (abort r4) eqn:Ea4; [injection H as <-; congruence|].
    cbn [settle_orders List.map snd]. f_equal.
    + unfold file_order.
      erewrite for_windows_in_order; [reflexivity | exact (Hord k) | exact Ew | congruence].
    + eapply IH; eassumption.
Qed.

End InOrder.

(** ** The claims on a run *)

(** C2, amended.  In a run that ends without cancellation the records of
    a file are the records of its windows, window after window in source
    order; within a window the entries come in the order in which their
    lookups settle, and within an entry the records come in definition
    order.  When the lookups of every window settle in the order of
    dispatch, the entries of every file come in source order. *)
Theorem records_follow_settle_order (env : Environment Action) (a : App) (r : Run) :
  a.(files) <> [] ->
  processFiles env a = Returns r ->
  abort r = false ->
  r.(component).(results)
  = expected_results env.(window) (parsedFiles_of a.(files)) 0
  /\ (forall k words,
        file_data (env.(window) k) words
        = flat_map (fun ea => records_of (fst ea) (snd ea))
            (file_order (env.(window) k) words))
  /\ (forall entry apiData,
        records_of entry apiData
        = List.map (record_for entry apiData) (definitionLoop entry))
  /\ ((forall k i, in_dispatch_order (env.(window) k i)) ->
      settle_orders env.(window) (parsedFiles_of a.(files)) 0
      = List.map snd (parsedFiles_of a.(files))).
Proof.
  intros Hne H Hf.
  destruct (@processFiles_spec env a r Hne H) as [_ [Hres [Hall _]]].
  split; [congruence|].
  split; [intros k words; apply windows_data_order|].
  split; [apply records_of_map|].
  intros Hord. unfold processFiles in H.
  destruct (files a) as [|f fs] eqn:Ef; [contradiction|].
  match type of H with
  | context [parse_files handle env ?l ?a1] =>
      destruct (parse_files handle env l a1) as [[parsedFiles r0]|e] eqn:Ep;
        [|discriminate];
      destruct (parse_files_spec handle env l a1 handle_results eq_refl Ep)
        as [_ [-> _]]
  end.
  destruct (for_files handle PauseReset (window env) (parsedFiles_of (f :: fs)) 0 r0)
    as [r1| |] eqn:Ef1; try discriminate.
  injection H as <-.
  eapply for_files_in_order; [exact Hord | exact Ef1 |].
  clear - Hf. unfold abort in *.
  destruct (abortRef (component r1)) eqn:Ea; [|reflexivity].
  cbn in Hf. rewrite Ea in Hf. discriminate.
Qed.

(** Two files, every lookup settling in the order of dispatch. *)
Lemma records_follow_settle_order_witness :
  exists r,
    processFiles {| while_parsing := []; window := fun _ _ => in_order |}
                 (idle [one_md; two_md]) = Returns r
    /\ List.map (fun fr => List.map text fr.(data)) r.(component).(results)
       = [[str "a"; str "b"]; [str "c"]].
Proof.
  eexists. split; [vm_compute; reflexivity|].
  match goal with
  | |- context [results (component ?r)] =>
      destruct (@records_follow_settle_order
                  {| while_parsing := []; window := fun _ _ => in_order |}
                  (idle [one_md; two_md]) r) as [Hres _]
  end.
  - discriminate.
  - vm_compute; reflexivity.
  - reflexivity.
  - rewrite Hres. vm_compute. reflexivity.
Defined.

(** C2 as it is stated fails when the second lookup of a window settles
    before the first: the entries are [a] then [b], the records come [b]
    then [a]. *)
Lemma records_follow_settle_order_counterexample :
  exists r,
    processFiles env_second_first (idle [one_md]) = Returns r
    /\ abort r = false
    /\ List.map word (parseMarkdownFile one_md.(content)) = [str "a"; str "b"]
    /\ List.map (fun fr => List.map text fr.(data)) r.(component).(results)
       = [[str "b"; str "a"]].
Proof.
  eexists. split; [vm_compute; reflexivity|].
  split; [reflexivity|]. split; vm_compute; reflexivity.
Qed.

(** C6, amended.  After a run that ends without cancellation the run's
    counter of processed entries is the number of entries of all the
    files, which is the total the run computed, and it is the counter the
    progress shows; the total the progress shows is that number too when
    nothing the user did after the parsing touched the progress; the run
    has one result for each file, and the result of a file holds
    max(1, number of definitions) records for each of its entries. *)
Theorem completed_run_counts (env : Environment Action) (a : App) (r : Run) :
  a.(files) <> [] ->
  processFiles env a = Returns r ->
  abort r = false ->
  r.(locals).(globalProcessedCount) = entry_count (parsedFiles_of a.(files))
  /\ r.(locals).(totalWords) = entry_count (parsedFiles_of a.(files))
  /\ r.(component).(progress).(current) = entry_count (parsedFiles_of a.(files))
  /\ (progress_left_alone handle env ->
      r.(component).(progress).(total) = entry_count (parsedFiles_of a.(files)))
  /\ List.map fileName r.(component).(results) = List.map name a.(files)
  /\ List.map (fun fr => List.length fr.(data)) r.(component).(results)
     = List.map (fun pf => record_count (snd pf)) (parsedFiles_of a.(files)).
Proof.
  intros Hne H Hf.
  destruct (@processFiles_spec env a r Hne H)
    as [_ [Hres [Hall [Hcount [Htotal [Hcs [Hts Hlens]]]]]]].
  rewrite Hres.
  split; [exact Hcount|]. split; [exact Htotal|].
  split; [unfold counter_shown in Hcs; congruence|].
  split; [intros Hpa; specialize (Hts Hpa); unfold total_shown in Hts; congruence|].
  split; [|exact Hlens].
  rewrite Hall, expected_results_lengths. unfold parsedFiles_of.
  rewrite map_map. reflexivity.
Qed.

(** Three entries in two files; the user does nothing. *)
Lemma completed_run_counts_witness :
  exists r,
    processFiles env_second_first (idle [one_md; two_md]) = Returns r
    /\ r.(locals).(globalProcessedCount) = 3
    /\ r.(locals).(totalWords) = 3
    /\ r.(component).(progress).(current) = 3
    /\ r.(component).(progress).(total) = 3
    /\ List.map (fun fr => List.length fr.(data)) r.(component).(results) = [2; 1].
Proof.
  eexists. split; [vm_compute; reflexivity|].
  match goal with
  | |- context [results (component ?r)] =>
      destruct (@completed_run_counts env_second_first (idle [one_md; two_md]) r)
        as [H1 [H2 [H3 [H4 [_ H6]]]]]
  end.
  - discriminate.
  - vm_compute; reflexivity.
  - reflexivity.
  - rewrite H1, H2, H3, H6, H4.
    + repeat split; vm_compute; reflexivity.
    + intros k i. split; [constructor|]. repeat constructor.
Defined.

(** C6 as it is stated fails when files are dropped on the page during
    the run: the run goes on to its end, it has counted the two entries,
    and the total shown is 0. *)
Lemma completed_run_counts_counterexample :
  exists r,
    processFiles env_upload (idle [one_md]) = Returns r
    /\ abort r = false
    /\ entry_count (parsedFiles_of [one_md]) = 2
    /\ r.(locals).(globalProcessedCount) = 2
    /\ r.(component).(progress).(current) = 2
    /\ r.(component).(progress).(total) = 0.
Proof.
  eexists. split; [vm_compute; reflexivity|].
  repeat split; vm_compute; reflexivity.
Qed.



(** ** The run as a computation *)

Section RunTotal.

Variable A : Type.
Variable handler : A -> App -> App.
Variable version : Version.

(** The fuel that [for_files] gives the loop over the windows, the number
    of entries of the file, is enough: more fuel changes nothing.  [Waits]
    comes from the environment alone. *)
Lemma for_windows_more_fuel (env : nat -> Window A) (words : list WordEntry) :
  forall fuel i r,
    List.length words <= i + fuel * CONCURRENCY ->
    for_windows handler version (S fuel) env words i r
    = for_windows handler version fuel env words i r.
Proof.
  induction fuel as [|fuel IH]; intros i r Hlen.
  - rewrite !for_windows_end by lia. reflexivity.
  - destruct (Nat.lt_ge_cases i (List.length words)) as [Hi|Hi].
    2:{ rewrite !for_windows_end by lia. reflexivity. }
    rewrite (for_windows_step handler version (S fuel)) by exact Hi.
    rewrite (for_windows_step handler version fuel) by exact Hi.
    destruct (abort r); [reflexivity|].
    destruct (match version with
              | PauseReset => pause_loop handler (sleeps (env i)) r
              | StopButton => Returns r
              end) as [r1| |]; try reflexivity.
    destruct (dispatch (slice words i (i + CONCURRENCY)) r1) as [inflight r2].
    destruct (await_all handler inflight (settled (env i)) r2) as [r3| |];
      try reflexivity.
    apply IH. unfold CONCURRENCY in *. lia.
Qed.

Lemma await_all_never_raises (events : list (Settled A)) :
  forall inflight r e, await_all handler inflight events r <> Raises e.
Proof.
  induction events as [|ev events IH]; intros inflight r e.
  - destruct inflight; discriminate.
  - destruct inflight as [|e0 inflight0]; [discriminate|].
    rewrite await_all_cons by discriminate.
    destruct (nth_error (e0 :: inflight0) (which ev)) as [entry|]; [|apply IH].
    destruct (after_fetch_normal entry (apiData ev) (user handler (earlier ev) r))
      as [msg [ty Haf]].
    rewrite Haf. apply IH.
Qed.

Lemma pause_loop_never_raises (sleeps : list (list A)) :
  forall r e, pause_loop handler sleeps r <> Raises e.
Proof.
  induction sleeps as [|acts sleeps IH]; intros r e; cbn [pause_loop];
    destruct (pausedRef (component r)); try discriminate;
    destruct (abortRef (component r)); try discriminate.
  apply IH.
Qed.

Lemma for_windows_never_raises (env : nat -> Window A) (words : list WordEntry) :
  forall fuel i r e, for_windows handler version fuel env words i r <> Raises e.
Proof.
  induction fuel as [|fuel IH]; intros i r e.
  - cbn [for_windows]. destruct (i <? List.length words); discriminate.
  - destruct (Nat.lt_ge_cases i (List.length words)) as [Hi|Hi].
    2:{ rewrite for_windows_end by lia. discriminate. }
    rewrite for_windows_step by exact Hi.
    destruct (abort r); [discriminate|].
    destruct version.
    + destruct (pause_loop handler (sleeps (env i)) r) as [r1| |] eqn:Ep;
        [| exfalso; exact (pause_loop_never_raises _ _ Ep) | discriminate].
      destruct (dispatch (slice words i (i + CONCURRENCY)) r1) as [inflight r2].
      destruct (await_all handler inflight (settled (env i)) r2) as [r3| |] eqn:Ew;
        [apply IH | exfalso; exact (await_all_never_raises _ _ _ Ew) | discriminate].
    + destruct (dispatch (slice words i (i + CONCURRENCY)) r) as [inflight r2].
      destruct (await_all handler inflight (settled (env i)) r2) as [r3| |] eqn:Ew;
        [apply IH | exfalso; exact (await_all_never_raises _ _ _ Ew) | discriminate].
Qed.

Lemma for_files_never_raises (env : nat -> nat -> Window A) :
  forall parsedFiles k r e,
    for_files handler version env parsedFiles k r <> Raises e.
Proof.
  induction parsedFiles as [|[nm words] pfs IH]; intros k r e; cbn [for_files].
  - discriminate.
  - destruct (abortRef (component r)); [discriminate|].
    match goal with
    | |- match ?w with _ => _ end <> _ => destruct w as [r3| |] eqn:Ew
    end.
    + match goal with
      | |- (if ?b then _ else _) <> _ => destruct b; [discriminate|apply IH]
      end.
    + exfalso. exact (for_windows_never_raises _ _ _ _ _ Ew).
    + discriminate.
Qed.

End RunTotal.

Lemma unreadable_file (fs : list File) :
  forallb readable fs = false <-> exists f, In f fs /\ f.(readable) = false.
Proof.
  induction fs as [|f fs IH]; cbn.
  - split; [discriminate|]. intros [f [[] _]].
  - destruct (readable f) eqn:E; cbn.
    + rewrite IH. split.
      * intros [g [Hg Hr]]. exists g. auto.
      * intros [g [[<-|Hg] Hr]]; [congruence|]. exists g. auto.
    + split; [|reflexivity]. intros _. exists f. auto.
Qed.

(** [processFiles] throws when a file of the input cannot be read, and
    then only, whatever the responses, the order in which the lookups
    settle and the actions of the user; what it throws is the rejection of
    [file.text()]. *)
Lemma processFiles_raises_unreadable (env : Environment Action) (a : App) :
  ((exists e, processFiles env a = Raises e)
   <-> exists f, In f a.(files) /\ f.(readable) = false)
  /\ forall e, processFiles env a = Raises e -> e = NotReadableError.
Proof.
  rewrite <- unreadable_file. unfold processFiles.
  destruct (files a) as [|f fs].
  { split; [split; [intros [e H]|intros H]; discriminate|discriminate]. }
  rewrite parse_files_readable.
  destruct (forallb readable (f :: fs)).
  - match goal with
    | |- context [for_files handle PauseReset ?w ?pf 0 ?r0] =>
        destruct (for_files handle PauseReset w pf 0 r0) as [r1| |] eqn:E
    end.
    + split; [split; [intros [e H]|intros H]; discriminate|discriminate].
    + exfalso. exact (for_files_never_raises _ _ _ _ _ _ E).
    + split; [split; [intros [e H]|intros H]; discriminate|discriminate].
  - split.
    + split; [reflexivity|]. intros _. exists NotReadableError. reflexivity.
    + intros e H. injection H as <-. reflexivity.
Qed.

(** [processFiles] of App.tsx throws when a file of the input cannot be
    read, and then only, whatever the responses, the order in which the
    lookups settle, the presses of the stop button and the files dropped on
    the page; what it throws is the rejection of [file.text()]. *)
Lemma AppTsx_processFiles_raises_unreadable (env : Environment AppTsx.Action)
  (a : App) :
  ((exists e, AppTsx.processFiles env a = Raises e)
   <-> exists f, In f a.(files) /\ f.(readable) = false)
  /\ forall e, AppTsx.processFiles env a = Raises e -> e = NotReadableError.
Proof.
  rewrite <- unreadable_file. unfold AppTsx.processFiles.
  destruct (files a) as [|f fs].
  { split; [split; [intros [e H]|intros H]; discriminate|discriminate]. }
  rewrite parse_files_readable.
  destruct (forallb readable (f :: fs)).
  - match goal with
    | |- context [for_files AppTsx.handle StopButton ?w ?pf 0 ?r0] =>
        destruct (for_files AppTsx.handle StopButton w pf 0 r0) as [r1| |] eqn:E
    end.
    + split; [split; [intros [e H]|intros H]; discriminate|discriminate].
    + exfalso. exact (for_files_never_raises _ _ _ _ _ _ E).
    + split; [split; [intros [e H]|intros H]; discriminate|discriminate].
  - split.
    + split; [reflexivity|]. intros _. exists NotReadableError. reflexivity.
    + intros e H. injection H as <-. reflexivity.
Qed.

(** ** Runs that return *)

Section RunReturns.

Variable A : Type.
Variable handler : A -> App -> App.
Variable version : Version.

Lemma user_calm (acts : list A) :
  Forall (calm handler) acts ->
  forall r, r.(component).(pausedRef) = false ->
            (user handler acts r).(component).(pausedRef) = false.
Proof.
  unfold user. induction 1 as [|act acts Hc _ IH]; intros r Hp; cbn in *.
  - exact Hp.
  - apply (IH {| component := handler act r.(component); locals := r.(locals) |}).
    cbn. apply Hc. exact Hp.
Qed.

Lemma remove_nth_length (w : nat) :
  forall (l : list WordEntry), w < List.length l ->
    List.length (remove_nth w l) = List.length l - 1.
Proof.
  induction w as [|w IH]; intros [|x l] H; cbn in *; try lia.
  rewrite IH by lia. lia.
Qed.

(** The lookups of a window all settle, whatever the user does, when
    the events name each of them in turn; the pause flag stays clear when
    the user does not pause. *)
Lemma await_all_returns (events : list (Settled A)) :
  forall inflight r,
    settles (List.length inflight) events = true ->
    Forall (fun ev => Forall (calm handler) ev.(earlier)) events ->
    r.(component).(pausedRef) = false ->
    exists r', await_all handler inflight events r = Returns r'
               /\ r'.(component).(pausedRef) = false.
Proof.
  induction events as [|ev events IH]; intros inflight r Hs Hc Hp.
  - destruct inflight; [|discriminate]. exists r. split; [reflexivity|exact Hp].
  - destruct inflight as [|e0 inflight0]; [exists r; split; [reflexivity|exact Hp]|].
    remember (e0 :: inflight0) as inflight eqn:Ein.
    assert (Hne : inflight <> []) by (rewrite Ein; discriminate).
    assert (Hlen : List.length inflight = S (List.length inflight0))
      by (rewrite Ein; reflexivity).
    clear Ein. rewrite (await_all_cons _ _ _ _ Hne).
    inversion Hc as [|? ? Hc1 Hc2]; subst.
    pose proof (user_calm Hc1 r Hp) as Hp1.
    rewrite Hlen in Hs. cbn [settles] in Hs. rewrite <- Hlen in Hs.
    destruct (Nat.ltb_spec (which ev) (List.length inflight)) as [Hw|Hw].
    + destruct (nth_error inflight (which ev)) as [entry|] eqn:En.
      2:{ apply nth_error_None in En. lia. }
      destruct (after_fetch_normal entry (apiData ev) (user handler (earlier ev) r))
        as [msg [ty Haf]].
      rewrite Haf. apply IH.
      * rewrite remove_nth_length by exact Hw. rewrite Hlen.
        replace (S (List.length inflight0) - 1) with (List.length inflight0) by lia.
        exact Hs.
      * exact Hc2.
      * cbn. exact Hp1.
    + destruct (nth_error inflight (which ev)) as [entry|] eqn:En.
      { assert (nth_error inflight (which ev) <> None) by congruence.
        apply nth_error_Some in H. lia. }
      apply IH; assumption.
Qed.

Lemma dispatch_pausedRef (chunk : list WordEntry) (r : Run) :
  (snd (dispatch chunk r)).(component).(pausedRef) = r.(component).(pausedRef)
  /\ List.length (fst (dispatch chunk r)) <= List.length chunk
  /\ (fst (dispatch chunk r) = [] \/ fst (dispatch chunk r) = chunk).
Proof.
  unfold dispatch. destruct (abortRef (component r)).
  - cbn. split; [reflexivity|]. split; [lia|]. left. reflexivity.
  - cbn [fst snd]. split; [|split; [lia|right; reflexivity]].
    revert r. induction chunk as [|entry chunk' IH]; intros r; [reflexivity|].
    cbn [fold_left]. rewrite IH. reflexivity.
Qed.

Lemma settles_none (events : list (Settled A)) : settles 0 events = true.
Proof. destruct events; reflexivity. Qed.

Lemma for_windows_returns (env : nat -> Window A) (words : list WordEntry) :
  (forall i, settles (List.length (slice words i (i + CONCURRENCY))) (env i).(settled)
             = true) ->
  (forall i, Forall (fun ev => Forall (calm handler) ev.(earlier)) (env i).(settled)) ->
  forall fuel i r,
    List.length words <= i + fuel * CONCURRENCY ->
    r.(component).(pausedRef) = false ->
    exists r', for_windows handler version fuel env words i r = Returns r'
               /\ r'.(component).(pausedRef) = false.
Proof.
  intros Hs Hc. induction fuel as [|fuel IH]; intros i r Hlen Hp.
  - rewrite for_windows_end by lia. eauto.
  - destruct (Nat.lt_ge_cases i (List.length words)) as [Hi|Hi].
    2:{ rewrite for_windows_end by lia. eauto. }
    rewrite for_windows_step by exact Hi.
    destruct (abort r).
    { destruct version; eexists; split; try reflexivity; cbn; exact Hp. }
    assert (Hpl : (match version with
                   | PauseReset => pause_loop handler (env i).(sleeps) r
                   | StopButton => Returns r
                   end) = Returns r).
    { destruct version; [|reflexivity].
      destruct (sleeps (env i)); cbn [pause_loop]; rewrite Hp; reflexivity. }
    rewrite Hpl.
    destruct (dispatch_pausedRef (slice words i (i + CONCURRENCY)) r) as [Hd1 [_ Hd3]].
    destruct (dispatch (slice words i (i + CONCURRENCY)) r) as [inflight r2].
    cbn [fst snd] in *.
    destruct (@await_all_returns (settled (env i)) inflight r2) as [r3 [Hr3 Hp3]].
    + destruct Hd3 as [->| ->]; [apply settles_none|apply Hs].
    + apply Hc.
    + congruence.
    + rewrite Hr3. apply IH; [unfold CONCURRENCY in *; lia|exact Hp3].
Qed.

Lemma for_files_returns (env : nat -> nat -> Window A) :
  (forall k i, Forall (fun ev => Forall (calm handler) ev.(earlier)) (env k i).(settled)) ->
  forall parsedFiles k r,
    lookups_settle env parsedFiles k ->
    r.(component).(pausedRef) = false ->
    exists r', for_files handler version env parsedFiles k r = Returns r'.
Proof.
  intros Hc. induction parsedFiles as [|[nm words] pfs IH]; intros k r Hs Hp.
  - eexists. reflexivity.
  - cbn [for_files]. destruct (abortRef (component r)); [eexists; reflexivity|].
    match goal with
    | |- exists _, match for_windows _ _ _ _ _ _ ?start with _ => _ end = _ =>
        destruct (for_windows_returns (env k) words) with (fuel := List.length words)
          (i := 0) (r := start) as [r3 [Hr3 Hp3]]
    end.
    + intros i. specialize (Hs 0 nm words i eq_refl).
      rewrite Nat.add_0_r in Hs. exact Hs.
    + apply Hc.
    + unfold CONCURRENCY. lia.
    + cbn. exact Hp.
    + rewrite Hr3.
      match goal with
      | |- exists _, (if ?b then _ else _) = _ => destruct b; [eexists; reflexivity|]
      end.
      apply IH.
      * intros j nm' words' i Hj. specialize (Hs (S j) nm' words' i Hj).
        rewrite <- Nat.add_succ_comm in Hs. exact Hs.
      * cbn. exact Hp3.
Qed.

End RunReturns.

(** A run of part_000 returns when every file can be read, every lookup
    settles and the user does not pause it. *)
Lemma processFiles_returns (env : Environment Action) (a : App) :
  forallb readable a.(files) = true ->
  lookups_settle env.(window) (parsedFiles_of a.(files)) 0 ->
  never_paused handle env ->
  exists r, processFiles env a = Returns r.
Proof.
  intros Hr Hs [Hc1 Hc2]. unfold processFiles.
  destruct (files a) as [|f fs] eqn:Ef; [eexists; reflexivity|].
  rewrite parse_files_readable, Hr.
  match goal with
  | |- exists _, match for_files _ _ _ _ _ ?start with _ => _ end = _ =>
      destruct (@for_files_returns Action handle PauseReset (window env) Hc2
                  (parsedFiles_of (f :: fs)) 0 start Hs) as [r1 Hr1]
  end.
  - match goal with
    | |- pausedRef (component (on_app _ ?u)) = false =>
        change (pausedRef (component u) = false)
    end.
    apply user_calm; [exact Hc1|reflexivity].
  - rewrite Hr1. eexists. reflexivity.
Qed.

(** A run of App.tsx returns when every file can be read and every lookup
    settles. *)
Lemma AppTsx_processFiles_returns (env : Environment AppTsx.Action) (a : App) :
  forallb readable a.(files) = true ->
  a.(pausedRef) = false ->
  lookups_settle env.(window) (parsedFiles_of a.(files)) 0 ->
  exists r, AppTsx.processFiles env a = Returns r.
Proof.
  intros Hr Hp Hs. unfold AppTsx.processFiles.
  destruct (files a) as [|f fs] eqn:Ef; [eexists; reflexivity|].
  rewrite parse_files_readable, Hr.
  assert (Hcalm : forall acts : list AppTsx.Action, Forall (calm AppTsx.handle) acts).
  { induction acts as [|act acts IH]; constructor; [|exact IH].
    intros a0 H0. destruct act as [|[|g gs]]; exact H0. }
  match goal with
  | |- exists _, match for_files _ _ _ _ _ ?start with _ => _ end = _ =>
      destruct (@for_files_returns AppTsx.Action AppTsx.handle StopButton (window env))
        with (parsedFiles := parsedFiles_of (f :: fs)) (k := 0) (r := start)
        as [r1 Hr1]
  end.
  - intros k i. apply Forall_forall. intros ev _. apply Hcalm.
  - exact Hs.
  - match goal with
    | |- pausedRef (component (on_app _ ?u)) = false =>
        change (pausedRef (component u) = false)
    end.
    apply user_calm; [apply Hcalm|exact Hp].
  - rewrite Hr1. eexists. reflexivity.
Qed.

(** ** The fuel of JSON.parse *)

Lemma drop_while_length (p : N -> bool) (s : jstring) :
  List.length (drop_while p s) <= List.length s.
Proof.
  induction s as [|c s IH]; cbn; [lia|]. destruct (p c); cbn; lia.
Qed.

Lemma skip_ws_cons (s r : jstring) (c : N) :
  skip_ws s = c :: r -> List.length r < List.length s.
Proof.
  intros H. pose proof (drop_while_length json_ws s) as Hl.
  unfold skip_ws in H. rewrite H in Hl. cbn in Hl. lia.
Qed.

Lemma parse_string_shorter (s : jstring) :
  forall acc t r, parse_string s acc = Some (t, r) -> List.length r < List.length s.
Proof.
  induction s as [s IH] using (induction_ltof1 _ (@List.length N)).
  unfold ltof in IH. intros acc t r H.
  destruct s as [|c s1]; [discriminate|]. cbn [parse_string] in H.
  destruct (c =? 34)%N; [injection H as _ <-; cbn; lia|].
  destruct (c =? 92)%N.
  - destruct s1 as [|e s2]; [discriminate|].
    repeat match type of H with
           | (if ?b then _ else _) = _ =>
               destruct b;
               [try (apply IH in H; cbn in *; lia)|]
           end; try discriminate.
    destruct s2 as [|h1 [|h2 [|h3 [|h4 s3]]]]; try discriminate.
    destruct (hex_digit h1), (hex_digit h2), (hex_digit h3), (hex_digit h4);
      try discriminate.
    apply IH in H; cbn in *; lia.
  - destruct (c <? 32)%N; [discriminate|].
    apply IH in H; cbn in *; lia.
Qed.

Lemma take_while_length (p : N -> bool) (s : jstring) :
  List.length (take_while p s) <= List.length s.
Proof.
  induction s as [|c s IH]; cbn; [lia|]. destruct (p c); cbn; lia.
Qed.

Lemma parse_number_shorter (s : jstring) (n : num) (r : jstring) :
  parse_number s = Some (n, r) -> List.length r < List.length s.
Proof.
  unfold parse_number.
  set (neg_s0 := match s with 45%N :: r0 => (true, r0) | _ => (false, s) end).
  assert (H0 : List.length (snd neg_s0) <= List.length s).
  { subst neg_s0. destruct s as [|c s']; cbn; [lia|].
    destruct c as [|p]; cbn; [lia|].
    repeat (destruct p as [p|p|]; cbn; try lia). }
  destruct neg_s0 as [neg s0]. cbn [snd] in H0.
  set (ip := match s0 with 48%N :: _ => [48%N] | _ => take_while is_digit s0 end).
  assert (Hip : List.length ip <= List.length s0).
  { subst ip. pose proof (take_while_length is_digit s0).
    destruct s0 as [|c s']; cbn in *; [lia|].
    destruct c as [|p]; [exact H|].
    repeat (destruct p as [p|p|]; try exact H); cbn; lia. }
  destruct ip as [|d ip'] eqn:Eip; [discriminate|].
  set (s1 := skipn (List.length (d :: ip')) s0).
  assert (H1 : List.length s1 < List.length s0).
  { subst s1. rewrite length_skipn. cbn in *. lia. }
  clearbody s1.
  assert (Hfrac : forall fp s2,
            match s1 with
            | 46%N :: r0 =>
                match take_while is_digit r0 with
                | [] => None
                | fp0 => Some (fp0, skipn (List.length fp0) r0)
                end
            | _ => Some ([], s1)
            end = Some (fp, s2) -> List.length s2 <= List.length s1).
  { intros fp s2 H. destruct s1 as [|c s']; [injection H as _ <-; lia|].
    destruct (N.eq_dec c 46) as [->|Hc].
    - destruct (take_while is_digit s') eqn:Et; [discriminate|].
      cbv zeta in H. injection H as _ <-.
      destruct s'; cbn; [lia|rewrite length_skipn; lia].
    - assert (Hs : Some ([] : jstring, c :: s') = Some (fp, s2)).
      { destruct c as [|p]; [exact H|].
        repeat (destruct p as [p|p|]; try exact H). contradiction. }
      injection Hs as _ <-. lia. }
  match goal with
  | |- match ?frac with _ => _ end = _ -> _ => destruct frac as [[fp s2]|] eqn:Ef
  end; [|discriminate].
  specialize (Hfrac fp s2 eq_refl).
  match goal with
  | |- match ?expo with _ => _ end = _ -> _ => destruct expo as [[x s3]|] eqn:Ee
  end; [|discriminate].
  intros H. injection H as _ <-.
  enough (List.length s3 <= List.length s2) by lia.
  destruct s2 as [|c r0]; [injection Ee as _ <-; lia|].
  destruct ((c =? 101) || (c =? 69))%N; [|injection Ee as _ <-; lia].
  set (er := match r0 with
             | 45%N :: r' => (true, r')
             | 43%N :: r' => (false, r')
             | _ => (false, r0)
             end) in Ee.
  assert (He : List.length (snd er) <= List.length r0).
  { subst er. destruct r0 as [|c0 r']; cbn; [lia|].
    destruct c0 as [|p]; cbn; [lia|].
    repeat (destruct p as [p|p|]; cbn; try lia). }
  destruct er as [eneg r']. cbn [snd] in He.
  destruct (take_while is_digit r') eqn:Et; [discriminate|].
  cbv zeta in Ee. injection Ee as _ <-.
  destruct r'; cbn in *; [lia|rewrite length_skipn; lia].
Qed.

(** What a parser returns is shorter than what it was given. *)
Lemma parse_shorter (fuel : nat) :
  (forall s v r, parse_value fuel s = Got v r -> List.length r < List.length s)
  /\ (forall s acc v r,
        parse_elements fuel s acc = Got v r -> List.length r < List.length s)
  /\ (forall s acc v r,
        parse_members fuel s acc = Got v r -> List.length r < List.length s).
Proof.
  induction fuel as [|fuel [IHv [IHe IHm]]].
  - repeat split; intros; discriminate.
  - split; [|split].
    + intros s v r H. cbn [parse_value] in H.
      destruct (skip_ws s) as [|c r0] eqn:Es; [discriminate|].
      apply skip_ws_cons in Es.
      destruct (c =? 123)%N.
      { destruct (skip_ws r0) as [|c1 r1] eqn:E1.
        - apply IHm in H. lia.
        - pose proof (skip_ws_cons _ E1).
          destruct (N.eq_dec c1 125) as [->|Hc].
          + injection H as _ <-. lia.
          + assert (Hm : parse_members fuel r0 [] = Got v r).
            { destruct c1 as [|p]; [exact H|].
              repeat (destruct p as [p|p|]; try exact H). contradiction. }
            apply IHm in Hm. lia. }
      destruct (c =? 91)%N.
      { destruct (skip_ws r0) as [|c1 r1] eqn:E1.
        - apply IHe in H. lia.
        - pose proof (skip_ws_cons _ E1).
          destruct (N.eq_dec c1 93) as [->|Hc].
          + injection H as _ <-. lia.
          + assert (Hm : parse_elements fuel r0 [] = Got v r).
            { destruct c1 as [|p]; [exact H|].
              repeat (destruct p as [p|p|]; try exact H). contradiction. }
            apply IHe in Hm. lia. }
      destruct (c =? 34)%N.
      { destruct (parse_string r0 []) as [[t r1]|] eqn:E1; [|discriminate].
        apply parse_string_shorter in E1. injection H as _ <-. lia. }
      pose proof (length_skipn 3 r0) as Hl3. pose proof (length_skipn 4 r0) as Hl4.
      remember (skipn 3 r0) as t3. remember (skipn 4 r0) as t4.
      destruct (startsWith (c :: r0) (str "true")); [injection H as _ <-; lia|].
      destruct (startsWith (c :: r0) (str "false")); [injection H as _ <-; lia|].
      destruct (startsWith (c :: r0) (str "null")); [injection H as _ <-; lia|].
      destruct (parse_number (c :: r0)) as [[n r1]|] eqn:E1; [|discriminate].
      apply parse_number_shorter in E1. injection H as _ <-. cbn in E1. lia.
    + intros s acc v r H. cbn [parse_elements] in H.
      destruct (parse_value fuel s) as [| |v1 r1] eqn:Ev; try discriminate.
      apply IHv in Ev.
      destruct (skip_ws r1) as [|c1 r2] eqn:E1; [discriminate|].
      apply skip_ws_cons in E1.
      destruct (N.eq_dec c1 44) as [->|Hc1].
      { apply IHe in H. lia. }
      destruct (N.eq_dec c1 93) as [->|Hc2].
      { injection H as _ <-. lia. }
      exfalso. destruct c1 as [|p]; [discriminate|].
      repeat (destruct p as [p|p|]; try discriminate); contradiction.
    + intros s acc v r H. cbn [parse_members] in H.
      destruct (skip_ws s) as [|c r0] eqn:Es; [discriminate|].
      apply skip_ws_cons in Es.
      destruct (N.eq_dec c 34) as [->|Hc].
      2:{ exfalso. destruct c as [|p]; [discriminate|].
          repeat (destruct p as [p|p|]; try discriminate); contradiction. }
      destruct (parse_string r0 []) as [[key r1]|] eqn:Ek; [|discriminate].
      apply parse_string_shorter in Ek.
      destruct (skip_ws r1) as [|c2 r2] eqn:E2; [discriminate|].
      apply skip_ws_cons in E2.
      destruct (N.eq_dec c2 58) as [->|Hc2].
      2:{ exfalso. destruct c2 as [|p]; [discriminate|].
          repeat (destruct p as [p|p|]; try discriminate); contradiction. }
      destruct (parse_value fuel r2) as [| |v1 r3] eqn:Ev; try discriminate.
      apply IHv in Ev.
      destruct (skip_ws r3) as [|c4 r4] eqn:E4; [discriminate|].
      apply skip_ws_cons in E4.
      destruct (N.eq_dec c4 44) as [->|Hc4].
      { apply IHm in H. lia. }
      destruct (N.eq_dec c4 125) as [->|Hc5].
      { injection H as _ <-. lia. }
      exfalso. destruct c4 as [|p]; [discriminate|].
      repeat (destruct p as [p|p|]; try discriminate); contradiction.
Qed.

(** Twice the length of the text, and two more, is fuel enough. *)
Lemma parse_fuel_enough (fuel : nat) :
  (forall s, 2 * List.length s + 1 <= fuel -> parse_value fuel s <> NoFuel)
  /\ (forall s acc, 2 * List.length s + 2 <= fuel -> parse_elements fuel s acc <> NoFuel)
  /\ (forall s acc, 2 * List.length s + 2 <= fuel -> parse_members fuel s acc <> NoFuel).
Proof.
  induction fuel as [|fuel [IHv [IHe IHm]]].
  - repeat split; intros; lia.
  - destruct (parse_shorter fuel) as [Sv [Se Sm]].
    split; [|split].
    + intros s Hf. cbn [parse_value].
      destruct (skip_ws s) as [|c r0] eqn:Es; [discriminate|].
      apply skip_ws_cons in Es.
      destruct (c =? 123)%N.
      { destruct (skip_ws r0) as [|c1 r1] eqn:E1; [apply IHm; lia|].
        destruct (N.eq_dec c1 125) as [->|Hc]; [discriminate|].
        assert (Hm : parse_members fuel r0 [] <> NoFuel) by (apply IHm; lia).
        destruct c1 as [|p]; [exact Hm|].
        repeat (destruct p as [p|p|]; try exact Hm). contradiction. }
      destruct (c =? 91)%N.
      { destruct (skip_ws r0) as [|c1 r1] eqn:E1; [apply IHe; lia|].
        destruct (N.eq_dec c1 93) as [->|Hc]; [discriminate|].
        assert (Hm : parse_elements fuel r0 [] <> NoFuel) by (apply IHe; lia).
        destruct c1 as [|p]; [exact Hm|].
        repeat (destruct p as [p|p|]; try exact Hm). contradiction. }
      destruct (c =? 34)%N; [destruct (parse_string r0 []) as [[t r1]|]; discriminate|].
      destruct (startsWith (c :: r0) (str "true")); [discriminate|].
      destruct (startsWith (c :: r0) (str "false")); [discriminate|].
      destruct (startsWith (c :: r0) (str "null")); [discriminate|].
      destruct (parse_number (c :: r0)) as [[n r1]|]; discriminate.
    + intros s acc Hf. cbn [parse_elements].
      destruct (parse_value fuel s) as [| |v1 r1] eqn:Ev.
      * exfalso. revert Ev. apply IHv. lia.
      * discriminate.
      * apply Sv in Ev.
        destruct (skip_ws r1) as [|c1 r2] eqn:E1; [discriminate|].
        apply skip_ws_cons in E1.
        destruct (N.eq_dec c1 44) as [->|Hc1]; [apply IHe; lia|].
        destruct (N.eq_dec c1 93) as [->|Hc2]; [discriminate|].
        destruct c1 as [|p]; [discriminate|].
        repeat (destruct p as [p|p|]; try discriminate); contradiction.
    + intros s acc Hf. cbn [parse_members].
      destruct (skip_ws s) as [|c r0] eqn:Es; [discriminate|].
      apply skip_ws_cons in Es.
      destruct (N.eq_dec c 34) as [->|Hc].
      2:{ destruct c as [|p]; [discriminate|].
          repeat (destruct p as [p|p|]; try discriminate); contradiction. }
      destruct (parse_string r0 []) as [[key r1]|] eqn:Ek; [|discriminate].
      apply parse_string_shorter in Ek.
      destruct (skip_ws r1) as [|c2 r2] eqn:E2; [discriminate|].
      apply skip_ws_cons in E2.
      destruct (N.eq_dec c2 58) as [->|Hc2].
      2:{ destruct c2 as [|p]; [discriminate|].
          repeat (destruct p as [p|p|]; try discriminate); contradiction. }
      destruct (parse_value fuel r2) as [| |v1 r3] eqn:Ev.
      * exfalso. revert Ev. apply IHv. lia.
      * discriminate.
      * apply Sv in Ev.
        destruct (skip_ws r3) as [|c4 r4] eqn:E4; [discriminate|].
        apply skip_ws_cons in E4.
        destruct (N.eq_dec c4 44) as [->|Hc4]; [apply IHm; lia|].
        destruct (N.eq_dec c4 125) as [->|Hc5]; [discriminate|].
        destruct c4 as [|p]; [discriminate|].
        repeat (destruct p as [p|p|]; try discriminate); contradiction.
Qed.

(** [JSON_parse] never runs out of fuel: it throws on a syntax error
    only. *)
Lemma JSON_parse_fuel (s : jstring) :
  parse_value (2 * List.length s + 2) s <> NoFuel.
Proof.
  apply (parse_fuel_enough (2 * List.length s + 2)). lia.
Qed.

(** ** Further properties *)

(** The well-formed block of the specification: [1 run], then
    [v. ["跑"]  n. ["跑步"]] (跑 is U+8DD1, 步 is U+6B65). *)
Lemma parseMarkdownFile_example :
  let pao := [quote; 36305%N; quote] in
  let paobu := [quote; 36305%N; 27493%N; quote] in
  let line := str "v. [" ++ pao ++ str "]  n. [" ++ paobu ++ str "]" in
  parseMarkdownFile (str "1 run" ++ 10%N :: line)
  = [{| rank := str "1"; word := str "run";
        definitions := [ {| pos := str "v"; trans := str "[" ++ pao ++ str "]" |};
                         {| pos := str "n"; trans := str "[" ++ paobu ++ str "]" |} ];
        rawTrans := line |}]
  /\ List.map formatTranslation [str "[" ++ pao ++ str "]"; str "[" ++ paobu ++ str "]"]
     = [[36305%N]; [36305%N; 27493%N]].
Proof.
  cbv zeta. split; vm_compute; reflexivity.
Qed.

(** When the lookup failed, every field read from the response holds its
    default: the empty string, or the empty sequence. *)
Lemma failed_lookup_defaults (entry : WordEntry) (def : Sense) :
  exists p,
    processed entry VNull def = Normal p
    /\ p.(phoneticUs) = VStr [] /\ p.(phoneticUk) = VStr []
    /\ p.(inflections) = VArr [] /\ p.(tags) = VArr []
    /\ p.(image) = VStr []
    /\ p.(video) = {| cover := VStr []; title := VStr []; url := VStr [] |}.
Proof.
  eexists. split; [apply processed_record_for|]. repeat split.
Qed.

(** Two files, every lookup settling, a file dropped on the page on the
    way. *)
Lemma processFiles_returns_witness :
  exists r, processFiles env_upload (idle [one_md; two_md]) = Returns r.
Proof.
  apply processFiles_returns.
  - reflexivity.
  - intros j nm words i Hj.
    destruct j as [|[|j]]; cbn in Hj.
    + injection Hj as _ <-. unfold slice.
      replace (i + CONCURRENCY - i) with CONCURRENCY by lia.
      destruct i as [|[|[|i]]]; vm_compute; reflexivity.
    + injection Hj as _ <-. unfold slice.
      replace (i + CONCURRENCY - i) with CONCURRENCY by lia.
      destruct i as [|[|i]]; vm_compute; reflexivity.
    + destruct j; discriminate.
  - split; [constructor|].
    intros k i. cbn. constructor.
    + cbn. constructor; [intros a0 _; reflexivity|constructor].
    + repeat constructor.
Defined.

(** Every entry gives at least one record: max(1, definitions.length) of
    them, whatever the lookup returned. *)
Lemma every_entry_yields_records (entry : WordEntry) (apiData : value) :
  exists ps,
    entry_records entry apiData = Normal ps
    /\ List.length ps = Nat.max 1 (List.length entry.(definitions))
    /\ 1 <= List.length ps.
Proof.
  rewrite entry_records_map. eexists. split; [reflexivity|].
  rewrite length_map, definitionLoop_length. unfold records_per_entry. lia.
Qed.

(* ================================================================== *)
(** * Part V: further properties *)
(* ================================================================== *)

(** ** Regular expressions *)



Lemma rmatch_Star (a : regex) (st : mstate) (k : mstate -> option mstate) :
  rmatch (Star a) st k = star_iter (rmatch a) k (S (List.length st.(rest))) st.
Proof. reflexivity. Qed.

Lemma rmatch_sound (r : regex) :
  forall st k m, rmatch r st k = Some m ->
                 exists st1, spans r st st1 /\ k st1 = Some m.
Proof.
  induction r as [|p| | |a IHa b IHb|a IHa b IHb|a IHa|i a IHa]; intros st k m H;
    [cbn [rmatch] in H ..| | cbn [rmatch] in H ].
  - exists st. split; [constructor|exact H].
  - destruct (rest st) as [|c s'] eqn:E; [discriminate|].
    destruct (p c) eqn:Ep; [|discriminate].
    eexists. split; [eapply spans_Cls; eassumption|exact H].
  - destruct (Nat.eqb_spec (before st) 0); [|discriminate].
    exists st. split; [constructor; assumption|exact H].
  - destruct (rest st) eqn:E; [|discriminate].
    exists st. split; [constructor; assumption|exact H].
  - apply IHa in H. destruct H as [st1 [H1 H]].
    apply IHb in H. destruct H as [st2 [H2 H]].
    exists st2. split; [econstructor; eassumption|exact H].
  - destruct (rmatch a st k) as [m'|] eqn:E.
    + injection H as <-. apply IHa in E. destruct E as [st1 [H1 H]].
      exists st1. split; [apply spans_Alt_l; exact H1|exact H].
    + apply IHb in H. destruct H as [st1 [H1 H]].
      exists st1. split; [apply spans_Alt_r; exact H1|exact H].
  - rewrite rmatch_Star in H.
    revert H. generalize (S (List.length (rest st))). intros fuel. revert st.
    induction fuel as [|fuel IH]; intros st H; cbn [star_iter] in H.
    + exists st. split; [constructor|exact H].
    + match type of H with
      | match ?x with _ => _ end = _ => destruct x as [m'|] eqn:E
      end.
      * injection H as <-. apply IHa in E. destruct E as [st1 [H1 H]].
        destruct (Nat.eqb (before st1) (before st)); [discriminate|].
        apply IH in H. destruct H as [st2 [H2 H]].
        exists st2. split; [eapply spans_Star_more; eassumption|exact H].
      * exists st. split; [constructor|exact H].
  - apply IHa in H. destruct H as [st1 [H1 H]].
    eexists. split; [apply spans_Grp; exact H1|exact H].
Qed.

(** A match reads a part of the text, and counts what it reads. *)
Lemma spans_reads (r : regex) (st st1 : mstate) :
  spans r st st1 ->
  exists read, st.(rest) = read ++ st1.(rest)
               /\ st1.(before) = st.(before) + List.length read.
Proof.
  induction 1.
  - exists []. split; [reflexivity|cbn; lia].
  - exists [c]. cbn. split; [assumption|lia].
  - exists []. split; [reflexivity|cbn; lia].
  - exists []. split; [reflexivity|cbn; lia].
  - destruct IHspans1 as [r1 [E1 B1]]. destruct IHspans2 as [r2 [E2 B2]].
    exists (r1 ++ r2). rewrite E1, E2, B2, B1, length_app, app_assoc. split; [reflexivity|lia].
  - assumption.
  - assumption.
  - exists []. split; [reflexivity|cbn; lia].
  - destruct IHspans1 as [r1 [E1 B1]]. destruct IHspans2 as [r2 [E2 B2]].
    exists (r1 ++ r2). rewrite E1, E2, B2, B1, length_app, app_assoc. split; [reflexivity|lia].
  - destruct IHspans as [r1 [E1 B1]]. exists r1. cbn. split; assumption.
Qed.

(** A run of one class reads units of the class and leaves the groups. *)
Lemma spans_Star_Cls (p : N -> bool) (st st1 : mstate) :
  spans (Star (Cls p)) st st1 ->
  exists read, st.(rest) = read ++ st1.(rest)
               /\ st1.(before) = st.(before) + List.length read
               /\ st1.(caps) = st.(caps)
               /\ forallb p read = true.
Proof.
  intros H. remember (Star (Cls p)) as r eqn:Er.
  induction H; try discriminate.
  - exists []. cbn. repeat split; lia.
  - injection Er as ->. specialize (IHspans2 eq_refl).
    destruct IHspans2 as [r2 [E2 [B2 [C2 F2]]]].
    inversion H; subst. cbn in *.
    exists (c :: r2). cbn.
    repeat match goal with
           | Hr : rest _ = _ :: _ |- _ => rewrite Hr; clear Hr
           | Hp : p _ = true |- _ => rewrite Hp; clear Hp
           end.
    rewrite E2, B2, C2, F2. repeat split; lia.
Qed.

Lemma spans_Plus_Cls (p : N -> bool) (st st1 : mstate) :
  spans (Plus (Cls p)) st st1 ->
  exists read, st.(rest) = read ++ st1.(rest)
               /\ st1.(before) = st.(before) + List.length read
               /\ st1.(caps) = st.(caps)
               /\ forallb p read = true
               /\ read <> [].
Proof.
  intros H. inversion H as [| | | |a b st0 st2 st3 Hc Hs| | | | |]; subst.
  inversion Hc; subst.
  apply spans_Star_Cls in Hs. cbn in Hs.
  destruct Hs as [r2 [E2 [B2 [C2 F2]]]].
  exists (c :: r2). cbn.
  repeat match goal with
         | Hr : rest _ = _ :: _ |- _ => rewrite Hr; clear Hr
         | Hp : p _ = true |- _ => rewrite Hp; clear Hp
         end.
  rewrite E2, B2, C2, F2.
  repeat split; try lia. discriminate.
Qed.

(** [rmatch] on a run of one class is [star_cls]. *)
Lemma rmatch_Star_Cls (p : N -> bool) (k : mstate -> option mstate) (st : mstate) :
  rmatch (Star (Cls p)) st k = star_cls p st.(rest) st.(before) st.(caps) k.
Proof.
  rewrite rmatch_Star.
  assert (G : forall fuel s n cs, List.length s < fuel ->
    star_iter (rmatch (Cls p)) k fuel {| before := n; rest := s; caps := cs |}
    = star_cls p s n cs k).
  { intros fuel. induction fuel as [|fuel IH]; intros s n cs Hl; [lia|].
    cbn [star_iter rmatch].
    destruct s as [|c s']; cbn [rest before caps star_cls]; [reflexivity|].
    destruct (p c); [|reflexivity].
    replace (Nat.eqb (S n) n) with false
      by (symmetry; apply Nat.eqb_neq; lia).
    rewrite IH by (cbn in Hl; lia). reflexivity. }
  destruct st as [n s cs]. cbn [rest before caps]. apply G. lia.
Qed.

Lemma search_some (r : regex) :
  forall s n skipped st,
    search r n s = Some (skipped, st) ->
    exists s', s = skipped ++ s'
               /\ match_here r (n + List.length skipped) s' = Some st
               /\ forall j, j < List.length skipped ->
                            match_here r (n + j) (skipn j s) = None.
Proof.
  induction s as [|c s IH]; intros n skipped st H; cbn [search] in H.
  - destruct (match_here r n []) eqn:E; [|discriminate].
    injection H as <- <-. exists []. cbn. rewrite Nat.add_0_r.
    split; [reflexivity|]. split; [exact E|]. intros; lia.
  - destruct (match_here r n (c :: s)) eqn:E.
    + injection H as <- <-. exists (c :: s). cbn. rewrite Nat.add_0_r.
      split; [reflexivity|]. split; [exact E|]. intros; lia.
    + destruct (search r (S n) s) as [[sk st']|] eqn:Es; [|discriminate].
      injection H as <- <-.
      destruct (IH _ _ _ Es) as [s' [-> [Hm Hl]]].
      exists s'. cbn. split; [reflexivity|].
      split; [rewrite Nat.add_succ_r; exact Hm|].
      intros [|j] Hj.
      * rewrite Nat.add_0_r. exact E.
      * cbn [skipn]. rewrite Nat.add_succ_r. apply (Hl j). lia.
Qed.

Lemma search_none (r : regex) :
  forall s n, search r n s = None ->
              forall j, j <= List.length s -> match_here r (n + j) (skipn j s) = None.
Proof.
  induction s as [|c s IH]; intros n H j Hj; cbn [search] in H.
  - destruct (match_here r n []) eqn:E; [discriminate|].
    cbn in Hj. replace j with 0 by lia. rewrite Nat.add_0_r. exact E.
  - destruct (match_here r n (c :: s)) eqn:E; [discriminate|].
    destruct (search r (S n) s) as [[sk st']|] eqn:Es; [discriminate|].
    destruct j as [|j].
    + rewrite Nat.add_0_r. exact E.
    + cbn [skipn]. rewrite Nat.add_succ_r. apply (IH (S n) Es). cbn in Hj. lia.
Qed.

Lemma firstn_read {A} (read tail : list A) (n m : nat) :
  m = n + List.length read -> firstn (m - n) (read ++ tail) = read.
Proof.
  intros ->. replace (n + List.length read - n) with (List.length read + 0) by lia.
  rewrite firstn_app_2. cbn. apply app_nil_r.
Qed.

(** What the title pattern finds in a line: the line is digits, white
    space and a rest without line terminator, none of them empty; the
    groups are the digits and the rest. *)
Lemma title_match (line : jstring) (m : mstate) :
  match_re title_pattern line = Some m ->
  exists sp,
    line = cap 1 m ++ sp ++ cap 2 m
    /\ cap 1 m <> [] /\ forallb is_digit (cap 1 m) = true
    /\ sp <> [] /\ forallb is_space sp = true
    /\ cap 2 m <> []
    /\ forallb (fun c => negb (is_line_terminator c)) (cap 2 m) = true.
Proof.
  unfold match_re. intros H.
  destruct (search title_pattern 0 line) as [[skipped st]|] eqn:Es; [|discriminate].
  injection H as ->.
  apply search_some in Es. destruct Es as [s' [-> [Hm _]]].
  unfold match_here in Hm. apply rmatch_sound in Hm.
  destruct Hm as [st1 [Hs Hk]]. injection Hk as ->.
  unfold title_pattern in Hs.
  inversion Hs as [| | | |? ? ? ? ? Hbol Hs1| | | | |]; subst; clear Hs.
  inversion Hbol; subst; clear Hbol.
  match goal with Hb : before _ = 0 |- _ => cbn in Hb end.
  assert (skipped = []) as -> by (destruct skipped; [reflexivity|cbn in *; lia]).
  cbn [List.app] in *.
  inversion Hs1 as [| | | |? ? ? ? ? Hg1 Hs2| | | | |]; subst; clear Hs1.
  inversion Hg1 as [| | | | | | | | |? ? ? ? Hd]; subst; clear Hg1.
  apply spans_Plus_Cls in Hd. cbn [rest before caps] in Hd.
  destruct Hd as [ds [Eds [Bds [Cds [Fds Nds]]]]].
  inversion Hs2 as [| | | |? ? ? ? ? Hsp Hs3| | | | |]; subst; clear Hs2.
  apply spans_Plus_Cls in Hsp. cbn [rest before caps] in Hsp.
  destruct Hsp as [sp [Esp [Bsp [Csp [Fsp Nsp]]]]].
  inversion Hs3 as [| | | |? ? ? ? ? Hg2 Heol| | | | |]; subst; clear Hs3.
  inversion Hg2 as [| | | | | | | | |? ? ? ? Hw]; subst; clear Hg2.
  apply spans_Plus_Cls in Hw.
  destruct Hw as [w [Ew [Bw [Cw [Fw Nw]]]]].
  inversion Heol; subst; clear Heol.
  match goal with He : rest _ = [] |- _ => cbn in He; rewrite He in Ew end.
  rewrite app_nil_r in Ew.
  match goal with |- context [cap 1 ?x] => set (m := x) end.
  assert (C1 : cap 1 m = ds).
  { unfold cap, m. cbn. rewrite Cw, Csp. cbn. apply firstn_read. exact Bds. }
  assert (C2 : cap 2 m = w).
  { unfold cap, m. cbn. rewrite Ew. rewrite <- (app_nil_r w) at 1.
    apply firstn_read. exact Bw. }
  exists sp. rewrite C1, C2.
  split; [rewrite Esp, Ew; reflexivity|].
  repeat split; assumption.
Qed.

Lemma spans_Lit (c : N) (st st1 : mstate) :
  spans (Lit c) st st1 ->
  st.(rest) = c :: st1.(rest) /\ st1.(before) = S st.(before) /\ st1.(caps) = st.(caps).
Proof.
  unfold Lit. intros H. inversion H; subst. cbn.
  match goal with Hp : N.eqb _ _ = true |- _ => apply N.eqb_eq in Hp; subst end.
  repeat split; assumption.
Qed.

Lemma exec_all_in (r : regex) (m : mstate) :
  forall fuel n s, In m (exec_all fuel r n s) ->
                   exists n' s', match_here r n' s' = Some m.
Proof.
  induction fuel as [|fuel IH]; intros n s H; cbn [exec_all] in H; [contradiction|].
  destruct (search r n s) as [[skipped st]|] eqn:Es; [|contradiction].
  destruct H as [->|H].
  - apply search_some in Es. destruct Es as [s' [_ [Hm _]]]. eauto.
  - eapply IH. exact H.
Qed.

Lemma remove_first_last (c : N) (s : jstring) :
  forallb (fun x => negb (N.eqb x c)) s = true ->
  remove_first c (s ++ [c]) = s.
Proof.
  induction s as [|x s IH]; cbn; intros H.
  - rewrite N.eqb_refl. reflexivity.
  - apply andb_prop in H. destruct H as [Hx Hs].
    apply negb_true_iff in Hx. rewrite Hx, (IH Hs). reflexivity.
Qed.

(** What [posRegex] finds: lower-case letters and a full stop, then a
    bracketed text without closing bracket inside. *)
Lemma posRegex_match (n : nat) (s : jstring) (m : mstate) :
  match_here posRegex n s = Some m ->
  exists letters body,
    cap 1 m = letters ++ [chr "."]
    /\ letters <> [] /\ forallb is_lower letters = true
    /\ cap 2 m = chr "[" :: body ++ [chr "]"]
    /\ body <> [] /\ forallb not_bracket body = true.
Proof.
  unfold match_here. intros Hm. apply rmatch_sound in Hm.
  destruct Hm as [st1 [Hs Hk]]. injection Hk as Hk.
  rewrite <- Hk. clear Hk m.
  unfold posRegex in Hs.
  inversion Hs as [| | | |? ? ? ? ? Hg1 Hs1| | | | |]; subst; clear Hs.
  inversion Hg1 as [| | | | | | | | |? ? ? ? Hp]; subst; clear Hg1.
  inversion Hp as [| | | |? ? ? ? ? Hl Hdot| | | | |]; subst; clear Hp.
  apply spans_Plus_Cls in Hl. cbn [rest before caps] in Hl.
  destruct Hl as [ls [Els [Bls [Cls' [Fls Nls]]]]].
  apply spans_Lit in Hdot. destruct Hdot as [Edot [Bdot Cdot]].
  inversion Hs1 as [| | | |? ? ? ? ? Hsp Hg2| | | | |]; subst; clear Hs1.
  apply spans_Star_Cls in Hsp. cbn [rest before caps] in Hsp.
  destruct Hsp as [sp [Esp [Bsp [Csp Fsp]]]].
  inversion Hg2 as [| | | | | | | | |? ? ? ? Hb]; subst; clear Hg2.
  inversion Hb as [| | | |? ? ? ? ? Ho Hb1| | | | |]; subst; clear Hb.
  apply spans_Lit in Ho. destruct Ho as [Eo [Bo Co]].
  inversion Hb1 as [| | | |? ? ? ? ? Hbody Hc| | | | |]; subst; clear Hb1.
  apply spans_Plus_Cls in Hbody.
  destruct Hbody as [body [Ebody [Bbody [Cbody [Fbody Nbody]]]]].
  apply spans_Lit in Hc. destruct Hc as [Ec [Bc Cc]].
  exists ls, body.
  match goal with |- context [cap 1 ?x] => set (m := x) end.
  assert (C1 : cap 1 m = ls ++ [chr "."]).
  { unfold cap, m. cbn. rewrite Cc, Cbody, Co, Csp. cbn.
    rewrite Edot. change (46%N :: ?x) with ([46%N] ++ x).
    rewrite app_assoc. apply firstn_read. rewrite length_app. cbn. lia. }
  assert (C2 : cap 2 m = chr "[" :: body ++ [chr "]"]).
  { unfold cap, m. cbn. rewrite Eo, Ebody, Ec.
    replace (91%N :: body ++ 93%N :: rest st4)
      with ((91%N :: body ++ [93%N]) ++ rest st4)
      by (cbn; rewrite <- app_assoc; reflexivity).
    apply firstn_read. cbn. rewrite length_app. cbn. lia. }
  repeat split; assumption.
Qed.

(** *** Runs of one class, the longest first *)

Lemma rmatch_Seq (a b : regex) (st : mstate) (k : mstate -> option mstate) :
  rmatch (Seq a b) st k = rmatch a st (fun st1 => rmatch b st1 k).
Proof. reflexivity. Qed.

Lemma rmatch_Grp (i : nat) (a : regex) (st : mstate) (k : mstate -> option mstate) :
  rmatch (Grp i a) st k
  = rmatch a st (fun st1 =>
      k {| before := st1.(before); rest := st1.(rest);
           caps := (i, firstn (st1.(before) - st.(before)) st.(rest)) :: st1.(caps) |}).
Proof. reflexivity. Qed.

Lemma rmatch_Cls (p : N -> bool) (st : mstate) (k : mstate -> option mstate) :
  rmatch (Cls p) st k
  = match st.(rest) with
    | c :: s' => if p c then k {| before := S st.(before); rest := s'; caps := st.(caps) |}
                 else None
    | [] => None
    end.
Proof. reflexivity. Qed.

Lemma star_cls_none (p : N -> bool) (k : mstate -> option mstate) :
  forall s n cs, star_cls p s n cs k = None ->
                 k {| before := n; rest := s; caps := cs |} = None.
Proof.
  intros [|c s] n cs H; cbn [star_cls] in H; [exact H|].
  destruct (p c); [|exact H].
  destruct (star_cls p s (S n) cs k); [discriminate|exact H].
Qed.

(** The run [star_cls] settles on: the continuation takes it, and refuses
    the run one unit longer. *)
Lemma star_cls_some (p : N -> bool) (k : mstate -> option mstate) (m : mstate) :
  forall s n cs,
    star_cls p s n cs k = Some m ->
    exists read tail,
      s = read ++ tail /\ forallb p read = true
      /\ k {| before := n + List.length read; rest := tail; caps := cs |} = Some m
      /\ forall c tail', tail = c :: tail' -> p c = true ->
           k {| before := S (n + List.length read); rest := tail'; caps := cs |} = None.
Proof.
  induction s as [|c s IH]; intros n cs H; cbn [star_cls] in H.
  - exists [], []. cbn. rewrite Nat.add_0_r. repeat split; try assumption.
    intros; discriminate.
  - destruct (p c) eqn:Ep.
    + destruct (star_cls p s (S n) cs k) as [m'|] eqn:E.
      * injection H as <-. destruct (IH _ _ E) as [read [tail [-> [F [K L]]]]].
        exists (c :: read), tail. cbn. rewrite Ep, F.
        replace (n + S (List.length read)) with (S n + List.length read) by lia.
        repeat split; assumption.
      * exists [], (c :: s). cbn. rewrite Nat.add_0_r.
        repeat split; try assumption.
        intros c' tail' Heq _. injection Heq as <- <-.
        apply star_cls_none in E. exact E.
    + exists [], (c :: s). cbn. rewrite Nat.add_0_r.
      repeat split; try assumption.
      intros c' tail' Heq Hp. injection Heq as <- <-. congruence.
Qed.

(** A text of the class all through is read to its end, when the
    continuation takes that. *)
Lemma star_cls_all (p : N -> bool) (k : mstate -> option mstate) (m : mstate) :
  forall s n cs,
    forallb p s = true ->
    k {| before := n + List.length s; rest := []; caps := cs |} = Some m ->
    star_cls p s n cs k = Some m.
Proof.
  induction s as [|c s IH]; intros n cs F K; cbn [star_cls].
  - cbn in K. rewrite Nat.add_0_r in K. exact K.
  - cbn in F. apply andb_prop in F. destruct F as [Fc Fs]. rewrite Fc.
    rewrite (IH (S n) cs Fs); [reflexivity|].
    cbn in K. replace (S n + List.length s) with (n + S (List.length s)) by lia.
    exact K.
Qed.

(** *** trim *)

Lemma drop_while_head (p : N -> bool) (s r : jstring) (c : N) :
  drop_while p s = c :: r -> p c = false.
Proof.
  induction s as [|x s IH]; cbn; [discriminate|].
  destruct (p x) eqn:E; [exact IH|]. intros H. injection H as <- _. exact E.
Qed.

Lemma drop_while_id (p : N -> bool) (s : jstring) (c : N) :
  p c = false -> drop_while p (c :: s) = c :: s.
Proof. intros H. cbn. rewrite H. reflexivity. Qed.

Lemma drop_while_suffix (p : N -> bool) (s : jstring) :
  exists pre, s = pre ++ drop_while p s.
Proof.
  induction s as [|x s [pre IH]]; cbn.
  - exists []. reflexivity.
  - destruct (p x).
    + exists (x :: pre). cbn. rewrite <- IH. reflexivity.
    + exists []. reflexivity.
Qed.

(** A trimmed text that is not empty ends with a unit that is no white
    space. *)
Lemma trim_last (s r : jstring) (c : N) :
  trim s = r ++ [c] -> is_space c = false.
Proof.
  unfold trim. intros H.
  apply (f_equal (@rev N)) in H. rewrite rev_involutive, rev_app_distr in H.
  cbn in H. apply drop_while_head in H. exact H.
Qed.

Lemma trim_first (s r : jstring) (c : N) :
  trim s = c :: r -> is_space c = false.
Proof.
  unfold trim. intros H.
  destruct (drop_while is_space s) as [|x t] eqn:E.
  - cbn in H. discriminate.
  - pose proof (drop_while_head _ _ E) as Hx.
    destruct (drop_while_suffix is_space (rev (x :: t))) as [pre Hpre].
    apply (f_equal (@rev N)) in Hpre. rewrite rev_involutive, rev_app_distr, H in Hpre.
    cbn in Hpre. injection Hpre as <- _. exact Hx.
Qed.

(** A text that neither starts nor ends with white space is its own trim. *)
Lemma trim_fixed (s : jstring) :
  (forall c r, s = c :: r -> is_space c = false) ->
  (forall c r, s = r ++ [c] -> is_space c = false) ->
  trim s = s.
Proof.
  intros Hf Hl. unfold trim.
  destruct s as [|c r]; [reflexivity|].
  rewrite (@drop_while_id is_space r c (Hf c r eq_refl)).
  destruct (rev (c :: r)) as [|x t] eqn:E.
  - apply (f_equal (@rev N)) in E. rewrite rev_involutive in E. discriminate.
  - assert (Hx : is_space x = false).
    { apply (Hl x (rev t)). apply (f_equal (@rev N)) in E.
      rewrite rev_involutive in E. exact E. }
    rewrite (@drop_while_id is_space t x Hx), <- E. apply rev_involutive.
Qed.

(** In a line that does not end with white space, the second group of the
    title pattern does not start with white space: the white space before
    it is read as far as it goes. *)
Lemma title_match_word_start (line : jstring) (m : mstate) :
  (forall c r, line = r ++ [c] -> is_space c = false) ->
  match_re title_pattern line = Some m ->
  forall c r, cap 2 m = c :: r -> is_space c = false.
Proof.
  intros Hlast H c r Hc.
  destruct (is_space c) eqn:Espace; [exfalso|reflexivity].
  unfold match_re in H.
  destruct (search title_pattern 0 line) as [[skipped st]|] eqn:Es; [|discriminate].
  injection H as ->.
  apply search_some in Es. destruct Es as [s' [-> [Hm _]]].
  unfold match_here, title_pattern in Hm.
  rewrite rmatch_Seq in Hm. apply rmatch_sound in Hm. destruct Hm as [st1 [HBol Hm]].
  inversion HBol; subst; clear HBol.
  rewrite rmatch_Seq in Hm. apply rmatch_sound in Hm. destruct Hm as [st2 [HG1 Hm]].
  apply spans_reads in HG1. cbn [rest before] in HG1. destruct HG1 as [ds [Eds _]].
  unfold Plus in Hm. rewrite rmatch_Seq in Hm. rewrite rmatch_Seq in Hm.
  apply rmatch_sound in Hm. destruct Hm as [st3 [HC Hm]].
  apply spans_reads in HC. destruct HC as [sp1 [Esp1 _]].
  rewrite rmatch_Star_Cls in Hm. apply star_cls_some in Hm.
  destruct Hm as [read [tail [Etail [_ [K L]]]]].
  pose proof K as K'.
  apply rmatch_sound in K'. destruct K' as [st4 [Hs Hk]]. injection Hk as Hk.
  inversion Hs as [| | | |? ? ? ? ? Hg2 Heol| | | | |]; subst; clear Hs.
  inversion Hg2 as [| | | | | | | | |? ? ? ? Hw]; subst; clear Hg2.
  apply spans_Plus_Cls in Hw. cbn [rest before caps] in Hw.
  destruct Hw as [w [Ew [Bw [Cw [Fw Nw]]]]].
  inversion Heol; subst; clear Heol.
  match goal with He : rest _ = [] |- _ => cbn in He; rename He into Hend end.
  rewrite Hend, app_nil_r in *.
  unfold cap in Hc. cbn in Hc.
  rewrite <- (app_nil_r w) in Hc at 1. rewrite (@firstn_read N w [] _ _ Bw) in Hc. subst w.
  destruct r as [|x r'].
  - (* the line would end with white space *)
    rewrite (Hlast c (skipped ++ ds ++ sp1 ++ read)) in Espace; [discriminate|].
    rewrite Esp1, Etail, <- !app_assoc. reflexivity.
  - specialize (L c (x :: r') eq_refl Espace).
    cbn in Fw. apply andb_prop in Fw. destruct Fw as [_ Fw].
    apply andb_prop in Fw. destruct Fw as [Fx Fr].
    rewrite rmatch_Seq, rmatch_Grp, rmatch_Seq, rmatch_Cls in L.
    cbn [rest before caps] in L. rewrite Fx in L.
    rewrite rmatch_Star_Cls in L. cbn [rest before caps] in L.
    erewrite star_cls_all in L; [discriminate|exact Fr|].
    cbn. reflexivity.
Qed.

(** *** The entries of parseMarkdownFile *)

Lemma in_parseMarkdownFile (content : jstring) (entry : WordEntry) :
  In entry (parseMarkdownFile content) ->
  exists block, parse_block block = Some entry.
Proof.
  unfold parseMarkdownFile. intros H. apply in_flat_map in H.
  destruct H as [block [_ H]]. exists block.
  destruct (parse_block block) as [e|]; [|contradiction].
  destruct H as [->|[]]. reflexivity.
Qed.

(** The lines of a block, as the loop sees them, are trimmed and not
    empty. *)
Lemma block_line (block line : jstring) :
  In line (filter nonempty (List.map trim (split_on 10 block))) ->
  line <> [] /\ exists l, line = trim l.
Proof.
  intros H. apply filter_In in H. destruct H as [H Hn].
  apply in_map_iff in H. destruct H as [l [<- _]].
  split; [|exists l; reflexivity].
  destruct (trim l); [discriminate|discriminate].
Qed.

(** What [parse_block] returns, in terms of the lines of the block. *)
Lemma parse_block_some (block : jstring) (entry : WordEntry) :
  parse_block block = Some entry ->
  let lines := filter nonempty (List.map trim (split_on 10 block)) in
  exists first titleMatch,
    In first lines
    /\ match_re title_pattern first = Some titleMatch
    /\ entry.(rank) = cap 1 titleMatch
    /\ entry.(word) = cap 2 titleMatch
    /\ match find is_defLine lines with
       | None => entry.(rawTrans) = [] /\ entry.(definitions) = []
       | Some l =>
           entry.(rawTrans) = l /\ In l lines /\ is_defLine l = true
           /\ let found :=
                List.map (fun m => {| pos := remove_first (chr ".") (cap 1 m);
                                      trans := cap 2 m |})
                         (exec_all (S (List.length l)) posRegex 0 l) in
              entry.(definitions)
              = match found with
                | [] => if startsWith l (str "[")
                        then [{| pos := str "misc"; trans := l |}] else []
                | _ => found
                end
       end.
Proof.
  intros H lines. unfold parse_block in H. fold lines in H.
  destruct (List.length lines <? 2) eqn:El; [discriminate|].
  apply Nat.ltb_ge in El.
  destruct (match_re title_pattern (hd [] lines)) as [tm|] eqn:Et; [|discriminate].
  injection H as <-. cbn [rank word rawTrans definitions].
  exists (hd [] lines), tm.
  split. { destruct lines; [cbn in El; lia|left; reflexivity]. }
  split; [exact Et|]. split; [reflexivity|]. split; [reflexivity|].
  destruct (find is_defLine lines) as [l|] eqn:Ef.
  - apply find_some in Ef. destruct Ef as [Hin Hd].
    split; [reflexivity|]. split; [exact Hin|]. split; [exact Hd|]. reflexivity.
  - split; reflexivity.
Qed.

(** The title of a block: the rank is a string of digits, not empty; the
    word is not empty, lies on one line and carries no white space around
    it. *)
Lemma entry_title_shape (block : jstring) (entry : WordEntry) :
  parse_block block = Some entry ->
  entry.(rank) <> [] /\ forallb is_digit entry.(rank) = true
  /\ entry.(word) <> []
  /\ forallb (fun c => negb (is_line_terminator c)) entry.(word) = true
  /\ trim entry.(word) = entry.(word).
Proof.
  intros H. apply parse_block_some in H.
  destruct H as [first [tm [Hin [Hm [-> [-> _]]]]]].
  apply block_line in Hin. destruct Hin as [_ [l ->]].
  destruct (title_match _ Hm) as [sp [Eline [Nd [Fd [_ [_ [Nw Fw]]]]]]].
  repeat split; try assumption.
  apply trim_fixed.
  - intros c r Hc. eapply title_match_word_start; [|exact Hm|exact Hc].
    intros c' r'. apply trim_last.
  - intros c r Hc. apply (@trim_last l (cap 1 tm ++ sp ++ r) c).
    rewrite Eline, Hc, <- !app_assoc. reflexivity.
Qed.

(** *** The rank as a number *)

Lemma is_digit_range (c : N) : is_digit c = true -> (48 <= c <= 57)%N.
Proof.
  unfold is_digit. intros H. apply andb_prop in H. destruct H as [H1 H2].
  apply N.leb_le in H1. apply N.leb_le in H2. lia.
Qed.

Lemma digit_not_space (c : N) : is_digit c = true -> is_space c = false.
Proof.
  intros H. apply is_digit_range in H. unfold is_space.
  repeat match goal with
         | |- context [(?a <=? ?b)%N] => destruct (N.leb_spec a b); try lia
         | |- context [(?a =? ?b)%N] => destruct (N.eqb_spec a b); try lia
         end.
  all: reflexivity.
Qed.

Lemma take_while_all (p : N -> bool) (s : jstring) :
  forallb p s = true -> take_while p s = s.
Proof.
  induction s as [|c s IH]; cbn; [reflexivity|].
  intros H. apply andb_prop in H. destruct H as [Hc Hs].
  rewrite Hc, (IH Hs). reflexivity.
Qed.

Lemma digits_trim (s : jstring) : forallb is_digit s = true -> trim s = s.
Proof.
  intros H. apply trim_fixed.
  - intros c r ->. cbn in H. apply andb_prop in H. apply digit_not_space, H.
  - intros c r ->. rewrite forallb_app in H. apply andb_prop in H.
    destruct H as [_ H]. cbn in H. apply andb_prop in H. apply digit_not_space, H.
Qed.

Lemma unsigned_decimal_digits (s : jstring) :
  s <> [] -> forallb is_digit s = true ->
  unsigned_decimal false s = num_of_decimal false (dec_value s) 0.
Proof.
  intros Hn Hd. unfold unsigned_decimal.
  assert (Hi : jstring_eqb s (str "Infinity") = false).
  { destruct s as [|c r]; [contradiction|]. cbn in Hd. apply andb_prop in Hd.
    destruct Hd as [Hc _]. apply is_digit_range in Hc. cbn.
    destruct (N.eqb_spec c 73); [lia|reflexivity]. }
  rewrite Hi, (take_while_all _ _ Hd), skipn_all. cbn zeta iota.
  destruct s as [|c r]; [contradiction|].
  cbn [exponent_part]. rewrite app_nil_r. reflexivity.
Qed.

(** The Number of a string of digits is the double nearest to the integer
    they spell. *)
Lemma Number_digits (s : jstring) :
  s <> [] -> forallb is_digit s = true ->
  Number s = num_of_decimal false (dec_value s) 0.
Proof.
  intros Hn Hd. unfold Number. rewrite (digits_trim _ Hd).
  rewrite <- (unsigned_decimal_digits Hn Hd).
  destruct s as [|c r]; [contradiction|].
  pose proof Hd as Hd'. cbn in Hd'. apply andb_prop in Hd'. destruct Hd' as [Hc Hr].
  apply is_digit_range in Hc.
  assert (Ec : (c = 48 \/ c = 49 \/ c = 50 \/ c = 51 \/ c = 52 \/ c = 53 \/ c = 54
                \/ c = 55 \/ c = 56 \/ c = 57)%N) by lia.
  destruct Ec as [->|[->|[->|[->|[->|[->|[->|[->|[->| ->]]]]]]]]]; try reflexivity.
  destruct r as [|x r]; [reflexivity|].
  cbn in Hr. apply andb_prop in Hr. destruct Hr as [Hx _].
  apply is_digit_range in Hx.
  repeat match goal with
         | |- context [(?a =? ?b)%N] => destruct (N.eqb_spec a b); try lia
         end.
  reflexivity.
Qed.

Lemma num_of_decimal_sign (d x : Z) : sign_clear (num_of_decimal false d x).
Proof.
  unfold num_of_decimal.
  destruct (d <=? 0)%Z; [reflexivity|].
  assert (G : forall p q, sign_clear (round_ratio false p q)).
  { intros p q. unfold round_ratio. cbv zeta.
    match goal with |- sign_clear (match ?m with _ => _ end) => destruct m end;
      try reflexivity.
    match goal with |- sign_clear (if ?b then _ else _) => destruct b end;
      [reflexivity|].
    match goal with |- context [canon ?a ?b] => destruct (canon a b) end.
    reflexivity. }
  destruct (0 <=? x)%Z; apply G.
Qed.

(** Every record of a parsed entry carries, as its rank, the number its
    digits spell: never NaN, never negative. *)
Lemma parsed_rank_number (content : jstring) (entry : WordEntry) (apiData : value)
  (ps : list ProcessedWord) (p : ProcessedWord) :
  In entry (parseMarkdownFile content) ->
  entry_records entry apiData = Normal ps ->
  In p ps ->
  p.(cocaRank) = num_of_decimal false (dec_value entry.(rank)) 0
  /\ sign_clear p.(cocaRank).
Proof.
  intros He Hr Hp. rewrite entry_records_map in Hr. injection Hr as <-.
  apply in_map_iff in Hp. destruct Hp as [def [<- _]].
  apply in_parseMarkdownFile in He. destruct He as [block He].
  destruct (entry_title_shape _ He) as [Hn [Hd _]].
  cbn [cocaRank record_for]. rewrite (Number_digits Hn Hd).
  split; [reflexivity|apply num_of_decimal_sign].
Qed.

Lemma lower_not_dot (s : jstring) :
  forallb is_lower s = true ->
  forallb (fun x => negb (N.eqb x (chr "."))) s = true.
Proof.
  induction s as [|c s IH]; cbn [forallb]; [reflexivity|].
  intros H. apply andb_prop in H. destruct H as [Hc Hs].
  rewrite (IH Hs), andb_true_r.
  unfold is_lower in Hc. apply andb_prop in Hc. destruct Hc as [H1 _].
  apply N.leb_le in H1. apply negb_true_iff, N.eqb_neq. cbn. lia.
Qed.

(** The raw line of an entry is empty, and the entry has no definition, or
    it is a trimmed line that holds an opening bracket with a quote and a
    part-of-speech marker.  A definition is the whole raw line under the
    name misc, when the line starts with a bracket and the pattern finds
    nothing in it; else it is what the pattern found: lower-case letters as
    the part of speech, a bracketed text without closing bracket inside as
    the translation. *)
Lemma parsed_definitions_shape (content : jstring) (entry : WordEntry) :
  In entry (parseMarkdownFile content) ->
  (entry.(rawTrans) = [] /\ entry.(definitions) = []
   \/ is_defLine entry.(rawTrans) = true /\ trim entry.(rawTrans) = entry.(rawTrans))
  /\ forall def, In def entry.(definitions) ->
       (def = {| pos := str "misc"; trans := entry.(rawTrans) |}
        /\ entry.(definitions) = [def]
        /\ startsWith entry.(rawTrans) (str "[") = true)
       \/ (exists body,
             def.(pos) <> [] /\ forallb is_lower def.(pos) = true
             /\ def.(trans) = chr "[" :: body ++ [chr "]"]
             /\ body <> [] /\ forallb not_bracket body = true).
Proof.
  intros H. apply in_parseMarkdownFile in H. destruct H as [block H].
  apply parse_block_some in H. cbv zeta in H.
  destruct H as [first [tm [_ [_ [_ [_ H]]]]]].
  destruct (find is_defLine _) as [l|].
  - destruct H as [Hraw [Hin [Hd Hdefs]]]. rewrite Hraw. split.
    + right. split; [exact Hd|].
      apply block_line in Hin. destruct Hin as [Hn [l0 ->]].
      apply trim_fixed; intros c r Hc.
      * eapply trim_first. exact Hc.
      * eapply trim_last. exact Hc.
    + intros def Hdef. rewrite Hdefs in Hdef.
      destruct (exec_all (S (List.length l)) posRegex 0 l) as [|m0 ms] eqn:Ex.
      * cbn [List.map] in Hdef, Hdefs.
        destruct (startsWith l (str "[")) eqn:Es; [|contradiction].
        destruct Hdef as [<-|[]]. left. repeat split; assumption.
      * right. cbn [List.map] in Hdef.
        assert (Hm : exists m,
                   {| pos := remove_first (chr ".") (cap 1 m); trans := cap 2 m |} = def
                   /\ In m (m0 :: ms)).
        { destruct Hdef as [<-|Hdef]; [exists m0; split; [reflexivity|left; reflexivity]|].
          apply in_map_iff in Hdef. destruct Hdef as [m [<- Hm]].
          exists m. split; [reflexivity|right; exact Hm]. }
        destruct Hm as [m [<- Hm]]. rewrite <- Ex in Hm.
        apply exec_all_in in Hm. destruct Hm as [n' [s' Hm]].
        apply posRegex_match in Hm.
        destruct Hm as [letters [body [C1 [Nl [Fl [C2 [Nb Fb]]]]]]].
        exists body. cbn [pos trans]. rewrite C1, C2.
        rewrite (remove_first_last _ _ (lower_not_dot _ Fl)).
        repeat split; assumption.
  - destruct H as [Hraw Hdefs]. split; [left; split; assumption|].
    rewrite Hdefs. intros def [].
Qed.

(** ** formatTranslation *)



Lemma parse_string_plain (s r : jstring) :
  forallb plain_unit s = true ->
  forall acc, parse_string (s ++ quote :: r) acc = Some (rev acc ++ s, r).
Proof.
  induction s as [|c s IH]; intros H acc.
  - cbn. rewrite app_nil_r. reflexivity.
  - cbn [forallb] in H. apply andb_prop in H. destruct H as [Hc Hs].
    unfold plain_unit in Hc. apply andb_prop in Hc. destruct Hc as [Hc H3].
    apply andb_prop in Hc. destruct Hc as [H1 H2].
    apply negb_true_iff in H1, H2, H3.
    cbn [List.app parse_string]. rewrite H1, H2, H3.
    rewrite (IH Hs). cbn [rev]. rewrite <- app_assoc. reflexivity.
Qed.

Lemma skip_ws_quote (x : jstring) : skip_ws (quote :: x) = quote :: x.
Proof. reflexivity. Qed.

Lemma skip_ws_comma (x : jstring) : skip_ws (chr "," :: x) = 44%N :: x.
Proof. reflexivity. Qed.

Lemma skip_ws_close (x : jstring) : skip_ws (chr "]" :: x) = 93%N :: x.
Proof. reflexivity. Qed.

Lemma skip_ws_open (x : jstring) : skip_ws (chr "[" :: x) = 91%N :: x.
Proof. reflexivity. Qed.

Lemma parse_value_string (f : nat) (s r : jstring) :
  forallb plain_unit s = true ->
  parse_value (S f) (json_string s ++ r) = Got (VStr s) r.
Proof.
  intros H. unfold json_string. cbn [List.app].
  rewrite <- app_assoc. cbn [List.app].
  cbn [parse_value]. rewrite skip_ws_quote. cbv iota.
  change ((quote =? 123)%N) with false. change ((quote =? 91)%N) with false.
  change ((quote =? 34)%N) with true. cbv iota.
  rewrite (@parse_string_plain s r H []). reflexivity.
Qed.

Lemma parse_elements_strings (items : list jstring) :
  Forall (fun s => forallb plain_unit s = true) items ->
  items <> [] ->
  forall f acc r,
    List.length items < f ->
    parse_elements f (json_list items ++ chr "]" :: r) acc
    = Got (VArr (rev acc ++ List.map VStr items)) r.
Proof.
  induction 1 as [|s items Hs Hitems IH]; intros Hne f acc r Hf; [contradiction|].
  destruct f as [|f]; [lia|]. cbn [parse_elements].
  destruct items as [|s2 items].
  - cbn [json_list]. destruct f as [|f]; [cbn in Hf; lia|].
    rewrite (@parse_value_string f s _ Hs). rewrite skip_ws_close. reflexivity.
  - change (json_list (s :: s2 :: items))
      with (json_string s ++ chr "," :: json_list (s2 :: items)).
    rewrite <- app_assoc. cbn [List.app].
    destruct f as [|f]; [cbn in Hf; lia|].
    rewrite (@parse_value_string f s _ Hs).
    rewrite skip_ws_comma. cbv iota.
    rewrite IH; [|discriminate|cbn in Hf |- *; lia].
    cbn [rev List.map]. rewrite <- app_assoc. reflexivity.
Qed.

Lemma json_list_length (items : list jstring) :
  2 * List.length items <= List.length (json_list items).
Proof.
  induction items as [|s [|s2 items] IH].
  - cbn. lia.
  - cbn. rewrite length_app. cbn. lia.
  - change (json_list (s :: s2 :: items))
      with (json_string s ++ chr "," :: json_list (s2 :: items)).
    unfold json_string at 1. cbn [List.length List.app].
    rewrite !length_app. cbn [List.length] in *. lia.
Qed.

Lemma JSON_parse_strings (items : list jstring) :
  Forall (fun s => forallb plain_unit s = true) items ->
  JSON_parse (json_array items) = Normal (VArr (List.map VStr items)).
Proof.
  intros H. unfold JSON_parse, json_array.
  pose proof (json_list_length items) as Hl.
  remember (2 * List.length (chr "[" :: json_list items ++ [chr "]"]) + 2) as fuel eqn:Ef.
  cbn [List.length] in Ef. rewrite length_app in Ef. cbn [List.length] in Ef.
  destruct fuel as [|fuel]; [lia|].
  cbn [parse_value]. rewrite skip_ws_open. cbv iota.
  change ((91 =? 123)%N) with false. change ((91 =? 91)%N) with true. cbv iota.
  destruct items as [|s items].
  - cbn. reflexivity.
  - assert (Hq : exists t, json_list (s :: items) = quote :: t).
    { destruct items; cbn; eexists; reflexivity. }
    destruct Hq as [t Hq]. rewrite Hq. cbn [List.app].
    rewrite skip_ws_quote. unfold quote at 1. cbv iota.
    change (quote :: t ++ [chr "]"]) with ((quote :: t) ++ chr "]" :: []).
    rewrite <- Hq.
    rewrite (@parse_elements_strings (s :: items) H ltac:(discriminate) fuel [] []);
      [reflexivity|].
    cbn [List.length] in *. lia.
Qed.

Lemma join_strings (sep : jstring) (items : list jstring) :
  join (List.map VStr items) sep = Normal (joined sep items).
Proof.
  unfold join. induction items as [|s [|s2 items] IH].
  - reflexivity.
  - reflexivity.
  - change (List.map VStr (s :: s2 :: items))
      with (VStr s :: List.map VStr (s2 :: items)).
    change (joined sep (s :: s2 :: items)) with (s ++ sep ++ joined sep (s2 :: items)).
    cbn [join_with]. cbn [is_nullish ToString bind].
    change (List.map VStr (s2 :: items)) with (VStr s2 :: List.map VStr items) at 1.
    cbv iota. 
    change (VStr s2 :: List.map VStr items) with (List.map VStr (s2 :: items)).
    cbn [join_with] in IH. rewrite IH. reflexivity.
Qed.

(** *** The fallback of formatTranslation *)

Lemma search_Lit (q : N) :
  forall s n,
    match search (Lit q) n s with
    | None => forallb (fun c => negb (q =? c)%N) s = true
    | Some (skipped, st) =>
        s = skipped ++ q :: st.(rest)
        /\ forallb (fun c => negb (q =? c)%N) skipped = true
        /\ st.(before) = S (n + List.length skipped)
    end.
Proof.
  induction s as [|c s IH]; intros n.
  - cbn. reflexivity.
  - cbn [search]. unfold match_here, Lit. rewrite rmatch_Cls. cbn [rest before caps].
    destruct (N.eqb_spec q c) as [<-|Hc].
    + cbn. split; [reflexivity|]. split; [reflexivity|lia].
    + specialize (IH (S n)). fold (Lit q).
      destruct (search (Lit q) (S n) s) as [[sk st]|].
      * destruct IH as [-> [F B]]. cbn.
        destruct (N.eqb_spec q c); [contradiction|]. cbn.
        split; [reflexivity|]. split; [exact F|lia].
      * cbn. destruct (N.eqb_spec q c); [contradiction|]. exact IH.
Qed.

Lemma filter_all {A} (p : A -> bool) (l : list A) :
  forallb p l = true -> filter p l = l.
Proof.
  induction l as [|x l IH]; cbn; [reflexivity|].
  intros H. apply andb_prop in H. destruct H as [Hx Hl].
  rewrite Hx, (IH Hl). reflexivity.
Qed.

(** Replacing every occurrence of one unit by nothing leaves the other
    units, in their order. *)
Lemma replace_all_Lit (q : N) (s : jstring) :
  replace_all (Lit q) (fun _ => []) s = filter (fun c => negb (q =? c)%N) s.
Proof.
  unfold replace_all.
  assert (G : forall fuel s n, List.length s < fuel ->
            replace_g fuel (Lit q) (fun _ => []) n s
            = filter (fun c => negb (q =? c)%N) s).
  { induction fuel as [|fuel IH]; intros s0 n Hl; [lia|].
    cbn [replace_g]. pose proof (search_Lit q s0 n) as Hs.
    destruct (search (Lit q) n s0) as [[sk st]|].
    - destruct Hs as [-> [F B]].
      replace (Nat.eqb (before st) (n + List.length sk)) with false
        by (symmetry; apply Nat.eqb_neq; lia).
      cbn [List.app]. rewrite filter_app, (filter_all _ _ F). cbn [filter].
      rewrite N.eqb_refl. cbn [negb]. f_equal. apply IH.
      rewrite length_app in Hl. cbn in Hl. lia.
    - symmetry. apply filter_all. exact Hs. }
  apply G. lia.
Qed.

Lemma drop_while_In (p : N -> bool) (s : jstring) (c : N) :
  In c (drop_while p s) -> In c s.
Proof.
  destruct (drop_while_suffix p s) as [pre E]. intros H.
  rewrite E. apply in_or_app. right. exact H.
Qed.

Lemma trim_In (s : jstring) (c : N) : In c (trim s) -> In c s.
Proof.
  unfold trim. intros H. apply in_rev in H. apply drop_while_In in H.
  apply in_rev in H. apply drop_while_In in H. exact H.
Qed.

Lemma trim_trim (s : jstring) : trim (trim s) = trim s.
Proof.
  apply trim_fixed; intros c r H.
  - eapply trim_first. exact H.
  - eapply trim_last. exact H.
Qed.

(** When the raw text is no JSON, what comes back holds no double quote
    and no white space around it. *)
Lemma formatTranslation_fallback (raw : jstring) (e : exn) :
  JSON_parse raw = Throw e ->
  let t := formatTranslation raw in
  ~ In quote t /\ trim t = t.
Proof.
  intros H t. unfold t, formatTranslation.
  destruct raw as [|c r]; [split; [intros []|reflexivity]|].
  rewrite H. cbn [bind]. unfold strip_translation. split.
  - intros Hin. apply trim_In in Hin. rewrite replace_all_Lit in Hin.
    apply filter_In in Hin. destruct Hin as [_ Hq].
    rewrite N.eqb_refl in Hq. discriminate.
  - apply trim_trim.
Qed.

(** ** The exports *)



Lemma startsWith_app (a b : jstring) : startsWith (a ++ b) a = true.
Proof.
  induction a as [|c a IH]; cbn; [destruct b; reflexivity|].
  rewrite N.eqb_refl, IH. reflexivity.
Qed.

Lemma endsWith_app (s t : jstring) : endsWith (s ++ t) t = true.
Proof.
  unfold endsWith. rewrite rev_app_distr. apply startsWith_app.
Qed.

Lemma downloadJSON_filename (name : jstring) (d : list ProcessedWord) :
  endsWith (downloadJSON name d).(filename) (str ".json") = true.
Proof.
  unfold downloadJSON. cbn [filename].
  destruct (endsWith name (str ".json")) eqn:E; [exact E|apply endsWith_app].
Qed.

(** Whatever the export, every download is named [*.json]. *)
Lemma exports_named_json (results : list FileResult) (d : Download) :
  (In d (handleExportOriginal results)
   \/ In d (handleExportMerged results)
   \/ exists fuel splitCount ds,
        handleExportByQuantity fuel results splitCount = Some ds /\ In d ds) ->
  endsWith d.(filename) (str ".json") = true.
Proof.
  intros [H|[H|[fuel [n [ds [H Hd]]]]]].
  - unfold handleExportOriginal in H. apply in_map_iff in H.
    destruct H as [res [<- _]]. apply downloadJSON_filename.
  - destruct H as [<-|[]]. apply downloadJSON_filename.
  - destruct (@export_loop_downloads _ _ _ _ _ d H Hd) as [name [chunk ->]].
    apply downloadJSON_filename.
Qed.

(** The three exports carry the same records in the same order: the files
    of the per-file export, the merged file and, for a batch size that is
    an integer, the batches, put end to end, are the records of the
    results. *)
Lemma exports_same_records (results : list FileResult) :
  flat_map payload (handleExportOriginal results) = flat_map data results
  /\ flat_map payload (handleExportMerged results) = flat_map data results
  /\ forall fuel splitCount B ds,
       integer_value splitCount = Some B ->
       (Z.of_nat (List.length (flat_map data results)) < 2 ^ 53)%Z ->
       handleExportByQuantity fuel results splitCount = Some ds ->
       flat_map payload ds = flat_map data results.
Proof.
  split; [|split].
  - unfold handleExportOriginal. induction results as [|res results IH]; [reflexivity|].
    cbn [List.map flat_map]. rewrite IH. reflexivity.
  - unfold handleExportMerged. cbn. apply app_nil_r.
  - intros fuel s B ds Hs Hlen H.
    destruct (Z.lt_ge_cases 0 B) as [Hb|Hb].
    + rewrite (@handleExportByQuantity_integers results s B fuel Hs Hb Hlen) in H.
      exact (@integer_loop_consecutive (flat_map data results) B fuel Hb 0%Z ds
               ltac:(lia) H).
    + unfold handleExportByQuantity in H.
      destruct (flat_map data results) as [|p ps] eqn:E.
      * rewrite export_loop_done in H by reflexivity.
        injection H as <-. reflexivity.
      * rewrite (@export_loop_never_ends (p :: ps) s) in H;
          [discriminate|discriminate|exact (@not_positive_integer s B Hs Hb)|reflexivity].
Qed.

(** *** The name of a per-file export *)

Lemma match_here_extension (n : nat) (ext : jstring) :
  ext <> [] -> forallb extension_unit ext = true ->
  match_here extension n (chr "." :: ext)
  = Some {| before := S (S n) + List.length (tl ext); rest := []; caps := [] |}.
Proof.
  intros Hn Hf. destruct ext as [|c ext]; [contradiction|].
  cbn [forallb] in Hf. apply andb_prop in Hf. destruct Hf as [Hc Hf].
  unfold match_here, extension. rewrite rmatch_Seq. unfold Lit at 1.
  rewrite rmatch_Cls. cbn [rest before caps]. rewrite N.eqb_refl.
  unfold Plus. rewrite rmatch_Seq, rmatch_Seq, rmatch_Cls. cbn [rest before caps].
  unfold extension_unit in Hc. rewrite Hc.
  rewrite rmatch_Star_Cls. cbn [rest before caps tl].
  apply star_cls_all; [exact Hf|]. cbn. reflexivity.
Qed.

Lemma match_here_extension_none (n : nat) (a b : jstring) :
  match_here extension n (a ++ chr "." :: b) = None \/ a = [].
Proof.
  destruct (match_here extension n (a ++ chr "." :: b)) as [m|] eqn:E; [|left; reflexivity].
  right. unfold match_here in E. apply rmatch_sound in E.
  destruct E as [st1 [Hs _]]. unfold extension in Hs.
  inversion Hs as [| | | |? ? ? ? ? Hdot Hs1| | | | |]; subst; clear Hs.
  apply spans_Lit in Hdot. cbn [rest before caps] in Hdot. destruct Hdot as [Ed _].
  inversion Hs1 as [| | | |? ? ? ? ? Hrun Heol| | | | |]; subst; clear Hs1.
  apply spans_Plus_Cls in Hrun. destruct Hrun as [run [Er [_ [_ [Fr _]]]]].
  inversion Heol; subst; clear Heol.
  match goal with He : rest _ = [] |- _ => rewrite He, app_nil_r in Er end.
  destruct a as [|c a]; [reflexivity|exfalso].
  cbn [List.app] in Ed. injection Ed as _ Ed. rewrite Er in Ed. subst run.
  rewrite forallb_app in Fr. apply andb_prop in Fr. destruct Fr as [_ Fr].
  cbn in Fr. discriminate.
Qed.

Lemma search_extension (base ext : jstring) :
  ext <> [] -> forallb extension_unit ext = true ->
  forall n, exists st,
    search extension n (base ++ chr "." :: ext) = Some (base, st) /\ st.(rest) = [].
Proof.
  intros Hn Hf. induction base as [|c base IH]; intros n.
  - cbn [List.app search]. rewrite (match_here_extension n Hn Hf).
    eexists. split; reflexivity.
  - cbn [List.app search].
    destruct (match_here_extension_none n (c :: base) ext) as [E|E]; [|discriminate].
    cbn [List.app] in E. rewrite E.
    destruct (IH (S n)) as [st [-> Hr]]. exists st. split; [reflexivity|exact Hr].
Qed.

(** The pattern takes the last extension off a name, and no more. *)
Lemma remove_match_extension (base ext : jstring) :
  ext <> [] -> forallb extension_unit ext = true ->
  remove_match extension (base ++ chr "." :: ext) = base.
Proof.
  intros Hn Hf. unfold remove_match.
  destruct (search_extension base Hn Hf 0) as [st [-> Hr]].
  rewrite Hr. apply app_nil_r.
Qed.

(** A name without full stop has no extension to lose. *)
Lemma remove_match_no_extension (name : jstring) :
  forallb (fun c => negb (N.eqb c (chr "."))) name = true ->
  remove_match extension name = name.
Proof.
  intros H. unfold remove_match.
  destruct (search extension 0 name) as [[skipped st]|] eqn:E; [|reflexivity].
  exfalso. apply search_some in E. destruct E as [s' [-> [Hm _]]].
  unfold match_here in Hm. apply rmatch_sound in Hm.
  destruct Hm as [st1 [Hs _]]. unfold extension in Hs.
  inversion Hs as [| | | |? ? ? ? ? Hdot Hs1| | | | |]; subst; clear Hs.
  apply spans_Lit in Hdot. cbn [rest before caps] in Hdot. destruct Hdot as [Ed _].
  rewrite Ed, forallb_app in H. apply andb_prop in H. destruct H as [_ H].
  cbn in H. discriminate.
Qed.

Lemma endsWith_parsed (s : jstring) :
  endsWith (s ++ str "_parsed") (str ".json") = false.
Proof.
  unfold endsWith. rewrite rev_app_distr. reflexivity.
Qed.

(** The per-file export makes one download per result, in order.  A file
    [base.ext] is exported as [base_parsed.json], whatever the base holds;
    a name without full stop gets [_parsed.json] appended. *)
Lemma export_original_names (results : list FileResult) :
  List.length (handleExportOriginal results) = List.length results
  /\ forall k res, nth_error results k = Some res ->
       exists d, nth_error (handleExportOriginal results) k = Some d
         /\ d.(payload) = res.(data)
         /\ (forall base ext,
               res.(fileName) = base ++ chr "." :: ext ->
               ext <> [] -> forallb extension_unit ext = true ->
               d.(filename) = base ++ str "_parsed.json")
         /\ (forallb (fun c => negb (N.eqb c (chr "."))) res.(fileName) = true ->
             d.(filename) = res.(fileName) ++ str "_parsed.json").
Proof.
  unfold handleExportOriginal. split; [apply length_map|].
  intros k res Hk. eexists. split; [apply map_nth_error; exact Hk|].
  unfold downloadJSON. cbn [payload filename]. rewrite endsWith_parsed.
  split; [reflexivity|]. split.
  - intros base ext -> Hn Hf. rewrite (remove_match_extension base Hn Hf).
    rewrite <- app_assoc. reflexivity.
  - intros H. rewrite (remove_match_no_extension _ H).
    rewrite <- app_assoc. reflexivity.
Qed.


(** *** The log is bounded *)

Lemma last_n_length {A} (n : nat) (l : list A) : List.length (last_n n l) <= n.
Proof. unfold last_n. rewrite length_skipn. lia. Qed.

Lemma addLog_bound (msg : Message) (ty : LogType) (a : App) :
  List.length (addLog msg ty a).(logs) <= 200.
Proof. cbn. apply last_n_length. Qed.

Lemma handle_log_bounded (act : Action) (a : App) :
  log_bounded a -> log_bounded (handle act a).
Proof.
  intros H. destruct act as [|[|f fs]]; cbn.
  - apply last_n_length.
  - exact H.
  - unfold log_bounded. cbn. lia.
Qed.

Lemma AppTsx_handle_log_bounded (act : AppTsx.Action) (a : App) :
  log_bounded a -> log_bounded (AppTsx.handle act a).
Proof.
  intros H. destruct act as [|[|f fs]]; cbn.
  - apply last_n_length.
  - exact H.
  - unfold log_bounded. cbn. lia.
Qed.

(** The log never holds more than 200 lines: a run that starts with a log
    within the bound leaves one within the bound, however many words it
    went through and whatever the user did. *)
Lemma processFiles_log_bounded (env : Environment Action) (a : App) (r : Run) :
  List.length a.(logs) <= 200 ->
  processFiles env a = Returns r ->
  List.length r.(component).(logs) <= 200.
Proof.
  intros Ha H. unfold processFiles in H.
  destruct (files a) as [|f fs]; [injection H as <-; exact Ha|].
  match type of H with
  | context [parse_files handle env ?l ?x] =>
      destruct (parse_files handle env l x) as [[parsedFiles r0]|e0] eqn:Ep;
        [|discriminate];
      pose proof (@parse_files_inv Action handle log_bounded handle_log_bounded
                    (fun _ _ h => h) env l x parsedFiles r0 Ep (addLog_bound _ _ _)) as Hp
  end.
  destruct (for_files handle PauseReset (window env) parsedFiles 0 r0) as [r1| |] eqn:E;
    try discriminate.
  injection H as <-.
  apply (@for_files_inv Action handle PauseReset log_bounded handle_log_bounded
           (fun _ _ h => h) (fun m t x _ => addLog_bound m t x)) in E; [|exact Hp].
  destruct (abortRef (component r1)); cbn; [exact E|apply last_n_length].
Qed.

Lemma AppTsx_processFiles_log_bounded (env : Environment AppTsx.Action) (a : App)
  (r : Run) :
  List.length a.(logs) <= 200 ->
  AppTsx.processFiles env a = Returns r ->
  List.length r.(component).(logs) <= 200.
Proof.
  intros Ha H. unfold AppTsx.processFiles in H.
  destruct (files a) as [|f fs]; [injection H as <-; exact Ha|].
  match type of H with
  | context [parse_files AppTsx.handle env ?l ?x] =>
      destruct (parse_files AppTsx.handle env l x) as [[parsedFiles r0]|e0] eqn:Ep;
        [|discriminate];
      pose proof (@parse_files_inv AppTsx.Action AppTsx.handle log_bounded
                    AppTsx_handle_log_bounded
                    (fun _ _ h => h) env l x parsedFiles r0 Ep (addLog_bound _ _ _)) as Hp
  end.
  destruct (for_files AppTsx.handle StopButton (window env) parsedFiles 0 r0)
    as [r1| |] eqn:E; try discriminate.
  injection H as <-.
  apply (@for_files_inv AppTsx.Action AppTsx.handle StopButton log_bounded
           AppTsx_handle_log_bounded
           (fun _ _ h => h) (fun m t x _ => addLog_bound m t x)) in E; [|exact Hp].
  destruct (abortRef (component r1)) eqn:Ea; cbn; rewrite ?Ea; cbn;
    [exact E|apply last_n_length].
Qed.

(** ** parseMarkdownFile on a well-formed block *)



(** A run of the class that stops at the end of the text, or before a
    unit that is not of the class, is the run [star_cls] tries first. *)
Lemma star_cls_run (p : N -> bool) (k : mstate -> option mstate) (m : mstate)
  (t : jstring) (cs : list (nat * jstring)) :
  match t with [] => True | c :: _ => p c = false end ->
  forall xs n,
    forallb p xs = true ->
    k {| before := n + List.length xs; rest := t; caps := cs |} = Some m ->
    star_cls p (xs ++ t) n cs k = Some m.
Proof.
  intros Ht. induction xs as [|x xs IH]; intros n F K.
  - cbn [List.app List.length] in *. rewrite Nat.add_0_r in K.
    destruct t as [|c t']; cbn [star_cls]; [exact K|]. rewrite Ht. exact K.
  - cbn [forallb] in F. apply andb_prop in F. destruct F as [Fx Fs].
    cbn [List.app star_cls]. rewrite Fx.
    rewrite (IH (S n) Fs); [reflexivity|].
    cbn [List.length] in K.
    replace (S n + List.length xs) with (n + S (List.length xs)) by lia. exact K.
Qed.

Lemma includes_app (a x b : jstring) : includes (a ++ x ++ b) x = true.
Proof.
  induction a as [|c a IH].
  - cbn [List.app]. destruct (x ++ b) eqn:E; cbn [includes];
      rewrite <- E, startsWith_app; reflexivity.
  - cbn [List.app includes]. rewrite IH. apply orb_true_r.
Qed.

Lemma includes_without (c : N) (t s : jstring) :
  forallb (fun x => negb (N.eqb x c)) s = true -> includes s (c :: t) = false.
Proof.
  induction s as [|x s IH]; intros H.
  - reflexivity.
  - cbn [forallb] in H. apply andb_prop in H. destruct H as [Hx Hs].
    cbn [includes startsWith]. rewrite (IH Hs), orb_false_r.
    apply negb_true_iff in Hx. rewrite N.eqb_sym, Hx. reflexivity.
Qed.

Lemma split_on_two (sep : N) (a b : jstring) :
  forallb (fun x => negb (N.eqb x sep)) a = true ->
  forallb (fun x => negb (N.eqb x sep)) b = true ->
  split_on sep (a ++ sep :: b) = [a; b].
Proof.
  intros Ha Hb.
  assert (Hb' : split_on sep b = [b]).
  { clear Ha. induction b as [|x b IH]; [reflexivity|].
    cbn [forallb] in Hb. apply andb_prop in Hb. destruct Hb as [Hx Hs].
    apply negb_true_iff in Hx. cbn [split_on]. rewrite Hx, (IH Hs). reflexivity. }
  induction a as [|x a IH].
  - cbn [List.app split_on]. rewrite N.eqb_refl, Hb'. reflexivity.
  - cbn [forallb] in Ha. apply andb_prop in Ha. destruct Ha as [Hx Hs].
    apply negb_true_iff in Hx. cbn [List.app split_on]. rewrite Hx, (IH Hs). reflexivity.
Qed.

(** A text with one line feed has no blank line to split at. *)
Lemma search_blank_lines_none (a b : jstring) :
  forallb (fun x => negb (N.eqb x 10)) a = true ->
  forallb (fun x => negb (N.eqb x 10)) b = true ->
  forall n, search blank_lines n (a ++ 10%N :: b) = None.
Proof.
  intros Ha Hb n.
  destruct (search blank_lines n (a ++ 10%N :: b)) as [[skipped st]|] eqn:E;
    [exfalso|reflexivity].
  apply search_some in E. destruct E as [s' [Es [Hm _]]].
  unfold match_here in Hm. apply rmatch_sound in Hm.
  destruct Hm as [st1 [Hs _]]. unfold blank_lines in Hs.
  inversion Hs as [| | | |? ? ? ? ? H1 Hs1| | | | |]; subst; clear Hs.
  apply spans_Lit in H1. cbn [rest before caps] in H1. destruct H1 as [E1 _].
  inversion Hs1 as [| | | |? ? ? ? ? Hsp H2| | | | |]; subst; clear Hs1.
  apply spans_reads in Hsp. destruct Hsp as [sp [Esp _]].
  apply spans_Lit in H2. destruct H2 as [E2 _].
  rewrite Esp, E2 in Es. clear - Ha Hb Es.
  revert skipped Es. induction a as [|x a IH]; intros skipped Es.
  - cbn [List.app] in Es. destruct skipped as [|y skipped]; cbn [List.app] in Es.
    + injection Es as Es. rewrite Es, forallb_app in Hb.
      apply andb_prop in Hb. destruct Hb as [_ Hb]. cbn in Hb. discriminate.
    + injection Es as _ Es. rewrite Es, forallb_app in Hb.
      apply andb_prop in Hb. destruct Hb as [_ Hb]. cbn in Hb. discriminate.
  - cbn [forallb] in Ha. apply andb_prop in Ha. destruct Ha as [Hx Hs].
    destruct skipped as [|y skipped]; cbn [List.app] in Es.
    + injection Es as -> _. cbn in Hx. discriminate.
    + injection Es as _ Es. exact (IH Hs skipped Es).
Qed.

Lemma rmatch_Bol (st : mstate) (k : mstate -> option mstate) :
  rmatch Bol st k = if Nat.eqb st.(before) 0 then k st else None.
Proof. reflexivity. Qed.

Lemma rmatch_Eol (st : mstate) (k : mstate -> option mstate) :
  rmatch Eol st k = match st.(rest) with [] => k st | _ => None end.
Proof. reflexivity. Qed.

Lemma search_here (r : regex) (n : nat) (s : jstring) (st : mstate) :
  match_here r n s = Some st -> search r n s = Some ([], st).
Proof. intros H. destruct s; cbn [search]; rewrite H; reflexivity. Qed.

Lemma firstn_exact {A} (l tail : list A) (n : nat) :
  n = List.length l -> firstn n (l ++ tail) = l.
Proof.
  intros ->. rewrite <- (Nat.add_0_r (List.length l)), firstn_app_2.
  cbn. apply app_nil_r.
Qed.

(** The title pattern on a well-formed title line: digits, a space, a
    headword. *)
Lemma match_re_title (rank word : jstring) :
  rank <> [] -> forallb is_digit rank = true ->
  word <> [] -> forallb (fun c => negb (is_line_terminator c)) word = true ->
  (forall c r, word = c :: r -> is_space c = false) ->
  exists m, match_re title_pattern (rank ++ chr " " :: word) = Some m
            /\ cap 1 m = rank /\ cap 2 m = word.
Proof.
  intros Hr Fr Hw Fw Hs.
  destruct rank as [|d ds]; [contradiction|]. destruct word as [|w ws]; [contradiction|].
  cbn [forallb] in Fr, Fw. apply andb_prop in Fr, Fw.
  destruct Fr as [Fd Fds]. destruct Fw as [Fw Fws].
  pose proof (Hs w ws eq_refl) as Hsw.
  assert (H : exists m, match_here title_pattern 0 ((d :: ds) ++ chr " " :: w :: ws) = Some m
                        /\ cap 1 m = d :: ds /\ cap 2 m = w :: ws).
  { eexists. split.
    - unfold match_here, title_pattern.
      rewrite rmatch_Seq, rmatch_Bol. cbn [before Nat.eqb].
      rewrite rmatch_Seq, rmatch_Grp. unfold Plus at 1.
      rewrite rmatch_Seq, rmatch_Cls. cbn [rest before caps List.app]. rewrite Fd.
      rewrite rmatch_Star_Cls. cbn [rest before caps].
      apply star_cls_run; [reflexivity|exact Fds|].
      cbn [rest before caps].
      unfold Plus at 1. rewrite rmatch_Seq, rmatch_Seq, rmatch_Cls.
      cbn [rest before caps]. change (is_space (chr " ")) with true. cbv iota.
      rewrite rmatch_Star_Cls. cbn [rest before caps].
      apply (@star_cls_run is_space _ _ (w :: ws) _ Hsw []); [reflexivity|].
      cbn [rest before caps List.app List.length].
      rewrite rmatch_Seq, rmatch_Grp. unfold Plus at 1.
      rewrite rmatch_Seq, rmatch_Cls. cbn [rest before caps]. rewrite Fw.
      rewrite rmatch_Star_Cls. cbn [rest before caps].
      apply star_cls_all; [exact Fws|].
      cbn [rest before caps]. rewrite rmatch_Eol. cbn [rest]. reflexivity.
    - unfold cap. cbn [caps find fst snd Nat.eqb before rest].
      split.
      + apply (@firstn_exact N (d :: ds)). cbn [List.length]. lia.
      + rewrite <- (app_nil_r (w :: ws)) at 1.
        apply firstn_exact. cbn [List.length]. lia. }
  destruct H as [m [Hm [C1 C2]]]. exists m. split; [|split; assumption].
  unfold match_re. rewrite (search_here _ _ _ Hm). reflexivity.
Qed.

(** *** The sense line *)

Lemma json_list_units (p : N -> bool) (items : list jstring) :
  p quote = true -> p (chr ",") = true ->
  Forall (fun t => forallb p t = true) items ->
  forallb p (json_list items) = true.
Proof.
  intros Hq Hc H. induction H as [|s items Hs Hitems IH]; [reflexivity|].
  assert (Hj : forallb p (json_string s) = true).
  { unfold json_string. cbn [forallb]. rewrite Hq, forallb_app, Hs. cbn. rewrite Hq. reflexivity. }
  destruct items as [|s2 items]; [exact Hj|].
  change (json_list (s :: s2 :: items))
    with (json_string s ++ chr "," :: json_list (s2 :: items)).
  rewrite forallb_app, Hj. cbn [forallb andb]. rewrite Hc, IH. reflexivity.
Qed.

Lemma json_list_first (items : list jstring) :
  items <> [] -> exists t, json_list items = quote :: t.
Proof.
  intros H. destruct items as [|s [|s2 items]]; [contradiction| |];
    cbn; eexists; reflexivity.
Qed.

Lemma sense_unit_not_bracket (items : list jstring) :
  Forall (fun t => forallb sense_unit t = true) items ->
  Forall (fun t => forallb not_bracket t = true) items.
Proof.
  apply Forall_impl. intros t H. rewrite forallb_forall in *. intros c Hc.
  specialize (H c Hc). unfold sense_unit in H. apply andb_prop in H. apply H.
Qed.

Lemma sense_unit_plain (items : list jstring) :
  Forall (fun t => forallb sense_unit t = true) items ->
  Forall (fun t => forallb plain_unit t = true) items.
Proof.
  apply Forall_impl. intros t H. rewrite forallb_forall in *. intros c Hc.
  specialize (H c Hc). unfold sense_unit in H. apply andb_prop in H. apply H.
Qed.

(** [posRegex] on letters, a full stop, a space and a bracketed text. *)
Lemma match_here_posRegex (n : nat) (p b : N) (ps bs tail : jstring) :
  is_lower p = true -> forallb is_lower ps = true ->
  not_bracket b = true -> forallb not_bracket bs = true ->
  exists m,
    match_here posRegex n
      (p :: ps ++ chr "." :: chr " " :: chr "[" :: b :: bs ++ chr "]" :: tail) = Some m
    /\ m.(rest) = tail
    /\ cap 1 m = p :: ps ++ [chr "."]
    /\ cap 2 m = chr "[" :: b :: bs ++ [chr "]"].
Proof.
  intros Hp Hps Hb Hbs. eexists. split; [|split].
  - unfold match_here, posRegex.
    rewrite rmatch_Seq, rmatch_Grp, rmatch_Seq. unfold Plus at 1.
    rewrite rmatch_Seq, rmatch_Cls. cbn [rest before caps]. rewrite Hp.
    rewrite rmatch_Star_Cls. cbn [rest before caps].
    apply star_cls_run; [reflexivity|exact Hps|].
    unfold Lit at 1. rewrite rmatch_Cls. cbn [rest before caps].
    rewrite N.eqb_refl.
    rewrite rmatch_Seq, rmatch_Star_Cls. cbn [rest before caps].
    apply (@star_cls_run is_space _ _ (chr "[" :: b :: bs ++ chr "]" :: tail) _
             eq_refl [chr " "]); [reflexivity|].
    cbn [List.length].
    rewrite rmatch_Grp, rmatch_Seq. unfold Lit at 1. rewrite rmatch_Cls.
    cbn [rest before caps]. rewrite N.eqb_refl.
    unfold Plus at 1. rewrite rmatch_Seq, rmatch_Seq, rmatch_Cls.
    cbn [rest before caps]. fold (not_bracket b). rewrite Hb.
    rewrite rmatch_Star_Cls. cbn [rest before caps].
    apply (@star_cls_run _ _ _ (chr "]" :: tail) _ eq_refl bs); [exact Hbs|].
    unfold Lit. rewrite rmatch_Cls. cbn [rest before caps].
    rewrite N.eqb_refl. reflexivity.
  - reflexivity.
  - unfold cap. cbn [caps find fst snd Nat.eqb before rest]. split.
    + change (p :: ps ++ chr "." :: chr " " :: chr "[" :: b :: bs ++ chr "]" :: tail)
        with ((p :: ps) ++ [chr "."] ++ chr " " :: chr "[" :: b :: bs ++ chr "]" :: tail).
      rewrite app_assoc. change (p :: ps ++ [chr "."]) with ((p :: ps) ++ [chr "."]).
      apply firstn_exact. rewrite length_app. cbn [List.length]. lia.
    + change (chr "[" :: b :: bs ++ chr "]" :: tail)
        with ((chr "[" :: b :: bs) ++ [chr "]"] ++ tail).
      rewrite app_assoc. change (chr "[" :: b :: bs ++ [chr "]"])
        with ((chr "[" :: b :: bs) ++ [chr "]"]).
      apply firstn_exact. rewrite length_app. cbn [List.length]. lia.
Qed.

Lemma senses_text_cons (s : jstring * list jstring) (ss : list (jstring * list jstring)) :
  senses_text (s :: ss) = sense_text s ++ senses_tail ss.
Proof. destruct ss; cbn [senses_text senses_tail]; [rewrite app_nil_r|]; reflexivity. Qed.

Lemma match_here_sense (n : nat) (s : jstring * list jstring) (tail : jstring) :
  good_sense s ->
  exists m,
    match_here posRegex n (sense_text s ++ tail) = Some m
    /\ m.(rest) = tail
    /\ cap 1 m = fst s ++ [chr "."]
    /\ cap 2 m = json_array (snd s).
Proof.
  destruct s as [ps items]. intros [Hn [Hl [Hi Hu]]]. cbn [fst snd] in *.
  destruct ps as [|p ps]; [contradiction|].
  cbn [forallb] in Hl. apply andb_prop in Hl. destruct Hl as [Hp Hps].
  destruct (json_list_first Hi) as [t Et].
  pose proof (@json_list_units not_bracket items eq_refl eq_refl
                (sense_unit_not_bracket Hu)) as Hb.
  rewrite Et in Hb. cbn [forallb] in Hb. apply andb_prop in Hb. destruct Hb as [Hq Ht].
  destruct (@match_here_posRegex n p quote ps t tail Hp Hps Hq Ht)
    as [m [Hm [Hr [C1 C2]]]].
  exists m. unfold sense_text, json_array. cbn [fst snd]. rewrite Et.
  split; [|split; [exact Hr|split; [exact C1|exact C2]]].
  rewrite <- Hm. f_equal. cbn [List.app str list_ascii_of_string List.map].
  rewrite <- !app_assoc. cbn [List.app]. rewrite <- app_assoc. reflexivity.
Qed.

Lemma match_here_posRegex_space (n : nat) (s : jstring) :
  match_here posRegex n (chr " " :: s) = None.
Proof. reflexivity. Qed.

Lemma match_here_posRegex_nil (n : nat) : match_here posRegex n [] = None.
Proof. reflexivity. Qed.

(** The matches of [posRegex] along a well-formed sense line: one for each
    sense, in order. *)
Lemma exec_all_senses_tail (ss : list (jstring * list jstring)) :
  Forall good_sense ss ->
  forall fuel n, List.length ss < fuel ->
    List.map (fun m => {| pos := remove_first (chr ".") (cap 1 m); trans := cap 2 m |})
             (exec_all fuel posRegex n (senses_tail ss))
    = List.map (fun s => {| pos := fst s; trans := json_array (snd s) |}) ss.
Proof.
  induction 1 as [|s ss Hs Hss IH]; intros fuel n Hf.
  - destruct fuel as [|fuel]; [lia|]. reflexivity.
  - destruct fuel as [|fuel]; [lia|].
    cbn [senses_tail]. rewrite senses_text_cons.
    cbn [exec_all search]. rewrite match_here_posRegex_space.
    destruct (match_here_sense (S n) (senses_tail ss) Hs) as [m [Hm [Hr [C1 C2]]]].
    rewrite (search_here _ _ _ Hm). cbn [List.map]. rewrite Hr, C1, C2.
    destruct Hs as [_ [Hl _]].
    rewrite (remove_first_last _ _ (lower_not_dot _ Hl)).
    f_equal. apply IH. cbn in Hf. lia.
Qed.

Lemma exec_all_senses (ss : list (jstring * list jstring)) :
  Forall good_sense ss ->
  forall fuel, List.length ss < fuel ->
    List.map (fun m => {| pos := remove_first (chr ".") (cap 1 m); trans := cap 2 m |})
             (exec_all fuel posRegex 0 (senses_text ss))
    = List.map (fun s => {| pos := fst s; trans := json_array (snd s) |}) ss.
Proof.
  intros H fuel Hf. destruct H as [|s ss Hs Hss].
  - destruct fuel as [|fuel]; [lia|]. reflexivity.
  - destruct fuel as [|fuel]; [lia|].
    rewrite senses_text_cons. cbn [exec_all].
    destruct (match_here_sense 0 (senses_tail ss) Hs) as [m [Hm [Hr [C1 C2]]]].
    rewrite (search_here _ _ _ Hm). cbn [List.map]. rewrite Hr, C1, C2.
    destruct Hs as [_ [Hl _]].
    rewrite (remove_first_last _ _ (lower_not_dot _ Hl)).
    f_equal. apply exec_all_senses_tail; [exact Hss|cbn in Hf; lia].
Qed.

Lemma senses_text_units (p : N -> bool) (ss : list (jstring * list jstring)) :
  (forall c, is_lower c = true -> p c = true) ->
  (forall c, sense_unit c = true -> p c = true) ->
  p (chr ".") = true -> p (chr " ") = true -> p (chr "[") = true ->
  p (chr "]") = true -> p quote = true -> p (chr ",") = true ->
  Forall good_sense ss ->
  forallb p (senses_text ss) = true.
Proof.
  intros Hl Hu Hdot Hsp Ho Hc Hq Hcm H.
  assert (Hs : forall s, good_sense s -> forallb p (sense_text s) = true).
  { intros [ps items] [_ [Hps [_ Hi]]]. cbn [fst snd] in *.
    unfold sense_text, json_array. cbn [fst snd].
    rewrite !forallb_app. cbn [forallb str list_ascii_of_string List.map].
    change (N_of_ascii "."%char) with (chr "."). change (N_of_ascii " "%char) with (chr " ").
    rewrite forallb_app. cbn [forallb].
    rewrite Hdot, Hsp, Ho, Hc. cbn [andb]. rewrite !andb_true_r.
    apply andb_true_intro. split.
    - apply forallb_forall. intros c Hin. apply Hl.
      rewrite forallb_forall in Hps. apply Hps, Hin.
    - apply json_list_units; [exact Hq|exact Hcm|].
      revert Hi. apply Forall_impl. intros t Ht. apply forallb_forall. intros c Hin.
      apply Hu. rewrite forallb_forall in Ht. apply Ht, Hin. }
  induction H as [|s ss Hgs Hss IH]; [reflexivity|].
  rewrite senses_text_cons, forallb_app, (Hs s Hgs).
  destruct ss as [|s2 ss]; [reflexivity|].
  cbn [senses_tail forallb andb]. rewrite Hsp. exact IH.
Qed.

Lemma senses_text_length (ss : list (jstring * list jstring)) :
  List.length ss <= List.length (senses_text ss).
Proof.
  induction ss as [|s ss IH]; [cbn; lia|].
  rewrite senses_text_cons, length_app.
  destruct ss as [|s2 ss].
  - unfold sense_text. rewrite !length_app. cbn. lia.
  - cbn [senses_tail List.length] in *. lia.
Qed.

Lemma senses_text_ends (ss : list (jstring * list jstring)) :
  ss <> [] -> exists r, senses_text ss = r ++ [chr "]"].
Proof.
  induction ss as [|s ss IH]; intros H; [contradiction|].
  destruct ss as [|s2 ss].
  - cbn [senses_text]. unfold sense_text, json_array.
    exists (fst s ++ str ". " ++ chr "[" :: json_list (snd s)).
    rewrite <- !app_assoc. reflexivity.
  - destruct (IH ltac:(discriminate)) as [r Hr].
    change (senses_text (s :: s2 :: ss))
      with (sense_text s ++ chr " " :: senses_text (s2 :: ss)).
    rewrite Hr. exists (sense_text s ++ chr " " :: r).
    rewrite <- app_assoc. reflexivity.
Qed.

Lemma lower_not_space (c : N) : is_lower c = true -> is_space c = false.
Proof.
  unfold is_lower. intros H. apply andb_prop in H. destruct H as [H1 H2].
  apply N.leb_le in H1. apply N.leb_le in H2. unfold is_space.
  repeat match goal with
         | |- context [(?a <=? ?b)%N] => destruct (N.leb_spec a b); try lia
         | |- context [(?a =? ?b)%N] => destruct (N.eqb_spec a b); try lia
         end.
  all: reflexivity.
Qed.

Lemma last_unit {A} (l r : list A) (x c : A) : l ++ [x] = r ++ [c] -> x = c.
Proof.
  intros H. apply (f_equal (@rev A)) in H. rewrite !rev_app_distr in H.
  cbn in H. injection H as H _. exact H.
Qed.

Lemma in_markers (ps : jstring) (rest0 : jstring) :
  In ps markers ->
  (includes (ps ++ chr "." :: rest0) (str "n.")
   || includes (ps ++ chr "." :: rest0) (str "adj.")
   || includes (ps ++ chr "." :: rest0) (str "v.")
   || includes (ps ++ chr "." :: rest0) (str "adv.")
   || includes (ps ++ chr "." :: rest0) (str "prep.")
   || includes (ps ++ chr "." :: rest0) (str "conj.")) = true.
Proof.
  intros H.
  assert (G : includes (ps ++ chr "." :: rest0) (ps ++ [chr "."]) = true).
  { change (ps ++ chr "." :: rest0) with (ps ++ [chr "."] ++ rest0).
    rewrite app_assoc. apply (includes_app [] (ps ++ [chr "."]) rest0). }
  unfold markers in H. cbn [In] in H.
  destruct H as [<-|[<-|[<-|[<-|[<-|[<-|[]]]]]]];
    change (str "n" ++ [chr "."]) with (str "n.") in G;
    change (str "adj" ++ [chr "."]) with (str "adj.") in G;
    change (str "v" ++ [chr "."]) with (str "v.") in G;
    change (str "adv" ++ [chr "."]) with (str "adv.") in G;
    change (str "prep" ++ [chr "."]) with (str "prep.") in G;
    change (str "conj" ++ [chr "."]) with (str "conj.") in G;
    rewrite G; rewrite ?orb_true_r; reflexivity.
Qed.

(** A well-formed block, a title line and a sense line, holds one line
    feed, and is parsed into the entry it spells. *)
Lemma wellformed_block_parsed (b : Block) :
  good_block b ->
  forallb (fun x => negb (N.eqb x 10)) (title_text b) = true
  /\ forallb (fun x => negb (N.eqb x 10)) (senses_text b.(block_senses)) = true
  /\ parse_block (block_text b) = Some (block_entry b).
Proof.
  destruct b as [rank word ss]. unfold good_block, block_text, title_text, block_entry.
  cbn [block_rank block_word block_senses].
  intros [Hr [Fr [Hw [Fw [Tw [Hss Hm]]]]]].
  set (line1 := rank ++ chr " " :: word).
  set (line2 := senses_text ss).
  assert (Fw1 : forallb (fun c => negb (is_line_terminator c)) word = true).
  { apply forallb_forall. intros c Hc. rewrite forallb_forall in Fw.
    specialize (Fw c Hc). unfold word_unit in Fw. apply andb_prop in Fw. apply Fw. }
  assert (Fw2 : forallb (fun c => negb (N.eqb c (chr "["))) word = true).
  { apply forallb_forall. intros c Hc. rewrite forallb_forall in Fw.
    specialize (Fw c Hc). unfold word_unit in Fw. apply andb_prop in Fw. apply Fw. }
  assert (Hfirst : forall c r, word = c :: r -> is_space c = false).
  { intros c r E. apply (@trim_first word r c). rewrite Tw. exact E. }
  assert (Hlast : forall c r, word = r ++ [c] -> is_space c = false).
  { intros c r E. apply (@trim_last word r c). rewrite Tw. exact E. }
  (* no line feed in either line *)
  assert (N1 : forallb (fun x => negb (N.eqb x 10)) line1 = true).
  { unfold line1. rewrite forallb_app. cbn [forallb].
    apply andb_true_intro. split; [|apply andb_true_intro; split; [reflexivity|]].
    - apply forallb_forall. intros c Hc.
      pose proof (proj1 (forallb_forall _ _) Fr c Hc) as Hd.
      apply is_digit_range in Hd.
      apply negb_true_iff, N.eqb_neq. lia.
    - apply forallb_forall. intros c Hc. rewrite forallb_forall in Fw1.
      specialize (Fw1 c Hc). unfold is_line_terminator in Fw1.
      apply negb_true_iff in Fw1. apply negb_true_iff.
      destruct (N.eqb c 10); [discriminate|reflexivity]. }
  assert (N2 : forallb (fun x => negb (N.eqb x 10)) line2 = true).
  { unfold line2. apply senses_text_units; try reflexivity; try exact Hss.
    - intros c Hc. unfold is_lower in Hc. apply andb_prop in Hc. destruct Hc as [H1 _].
      apply N.leb_le in H1. apply negb_true_iff, N.eqb_neq. lia.
    - intros c Hc. unfold sense_unit, plain_unit in Hc.
      apply andb_prop in Hc. destruct Hc as [Hc _].
      apply andb_prop in Hc. destruct Hc as [_ Hc].
      apply negb_true_iff, N.ltb_ge in Hc. apply negb_true_iff, N.eqb_neq. lia. }
  (* the lines are trimmed *)
  destruct rank as [|d ds]; [contradiction|].
  destruct ss as [|s ss']; [contradiction|].
  pose proof (Forall_inv Hss) as Hs.
  destruct s as [ps items]. cbn [fst] in Hm.
  destruct Hs as [Hps [Lps [Hitems Uitems]]]. cbn [fst snd] in *.
  destruct ps as [|p ps']; [contradiction|].
  assert (T1 : trim line1 = line1).
  { apply trim_fixed.
    - intros c r E. unfold line1 in E. cbn [List.app] in E. injection E as <- _.
      cbn [forallb] in Fr. apply andb_prop in Fr. apply digit_not_space, Fr.
    - intros c r E. unfold line1 in E.
      destruct (exists_last Hw) as [w0 [x Ex]]. rewrite Ex in E.
      change (chr " " :: w0 ++ [x]) with ((chr " " :: w0) ++ [x]) in E.
      rewrite app_assoc in E. apply last_unit in E. subst c.
      apply (Hlast x w0 Ex). }
  assert (T2 : trim line2 = line2).
  { apply trim_fixed.
    - intros c r E. unfold line2 in E. rewrite senses_text_cons in E.
      unfold sense_text in E. cbn [fst List.app] in E. injection E as <- _.
      cbn [forallb] in Lps. apply andb_prop in Lps. apply lower_not_space, Lps.
    - intros c r E. unfold line2 in E.
      destruct (@senses_text_ends ((p :: ps', items) :: ss') ltac:(discriminate))
        as [r0 Er].
      assert (E' : r0 ++ [chr "]"] = r ++ [c]) by (rewrite <- Er; exact E).
      apply last_unit in E'. subst c. reflexivity. }
  (* which line is the sense line *)
  assert (D1 : is_defLine line1 = false).
  { unfold is_defLine. rewrite (@includes_without (chr "[") [quote] line1); [reflexivity|].
    assert (Fd : forallb (fun c => negb (N.eqb c (chr "["))) (d :: ds) = true).
    { apply forallb_forall. intros c Hc.
      pose proof (proj1 (forallb_forall _ _) Fr c Hc) as Hd.
      apply is_digit_range in Hd.
      apply negb_true_iff, N.eqb_neq. cbn. lia. }
    unfold line1. rewrite forallb_app, Fd. cbn [forallb andb].
    rewrite Fw2. reflexivity. }
  assert (D2 : is_defLine line2 = true).
  { unfold is_defLine. apply andb_true_intro. split.
    - unfold line2. rewrite senses_text_cons. unfold sense_text, json_array. cbn [fst snd].
      destruct (json_list_first Hitems) as [t ->].
      rewrite <- !app_assoc.
      change ((chr "[" :: (quote :: t) ++ [chr "]"]) ++ senses_tail ss')
        with ([chr "["; quote] ++ (t ++ [chr "]"]) ++ senses_tail ss').
      rewrite <- !app_assoc. rewrite (app_assoc (p :: ps') (str ". ")).
      apply includes_app.
    - unfold line2. rewrite senses_text_cons. unfold sense_text. cbn [fst snd].
      rewrite <- !app_assoc.
      exact (@in_markers (p :: ps') (chr " " :: json_array items ++ senses_tail ss') Hm). }
  split; [exact N1|]. split; [exact N2|].
  change ((d :: ds) ++ chr " " :: word) with line1.
  (* the block *)
  unfold parse_block. rewrite (@split_on_two 10%N line1 line2 N1 N2). cbn [List.map].
  rewrite T1, T2.
  assert (E1 : nonempty line1 = true) by reflexivity.
  assert (E2 : nonempty line2 = true).
  { unfold line2. rewrite senses_text_cons. reflexivity. }
  cbn [filter]. rewrite E1, E2. cbn [List.length Nat.ltb Nat.leb hd].
  destruct (@match_re_title (d :: ds) word Hr Fr Hw Fw1 Hfirst) as [tm [Htm [C1 C2]]].
  fold line1 in Htm. rewrite Htm. cbn [find]. rewrite D1, D2.
  rewrite C1, C2.
  unfold line2.
  assert (Hx := @exec_all_senses _ Hss
                  (S (List.length (senses_text ((p :: ps', items) :: ss'))))
                  ltac:(apply (proj2 (Nat.lt_succ_r _ _)); apply senses_text_length)).
  match goal with
  | |- context [List.map ?f (exec_all ?a posRegex 0 ?b)] =>
      replace (List.map f (exec_all a posRegex 0 b))
        with (List.map (fun s : jstring * list jstring =>
                          {| pos := fst s; trans := json_array (snd s) |})
                       ((p :: ps', items) :: ss'))
        by (symmetry; exact Hx)
  end.
  reflexivity.
Qed.
(** *** The blank lines of a well-formed file *)

Lemma match_here_blank_other (n : nat) (c : N) (s : jstring) :
  negb (N.eqb c 10) = true -> match_here blank_lines n (c :: s) = None.
Proof.
  intros H. apply negb_true_iff in H.
  unfold match_here, blank_lines. rewrite rmatch_Seq. unfold Lit at 1.
  rewrite rmatch_Cls. cbn [rest]. rewrite N.eqb_sym, H. reflexivity.
Qed.

Lemma search_blank_skip (a s : jstring) :
  forallb (fun x => negb (N.eqb x 10)) a = true ->
  forall n,
    search blank_lines n (a ++ s)
    = match search blank_lines (n + List.length a) s with
      | Some (skipped, st) => Some (a ++ skipped, st)
      | None => None
      end.
Proof.
  induction a as [|c a IH]; intros H n.
  - cbn [List.app List.length]. rewrite Nat.add_0_r.
    destruct (search blank_lines n s) as [[sk st]|]; reflexivity.
  - cbn [forallb] in H. apply andb_prop in H. destruct H as [Hc Ha].
    cbn [List.app search]. rewrite (@match_here_blank_other n c (a ++ s) Hc).
    rewrite (IH Ha (S n)). cbn [List.length Nat.add]. rewrite Nat.add_succ_r.
    destruct (search blank_lines (S (n + List.length a)) s) as [[sk st]|]; reflexivity.
Qed.

Lemma match_here_blank_line (n : nat) (c : N) (t : jstring) :
  is_space c = false ->
  match_here blank_lines n (10%N :: c :: t) = None.
Proof.
  intros Hs. unfold match_here, blank_lines. rewrite rmatch_Seq. unfold Lit at 1.
  rewrite rmatch_Cls. cbn [rest before caps]. cbn [N.eqb Pos.eqb].
  rewrite rmatch_Seq, rmatch_Star_Cls. cbn [rest before caps star_cls]. rewrite Hs.
  unfold Lit. rewrite rmatch_Cls. cbn [rest].
  destruct (N.eqb_spec 10 c) as [<-|]; [discriminate|reflexivity].
Qed.

Lemma match_here_blank_sep (n : nat) (c : N) (t : jstring) :
  is_space c = false ->
  match_here blank_lines n (10%N :: 10%N :: c :: t)
  = Some {| before := S (S n); rest := c :: t; caps := [] |}.
Proof.
  intros Hs. unfold match_here, blank_lines. rewrite rmatch_Seq. unfold Lit at 1.
  rewrite rmatch_Cls. cbn [rest before caps]. cbn [N.eqb Pos.eqb].
  rewrite rmatch_Seq, rmatch_Star_Cls. cbn [rest before caps star_cls].
  change (is_space 10) with true. cbv iota. rewrite Hs.
  unfold Lit. rewrite !rmatch_Cls. cbn [rest before caps].
  destruct (N.eqb_spec 10 c) as [<-|]; [discriminate|]. reflexivity.
Qed.

Lemma search_cons_none (r : regex) (n : nat) (c : N) (s : jstring) :
  match_here r n (c :: s) = None ->
  search r n (c :: s)
  = match search r (S n) s with
    | Some (skipped, st) => Some (c :: skipped, st)
    | None => None
    end.
Proof. intros H. cbn [search]. rewrite H. reflexivity. Qed.

(** The first blank line of a text that starts with a title line and a
    sense line is the one after the sense line. *)
Lemma search_blank_after_block (l1 l2 t : jstring) (c2 c : N) (n : nat) :
  forallb (fun x => negb (N.eqb x 10)) l1 = true ->
  forallb (fun x => negb (N.eqb x 10)) (c2 :: l2) = true ->
  is_space c2 = false -> is_space c = false ->
  exists st,
    search blank_lines n (l1 ++ 10%N :: (c2 :: l2) ++ 10%N :: 10%N :: c :: t)
    = Some (l1 ++ 10%N :: c2 :: l2, st)
    /\ st.(rest) = c :: t.
Proof.
  intros N1 N2 H2 Hc.
  rewrite (@search_blank_skip l1 _ N1). cbn [List.app].
  rewrite (@search_cons_none blank_lines _ 10%N _ (@match_here_blank_line _ c2 _ H2)).
  change (c2 :: l2 ++ 10%N :: 10%N :: c :: t)
    with ((c2 :: l2) ++ 10%N :: 10%N :: c :: t).
  rewrite (@search_blank_skip (c2 :: l2) _ N2).
  rewrite (@search_here _ _ _ _ (@match_here_blank_sep _ c t Hc)).
  eexists. split.
  - rewrite app_nil_r. reflexivity.
  - reflexivity.
Qed.

Lemma good_block_first (b : Block) :
  good_block b -> exists d t, block_text b = d :: t /\ is_digit d = true.
Proof.
  destruct b as [rank word ss]. unfold good_block, block_text, title_text.
  cbn [block_rank block_word block_senses]. intros [Hr [Fr _]].
  destruct rank as [|d ds]; [contradiction|].
  cbn [forallb] in Fr. apply andb_prop in Fr.
  exists d. eexists. split; [reflexivity|apply Fr].
Qed.

Lemma good_block_sense_first (b : Block) :
  good_block b ->
  exists p t, senses_text b.(block_senses) = p :: t /\ is_lower p = true.
Proof.
  destruct b as [rank word ss]. unfold good_block.
  cbn [block_rank block_word block_senses]. intros [_ [_ [_ [_ [_ [Hss Hm]]]]]].
  destruct ss as [|[ps items] ss']; [contradiction|].
  pose proof (Forall_inv Hss) as [Hps [Lps _]]. cbn [fst] in Hps, Lps.
  destruct ps as [|p ps']; [contradiction|].
  cbn [forallb] in Lps. apply andb_prop in Lps.
  exists p. eexists. rewrite senses_text_cons. split; [reflexivity|apply Lps].
Qed.

Lemma file_text_cons (b : Block) (bs : list Block) :
  bs <> [] -> file_text (b :: bs) = block_text b ++ 10%N :: 10%N :: file_text bs.
Proof. destruct bs; [contradiction|reflexivity]. Qed.

Lemma file_text_first (bs : list Block) :
  Forall good_block bs -> bs <> [] ->
  exists d t, file_text bs = d :: t /\ is_digit d = true.
Proof.
  intros H Hne. destruct H as [|b bs Hb Hbs]; [contradiction|].
  destruct (good_block_first Hb) as [d [t [E Hd]]].
  destruct bs as [|b2 bs].
  - exists d, t. split; [exact E|exact Hd].
  - rewrite file_text_cons by discriminate. rewrite E.
    exists d. eexists. split; [reflexivity|exact Hd].
Qed.

(** The pieces between the blank lines of a well-formed file are its
    blocks. *)
Lemma split_re_file (bs : list Block) :
  Forall good_block bs -> bs <> [] ->
  forall fuel n, List.length bs < fuel ->
    split_re fuel blank_lines n (file_text bs) = List.map block_text bs.
Proof.
  induction 1 as [|b bs Hb Hbs IH]; intros Hne fuel n Hf; [contradiction|].
  destruct fuel as [|fuel]; [lia|].
  destruct (wellformed_block_parsed Hb) as [N1 [N2 _]].
  destruct bs as [|b2 bs'].
  - cbn [file_text List.map split_re]. unfold block_text.
    rewrite (@search_blank_lines_none _ _ N1 N2). reflexivity.
  - rewrite file_text_cons by discriminate.
    destruct (good_block_sense_first Hb) as [p [t2 [E2 Hp]]].
    destruct (@file_text_first (b2 :: bs') Hbs ltac:(discriminate)) as [d [t [Ed Hd]]].
    cbn [split_re List.map]. unfold block_text at 1. rewrite <- app_assoc.
    cbn [List.app]. rewrite E2 in *. rewrite Ed.
    destruct (@search_blank_after_block (title_text b) t2 t p d n N1 N2
                (lower_not_space _ Hp) (digit_not_space _ Hd)) as [st [Hs Hr]].
    rewrite Hs, Hr. unfold block_text at 1. rewrite E2. f_equal.
    rewrite <- Ed. apply IH; [discriminate|]. cbn [List.length] in *. lia.
Qed.

Lemma file_text_length (bs : list Block) :
  Forall good_block bs -> List.length bs <= List.length (file_text bs).
Proof.
  induction 1 as [|b bs Hb Hbs IH]; [cbn; lia|].
  destruct (good_block_first Hb) as [d [t [E _]]].
  destruct bs as [|b2 bs'].
  - cbn [file_text]. rewrite E. cbn. lia.
  - rewrite file_text_cons by discriminate. rewrite length_app.
    cbn [List.length] in *. lia.
Qed.

(** Each block of a well-formed file gives its entry. *)
Lemma parse_blocks (bs : list Block) :
  Forall good_block bs ->
  flat_map (fun block => match parse_block block with
                         | Some entry => [entry]
                         | None => []
                         end) (List.map block_text bs)
  = List.map block_entry bs.
Proof.
  induction 1 as [|x l Hx Hl IH]; [reflexivity|].
  cbn [List.map flat_map]. destruct (wellformed_block_parsed Hx) as [_ [_ ->]].
  rewrite IH. reflexivity.
Qed.

Lemma file_blocks (bs : list Block) :
  Forall good_block bs -> bs <> [] ->
  split_re (S (List.length (file_text bs))) blank_lines 0 (file_text bs)
  = List.map block_text bs.
Proof.
  intros H Hne. apply split_re_file; [exact H|exact Hne|].
  apply (proj2 (Nat.lt_succ_r _ _)). apply file_text_length. exact H.
Qed.


(** *** The records of well-formed files *)

Lemma block_records_fields (b : Block) (apiData : value) :
  good_block b ->
  List.map record_fields (records_of (block_entry b) apiData) = block_fields b.
Proof.
  destruct b as [rank0 word0 ss]. unfold good_block, block_fields, block_entry.
  cbn [block_rank block_word block_senses].
  intros [Hr [Fr [_ [_ [_ [Hss Hm]]]]]].
  rewrite records_of_map. unfold definitionLoop. cbn [definitions].
  destruct ss as [|s ss']; [contradiction|]. clear Hm.
  change (List.map (fun s0 => {| pos := fst s0; trans := json_array (snd s0) |}) (s :: ss'))
    with ({| pos := fst s; trans := json_array (snd s) |}
          :: List.map (fun s0 => {| pos := fst s0; trans := json_array (snd s0) |}) ss').
  cbv iota.
  change ({| pos := fst s; trans := json_array (snd s) |}
          :: List.map (fun s0 => {| pos := fst s0; trans := json_array (snd s0) |}) ss')
    with (List.map (fun s0 => {| pos := fst s0; trans := json_array (snd s0) |}) (s :: ss')).
  rewrite !map_map.
  induction Hss as [|x l Hx Hl IH]; [reflexivity|].
  cbn [List.map]. f_equal; [|exact IH].
  unfold record_fields.
  cbn [text partOfSpeech translation cocaRank record_for pos trans rank word].
  rewrite (Number_digits Hr Fr). f_equal. f_equal.
  destruct Hx as [_ [_ [_ Hu]]].
  assert (Hf : formatTranslation (json_array (snd x)) = joined semicolon (snd x)).
  { unfold formatTranslation. rewrite (JSON_parse_strings (sense_unit_plain Hu)).
    unfold json_array at 1. cbn [bind]. rewrite join_strings. reflexivity. }
  exact Hf.
Qed.

Lemma record_fields_any_response (entry : WordEntry) (d d' : value) :
  List.map record_fields (records_of entry d)
  = List.map record_fields (records_of entry d').
Proof. rewrite !records_of_map, !map_map. reflexivity. Qed.

(** When the lookups of every window settle in the order of dispatch, a
    run that was not cancelled has gone through the entries of every file
    in source order. *)
Lemma processFiles_in_order (env : Environment Action) (a : App) (r : Run) :
  a.(files) <> [] ->
  (forall k i, in_dispatch_order (env.(window) k i)) ->
  processFiles env a = Returns r ->
  abort r = false ->
  settle_orders env.(window) (parsedFiles_of a.(files)) 0
  = List.map snd (parsedFiles_of a.(files)).
Proof.
  intros Hne Hord H Hf. unfold processFiles in H.
  destruct (files a) as [|f fs] eqn:Ef; [contradiction|].
  match type of H with
  | context [parse_files handle env ?l ?a1] =>
      destruct (parse_files handle env l a1) as [[parsedFiles r0]|e] eqn:Ep;
        [|discriminate];
      destruct (parse_files_spec handle env l a1 handle_results eq_refl Ep)
        as [_ [-> _]]
  end.
  destruct (for_files handle PauseReset (window env) (parsedFiles_of (f :: fs)) 0 r0)
    as [r1| |] eqn:Ef1; try discriminate.
  injection H as <-.
  eapply for_files_in_order; [exact Hord | exact Ef1 |].
  clear - Hf. unfold abort in *.
  destruct (abortRef (component r1)) eqn:Ea; [|reflexivity].
  cbn in Hf. rewrite Ea in Hf. discriminate.
Qed.

Lemma flat_map_map_fields (order : list (WordEntry * value)) :
  List.map record_fields
    (flat_map (fun ea => records_of (fst ea) (snd ea)) order)
  = flat_map (fun e => List.map record_fields (records_of e VNull))
      (List.map fst order).
Proof.
  induction order as [|[e d] order IH]; [reflexivity|].
  cbn [flat_map List.map fst snd]. rewrite map_app, IH.
  rewrite (record_fields_any_response e d VNull). reflexivity.
Qed.

Lemma expected_results_fields {A} (env : nat -> nat -> Window A) :
  forall parsedFiles k,
    settle_orders env parsedFiles k = List.map snd parsedFiles ->
    List.map (fun fr => (fr.(fileName), List.map record_fields fr.(data)))
             (expected_results env parsedFiles k)
    = List.map (fun pf => (fst pf,
                           flat_map (fun e => List.map record_fields (records_of e VNull))
                                    (snd pf)))
               parsedFiles.
Proof.
  induction parsedFiles as [|[nm words] pfs IH]; intros k H; [reflexivity|].
  cbn [settle_orders List.map snd] in H. injection H as Hw Hrest.
  cbn [expected_results List.map fileName data fst snd].
  rewrite (IH (S k) Hrest). f_equal. f_equal.
  unfold file_data. rewrite windows_data_order. fold (file_order (env k) words).
  rewrite flat_map_map_fields, Hw. reflexivity.
Qed.

(** ** fetchWordData *)



Lemma hex_upper_unreserved (d : N) : (d < 16)%N -> uri_unreserved (hex_upper d) = true.
Proof.
  intros H. unfold hex_upper, uri_unreserved.
  destruct (N.ltb_spec d 10);
    repeat match goal with
           | |- context [(?a <=? ?b)%N] => destruct (N.leb_spec a b); try lia
           | |- context [(?a =? ?b)%N] => destruct (N.eqb_spec a b); try lia
           end; reflexivity.
Qed.

Lemma percent_units (octet : N) :
  (octet < 256)%N -> forallb url_unit (percent octet) = true.
Proof.
  intros H. unfold percent, url_unit. cbn [forallb].
  rewrite !hex_upper_unreserved.
  - rewrite N.eqb_refl, orb_true_r. reflexivity.
  - apply N.mod_lt. lia.
  - apply N.Div0.div_lt_upper_bound. lia.
Qed.

Lemma escape_units (cp : N) :
  (cp < 1114112)%N -> forallb url_unit (escape cp) = true.
Proof.
  intros H. unfold escape, utf8.
  assert (M : forall x, (x mod 64 < 64)%N) by (intros; apply N.mod_lt; lia).
  destruct (N.ltb_spec cp 128); [|destruct (N.ltb_spec cp 2048);
    [|destruct (N.ltb_spec cp 65536)]];
    cbn [flat_map]; rewrite ?forallb_app; cbn [forallb];
    repeat (rewrite percent_units;
            [|first [ lia
                    | pose proof (M cp); pose proof (M (cp / 64)%N);
                      pose proof (M (cp / 4096)%N);
                      assert (cp / 64 < 32)%N by (apply N.Div0.div_lt_upper_bound; lia);
                      lia
                    | pose proof (M cp); pose proof (M (cp / 64)%N);
                      pose proof (M (cp / 4096)%N);
                      assert (cp / 4096 < 16)%N by (apply N.Div0.div_lt_upper_bound; lia);
                      lia
                    | pose proof (M cp); pose proof (M (cp / 64)%N);
                      pose proof (M (cp / 4096)%N);
                      assert (cp / 262144 < 8)%N by (apply N.Div0.div_lt_upper_bound; lia);
                      lia ]]);
    reflexivity.
Qed.

(** What [encodeURIComponent] makes of 16-bit units holds unreserved units
    and percent signs only. *)
Lemma encodeURIComponent_units (s : jstring) :
  forallb code_unit s = true ->
  forall q, encodeURIComponent s = Some q -> forallb url_unit q = true.
Proof.
  assert (G : forall n s, List.length s < n -> forallb code_unit s = true ->
            forall q, encodeURIComponent s = Some q -> forallb url_unit q = true).
  { induction n as [|n IH]; intros s0 Hl Hu q H; [lia|].
    destruct s0 as [|c r]; cbn [encodeURIComponent] in H.
    - injection H as <-. reflexivity.
    - cbn [List.length] in Hl. cbn [forallb] in Hu.
      apply andb_prop in Hu. destruct Hu as [Hc Hr].
      unfold code_unit in Hc. apply N.ltb_lt in Hc.
      destruct (uri_unreserved c) eqn:Eu.
      + destruct (encodeURIComponent r) as [q'|] eqn:Er; [|discriminate].
        injection H as <-. cbn [forallb]. unfold url_unit at 1. rewrite Eu.
        apply (IH r); [lia|exact Hr|exact Er].
      + destruct (is_trailing_surrogate c) eqn:Et; [discriminate|].
        destruct (is_leading_surrogate c) eqn:El.
        * destruct r as [|c2 r2]; [discriminate|].
          destruct (is_trailing_surrogate c2) eqn:Et2; [|discriminate].
          destruct (encodeURIComponent r2) as [q'|] eqn:Er; [|discriminate].
          injection H as <-. rewrite forallb_app.
          cbn [forallb] in Hr. apply andb_prop in Hr. destruct Hr as [_ Hr2].
          rewrite (IH r2 ltac:(cbn [List.length] in Hl; lia) Hr2 q' Er), andb_true_r.
          apply escape_units.
          unfold is_leading_surrogate in El. unfold is_trailing_surrogate in Et2.
          apply andb_prop in El, Et2. destruct El as [L1 L2]. destruct Et2 as [T1 T2].
          apply N.leb_le in L1, L2, T1, T2. lia.
        * destruct (encodeURIComponent r) as [q'|] eqn:Er; [|discriminate].
          injection H as <-. rewrite forallb_app.
          rewrite (IH r ltac:(lia) Hr q' Er), andb_true_r.
          apply escape_units. lia. }
  intros Hu q. apply (G (S (List.length s))); [lia|exact Hu].
Qed.

(** A text of unreserved units comes back as it is. *)
Lemma encodeURIComponent_unreserved (s : jstring) :
  forallb uri_unreserved s = true -> encodeURIComponent s = Some s.
Proof.
  induction s as [|c r IH]; intros H; [reflexivity|].
  cbn [forallb] in H. apply andb_prop in H. destruct H as [Hc Hr].
  cbn [encodeURIComponent]. rewrite Hc, (IH Hr). reflexivity.
Qed.

Lemma skipn_app_exact {A} (a b : list A) : skipn (List.length a) (a ++ b) = b.
Proof. induction a; cbn; auto. Qed.

(** The lookup asks the network for nothing but the dictionary address
    followed by an escaped query: a network that rejects every other
    request gives the same results. *)
Lemma fetchWordData_requests (fetch : jstring -> Fetched) (word : jstring) :
  forallb code_unit word = true ->
  fetchWordData fetch word
  = fetchWordData (fun url => if safe_request url then fetch url else Rejected) word.
Proof.
  intros Hu. unfold fetchWordData.
  destruct (encodeURIComponent word) as [q|] eqn:E; [|reflexivity].
  unfold safe_request. rewrite startsWith_app, skipn_app_exact.
  rewrite (encodeURIComponent_units _ Hu E). reflexivity.
Qed.

(** A lookup that fails comes back as [null], whatever the failure: the
    word cannot be escaped, the request is rejected, the status is not
    ok, the body is no JSON.  The task then logs a warning, counts the
    entry and still pushes its records, max(1, definitions.length) of
    them. *)
Lemma failed_lookup (fetch : jstring -> Fetched) (entry : WordEntry) (r : Run) :
  match encodeURIComponent entry.(word) with
  | None => True
  | Some q =>
      match fetch (jsonapi ++ q) with
      | Rejected => True
      | Response ok body =>
          ok = false \/ exists e, JSON_parse body = Throw e
      end
  end ->
  fetchWordData fetch entry.(word) = VNull
  /\ exists r',
       after_fetch entry (fetchWordData fetch entry.(word)) r = Normal r'
       /\ r'.(component).(logs)
          = last_n 200 (r.(component).(logs) ++ [(MsgWarning entry.(word), error)])
       /\ r'.(locals).(globalProcessedCount) = S r.(locals).(globalProcessedCount)
       /\ r'.(component).(progress).(current) = S r.(locals).(globalProcessedCount)
       /\ exists records,
            r'.(locals).(fileProcessedWords) = r.(locals).(fileProcessedWords) ++ records
            /\ List.length records = Nat.max 1 (List.length entry.(definitions))
            /\ forall p, In p records ->
                 p.(phoneticUs) = VStr [] /\ p.(phoneticUk) = VStr []
                 /\ p.(inflections) = VArr [] /\ p.(tags) = VArr []
                 /\ p.(image) = VStr []
                 /\ p.(video) = {| cover := VStr []; title := VStr []; url := VStr [] |}.
Proof.
  intros H.
  assert (E : fetchWordData fetch entry.(word) = VNull).
  { unfold fetchWordData. destruct (encodeURIComponent (word entry)); [|reflexivity].
    destruct (fetch (jsonapi ++ j)) as [|ok body]; [reflexivity|].
    destruct H as [->|[e ->]]; [reflexivity|]. destruct ok; reflexivity. }
  split; [exact E|]. rewrite E.
  eexists. split.
  - unfold after_fetch. rewrite !getDeep_field. cbn [bind field truthy default_param
      is_undefined]. rewrite entry_records_map. cbn [bind]. reflexivity.
  - cbn. split; [reflexivity|]. split; [reflexivity|]. split; [reflexivity|].
    eexists. split; [reflexivity|]. split.
    + rewrite length_map, definitionLoop_length. unfold records_per_entry.
      destruct (List.length (definitions entry)); reflexivity.
    + intros p Hp. apply in_map_iff in Hp. destruct Hp as [def [<- _]].
      repeat split.
Qed.

(** ** The end of a run, and uploads *)



(** *** What a run leaves of the pause *)

Lemma handle_pause_in_step (act : Action) (a : App) :
  pause_in_step a -> pause_in_step (handle act a).
Proof. intros H. destruct act as [|[|f fs]]; [reflexivity|exact H|reflexivity]. Qed.

(** When a run over some files returns, the component is no longer
    processing, and the pause it shows is the pause the loop reads. *)
Lemma processFiles_end_state (env : Environment Action) (a : App) (r : Run) :
  a.(files) <> [] ->
  processFiles env a = Returns r ->
  r.(component).(processing) = false
  /\ r.(component).(paused) = r.(component).(pausedRef).
Proof.
  intros Hne H. unfold processFiles in H.
  destruct (files a) as [|f fs]; [contradiction|].
  match type of H with
  | context [parse_files handle env ?l ?x] =>
      destruct (parse_files handle env l x) as [[parsedFiles r0]|e0] eqn:Ep;
        [|discriminate];
      pose proof (@parse_files_inv Action handle pause_in_step handle_pause_in_step
                    (fun _ _ h => h) env l x parsedFiles r0 Ep eq_refl) as Hp
  end.
  destruct (for_files handle PauseReset (window env) parsedFiles 0 r0) as [r1| |] eqn:E;
    try discriminate.
  injection H as <-.
  apply (@for_files_inv Action handle PauseReset pause_in_step handle_pause_in_step
           (fun _ _ h => h) (fun _ _ _ h => h)) in E; [|exact Hp].
  destruct (abortRef (component r1)); cbn; split; try reflexivity; exact E.
Qed.

(** *** Uploads while a run is under way *)

Section AllResults.

Variable A : Type.
Variable handler : A -> App -> App.
Variable version : Version.

Lemma after_fetch_allResults (entry : WordEntry) (apiData : value) (r r' : Run) :
  after_fetch entry apiData r = Normal r' ->
  r'.(locals).(allResults) = r.(locals).(allResults).
Proof.
  destruct (after_fetch_normal entry apiData r) as [msg [ty ->]].
  intros H. injection H as <-. reflexivity.
Qed.

Lemma pause_loop_allResults (sleeps : list (list A)) :
  forall r r', pause_loop handler sleeps r = Returns r' ->
               r'.(locals).(allResults) = r.(locals).(allResults).
Proof.
  induction sleeps as [|acts sleeps IH]; intros r r' H; cbn [pause_loop] in H;
    destruct (pausedRef (component r)); try (injection H as <-; reflexivity);
    destruct (abortRef (component r)); try (injection H as <-; reflexivity);
    try discriminate.
  rewrite (IH _ _ H). reflexivity.
Qed.

Lemma dispatch_allResults (chunk : list WordEntry) (r : Run) :
  (snd (dispatch chunk r)).(locals).(allResults) = r.(locals).(allResults).
Proof.
  unfold dispatch. destruct (abortRef (component r)); [reflexivity|].
  cbn [snd]. revert r. induction chunk as [|e chunk IH]; intros r; cbn [fold_left].
  - reflexivity.
  - rewrite IH. reflexivity.
Qed.

Lemma await_all_allResults (events : list (Settled A)) :
  forall inflight r r', await_all handler inflight events r = Returns r' ->
                        r'.(locals).(allResults) = r.(locals).(allResults).
Proof.
  induction events as [|ev events IH]; intros inflight r r' H.
  - destruct inflight; [injection H as <-; reflexivity|discriminate].
  - destruct inflight as [|e0 inflight0]; [injection H as <-; reflexivity|].
    rewrite await_all_cons in H by discriminate.
    destruct (nth_error (e0 :: inflight0) (which ev)) as [entry|].
    + destruct (after_fetch entry (apiData ev) (user handler (earlier ev) r))
        as [r2|e] eqn:Ea; [|discriminate].
      rewrite (IH _ _ _ H), (after_fetch_allResults _ _ _ Ea). reflexivity.
    + rewrite (IH _ _ _ H). reflexivity.
Qed.

Lemma for_windows_allResults (env : nat -> Window A) (words : list WordEntry) :
  forall fuel i r r',
    for_windows handler version fuel env words i r = Returns r' ->
    r'.(locals).(allResults) = r.(locals).(allResults).
Proof.
  induction fuel as [|fuel IH]; intros i r r' H.
  - cbn [for_windows] in H. destruct (i <? List.length words); [discriminate|].
    injection H as <-. reflexivity.
  - destruct (Nat.lt_ge_cases i (List.length words)) as [Hlt|Hge].
    2:{ rewrite for_windows_end in H by lia. injection H as <-. reflexivity. }
    rewrite for_windows_step in H by exact Hlt.
    destruct (abort r).
    { injection H as <-. destruct version; reflexivity. }
    assert (G : forall r1,
              (let '(inflight, r2) := dispatch (slice words i (i + CONCURRENCY)) r1 in
               match await_all handler inflight (settled (env i)) r2 with
               | Returns r3 => for_windows handler version fuel env words (i + CONCURRENCY) r3
               | other => other
               end) = Returns r' ->
              r'.(locals).(allResults) = r1.(locals).(allResults)).
    { intros r1 G. pose proof (dispatch_allResults (slice words i (i + CONCURRENCY)) r1) as Hd.
      destruct (dispatch (slice words i (i + CONCURRENCY)) r1) as [inflight r2].
      cbn [snd] in Hd.
      destruct (await_all handler inflight (settled (env i)) r2) as [r3| |] eqn:Ew;
        try discriminate.
      rewrite (IH _ _ _ G), (await_all_allResults _ _ _ Ew). exact Hd. }
    destruct version.
    + destruct (pause_loop handler (sleeps (env i)) r) as [r1| |] eqn:Ep;
        try discriminate.
      rewrite (G r1 H). apply (pause_loop_allResults _ _ Ep).
    + apply (G r H).
Qed.

(** With handlers that leave the abort flag clear, the loop over the files
    goes through every file: it adds one result for each, under its
    name. *)
Hypothesis handler_clear : forall act a, a.(abortRef) = false -> (handler act a).(abortRef) = false.

Lemma for_files_names (env : nat -> nat -> Window A) :
  forall parsedFiles k r r',
    for_files handler version env parsedFiles k r = Returns r' ->
    r.(component).(abortRef) = false ->
    r'.(component).(abortRef) = false
    /\ List.map fileName r'.(locals).(allResults)
       = List.map fileName r.(locals).(allResults) ++ List.map fst parsedFiles.
Proof.
  induction parsedFiles as [|[nm words] pfs IH]; intros k r r' H Ha;
    cbn [for_files] in H.
  - injection H as <-. split; [exact Ha|]. cbn. rewrite app_nil_r. reflexivity.
  - rewrite Ha in H.
    match type of H with
    | match ?w with _ => _ end = _ => destruct w as [r3| |] eqn:Ew
    end; try discriminate.
    pose proof (for_windows_allResults _ _ _ _ _ Ew) as Hall.
    apply (@for_windows_inv A handler version (fun a => a.(abortRef) = false)
             handler_clear (fun _ _ h => h) (fun _ _ _ h => h)) in Ew; [|exact Ha].
    cbn [component on_locals on_app] in H. rewrite Ew in H.
    apply IH in H; [|exact Ew].
    destruct H as [H1 H2]. split; [exact H1|].
    rewrite H2. cbn [locals on_app on_locals allResults]. rewrite map_app.
    cbn in Hall. rewrite Hall. cbn. rewrite <- app_assoc. reflexivity.
Qed.

End AllResults.

(** An upload while a run is under way does not stop the run.  With the
    pause button and the drop zone as the only controls, a run that returns
    was not aborted; it has published one result for each file it started
    with, named after them in their order, whatever files are selected by
    then; and the component is no longer processing. *)
Lemma upload_does_not_stop_run (env : Environment Action) (a : App) (r : Run) :
  a.(files) <> [] ->
  processFiles env a = Returns r ->
  r.(component).(abortRef) = false
  /\ r.(component).(processing) = false
  /\ r.(component).(results) = r.(locals).(allResults)
  /\ List.map fileName r.(component).(results) = List.map name a.(files).
Proof.
  intros Hne H. unfold processFiles in H.
  destruct (files a) as [|f fs]; [contradiction|].
  match type of H with
  | context [parse_files handle env ?l ?x] =>
      destruct (parse_files handle env l x) as [[parsedFiles r0]|e0] eqn:Ep;
        [|discriminate];
      pose proof (@parse_files_inv Action handle (fun a => a.(abortRef) = false)
                    handle_clear (fun _ _ h => h) env l x parsedFiles r0 Ep eq_refl)
        as Hp;
      destruct (parse_files_spec handle env l x handle_results eq_refl Ep)
        as [_ [Hpf [Hall _]]]
  end.
  subst parsedFiles.
  destruct (for_files handle PauseReset (window env) (parsedFiles_of (f :: fs)) 0 r0)
    as [r1| |] eqn:E; try discriminate.
  injection H as <-.
  apply (@for_files_names Action handle PauseReset handle_clear) in E; [|exact Hp].
  destruct E as [E1 E2]. rewrite E1. cbn.
  split; [exact E1|]. split; [reflexivity|]. split; [reflexivity|].
  rewrite E2, Hall. cbn [List.map List.app]. unfold parsedFiles_of.
  rewrite map_map. reflexivity.
Qed.



(** *** The two notations of an index in a path *)

Lemma match_here_index_other (n : nat) (c : N) (s : jstring) :
  not_open c = true -> match_here index_pattern n (c :: s) = None.
Proof.
  intros H. unfold match_here, index_pattern. rewrite rmatch_Seq. unfold Lit at 1.
  rewrite rmatch_Cls. cbn [rest]. unfold not_open in H. apply negb_true_iff in H.
  rewrite N.eqb_sym, H. reflexivity.
Qed.

Lemma search_index_none (s : jstring) :
  forallb not_open s = true -> forall n, search index_pattern n s = None.
Proof.
  induction s as [|c s IH]; intros H n.
  - reflexivity.
  - cbn [forallb] in H. apply andb_prop in H. destruct H as [Hc Hs].
    cbn [search]. rewrite (@match_here_index_other n c s Hc), (IH Hs). reflexivity.
Qed.

Lemma replace_g_no_index (repl : mstate -> jstring) (s : jstring) :
  forallb not_open s = true ->
  forall fuel n, replace_g fuel index_pattern repl n s = s.
Proof.
  intros H [|fuel] n; [reflexivity|].
  cbn [replace_g]. rewrite (@search_index_none s H). reflexivity.
Qed.

Lemma search_index (p i q : jstring) :
  forallb not_open p = true ->
  i <> [] -> forallb is_digit i = true ->
  forall n, exists st,
    search index_pattern n (p ++ chr "[" :: i ++ chr "]" :: q) = Some (p, st)
    /\ st.(rest) = q /\ cap 1 st = i
    /\ st.(before) = n + List.length p + S (S (List.length i)).
Proof.
  intros Hp Hi Fi. induction p as [|c p IH]; intros n.
  - cbn [List.app].
    assert (G : exists st,
             rmatch index_pattern
               {| before := n; rest := chr "[" :: i ++ chr "]" :: q; caps := [] |}
               (fun st => Some st) = Some st
             /\ st.(rest) = q /\ cap 1 st = i
             /\ st.(before) = n + S (S (List.length i))).
    { destruct i as [|d ds]; [contradiction|].
      cbn [forallb] in Fi. apply andb_prop in Fi. destruct Fi as [Fd Fds].
      eexists. split; [|split; [|split]].
      - unfold index_pattern. rewrite rmatch_Seq. unfold Lit at 1.
        rewrite rmatch_Cls. cbn [rest before caps]. rewrite N.eqb_refl.
        rewrite rmatch_Seq, rmatch_Grp. unfold Plus.
        rewrite rmatch_Seq, rmatch_Cls. cbn [rest before caps List.app]. rewrite Fd.
        rewrite rmatch_Star_Cls. cbn [rest before caps].
        apply (@star_cls_run is_digit _ _ (chr "]" :: q) _ eq_refl ds); [exact Fds|].
        unfold Lit. rewrite rmatch_Cls. cbn [rest before caps]. rewrite N.eqb_refl.
        reflexivity.
      - reflexivity.
      - unfold cap. cbn [caps find fst snd Nat.eqb before rest].
        apply (@firstn_exact N (d :: ds)). cbn [List.length]. lia.
      - cbn [before List.length]. lia. }
    destruct G as [st [Hm [Hr [Hc Hb]]]]. exists st.
    unfold match_here in *. rewrite (@search_here index_pattern n _ st Hm), Nat.add_0_r.
    repeat split; assumption.
  - cbn [forallb] in Hp. apply andb_prop in Hp. destruct Hp as [Hc Hp].
    cbn [List.app search]. rewrite (@match_here_index_other n c _ Hc).
    destruct (IH Hp (S n)) as [st [-> [Hr [Hcap Hb]]]]. exists st.
    split; [reflexivity|]. split; [exact Hr|]. split; [exact Hcap|].
    cbn [List.length]. lia.
Qed.

Lemma digits_not_open (i : jstring) :
  forallb is_digit i = true -> forallb not_open i = true.
Proof.
  intros H. apply forallb_forall. intros c Hc.
  pose proof (proj1 (forallb_forall _ _) H c Hc) as Hd. apply is_digit_range in Hd.
  unfold not_open. apply negb_true_iff, N.eqb_neq. cbn. lia.
Qed.

(** An index in brackets is an index after a full stop: [a[0].b] is read
    as [a.0.b]. *)
Lemma path_keys_index (p i q : jstring) :
  forallb not_open p = true -> forallb not_open q = true ->
  i <> [] -> forallb is_digit i = true ->
  path_keys (p ++ chr "[" :: i ++ chr "]" :: q) = path_keys (p ++ chr "." :: i ++ q).
Proof.
  intros Hp Hq Hi Fi. unfold path_keys. f_equal.
  assert (R : replace_all index_pattern (fun m => chr "." :: cap 1 m)
                (p ++ chr "." :: i ++ q) = p ++ chr "." :: i ++ q).
  { apply replace_g_no_index. rewrite forallb_app. cbn [forallb].
    rewrite forallb_app, Hp, Hq, (@digits_not_open i Fi). reflexivity. }
  rewrite R. unfold replace_all. cbn [replace_g].
  destruct (@search_index p i q Hp Hi Fi 0) as [st [-> [Hr [Hc Hb]]]].
  replace (Nat.eqb (before st) (0 + List.length p)) with false
    by (symmetry; apply Nat.eqb_neq; lia).
  rewrite Hr, Hc, (@replace_g_no_index _ q Hq). reflexivity.
Qed.

(* ================================================================== *)
(** * Part VI: the properties, and their witnesses *)
(* ================================================================== *)



(** ** The shape of what parseMarkdownFile returns *)

(** The rank of every entry is a string of digits, not empty; its word is
    not empty, lies on one line and carries no white space around it. *)
Theorem parsed_entry_title (content : jstring) (entry : WordEntry) :
  In entry (parseMarkdownFile content) ->
  entry.(rank) <> [] /\ forallb is_digit entry.(rank) = true
  /\ entry.(word) <> []
  /\ forallb (fun c => negb (is_line_terminator c)) entry.(word) = true
  /\ trim entry.(word) = entry.(word).
Proof.
  intros H. apply in_parseMarkdownFile in H. destruct H as [block H].
  exact (entry_title_shape _ H).
Qed.

Lemma entry_a_parsed : In entry_a (parseMarkdownFile one_md.(content)).
Proof. vm_compute. left. reflexivity. Qed.

Lemma parsed_entry_title_witness :
  In entry_a (parseMarkdownFile one_md.(content))
  /\ entry_a.(rank) <> [] /\ forallb is_digit entry_a.(rank) = true
  /\ entry_a.(word) <> []
  /\ forallb (fun c => negb (is_line_terminator c)) entry_a.(word) = true
  /\ trim entry_a.(word) = entry_a.(word).
Proof.
  split; [exact entry_a_parsed|].
  apply (@parsed_entry_title one_md.(content) entry_a). exact entry_a_parsed.
Defined.

Lemma parsed_rank_number_witness :
  let p := record_for entry_a VNull {| pos := str "unknown"; trans := [] |} in
  p.(cocaRank) = num_of_decimal false (dec_value entry_a.(rank)) 0
  /\ sign_clear p.(cocaRank).
Proof.
  intros p.
  apply (@parsed_rank_number one_md.(content) entry_a VNull [p] p).
  - exact entry_a_parsed.
  - vm_compute. reflexivity.
  - left. reflexivity.
Defined.

Lemma parsed_definitions_shape_witness :
  (entry_a.(rawTrans) = [] /\ entry_a.(definitions) = []
   \/ is_defLine entry_a.(rawTrans) = true
      /\ trim entry_a.(rawTrans) = entry_a.(rawTrans))
  /\ forall def, In def entry_a.(definitions) ->
       (def = {| pos := str "misc"; trans := entry_a.(rawTrans) |}
        /\ entry_a.(definitions) = [def]
        /\ startsWith entry_a.(rawTrans) (str "[") = true)
       \/ (exists body,
             def.(pos) <> [] /\ forallb is_lower def.(pos) = true
             /\ def.(trans) = chr "[" :: body ++ [chr "]"]
             /\ body <> [] /\ forallb not_bracket body = true).
Proof.
  apply (@parsed_definitions_shape one_md.(content) entry_a). exact entry_a_parsed.
Defined.

Lemma run_senses_good : Forall good_sense run_senses.
Proof.
  repeat constructor; try discriminate.
Qed.

(** ** Well-formed files *)

(** A well-formed file is parsed into the entries it spells, one for each
    block, in order: the digits as the rank, the headword, one definition
    for each sense, and the sense line as the raw text. *)
Theorem parse_wellformed_file (bs : list Block) :
  Forall good_block bs ->
  parseMarkdownFile (file_text bs) = List.map block_entry bs.
Proof.
  intros H. destruct bs as [|b bs'] eqn:Ebs; [reflexivity|]. rewrite <- Ebs in *.
  unfold parseMarkdownFile.
  rewrite (@file_blocks bs H ltac:(subst; discriminate)).
  apply parse_blocks. exact H.
Qed.

Lemma block_run_good : good_block block_run.
Proof.
  unfold good_block.
  repeat split; try discriminate; try exact run_senses_good.
  right. right. left. reflexivity.
Qed.

Lemma block_go_good : good_block block_go.
Proof.
  unfold good_block.
  repeat split; try discriminate.
  - repeat constructor; discriminate.
  - right. right. left. reflexivity.
Qed.

Lemma blocks_good : Forall good_block [block_run; block_go].
Proof.
  apply Forall_cons; [exact block_run_good|].
  apply Forall_cons; [exact block_go_good|apply Forall_nil].
Qed.

Lemma parse_wellformed_file_witness :
  parseMarkdownFile (file_text [block_run; block_go])
  = List.map block_entry [block_run; block_go].
Proof. apply (@parse_wellformed_file [block_run; block_go]). exact blocks_good. Defined.

(** The pipeline on well-formed files.  In a run that is not cancelled
    and whose lookups settle in the order of dispatch, whatever they
    return, the results hold one result per file, under its name, and the
    records of a file are, block after block and sense after sense: the
    headword, the part of speech, the translations joined by full-width
    semicolons, and the rank as a number. *)
Theorem wellformed_run (env : Environment Action) (a : App) (r : Run)
  (nbs : list (jstring * list Block)) :
  a.(files) = List.map source_file nbs -> nbs <> [] ->
  Forall (fun nb => Forall good_block (snd nb)) nbs ->
  (forall k i, in_dispatch_order (env.(window) k i)) ->
  processFiles env a = Returns r ->
  abort r = false ->
  List.map (fun fr => (fr.(fileName), List.map record_fields fr.(data)))
           r.(component).(results)
  = List.map (fun nb => (fst nb, flat_map block_fields (snd nb))) nbs.
Proof.
  intros Hfiles Hne Hgood Hord H Hf.
  assert (Hne' : files a <> []).
  { rewrite Hfiles. destruct nbs; [contradiction|discriminate]. }
  destruct (@processFiles_spec env a r Hne' H) as [_ [Hres [Hall _]]].
  rewrite Hres, Hall.
  rewrite (@expected_results_fields Action (window env) _ 0
             (@processFiles_in_order env a r Hne' Hord H Hf)).
  rewrite Hfiles. unfold parsedFiles_of. rewrite !map_map.
  apply map_ext_in. intros [nm bs] Hin.
  pose proof (proj1 (Forall_forall _ _) Hgood _ Hin) as Hbs. cbn [snd] in Hbs.
  cbn [fst snd source_file name content]. f_equal.
  assert (Hparse : parseMarkdownFile (file_text bs) = List.map block_entry bs).
  { destruct bs as [|b0 bs0] eqn:Ebs; [reflexivity|]. rewrite <- Ebs in *.
    unfold parseMarkdownFile.
    rewrite (@file_blocks bs Hbs ltac:(subst; discriminate)).
    apply parse_blocks. exact Hbs. }
  rewrite Hparse. clear Hparse.
  clear - Hbs. induction Hbs as [|b bs Hb Hbs IH]; [reflexivity|].
  cbn [List.map flat_map]. rewrite IH, (@block_records_fields b VNull Hb). reflexivity.
Qed.

Lemma wellformed_run_witness :
  exists r,
    processFiles {| while_parsing := []; window := fun _ _ => in_order |}
                 (idle [source_file (str "words.md", [block_run; block_go])])
    = Returns r
    /\ List.map (fun fr => (fr.(fileName), List.map record_fields fr.(data)))
                r.(component).(results)
       = [(str "words.md", flat_map block_fields [block_run; block_go])].
Proof.
  eexists. split; [vm_compute; reflexivity|].
  eapply (@wellformed_run {| while_parsing := []; window := fun _ _ => in_order |}
            (idle [source_file (str "words.md", [block_run; block_go])]) _
            [(str "words.md", [block_run; block_go])]).
  - reflexivity.
  - discriminate.
  - apply Forall_cons; [exact blocks_good|apply Forall_nil].
  - intros k i. repeat constructor.
  - vm_compute. reflexivity.
  - reflexivity.
Defined.

(** ** The records of a well-formed entry *)

(** The records of an entry whose rank is a string of digits and whose
    definitions are JSON arrays of plain strings: one for each definition,
    in order, with the headword, the part of speech, the strings of the
    array joined by full-width semicolons, and the number the digits
    spell. *)
Theorem wellformed_entry_records (rank0 word0 raw : jstring)
  (ss : list (jstring * list jstring)) (apiData : value) :
  rank0 <> [] -> forallb is_digit rank0 = true ->
  ss <> [] ->
  Forall (fun s => Forall (fun t => forallb plain_unit t = true) (snd s)) ss ->
  exists ps,
    entry_records
      {| rank := rank0; word := word0;
         definitions :=
           List.map (fun s => {| pos := fst s; trans := json_array (snd s) |}) ss;
         rawTrans := raw |} apiData = Normal ps
    /\ List.map (fun p => (p.(text), p.(partOfSpeech), p.(translation), p.(cocaRank))) ps
       = List.map (fun s => (word0, fst s, joined semicolon (snd s),
                             num_of_decimal false (dec_value rank0) 0)) ss.
Proof.
  intros Hr Fr Hss Hplain. rewrite entry_records_map. eexists. split; [reflexivity|].
  unfold definitionLoop. cbn [definitions].
  destruct ss as [|s ss']; [contradiction|].
  change (List.map (fun s0 => {| pos := fst s0; trans := json_array (snd s0) |}) (s :: ss'))
    with ({| pos := fst s; trans := json_array (snd s) |}
          :: List.map (fun s0 => {| pos := fst s0; trans := json_array (snd s0) |}) ss').
  cbv iota.
  change ({| pos := fst s; trans := json_array (snd s) |}
          :: List.map (fun s0 => {| pos := fst s0; trans := json_array (snd s0) |}) ss')
    with (List.map (fun s0 => {| pos := fst s0; trans := json_array (snd s0) |}) (s :: ss')).
  rewrite !map_map.
  induction Hplain as [|x l Hx Hl IH]; [reflexivity|].
  cbn [List.map]. f_equal.
  - cbn [text partOfSpeech translation cocaRank record_for pos trans rank word].
    rewrite (Number_digits Hr Fr). f_equal. f_equal.
    assert (Hf : formatTranslation (json_array (snd x)) = joined semicolon (snd x)).
    { unfold formatTranslation. rewrite (JSON_parse_strings Hx).
      unfold json_array at 1. cbn [bind]. rewrite join_strings. reflexivity. }
    exact Hf.
  - destruct l as [|y l']; [reflexivity|]. apply IH. discriminate.
Qed.

Lemma wellformed_entry_records_witness :
  exists ps,
    entry_records
      {| rank := str "1"; word := str "run";
         definitions :=
           List.map (fun s => {| pos := fst s; trans := json_array (snd s) |}) run_senses;
         rawTrans := senses_text run_senses |} VNull = Normal ps
    /\ List.map (fun p => (p.(text), p.(partOfSpeech), p.(translation), p.(cocaRank))) ps
       = List.map (fun s => (str "run", fst s, joined semicolon (snd s),
                             num_of_decimal false (dec_value (str "1")) 0)) run_senses.
Proof.
  apply (@wellformed_entry_records (str "1") (str "run") (senses_text run_senses)
           run_senses VNull).
  - discriminate.
  - reflexivity.
  - discriminate.
  - repeat constructor.
Defined.

(** ** formatTranslation *)

(** The translation of a JSON array of plain strings is the strings, with
    a full-width semicolon between them. *)
Theorem formatTranslation_strings (items : list jstring) :
  Forall (fun s => forallb plain_unit s = true) items ->
  formatTranslation (json_array items) = joined semicolon items.
Proof.
  intros H. unfold formatTranslation.
  rewrite (JSON_parse_strings H). unfold json_array at 1.
  cbn [bind]. rewrite join_strings. reflexivity.
Qed.

Lemma formatTranslation_strings_witness :
  formatTranslation (json_array [[36305%N]; [36305%N; 27493%N]])
  = joined semicolon [[36305%N]; [36305%N; 27493%N]].
Proof.
  apply (@formatTranslation_strings [[36305%N]; [36305%N; 27493%N]]).
  repeat constructor.
Defined.

Lemma formatTranslation_fallback_witness :
  ~ In quote (formatTranslation (str "[abc]"))
  /\ trim (formatTranslation (str "[abc]")) = formatTranslation (str "[abc]").
Proof.
  apply (@formatTranslation_fallback (str "[abc]") SyntaxError).
  vm_compute. reflexivity.
Defined.

(** ** The exports *)

(** Every file handed to the browser has a name that ends in [.json]; a
    name that does so already is kept, so naming twice changes nothing. *)
Theorem downloadJSON_name (name0 : jstring) (d : list ProcessedWord) :
  endsWith (downloadJSON name0 d).(filename) (str ".json") = true
  /\ downloadJSON (downloadJSON name0 d).(filename) d = downloadJSON name0 d.
Proof.
  unfold downloadJSON. cbn [filename].
  destruct (endsWith name0 (str ".json")) eqn:E.
  - rewrite E. split; reflexivity.
  - rewrite endsWith_app. split; reflexivity.
Qed.

Lemma exports_named_json_witness :
  endsWith (downloadJSON (str "vocabulary_merged") []).(filename) (str ".json") = true.
Proof.
  apply (@exports_named_json [] (downloadJSON (str "vocabulary_merged") [])).
  right. left. left. reflexivity.
Defined.

(** ** The log *)

(** The log never holds more than 200 lines: a run that starts with a log
    within the bound leaves one within the bound, in part_000 and in
    App.tsx, however many words it went through and whatever the user
    did. *)
Theorem run_log_bounded (a : App) :
  List.length a.(logs) <= 200 ->
  (forall env r, processFiles env a = Returns r ->
                 List.length r.(component).(logs) <= 200)
  /\ (forall env r, AppTsx.processFiles env a = Returns r ->
                    List.length r.(component).(logs) <= 200).
Proof.
  intros H. split; intros env r Hr.
  - exact (processFiles_log_bounded env a H Hr).
  - exact (AppTsx_processFiles_log_bounded env a H Hr).
Qed.

Lemma run_log_bounded_witness :
  (forall env r, processFiles env (idle [one_md; two_md]) = Returns r ->
                 List.length r.(component).(logs) <= 200)
  /\ (forall env r, AppTsx.processFiles env (idle [one_md; two_md]) = Returns r ->
                    List.length r.(component).(logs) <= 200).
Proof.
  apply (@run_log_bounded (idle [one_md; two_md])). cbn. lia.
Defined.

Lemma processFiles_end_state_witness :
  exists r,
    processFiles env_second_first (idle [one_md; two_md]) = Returns r
    /\ r.(component).(processing) = false
    /\ r.(component).(paused) = r.(component).(pausedRef).
Proof.
  eexists. split; [vm_compute; reflexivity|].
  eapply (@processFiles_end_state env_second_first (idle [one_md; two_md])).
  - discriminate.
  - vm_compute. reflexivity.
Defined.

Lemma upload_does_not_stop_run_witness :
  exists r,
    processFiles env_upload (idle [one_md]) = Returns r
    /\ r.(component).(files) = [two_md]
    /\ r.(component).(abortRef) = false
    /\ r.(component).(processing) = false
    /\ r.(component).(results) = r.(locals).(allResults)
    /\ List.map fileName r.(component).(results) = [str "one.md"].
Proof.
  eexists. split; [vm_compute; reflexivity|]. split; [reflexivity|].
  eapply (@upload_does_not_stop_run env_upload (idle [one_md])).
  - discriminate.
  - vm_compute. reflexivity.
Defined.

(** ** fetchWordData *)

Lemma jstring_eqb_refl (s : jstring) : jstring_eqb s s = true.
Proof. induction s as [|c s IH]; cbn; [reflexivity|]. rewrite N.eqb_refl. exact IH. Qed.

(** For a word of unreserved units, letters and digits say, the one
    request is for the dictionary address followed by the word: a network
    that rejects every other request gives the same result. *)
Theorem fetchWordData_plain_word (fetch : jstring -> Fetched) (word0 : jstring) :
  forallb uri_unreserved word0 = true ->
  fetchWordData fetch word0
  = fetchWordData (fun url => if jstring_eqb url (jsonapi ++ word0) then fetch url
                              else Rejected) word0.
Proof.
  intros H. unfold fetchWordData. rewrite (encodeURIComponent_unreserved _ H).
  rewrite jstring_eqb_refl. reflexivity.
Qed.

Lemma fetchWordData_plain_word_witness :
  fetchWordData offline (str "run")
  = fetchWordData (fun url => if jstring_eqb url (jsonapi ++ str "run") then offline url
                              else Rejected) (str "run").
Proof.
  apply (@fetchWordData_plain_word offline (str "run")). reflexivity.
Defined.

Lemma fetchWordData_requests_witness :
  fetchWordData offline [36305%N]
  = fetchWordData (fun url => if safe_request url then offline url else Rejected)
      [36305%N].
Proof.
  apply (@fetchWordData_requests offline [36305%N]). reflexivity.
Defined.

Lemma failed_lookup_witness :
  fetchWordData offline entry_a.(word) = VNull
  /\ exists r',
       after_fetch entry_a (fetchWordData offline entry_a.(word))
         {| component := idle [one_md];
            locals := {| allResults := []; totalWords := 2; globalProcessedCount := 0;
                         fileProcessedWords := [] |} |} = Normal r'
       /\ r'.(component).(logs) = [(MsgWarning (str "a"), error)]
       /\ r'.(locals).(globalProcessedCount) = 1.
Proof.
  destruct (@failed_lookup offline entry_a
              {| component := idle [one_md];
                 locals := {| allResults := []; totalWords := 2;
                              globalProcessedCount := 0;
                              fileProcessedWords := [] |} |})
    as [H1 [r' [H2 [H3 [H4 _]]]]].
  - vm_compute. exact I.
  - split; [exact H1|]. exists r'. split; [exact H2|]. split; [exact H3|exact H4].
Defined.

(** ** getDeep *)

(** In a path an index in brackets is an index after a full stop:
    [getDeep(obj, "a[0].b", d)] is [getDeep(obj, "a.0.b", d)]. *)
Theorem getDeep_index_notation (obj arg : value) (p i q : jstring) :
  forallb not_open p = true -> forallb not_open q = true ->
  i <> [] -> forallb is_digit i = true ->
  getDeep obj (p ++ chr "[" :: i ++ chr "]" :: q) arg
  = getDeep obj (p ++ chr "." :: i ++ q) arg.
Proof.
  intros Hp Hq Hi Fi. unfold getDeep. rewrite (@path_keys_index p i q Hp Hq Hi Fi).
  reflexivity.
Qed.

Lemma getDeep_index_notation_witness :
  getDeep response_a (str "ec.word[0].usphone") VUndefined
  = getDeep response_a (str "ec.word.0.usphone") VUndefined.
Proof.
  apply (@getDeep_index_notation response_a VUndefined
           (str "ec.word") (str "0") (str ".usphone"));
    [reflexivity|reflexivity|discriminate|reflexivity].
Defined.

(** ** Blocks that yield nothing *)

Lemma split_on_absent (sep : N) (s : jstring) :
  forallb (fun x => negb (N.eqb x sep)) s = true -> split_on sep s = [s].
Proof.
  induction s as [|x s IH]; intros H; [reflexivity|].
  cbn [forallb] in H. apply andb_prop in H. destruct H as [Hx Hs].
  apply negb_true_iff in Hx. cbn [split_on]. rewrite Hx, (IH Hs). reflexivity.
Qed.

Lemma search_blank_lines_absent (s : jstring) :
  forallb (fun x => negb (N.eqb x 10)) s = true ->
  forall n, search blank_lines n s = None.
Proof.
  intros H n.
  destruct (search blank_lines n s) as [[skipped st]|] eqn:E; [exfalso|reflexivity].
  apply search_some in E. destruct E as [s' [Es [Hm _]]].
  unfold match_here in Hm. apply rmatch_sound in Hm.
  destruct Hm as [st1 [Hs _]]. unfold blank_lines in Hs.
  inversion Hs as [| | | |? ? ? ? ? H1 Hs1| | | | |]; subst; clear Hs.
  apply spans_Lit in H1. cbn [rest before caps] in H1. destruct H1 as [E1 _].
  rewrite E1, forallb_app in H. apply andb_prop in H. destruct H as [_ H].
  cbn in H. discriminate.
Qed.

(** A text of one line yields no entry, even when the line is a
    well-formed title: a block needs two lines that are not blank. *)
Theorem one_line_no_entry (content : jstring) :
  forallb (fun x => negb (N.eqb x 10)) content = true ->
  parseMarkdownFile content = [].
Proof.
  intros H. unfold parseMarkdownFile. cbn [split_re].
  rewrite (@search_blank_lines_absent content H 0). cbn [flat_map].
  unfold parse_block. rewrite (@split_on_absent 10%N content H). cbn [List.map filter].
  destruct (nonempty (trim content)); reflexivity.
Qed.

Lemma one_line_no_entry_witness : parseMarkdownFile (str "1 run") = [].
Proof. apply (@one_line_no_entry (str "1 run")). reflexivity. Defined.
